(* ===== verification/_CoqProject ===== *)
-Q . S2P
Prelude.v
GoStrings.v
Sha256.v
Secret.v
LogHandler.v
ConfigSource.v
Watcher.v
Manifest.v
ReadCache.v
AuditEvent.v
Outbox.v
AsyncClient.v
AuditClient.v
AuditList.v
Transport.v
JsonRedact.v
Regex.v
TextRedact.v
HttpResponse.v
TokenMint.v
MintRace.v
StsClient.v
NetGuard.v
GatewayCtx.v
RouteTokens.v
Health.v
Jwt.v
ConfigUtil.v
EnvExpand.v
DayPattern.v
Duration.v
AuthzConfig.v
YCloud.v
Storage.v
TokenObject.v
S3Store.v
Notify.v
Interact.v
Postbox.v
Email.v
AuthnConfig.v
Tlsx.v
HttpServer.v
Confirm.v
PgUtil.v
ApiError.v
ConfigLoad.v
Middleware.v
JwtSign.v
GrpcJwt.v
GrpcDial.v
RouterClient.v
Relay.v
Sidecar.v
MintPool.v
AuditSchema.v
Observe.v
AuthnTokens.v
Ownership.v
OwnedClient.v
JwksRace.v
