(* ===== verification/Prelude.v ===== *)
(** * csar-core: a verification development

    csar-core is the Go library that the CSAR services share.  This development
    models the parts of it that carry state, policy or security decisions as
    executable definitions and proves what makes them correct.

    ** The program and its models

    - Configuration delivery (src/configsource, src/configload).  Sources fetch
      a document from a file, an object store, an HTTP server or through a
      manifest; a watcher polls a source, checks the document's SHA-256 against
      a policy (disabled, trust on first use, pinned) and hands it to the
      service.  [ConfigSource] holds the data, the hash policy and the sources,
      each an instance of the class [ConfigSource] (source.go, hash.go,
      source_*.go); [Watcher] the polling state machine, proved against the
      class (watcher.go); [Manifest] manifests, the manifest source and the
      construction of sources (manifest.go, source_manifest.go, builder.go);
      [ConfigLoad] the flags, the first load and the validating watcher.
    - Configuration texts (src/configutil).  [ConfigUtil] models the expansion
      of environment variables in a text (os.Expand included), [EnvExpand] the
      expansion in decoded structures and in YAML nodes, whose pointers and
      aliases lead to shared objects of a store; [DayPattern] and [Duration] durations with
      their day suffix, and [Duration] in its Module [Sections] the sections that services embed.
    - Service configurations.  [AuthzConfig] (src/authzconfig) and
      [AuthnConfig] (src/authnconfig/config.go): schema, defaults, validation;
      [RouteTokens] the route-token profiles (route_tokens.go) with the grammar
      of claim sources.
    - Secrets and logs (src/secret, src/logutil): [Secret], and [LogHandler] the
      redacting handler over any slog handler and over one that writes.
    - Shared reads (src/readcache): [ReadCache] models the goroutines of
      [Group.Do] and [Scope.Resolve] as program counters; every critical
      section is one step.
    - Audit (src/audit).  [AuditEvent]: events, identity, validation.
      [Outbox]: the transactional outbox, its SQL statements as functions on
      the table, [DeliverOne] and [Run], and the interleaving of relays that
      crash and lose answers.  [AsyncClient]: the batching core (channels,
      dispatcher, timer, workers) that the audit client, [AuditClient], and the
      notification client, [Notify] (src/notify), are made of.  [AuditList]:
      queries and cursors.  [Transport]: the gRPC and HTTP transports.
      [HttpResponse]: what may be kept of an HTTP response.  [AuditSchema]:
      the migrations of both tables by processes that start together.
      [Relay]: the relay a service starts, with the stop function and its
      concurrent callers.  [Ownership]: the copies that the audit and
      notification clients take, on a heap shared with the producer, and
      [OwnedClient] the recorder (recorder.go) and the audit client run on it.
    - Redaction (src/jsonredact): [JsonRedact] on JSON values, [TextRedact] on
      texts, with its patterns on [Regex], the model of package regexp.
    - Token minting (src/tokenmint): [TokenMint] models profiles, one grant and
      the minter with its shared state objects; [MintRace] overlapping calls of
      it, each step of a flight on its own; [MintPool] its HTTP clients,
      rate limiters and configuration file.
    - Cloud tokens (src/ycloud): [YCloud] models key loading, the exchanges and
      the cache whose callers share one refresh.
    - Object storage.  [Storage] (src/storage) paths, keys and the signer;
      [TokenObject] and [S3Store] (src/s3store) token objects and the client
      (client.go, object.go, stream.go) as programs over the requests it makes.
    - Mail.  [Postbox] (src/postbox) and [Email] (src/email, src/emailnorm):
      configuration, messages, the SMTP session and the HTTP submission as
      programs of [Interact], run against a peer that answers anything; the
      class [Transport] of [Interact] is the contract both implement.
    - Service authentication (src/stsclient): [StsClient] models the token
      cache, the retry loop and its budget, and the configuration block;
      [RouterClient] the signed assertion, the construction of router clients
      and their requests, and the audit transport over them
      (src/audit/router_client.go).
    - Outbound requests (src/httpx/clientx): [NetGuard] models the address
      guard, the dialer of src/tokenmint that uses it, and the request wrapper
      with its errors and log records.
    - Requests (src/gatewayctx, src/httpx, src/httpmiddleware, src/errors,
      src/apierror): [GatewayCtx] models the identity headers with the
      middlewares, query parameters and pagination; [ApiError] errors and what
      of them a client sees; [Middleware] identifiers, access log (flushed,
      copied and hijacked responses included), recovery and CORS.
    - Servers (src/httpserver, src/tlsx, src/health): [HttpServer] models the
      lifecycle with its racing callers, [Tlsx] TLS configurations, [Health] the
      concurrent readiness checks and the TCP self-check, [Sidecar] the probe
      server made of both.
    - Tokens (src/jwtx): [Jwt] models verification, JSON web keys and the
      cached remote key set, [JwksRace] that set with concurrent callers;
      [JwtSign] key pairs, their files and signing.
      [AuthnTokens] (src/authntokens) the wire types of route tokens.
    - gRPC calls (src/grpcjwt, src/grpcdial, src/authzclient): [GrpcJwt] models
      the validator, the server's interceptor and the token source, [GrpcDial]
      the options of a connection.
    - Tracing and metrics (src/observe): [Observe], with the query strings of
      src/httpx/url.go.
    - Databases and brokers: [PgUtil] (src/pgutil) quoting, transactions and
      racing migration runners; [Confirm] (src/amqpconfirm) publisher
      confirmations.

    [GoStrings] has the string functions of Go's standard library that the
    code uses, [Regex] regular expressions and [Sha256] the hash; this file has results, 64-bit integers,
    durations, automation and shared lemmas.

    ** How the code is modelled

    A Go function that returns an error returns [result]; an error is a
    constructor of the component's error type; its text is left out unless
    the code reads it.  Machine
    integers are [Z], with [wrap64] where the code can overflow; an instant is
    a number of nanoseconds.  Maps are [gmap]s, or association lists where the
    order of a document matters; where the code ranges over a map the order is
    an argument.  Stateful code passes its state; concurrent
    code is a function from an action to the next state and [run] over
    any sequence of actions, so that a theorem on [run] is one on every
    interleaving.  Objects that the code shares by pointer live in a store
    (tickets of [ReadCache], mint states of [TokenMint], variables and YAML nodes
    of [EnvExpand], events and notifications of [Ownership]).  Code that talks to a peer is a program over events and
    answers ([Interact], [S3Store]).  Ghost fields record
    histories (deliveries, loaded values, attempts) and are never read by the
    modelled code.

    Code outside the repository is an argument or a class: UUIDs, RFC 3339
    text, JSON and YAML coding, URL and address parsing,
    HTTP exchanges, the database's clock and failures, random numbers,
    cryptography.  What is assumed of them is in the classes [UUIDLib],
    [TimeText] and [GolangJwtLaws] and in the guards of the environment's steps (singleflight runs
    one execution at a time, a broker returns before it confirms, a unique key
    is unique); everything else is arbitrary.

    ** What the theorems show

    - Configuration: under trust on first use, a run of the watcher swaps the
      document of an ETag only after the service has rejected another one in
      between, and then, by the code as it is, it does; no run applies a
      document whose pinned hash differs (from the flags on), or, with
      manifests, one that the manifest fetched in that poll does not vouch for; which failed
      applications are retried and which, by the code as it is, are not;
      manifest parsing accepts exactly the well-formed manifests and source
      construction ends.
    - Texts: expansion keeps the text between variables; in a structure or a
      YAML document without a cycle it ends and expands each text once for
      every path to it; durations round-trip, and
      their patterns are what a scan of the text finds.
    - Service configurations: each loader accepts exactly the declaratively
      valid documents; roles form a well-founded hierarchy; an accepted mail
      section always makes a sender.
    - Redaction: a record written through the log handler is the wrapped
      handler's record with exactly the sensitive values replaced; the JSON
      walks let no value of a sensitive key through, and report exactly whether
      they redacted; what is kept of a response contains none of the caller's
      secrets and no e-mail address.
    - Shared reads: one leader per key, one outcome per call, no waiter without
      a leader, exact accounting of bytes and entries.
    - Outbox: no event is lost or invented; stale relays are fenced; the lease
      outlasts the timeouts; every branch of an iteration; the relay drains its
      backlog and touches no other service's rows; enqueueing is idempotent.
    - Asynchronous clients and queries: every event and notification is
      accounted for (one that cannot be encoded leaves only its reason in the
      log), [Close] returns, paging returns each row exactly once, of all
      services whatever service the query asks for;
      what is queued is the producer's value at the call, whatever the producer
      does with its objects later (with one exception, a metadata map that is
      empty and not nil), and the audit client on the shared heap is the one on
      values.  The stop function of a relay joins the worker and
      closes the transport once, and returns.
    - Diagnostics: bounded, allow-listed, cut on character boundaries, within
      the metadata budget.
    - Tokens: a credential goes to an allowed host only; a token served was not
      expired when its flight read the clock; attempts keep the refresh floor,
      unless a sweep forgets a credential in flight, and the backoff; one
      exchange at a
      time, and a cloud token of the refresh the caller joined; retries are
      bounded; an accepted token is authentic and, by the claims the code can
      read, current; keys come from the
      endpoint and survive their encoding; a token that is signed and whose key
      is published is accepted, one made with a shared secret never is; keys
      resolved by concurrent callers were published and were fresh; a gRPC
      handler sees only authenticated subjects, and a service's own calls get
      through; every request of a router client carries an issued token, over
      verified TLS if its URL is https.
    - Object storage: no stream leaves its prefix in a well-named bucket, reads are bounded, listings
      are complete, token objects round-trip.
    - Mail: the reported outcome agrees with what the peer did with the message
      on both transports; nothing but protocol words leaves before the
      configured host is verified.
    - Requests: loopback, private and link-local addresses are rejected exactly
      and never dialled with a credential (the unspecified address is); a client's identity headers are without effect; lists and
      pages are read exactly and within bounds; an error response hides causes;
      the access log tells the truth about responses that begin with a final
      status or output.
    - Servers and databases: readiness is sound under every race and comes back
      in time; migrations are applied in order and once; a confirmed publish was
      routed.

    ** Bounds and fuel

    [Manifest.BuildSource] takes fuel 2: a manifest's bootstrap source is never
    itself a manifest, and the theorem shows that fuel 2 is always enough.
    [HttpResponse.safe_fields] has the five levels the code's depth guard
    allows.  [AuditList.walk] is given one more request than there are rows;
    the theorem bounds the requests.  [ConfigUtil.expand] recurses at most once
    per byte; [EnvExpand.Yaml.expandEnvInYAMLNode] and
    [EnvExpand.Struct.ExpandEnvInStruct] get fuel that the theorems show to be
    enough when nothing leads back to itself; the listing of [S3Store]
    has fuel for each page of a store whose listing is finite, and its reader
    for each read.  [Email.auth_loop] has fuel 3: the login answers two
    challenges and refuses the third, and more fuel changes nothing.
    [TextRedact.replace_all] and the trimming functions of [GoStrings] recurse
    at most once per byte; the replacement loop of [Regex] has one turn more
    than there are bytes, which its lemma shows to be enough, and its repetition
    one turn per byte, which the completeness of the matcher shows.  The other
    recursions are structural.

    ** What is not modelled

    Log texts, metric values and context plumbing; the generated gRPC code,
    OpenTelemetry, Prometheus, PEM, X.509 and the cryptographic primitives,
    which the code only calls and which are arguments here; interfaces without behaviour and constants that nothing in
    the repository reads (the codes of src/apierror that other services use).
    The clock that tests install in the minter is the instant each call is
    given. *)
From Stdlib Require Export ZArith Lia Bool.
From Stdlib Require Export Ascii.
From stdpp Require Export base gmap strings list fin_maps.

(** ** Fallible code: [result]

    Go's [(T, error)] pairs.  Errors are values of a per-component inductive
    type; the text of a message is not modelled, only which error it is. *)
Inductive result (E A : Type) : Type :=
| Ok (a : A)
| Err (e : E).
Arguments Ok {E A} _.
Arguments Err {E A} _.

Declare Scope go_scope.
Delimit Scope go_scope with go.
Open Scope go_scope.

Notation "'let?' x ':=' e 'in' k" :=
  (match e with Ok x => k | Err err => Err err end)
  (at level 10, x binder, e at level 200, k at level 200) : go_scope.

Definition is_ok {E A} (r : result E A) : bool :=
  match r with Ok _ => true | Err _ => false end.

Definition map_err {E F A} (f : E -> F) (r : result E A) : result F A :=
  match r with Ok a => Ok a | Err e => Err (f e) end.

(** String equality as a boolean: Go's [==] on strings. *)
Infix "==s" := String.eqb (at level 70, no associativity) : go_scope.
Notation "a !=s b" := (negb (String.eqb a b)) (at level 70, no associativity) : go_scope.

(** ** 64-bit integers, durations and instants

    [int], [int64] and [time.Duration] are 64-bit two's complement; [wrap64]
    is the value arithmetic yields on overflow.  A [time.Duration] counts
    nanoseconds.  An instant is the number of nanoseconds since Go's zero
    [time.Time], so that [IsZero] is the comparison with 0. *)
Definition wrap64 (z : Z) : Z := ((z + 2 ^ 63) mod 2 ^ 64 - 2 ^ 63)%Z.

Definition int64_range (z : Z) : Prop := (- 2 ^ 63 <= z < 2 ^ 63)%Z.

Definition maxInt64 : Z := (2 ^ 63 - 1)%Z.
Definition minInt64 : Z := (- 2 ^ 63)%Z.

Definition Microsecond : Z := 1000%Z.
Definition Millisecond : Z := 1000000%Z.
Definition Second : Z := 1000000000%Z.
Definition Minute : Z := 60000000000%Z.

(** [time.Time.IsZero], [Before], and [Sub], which saturates. *)
Definition IsZero (t : Z) : bool := (t =? 0)%Z.
Definition Before (t u : Z) : bool := (t <? u)%Z.
Definition Sub (t u : Z) : Z := Z.max minInt64 (Z.min maxInt64 (t - u)%Z).

Lemma wrap64_id z : int64_range z -> wrap64 z = z.
Proof. unfold int64_range, wrap64. intros H. rewrite Z.mod_small; lia. Qed.

Lemma wrap64_range z : int64_range (wrap64 z).
Proof.
  unfold int64_range, wrap64.
  pose proof (Z.mod_pos_bound (z + 2 ^ 63) (2 ^ 64)) as H. lia.
Qed.

Lemma Sub_small t u : int64_range (t - u)%Z -> Sub t u = (t - u)%Z.
Proof. unfold Sub, int64_range, minInt64, maxInt64. lia. Qed.

(** ** Automation

    [bprop] turns boolean tests that the code makes into propositions;
    [case_go] splits the conditionals and matches of a goal and simplifies. *)
Create Rewrite HintDb bprop.
#[export] Hint Rewrite andb_true_iff orb_true_iff orb_false_iff negb_true_iff negb_false_iff
  String.eqb_eq String.eqb_neq Z.ltb_lt Z.ltb_ge Z.leb_le Z.leb_gt Z.eqb_eq Z.eqb_neq
  Nat.ltb_lt Nat.ltb_ge Nat.leb_le Nat.leb_gt Nat.eqb_eq Nat.eqb_neq : bprop.

Ltac bprop := autorewrite with bprop in *.

Ltac case_go := repeat (case_match; simplify_eq/=; try done).

(** An equivalence between two contradictory, or two immediate, statements. *)
Ltac iff_done := split; intros; repeat match goal with H : _ /\ _ |- _ => destruct H end;
  simplify_eq/=; repeat split; try done; try congruence.

Create HintDb go.
#[export] Hint Resolve wrap64_range : go.

(** ** Shared lemmas on results, lists and options *)

Lemma is_ok_true {E A} (r : result E A) : is_ok r = true <-> exists a, r = Ok a.
Proof. destruct r; simpl; split; intros Hr; try done; [by eexists|]. by destruct Hr. Qed.

Lemma eqb_refl_true s : String.eqb s s = true.
Proof. apply String.eqb_refl. Qed.

#[export] Hint Rewrite eqb_refl_true : bprop.

(** The first failure of a loop that validates its items in order. *)
Fixpoint first_err {E A} (f : A -> result E unit) (l : list A) : result E unit :=
  match l with
  | [] => Ok tt
  | x :: l' => let? _ := f x in first_err f l'
  end.

Lemma first_err_ok {E A} (f : A -> result E unit) l :
  first_err f l = Ok tt <-> Forall (fun x => f x = Ok tt) l.
Proof.
  induction l as [|x l IH]; simpl; [by split; [constructor|]|].
  rewrite Forall_cons. destruct (f x) as [[]|e] eqn:E1; [tauto|].
  split; [discriminate|intros [? _]; discriminate].
Qed.

(** A loop that validates its items in order, with their index. *)
Fixpoint loop {E A} (f : nat -> A -> result E unit) (i : nat) (l : list A) : result E unit :=
  match l with
  | [] => Ok tt
  | x :: l' => let? _ := f i x in loop f (S i) l'
  end.

Lemma loop_ok {E A} (f : nat -> A -> result E unit) (P : A -> Prop) i l :
  (forall i x, f i x = Ok tt <-> P x) -> loop f i l = Ok tt <-> Forall P l.
Proof.
  intros Hf. revert i; induction l as [|x l IH]; intros i; [by split; [constructor|]|].
  cbn [loop]. rewrite Forall_cons, <- (Hf i x), <- (IH (S i)).
  destruct (f i x) as [[]|e]; cbn; [tauto|]. split; [done|]. by intros [? _].
Qed.

Lemma bind_ok {E A B} (r : result E A) (k : A -> result E B) b :
  (let? a := r in k a) = Ok b <-> exists a, r = Ok a /\ k a = Ok b.
Proof. destruct r as [a|e]; [|by split; [|intros (? & ? & ?)]]. split; [by exists a|]. by intros (? & [= <-] & ?). Qed.

Lemma then_ok {E B} (r : result E unit) (k : result E B) b :
  (let? _ := r in k) = Ok b <-> r = Ok tt /\ k = Ok b.
Proof. rewrite bind_ok. split; [by intros ([] & ? & ?)|by intros [? ?]; exists tt]. Qed.

Lemma map_err_ok {E F A} (f : E -> F) (r : result E A) a : map_err f r = Ok a <-> r = Ok a.
Proof. destruct r; split; intros; simplify_eq/=; congruence. Qed.

Lemma filter_nil {A} (f : A -> bool) l : List.filter f l = [] <-> Forall (fun x => f x = false) l.
Proof.
  induction l as [|x l IH]; [by split; [constructor|]|]. cbn. rewrite Forall_cons, <- IH.
  destruct (f x); [|tauto]. split; [done|]. by intros [? _].
Qed.

Lemma eqb_cases a b : (a ==s b) = true /\ a = b \/ (a ==s b) = false /\ a <> b.
Proof. destruct (String.eqb_spec a b); tauto. Qed.

Lemma filter_perm {A} (f : A -> bool) l l' : l ≡ₚ l' -> List.filter f l ≡ₚ List.filter f l'.
Proof.
  induction 1 as [|x l l' _ IH|x y l|l1 l2 l3 _ IH1 _ IH2]; simpl; [done| | |by rewrite IH1].
  - destruct (f x); [by constructor|done].
  - destruct (f x), (f y); try done. constructor.
Qed.
