(* ===== verification/GoStrings.v ===== *)
(** * The string and number functions of Go's standard library

    What the modelled packages use of [strings], [strconv], [unicode/utf8] and
    [net/textproto].  A Go string is a sequence of bytes, here a [string] whose
    characters are the bytes.

    - [TrimSpace] strips the Unicode white space of [unicode.IsSpace], as the
      UTF-8 encodings of those code points.
    - [ToLower] lowers the ASCII letters and the two code points outside ASCII
      whose lower case is ASCII (U+0130 and U+212A).  The other cased letters
      outside ASCII are left as they are, so [ToLower] is exact for what the
      code asks of it: comparing with, and searching for, ASCII patterns.
    - [ParseInt] is [strconv.ParseInt(s, 10, 64)] and [strconv.Atoi]. *)
From S2P Require Import Prelude.
From stdpp Require Import pretty.
Local Open Scope string_scope.

Definition code (c : ascii) : N := N_of_ascii c.

Definition is_upper (c : ascii) : bool := ((65 <=? code c) && (code c <=? 90))%N.
Definition is_lower (c : ascii) : bool := ((97 <=? code c) && (code c <=? 122))%N.
Definition is_digit (c : ascii) : bool := ((48 <=? code c) && (code c <=? 57))%N.

Definition lower_byte (c : ascii) : ascii :=
  if is_upper c then ascii_of_N (code c + 32) else c.
Definition upper_byte (c : ascii) : ascii :=
  if is_lower c then ascii_of_N (code c - 32) else c.

(** [strings.ToLower]; bytes 196 176 encode U+0130, 226 132 170 encode U+212A. *)
Fixpoint ToLower (s : string) : string :=
  match s with
  | EmptyString => EmptyString
  | String a s1 =>
      match s1 with
      | String b s2 =>
          if ((code a =? 196) && (code b =? 176))%N then String "i" (ToLower s2)
          else
            match s2 with
            | String c s3 =>
                if ((code a =? 226) && (code b =? 132) && (code c =? 170))%N
                then String "k" (ToLower s3)
                else String (lower_byte a) (ToLower s1)
            | EmptyString => String (lower_byte a) (ToLower s1)
            end
      | EmptyString => String (lower_byte a) EmptyString
      end
  end.

(** [strings.EqualFold] on ASCII text. *)
Definition EqualFold (a b : string) : bool := ToLower a ==s ToLower b.

(** The first of [ps] that is a prefix of [s] is removed. *)
Fixpoint strip_prefix (p s : string) : option string :=
  match p, s with
  | EmptyString, _ => Some s
  | String a p', String b s' => if Ascii.eqb a b then strip_prefix p' s' else None
  | String _ _, EmptyString => None
  end.

Fixpoint strip_one (ps : list string) (s : string) : option string :=
  match ps with
  | [] => None
  | p :: ps' => match strip_prefix p s with Some s' => Some s' | None => strip_one ps' s end
  end.

Fixpoint strip_many (fuel : nat) (ps : list string) (s : string) : string :=
  match fuel with
  | O => s
  | S n => match strip_one ps s with Some s' => strip_many n ps s' | None => s end
  end.

Definition TrimPrefixes (ps : list string) (s : string) : string :=
  strip_many (String.length s) ps s.

Fixpoint rev_onto (s acc : string) : string :=
  match s with EmptyString => acc | String c s' => rev_onto s' (String c acc) end.
Definition rev_string (s : string) : string := rev_onto s "".

Definition TrimSuffixes (ps : list string) (s : string) : string :=
  rev_string (TrimPrefixes (map rev_string ps) (rev_string s)).

Definition bytes (l : list N) : string :=
  foldr (fun n s => String (ascii_of_N n) s) "" l.

(** UTF-8 encodings of the code points of [unicode.IsSpace]. *)
Definition spaces : list string :=
  map bytes
    ([[9]; [10]; [11]; [12]; [13]; [32]; [194; 133]; [194; 160]; [225; 154; 128];
      [226; 128; 128]; [226; 128; 129]; [226; 128; 130]; [226; 128; 131]; [226; 128; 132];
      [226; 128; 133]; [226; 128; 134]; [226; 128; 135]; [226; 128; 136]; [226; 128; 137];
      [226; 128; 138]; [226; 128; 168]; [226; 128; 169]; [226; 128; 175]; [226; 129; 159];
      [227; 128; 128]])%N.

Definition TrimSpace (s : string) : string := TrimSuffixes spaces (TrimPrefixes spaces s).

(** [strings.TrimRight(s, cutset)] for a one-byte cutset. *)
Definition TrimRightByte (c : ascii) (s : string) : string := TrimSuffixes [String c ""] s.

Definition HasPrefix (s p : string) : bool := String.prefix p s.
Definition HasSuffix (s p : string) : bool := String.prefix (rev_string p) (rev_string s).

Fixpoint Contains (s sub : string) : bool :=
  String.prefix sub s ||
  match s with EmptyString => false | String _ s' => Contains s' sub end.

(** [strings.Split(s, sep)] for a one-byte separator: never empty. *)
Fixpoint Split (sep : ascii) (s : string) : list string :=
  match s with
  | EmptyString => [""]
  | String c s' =>
      if Ascii.eqb c sep then "" :: Split sep s'
      else match Split sep s' with
           | [] => [String c ""]
           | w :: ws => String c w :: ws
           end
  end.

(** [strings.SplitN(s, sep, 2)]: [None] when the separator does not occur. *)
Fixpoint SplitN2 (sep : ascii) (s : string) : option (string * string) :=
  match s with
  | EmptyString => None
  | String c s' =>
      if Ascii.eqb c sep then Some ("", s')
      else match SplitN2 sep s' with Some (a, b) => Some (String c a, b) | None => None end
  end.

(** [strconv.FormatInt(z, 10)] and [strconv.ParseInt(s, 10, 64)]. *)
Definition FormatInt (z : Z) : string := pretty z.

Fixpoint parse_digits (s : string) (acc : Z) : option Z :=
  match s with
  | EmptyString => Some acc
  | String c s' =>
      if is_digit c then parse_digits s' (acc * 10 + Z.of_N (code c - 48)) else None
  end.

Definition in_int64 (z : Z) : bool := (minInt64 <=? z)%Z && (z <=? maxInt64)%Z.

Definition ParseInt (s : string) : option Z :=
  let unsigned u := match u with EmptyString => None | _ => parse_digits u 0 end in
  let r := match s with
           | String "-" u => option_map Z.opp (unsigned u)
           | String "+" u => unsigned u
           | _ => unsigned s
           end in
  match r with Some z => if in_int64 z then Some z else None | None => None end.

(** [textproto.CanonicalMIMEHeaderKey]: a key made of token bytes is title-cased
    at the start and after each hyphen; any other key is left alone. *)
Definition is_token_byte (c : ascii) : bool :=
  is_upper c || is_lower c || is_digit c
  || existsb (N.eqb (code c)) [33; 35; 36; 37; 38; 39; 42; 43; 45; 46; 94; 95; 96; 124; 126]%N.

Fixpoint all_bytes (f : ascii -> bool) (s : string) : bool :=
  match s with EmptyString => true | String c s' => f c && all_bytes f s' end.

Fixpoint title_case (up : bool) (s : string) : string :=
  match s with
  | EmptyString => EmptyString
  | String c s' =>
      String (if up then upper_byte c else lower_byte c) (title_case (Ascii.eqb c "-") s')
  end.

Definition CanonicalHeaderKey (s : string) : string :=
  if all_bytes is_token_byte s then title_case true s else s.

(** Go's [len] of a string. *)
Definition Len (s : string) : Z := Z.of_nat (String.length s).

(** ** Lemmas *)

Lemma Len_nonneg s : (0 <= Len s)%Z.
Proof. unfold Len. lia. Qed.

Lemma append_cons c s t : String c s +:+ t = String c (s +:+ t).
Proof. done. Qed.

Lemma append_assoc a b c : (a +:+ b) +:+ c = a +:+ (b +:+ c).
Proof. induction a as [|x a IH]; [done|]. by rewrite !append_cons, IH. Qed.

Lemma append_nil_r s : s +:+ "" = s.
Proof. induction s as [|c s IH]; [done|]. by rewrite append_cons, IH. Qed.

Lemma length_append a b : String.length (a +:+ b) = (String.length a + String.length b)%nat.
Proof. induction a as [|c a IH]; [done|]. rewrite append_cons. simpl. by rewrite IH. Qed.

Lemma all_bytes_app f a b : all_bytes f (a +:+ b) = all_bytes f a && all_bytes f b.
Proof. induction a as [|c a IH]; [done|]. rewrite append_cons. cbn [all_bytes]. by rewrite IH, andb_assoc. Qed.

Lemma all_bytes_impl (f g : ascii -> bool) s :
  (forall c, f c = true -> g c = true) -> all_bytes f s = true -> all_bytes g s = true.
Proof. intros H. induction s as [|c s IH]; [done|]. cbn [all_bytes]. intros [Hc Hs]%andb_true_iff. by rewrite H, IH. Qed.

(** ** Reversal *)

Lemma rev_onto_app s a b : rev_onto s (a +:+ b) = rev_onto s a +:+ b.
Proof. revert a; induction s as [|c s IH]; intros a; [done|]. cbn [rev_onto]. by rewrite <- IH. Qed.

Lemma rev_string_app a b : rev_string (a +:+ b) = rev_string b +:+ rev_string a.
Proof.
  unfold rev_string. induction a as [|c a IH]; [by rewrite append_nil_r|].
  rewrite append_cons. cbn [rev_onto]. change (String c "") with ("" +:+ String c "").
  by rewrite !rev_onto_app, IH, append_assoc.
Qed.

Lemma rev_string_involutive s : rev_string (rev_string s) = s.
Proof.
  induction s as [|c s IH]; [done|]. change (String c s) with (String c "" +:+ s).
  by rewrite !rev_string_app, IH.
Qed.

Lemma all_bytes_rev f s : all_bytes f (rev_string s) = all_bytes f s.
Proof.
  induction s as [|c s IH]; [done|]. change (String c s) with (String c "" +:+ s).
  by rewrite rev_string_app, !all_bytes_app, IH, andb_comm.
Qed.

(** ** Trimming takes whole prefixes off *)

Lemma strip_prefix_app p s : strip_prefix p (p +:+ s) = Some s.
Proof.
  induction p as [|c p IH]; [by destruct s|]. change (String c p +:+ s) with (String c (p +:+ s)). cbn. by rewrite Ascii.eqb_refl.
Qed.

Lemma strip_prefix_Some p s t : strip_prefix p s = Some t -> s = p +:+ t.
Proof.
  revert s; induction p as [|c p IH]; intros s; [destruct s; by intros [= <-]|].
  destruct s as [|d s]; [done|]. cbn. destruct (Ascii.eqb c d) eqn:Hc; [|done].
  apply Ascii.eqb_eq in Hc as ->. intros ->%IH. done.
Qed.

Lemma TrimPrefixes_split f ps s :
  Forall (fun p => all_bytes f p = true) ps -> exists w, s = w +:+ TrimPrefixes ps s /\ all_bytes f w = true.
Proof.
  intros Hps. unfold TrimPrefixes. generalize (String.length s) as n. intros n. revert s; induction n as [|n IH]; intros s.
  - by exists "".
  - cbn [strip_many]. destruct (strip_one ps s) as [s'|] eqn:Hs; [|by exists ""].
    assert (exists p, s = p +:+ s' /\ all_bytes f p = true) as (p & -> & Hp).
    { clear IH. induction Hps as [|p ps Hp Hps IH]; [done|]. cbn [strip_one] in Hs.
      destruct (strip_prefix p s) as [t|] eqn:Ht; [|by apply IH].
      injection Hs as ->. apply strip_prefix_Some in Ht. by exists p. }
    destruct (IH s') as (w & Hw & Hf). exists (p +:+ w). rewrite append_assoc, <- Hw. split; [done|].
    rewrite all_bytes_app. by rewrite Hp, Hf.
Qed.

Lemma TrimSuffixes_split f ps s :
  Forall (fun p => all_bytes f p = true) ps -> exists w, s = TrimSuffixes ps s +:+ w /\ all_bytes f w = true.
Proof.
  intros Hps. unfold TrimSuffixes.
  destruct (TrimPrefixes_split f (map rev_string ps) (rev_string s)) as (w & Hw & Hf).
  { apply Forall_map. eapply Forall_impl; [exact Hps|]. intros p. cbn. by rewrite all_bytes_rev. }
  exists (rev_string w). rewrite all_bytes_rev. split; [|done].
  rewrite <- rev_string_app, <- Hw. by rewrite rev_string_involutive.
Qed.

(** What TrimSpace drops is made of white space. *)
Lemma TrimSpace_split f s :
  forallb (all_bytes f) spaces = true ->
  exists a b, s = a +:+ TrimSpace s +:+ b /\ all_bytes f a = true /\ all_bytes f b = true.
Proof.
  intros Hsp. assert (Forall (fun p => all_bytes f p = true) spaces) as Hps.
  { apply Forall_forall. intros p Hp. rewrite forallb_forall in Hsp. by apply Hsp, list_elem_of_In. }
  destruct (TrimPrefixes_split f spaces s Hps) as (a & Ha & Hfa).
  destruct (TrimSuffixes_split f spaces (TrimPrefixes spaces s) Hps) as (b & Hb & Hfb).
  exists a, b. split; [|done]. unfold TrimSpace. by rewrite <- Hb, <- Ha.
Qed.

(** ** Splitting *)

Lemma Split_app_sep sep a b : Split sep (a +:+ String sep b) = (Split sep a ++ Split sep b)%list.
Proof.
  induction a as [|c a IH]; [simpl; by rewrite Ascii.eqb_refl|].
  rewrite append_cons. cbn [Split]. rewrite IH. destruct (Ascii.eqb c sep); [done|].
  destruct (Split sep a) as [|w ws] eqn:Ha; [|done]. destruct a; cbn in Ha; repeat case_match; done.
Qed.

Lemma Split_prepend sep w s :
  all_bytes (fun c => negb (Ascii.eqb c sep)) w = true ->
  exists x xs, Split sep s = x :: xs /\ Split sep (w +:+ s) = (w +:+ x) :: xs.
Proof.
  intros Hw. induction w as [|c w IH].
  - change ("" +:+ s) with s. destruct (Split sep s) as [|x xs] eqn:Hs; [|by exists x, xs].
    destruct s; cbn in Hs; repeat case_match; done.
  - cbn [all_bytes] in Hw. apply andb_true_iff in Hw as [Hc%negb_true_iff Hw]. destruct (IH Hw) as (x & xs & H1 & H2).
    exists x, xs. split; [done|]. rewrite append_cons. cbn [Split]. by rewrite Hc, H2.
Qed.

Lemma Split_append sep s w :
  all_bytes (fun c => negb (Ascii.eqb c sep)) w = true ->
  exists xs x, Split sep s = (xs ++ [x])%list /\ Split sep (s +:+ w) = (xs ++ [x +:+ w])%list.
Proof.
  intros Hw. induction s as [|c s (xs & x & H1 & H2)].
  - exists [], "". split; [done|]. change ("" +:+ w) with w. destruct (Split_prepend sep w "" Hw) as (y & ys & [= <- <-] & H2).
    by rewrite append_nil_r in H2.
  - rewrite append_cons. cbn [Split]. rewrite H1, H2. destruct (Ascii.eqb c sep).
    + by exists ("" :: xs), x.
    + destruct xs as [|y ys]; [by exists [], (String c x)|by exists (String c y :: ys), x].
Qed.

Lemma prefix_app p s : String.prefix p (p ++ s) = true.
Proof. induction p as [|c p IH]; simpl; [destruct s; reflexivity|]. destruct (ascii_dec c c); congruence. Qed.

Lemma prefix_spec p s : String.prefix p s = true <-> exists t, s = p ++ t.
Proof.
  split; [|intros [t ->]; apply prefix_app].
  revert s; induction p as [|c p IH]; intros s; [by exists s|].
  destruct s as [|d s]; [done|]. cbn [String.prefix].
  destruct (ascii_dec c d) as [->|]; [|done].
  intros [t ->]%IH. by exists t.
Qed.

(** [Contains] finds exactly the substrings. *)
Lemma Contains_spec s sub : Contains s sub = true <-> exists a b, s = a ++ sub ++ b.
Proof.
  induction s as [|c s IH]; cbn [Contains]; rewrite orb_true_iff, prefix_spec.
  - split; [intros [[t Ht]|]; [by exists "", t|done]|].
    intros (a & b & Hab). destruct a; [left; by exists b|done].
  - rewrite IH. split.
    + intros [[t Ht]|(a & b & ->)]; [by exists "", t|by exists (String c a), b].
    + intros (a & b & Hab). destruct a as [|d a]; [left; by exists b|].
      right. injection Hab as -> ->. by exists a, b.
Qed.

Lemma Split_nonempty sep s : Split sep s <> [].
Proof. destruct s as [|c s]; simpl; [done|]. repeat case_match; done. Qed.

Lemma SplitN2_app sep a b :
  all_bytes (fun c => negb (Ascii.eqb c sep)) a = true ->
  SplitN2 sep (a ++ String sep b) = Some (a, b).
Proof.
  induction a as [|c a IH]; simpl.
  - by rewrite Ascii.eqb_refl.
  - rewrite andb_true_iff, negb_true_iff. intros [-> Ha]. by rewrite IH.
Qed.

Lemma parse_digits_nonneg s acc z : (0 <= acc)%Z -> parse_digits s acc = Some z -> (0 <= z)%Z.
Proof.
  revert acc; induction s as [|c s IH]; simpl; intros acc Hacc; [naive_solver|].
  destruct (is_digit c); [|done]. apply IH. lia.
Qed.

Lemma ParseInt_range s z : ParseInt s = Some z -> int64_range z.
Proof.
  unfold ParseInt, int64_range. intros H. repeat case_match; simplify_eq/=;
  unfold in_int64, minInt64, maxInt64 in *; bprop; lia.
Qed.

Example ToLower_ex : ToLower "X-Api-KEY" = "x-api-key".
Proof. reflexivity. Qed.
Example TrimSpace_ex : TrimSpace (" a b " ++ bytes [194; 160]%N) = "a b".
Proof. reflexivity. Qed.
Example Split_ex : Split "," "a,,b" = ["a"; ""; "b"].
Proof. reflexivity. Qed.
Example CanonicalHeaderKey_ex : CanonicalHeaderKey "if-none-match" = "If-None-Match".
Proof. reflexivity. Qed.
