(* ===== verification/Sha256.v ===== *)
(** * SHA-256 as used by the configuration and token packages

    [crypto/sha256.Sum256] followed by [encoding/hex.EncodeToString], written
    after FIPS 180-4 on 32-bit words kept as [N]; the two vectors at the end
    are those of the standard.  [ComputeSHA256] is the function of
    src/configsource/hash.go; [credentialKey] of src/tokenmint/minter.go uses
    the same digest. *)
From S2P Require Import Prelude GoStrings.
Local Open Scope N_scope.

Module Sha256.

Definition w32 (n : N) : N := N.land n 0xFFFFFFFF.
Definition add32 (a b : N) : N := w32 (a + b).
Definition rotr (k x : N) : N := w32 (N.lor (N.shiftr x k) (N.shiftl x (32 - k))).

Definition Ch (x y z : N) : N := N.lxor (N.land x y) (N.land (N.lxor x 0xFFFFFFFF) z).
Definition Maj (x y z : N) : N := N.lxor (N.lxor (N.land x y) (N.land x z)) (N.land y z).
Definition S0 (x : N) : N := N.lxor (N.lxor (rotr 2 x) (rotr 13 x)) (rotr 22 x).
Definition S1 (x : N) : N := N.lxor (N.lxor (rotr 6 x) (rotr 11 x)) (rotr 25 x).
Definition s0 (x : N) : N := N.lxor (N.lxor (rotr 7 x) (rotr 18 x)) (N.shiftr x 3).
Definition s1 (x : N) : N := N.lxor (N.lxor (rotr 17 x) (rotr 19 x)) (N.shiftr x 10).

(** The constants of the standard are the leading fractional bits of the cube
    and square roots of the first primes; they are computed, not listed. *)
Definition prime (n : nat) : bool :=
  forallb (fun d => negb (Nat.eqb (n mod d) 0)) (seq 2 (n - 2)).
Definition primes64 : list N :=
  Eval vm_compute in map N.of_nat (List.filter prime (seq 2 310)).

(** Largest [r] of [k] bits or fewer above [acc] with [r ^ 3 <= n]. *)
Fixpoint cbrt_bits (k : nat) (n acc : N) : N :=
  match k with
  | O => acc
  | S k' =>
      let r := acc + N.shiftl 1 (N.of_nat k') in
      cbrt_bits k' n (if r * r * r <=? n then r else acc)
  end.

Definition K : list N :=
  Eval vm_compute in map (fun p => w32 (cbrt_bits 36 (N.shiftl p 96) 0)) primes64.

Record hstate := H8 { ha : N; hb : N; hc : N; hd : N; he : N; hf : N; hg : N; hh : N }.

Definition H0 : hstate :=
  Eval vm_compute in
    match map (fun p => w32 (N.sqrt (N.shiftl p 64))) (take 8 primes64) with
    | [a; b; c; d; e; f; g; h] => H8 a b c d e f g h
    | _ => H8 0 0 0 0 0 0 0 0
    end.

Fixpoint bytes_of (s : string) : list N :=
  match s with EmptyString => [] | String c s' => code c :: bytes_of s' end.

(** Big-endian bytes of [n], [k] of them. *)
Fixpoint be_bytes (k : nat) (n : N) : list N :=
  match k with O => [] | S k' => be_bytes k' (N.shiftr n 8) ++ [N.land n 255] end.

Definition pad (m : list N) : list N :=
  let l := length m in
  let z := ((119 - l mod 64) mod 64)%nat in
  m ++ [128] ++ replicate z 0 ++ be_bytes 8 (8 * N.of_nat l).

Fixpoint words (l : list N) : list N :=
  match l with
  | a :: b :: c :: d :: l' =>
      N.shiftl a 24 + N.shiftl b 16 + N.shiftl c 8 + d :: words l'
  | _ => []
  end.

(** Message schedule, newest word first. *)
Fixpoint schedule (n : nat) (w : list N) : list N :=
  match n with
  | O => w
  | S n' =>
      let at_ k := nth k w 0 in
      schedule n' (add32 (add32 (s1 (at_ 1%nat)) (at_ 6%nat)) (add32 (s0 (at_ 14%nat)) (at_ 15%nat)) :: w)
  end.

Definition round (st : hstate) (kw : N * N) : hstate :=
  let '(H8 a b c d e f g h) := st in
  let t1 := add32 (add32 (add32 h (S1 e)) (add32 (Ch e f g) (fst kw))) (snd kw) in
  let t2 := add32 (S0 a) (Maj a b c) in
  H8 (add32 t1 t2) a b c (add32 d t1) e f g.

Definition block (st : hstate) (w16 : list N) : hstate :=
  let ws := rev (schedule 48 (rev w16)) in
  let '(H8 a b c d e f g h) := st in
  let '(H8 a' b' c' d' e' f' g' h') := fold_left round (combine K ws) st in
  H8 (add32 a a') (add32 b b') (add32 c c') (add32 d d')
     (add32 e e') (add32 f f') (add32 g g') (add32 h h').

Fixpoint blocks (fuel : nat) (st : hstate) (w : list N) : hstate :=
  match fuel, w with
  | O, _ | _, [] => st
  | S n, _ => blocks n (block st (take 16 w)) (drop 16 w)
  end.

Definition sum256 (s : string) : list N :=
  let w := words (pad (bytes_of s)) in
  let '(H8 a b c d e f g h) := blocks (length w) H0 w in
  flat_map (be_bytes 4) [a; b; c; d; e; f; g; h].

Definition hex_digit (n : N) : ascii :=
  ascii_of_N (if n <? 10 then 48 + n else 87 + n).

Definition hex (l : list N) : string :=
  foldr (fun b s => String (hex_digit (N.shiftr b 4)) (String (hex_digit (N.land b 15)) s)) EmptyString l.

(** hash.go: [ComputeSHA256]. *)
Definition ComputeSHA256 (data : string) : string := hex (sum256 data).

Arguments ComputeSHA256 : simpl never.

(** ** Lemmas *)

Lemma hex_length l : String.length (hex l) = (2 * length l)%nat.
Proof. induction l as [|b l IH]; simpl in *; lia. Qed.

Lemma be_bytes_length k n : length (be_bytes k n) = k.
Proof. revert n; induction k as [|k IH]; intros n; simpl; [done|]. rewrite length_app, IH. simpl; lia. Qed.

(** A digest is 64 hexadecimal digits, hence never the empty string that the
    watcher uses for "no hash recorded yet". *)
Lemma ComputeSHA256_length s : String.length (ComputeSHA256 s) = 64%nat.
Proof.
  unfold ComputeSHA256. rewrite hex_length. unfold sum256.
  destruct (blocks _ _ _). cbn [flat_map]. rewrite !length_app, !be_bytes_length. reflexivity.
Qed.

Lemma ComputeSHA256_nonempty s : ComputeSHA256 s <> EmptyString.
Proof. intros H. pose proof (ComputeSHA256_length s) as L. by rewrite H in L. Qed.

Example sha_abc :
  ComputeSHA256 "abc" = "ba7816bf8f01cfea414140de5dae2223b00361a396177a9cb410ff61f20015ad"%string.
Proof. vm_compute. reflexivity. Qed.
Example sha_empty :
  ComputeSHA256 "" = "e3b0c44298fc1c149afbf4c8996fb92427ae41e4649b934ca495991b7852b855"%string.
Proof. vm_compute. reflexivity. Qed.

(** Proofs never unfold a digest; [vm_compute] still evaluates it. *)
#[global] Opaque ComputeSHA256.

End Sha256.
