(* ===== verification/Secret.v ===== *)
(** * Self-redacting secrets and key classification (src/secret, src/logutil)

    [Secret] of secret.go with its observers, and [IsSensitiveKey] with the
    attribute scrubbing of the slog handler of logutil/redact.go. *)
From S2P Require Import Prelude GoStrings.
Local Open Scope string_scope.

Module Secret.

Definition redactedValue : string := "[REDACTED]".

Record t := MkSecret { value : string }.

Definition NewSecret (plaintext : string) : t := MkSecret plaintext.
Definition Plaintext (s : t) : string := value s.
Definition String_ (s : t) : string := redactedValue.
Definition GoString (s : t) : string := "secret.Secret{" ++ redactedValue ++ "}".
Definition LogValue (s : t) : string := redactedValue.
Definition IsEmpty (s : t) : bool := value s ==s "".
Definition MarshalText (s : t) : result unit string := Ok redactedValue.
Definition UnmarshalText (s : t) (text : string) : t := MkSecret text.
Definition ExpandableValue (s : t) : string := value s.
Definition SetExpandedValue (s : t) (v : string) : t := MkSecret v.

End Secret.

Module LogUtil.

Definition redactedValue : string := "[REDACTED]".

(** The exact-match table of redact.go. *)
Definition sensitiveKeys : list string :=
  ["authorization"; "bearer"; "token"; "password"; "key"; "secret"; "api_key"; "api-key";
   "iam_token"; "oauth_token"; "cookie"; "set-cookie"; "x-api-key"; "x-csar-authorization"].

Definition sensitiveSubstrings : list string :=
  ["token"; "secret"; "password"; "bearer"; "authorization"; "api_key"; "api-key"].

Definition IsSensitiveKey (key : string) : bool :=
  let lower := ToLower key in
  existsb (String.eqb lower) sensitiveKeys || existsb (Contains lower) sensitiveSubstrings.

(** A slog attribute: a key with a plain value or a group of attributes.  The
    plain values are opaque to the handler, so they are a parameter [V] with
    the injection of strings that [slog.String] makes. *)
Inductive attr (V : Type) :=
| Plain (key : string) (v : V)
| Group (key : string) (l : list (attr V)).
Arguments Plain {V} _ _.
Arguments Group {V} _ _.

Section Handler.
Context {V : Type} (str : string -> V).

Fixpoint redactAttr (a : attr V) : attr V :=
  match a with
  | Group k l => Group k (map redactAttr l)
  | Plain k v => if IsSensitiveKey k then Plain k (str redactedValue) else a
  end.

(** A record is its attributes (time, level and message pass through), and the
    inner handler is the function it delegates to. *)
Definition Handle {R} (inner : list (attr V) -> R) (attrs : list (attr V)) : R :=
  inner (map redactAttr attrs).
Definition WithAttrs {R} (inner : list (attr V) -> R) (attrs : list (attr V)) : R :=
  inner (map redactAttr attrs).

(** Plain attributes at any depth. *)
Fixpoint leaves (a : attr V) : list (string * V) :=
  match a with
  | Plain k v => [(k, v)]
  | Group _ l => flat_map leaves l
  end.

(** Induction through the list of a group. *)
Section AttrInd.
Variable P : attr V -> Prop.
Hypothesis HPlain : forall k v, P (Plain k v).
Hypothesis HGroup : forall k l, Forall P l -> P (Group k l).
Fixpoint attr_ind' (a : attr V) : P a :=
  match a with
  | Plain k v => HPlain k v
  | Group k l => HGroup k l
      ((fix go (l : list (attr V)) : Forall P l :=
          match l with
          | [] => Forall_nil_2 _
          | x :: l' => Forall_cons_2 _ x l' (attr_ind' x) (go l')
          end) l)
  end.
End AttrInd.

Lemma redactAttr_leaves a k v :
  In (k, v) (leaves (redactAttr a)) ->
  (IsSensitiveKey k = true /\ v = str redactedValue) \/
  (IsSensitiveKey k = false /\ In (k, v) (leaves a)).
Proof.
  induction a as [k' v'|k' l IH] using attr_ind'; simpl.
  - destruct (IsSensitiveKey k') eqn:E; simpl; intros [H|[]]; simplify_eq; auto.
  - rewrite in_flat_map. intros (x & Hx & Hk).
    apply in_map_iff in Hx as (y & <- & Hy).
    rewrite Forall_forall in IH. apply list_elem_of_In in Hy as Hy'.
    destruct (IH y Hy' Hk) as [?|[? ?]]; [by left|right]. split; [done|].
    apply in_flat_map. eauto.
Qed.

(** The log handler lets no sensitive value through: every attribute the
    inner handler receives, at any group depth, either has a non-sensitive key
    and the value the caller logged, or carries the redaction marker. *)
Theorem handler_redacts (attrs : list (attr V)) k v :
  In (k, v) (flat_map leaves (Handle (fun l => l) attrs)) ->
  (IsSensitiveKey k = true /\ v = str redactedValue) \/
  (IsSensitiveKey k = false /\ In (k, v) (flat_map leaves attrs)).
Proof.
  unfold Handle. rewrite in_flat_map. intros (x & Hx & Hk).
  apply in_map_iff in Hx as (y & <- & Hy).
  destruct (redactAttr_leaves _ _ _ Hk) as [?|[? ?]]; [by left|right].
  split; [done|]. apply in_flat_map. eauto.
Qed.

End Handler.

Definition sample : list (attr string) :=
  [Plain "user" "ann"; Group "req" [Plain "X-Auth-Token" "t0p"; Group "g" [Plain "password" "p"]]].

Lemma handler_redacts_witness :
  (IsSensitiveKey "X-Auth-Token" = true /\ "[REDACTED]" = redactedValue) \/
  (IsSensitiveKey "X-Auth-Token" = false /\ In ("X-Auth-Token", "[REDACTED]") (flat_map leaves sample)).
Proof.
  apply (handler_redacts (fun s => s) sample). vm_compute. tauto.
Defined.

End LogUtil.
