(* ===== verification/LogHandler.v ===== *)
(** * The redacting log handler over an slog handler (src/logutil/redact.go)

    [RedactingHandler] with all four methods of slog's interface, over any
    handler, and over one that writes records the way slog's own handlers do:
    groups opened by [WithGroup], attributes kept by [WithAttrs], values that
    produce other values ([LogValuer], as [secret.Secret] is one) asked for
    them when a record is written (less than a hundred times in a row). *)
From S2P Require Import Prelude GoStrings Secret.
Import LogUtil.
Local Open Scope string_scope.

(** ** slog *)

(** A value: a text, anything else that is written as one, a group of
    attributes, or a [LogValuer] with the value it produces. *)
Inductive value := VString (s : string) | VOther (text : string) | VGroup (l : list (string * value)) | VLog (v : value).
Abbreviation Attr := (string * value)%type.

Section ValueInd.
Variable P : value -> Prop.
Hypothesis HString : forall s, P (VString s).
Hypothesis HOther : forall s, P (VOther s).
Hypothesis HGroup : forall l, Forall (fun a => P (snd a)) l -> P (VGroup l).
Hypothesis HLog : forall v, P v -> P (VLog v).
Fixpoint value_ind' (v : value) : P v :=
  match v with
  | VString s => HString s
  | VOther s => HOther s
  | VGroup l => HGroup l
      ((fix go (l : list Attr) : Forall (fun a => P (snd a)) l :=
          match l with
          | [] => Forall_nil_2 _
          | x :: l' => Forall_cons_2 _ x l' (value_ind' (snd x)) (go l')
          end) l)
  | VLog v => HLog v (value_ind' v)
  end.
End ValueInd.

(** The interface [slog.Handler]: what handling a record yields is [out]. *)
Class SlogHandler (H out : Type) := {
  Enabled : H -> Z -> bool;
  HandleRecord : H -> list Attr -> out;
  WithAttrs : H -> list Attr -> H;
  WithGroup : H -> string -> H }.

(** ** redact.go *)

(** [attrsToAny] and [slog.Group] put the attributes into a group again. *)
Definition attrsToAny (attrs : list Attr) : list Attr := map (fun a => a) attrs.

Fixpoint redactValue (k : string) (v : value) : Attr :=
  match v with
  | VGroup attrs => (k, VGroup (attrsToAny (map (fun ga => redactValue (fst ga) (snd ga)) attrs)))
  | _ => if IsSensitiveKey k then (k, VString redactedValue) else (k, v)
  end.
Definition redactAttr (a : Attr) : Attr := redactValue (fst a) (snd a).

Record RedactingHandler (H : Type) := NewRedactingHandler { inner : H }.
Arguments NewRedactingHandler {H}. Arguments inner {H}.

#[export] Instance redacting {H out} `{SlogHandler H out} : SlogHandler (RedactingHandler H) out := {|
  Enabled h level := Enabled (inner h) level;
  HandleRecord h attrs := HandleRecord (inner h) (map redactAttr attrs);
  WithAttrs h attrs := NewRedactingHandler (WithAttrs (inner h) (map redactAttr attrs));
  WithGroup h name := NewRedactingHandler (WithGroup (inner h) name) |}.

(** ** A handler that writes *)

(** What is written of an attribute below open groups: the path, the key and the
    text.  A group without a name puts its attributes into the enclosing one. *)
Abbreviation line := (list string * string * string)%type.

Fixpoint write_value (path : list string) (k : string) (v : value) : list line :=
  match v with
  | VString s | VOther s => [(path, k, s)]
  | VGroup l => flat_map (fun a => write_value (if k ==s "" then path else (path ++ [k])%list) (fst a) (snd a)) l
  | VLog v => write_value path k v
  end.
Definition write (path : list string) (attrs : list Attr) : list line :=
  flat_map (fun a => write_value path (fst a) (snd a)) attrs.

(** The open groups and what is already written of kept attributes. *)
Record TextHandler := MkText { minLevel : Z; open : list string; kept : list line }.

#[export] Instance text_handler : SlogHandler TextHandler (list line) := {|
  Enabled h level := (minLevel h <=? level)%Z;
  HandleRecord h attrs := (kept h ++ write (open h) attrs)%list;
  WithAttrs h attrs := MkText (minLevel h) (open h) (kept h ++ write (open h) attrs);
  WithGroup h name := if name ==s "" then h else MkText (minLevel h) (open h ++ [name]) (kept h) |}.

(** ** A logger: a chain of handlers and then records *)

Inductive derive := DAttrs (attrs : list Attr) | DGroup (name : string).

Definition derive_one {H out} `{SlogHandler H out} (h : H) (d : derive) : H :=
  match d with DAttrs attrs => WithAttrs h attrs | DGroup name => WithGroup h name end.
Definition log {H out} `{SlogHandler H out} (h : H) (chain : list derive) (attrs : list Attr) : out :=
  HandleRecord (fold_left derive_one chain h) attrs.

(** ** What redaction changes *)

(** A line of a sensitive key gets the marker, the others stay. *)
Definition scrub (l : line) : line :=
  let '(path, k, s) := l in (path, k, if IsSensitiveKey k then redactedValue else s).

(** No [LogValuer] inside produces a group. *)
Fixpoint resolves_plain (v : value) : bool :=
  match v with VString _ | VOther _ => true | VGroup _ => false | VLog v => resolves_plain v end.
Fixpoint plain_valuers (v : value) : bool :=
  match v with
  | VString _ | VOther _ => true
  | VGroup l => forallb (fun a => plain_valuers (snd a)) l
  | VLog v => resolves_plain v
  end.
Definition attrs_ok (attrs : list Attr) : bool := forallb (fun a => plain_valuers (snd a)) attrs.
Definition chain_ok (chain : list derive) : bool :=
  forallb (fun d => match d with DAttrs attrs => attrs_ok attrs | DGroup _ => true end) chain.

Lemma write_plain v path k :
  resolves_plain v = true -> exists s, write_value path k v = [(path, k, s)].
Proof. induction v as [s|s|l _|v IH] using value_ind'; cbn; [by eexists..|done|done]. Qed.

Lemma flat_map_Forall {A B} (f g : A -> list B) l : Forall (fun x => f x = g x) l -> flat_map f l = flat_map g l.
Proof. induction 1 as [|x l Hx _ IH]; [done|]. cbn. by rewrite Hx, IH. Qed.

Lemma redact_write v : forall path k, plain_valuers v = true ->
  write_value path (fst (redactValue k v)) (snd (redactValue k v)) = map scrub (write_value path k v).
Proof.
  induction v as [s|s|l IH|v _] using value_ind'; intros path k Hok.
  - cbn. by destruct (IsSensitiveKey k).
  - cbn. by destruct (IsSensitiveKey k).
  - cbn in Hok. cbn [redactValue fst snd write_value]. unfold attrsToAny. rewrite map_id.
    set (p := if k ==s "" then path else _). clearbody p. clear path k. rewrite flat_map_concat_map, map_map.
    rewrite (flat_map_concat_map _ l), concat_map, map_map. f_equal. apply map_ext_in. intros [k v] Hin. cbn.
    rewrite Forall_forall in IH. apply (IH (k, v)); [by apply list_elem_of_In|].
    rewrite forallb_forall in Hok. exact (Hok (k, v) Hin).
  - cbn in Hok. destruct (write_plain v path k Hok) as [s Hs]. cbn. destruct (IsSensitiveKey k) eqn:Hk; cbn; rewrite Hs; cbn; by rewrite Hk.
Qed.

Lemma redact_attrs path attrs : attrs_ok attrs = true -> write path (map redactAttr attrs) = map scrub (write path attrs).
Proof.
  unfold write, attrs_ok. induction attrs as [|[k v] attrs IH]; [done|]. cbn. intros [Hv Hok]%andb_true_iff.
  rewrite map_app, IH by done. by rewrite <- redact_write.
Qed.

(** A derived redacting handler is the redacting handler of the derived one,
    with the kept lines scrubbed. *)
Definition scrubbed (h h' : TextHandler) : Prop := open h' = open h /\ minLevel h' = minLevel h /\ kept h' = map scrub (kept h).

Lemma derive_scrubbed chain h (r : RedactingHandler TextHandler) :
  chain_ok chain = true -> scrubbed h (inner r) ->
  scrubbed (fold_left derive_one chain h) (inner (fold_left derive_one chain r)).
Proof.
  revert h r. induction chain as [|d chain IH]; intros h r; [done|]. cbn. intros [Hd Hc]%andb_true_iff (Ho & Hm & Hk).
  apply IH; [done|]. destruct d as [attrs|name]; cbn.
  - split; [done|]. split; [done|]. cbn. by rewrite Hk, Ho, redact_attrs, map_app.
  - destruct (name ==s ""); cbn; rewrite ?Ho; done.
Qed.

(** C12. Redaction changes exactly the sensitive values: whatever loggers are
    derived with attributes and groups, in any order, and whatever is logged, a
    record written through the redacting handler is the record the wrapped
    handler would write, with the text of every attribute whose key is
    sensitive, at any depth and kept or logged, replaced by the marker, and
    nothing else changed, lost or moved; and whether a level is enabled is up
    to the wrapped handler.  Values that produce a group when they are written
    are outside of this. *)
Theorem redacting_exact lvl groups chain attrs :
  chain_ok chain = true -> attrs_ok attrs = true ->
  let h := MkText lvl groups [] in
  log (NewRedactingHandler h) chain attrs = map scrub (log h chain attrs) /\
  forall level, Enabled (fold_left derive_one chain (NewRedactingHandler h)) level = Enabled (fold_left derive_one chain h) level.
Proof.
  intros Hc Ha h. destruct (derive_scrubbed chain h (NewRedactingHandler h) Hc) as (Ho & Hm & Hk); [done|].
  unfold log. cbn [HandleRecord redacting text_handler]. split.
  - by rewrite Hk, Ho, redact_attrs, map_app.
  - intros level. cbn. by rewrite Hm.
Qed.

(** *** Runs *)

Definition chain1 : list derive :=
  [DAttrs [("service", VString "authn"); ("api_key", VString "k3y")]; DGroup "req"; DAttrs [("Cookie", VOther "c")]].
Definition attrs1 : list Attr :=
  [("user", VString "ann"); ("", VGroup [("X-Auth-Token", VString "t0p")]); ("iam_token", VLog (VString (Secret.LogValue (Secret.NewSecret "s"))))].

Lemma redacting_exact_witness :
  log (NewRedactingHandler (MkText 0 [] [])) chain1 attrs1 =
    [([], "service", "authn"); ([], "api_key", "[REDACTED]"); (["req"], "Cookie", "[REDACTED]"); (["req"], "user", "ann");
     (["req"], "X-Auth-Token", "[REDACTED]"); (["req"], "iam_token", "[REDACTED]")].
Proof.
  etransitivity; [exact (proj1 (redacting_exact 0 [] chain1 attrs1 eq_refl eq_refl))|]. vm_compute. reflexivity.
Defined.

(** A value that produces a group is handed on as it is: the handler below asks
    it for the group and writes what is in it. *)
Lemma valuer_group_not_redacted :
  log (NewRedactingHandler (MkText 0 [] [])) [] [("login", VLog (VGroup [("password", VString "p4ss")]))] =
    [(["login"], "password", "p4ss")].
Proof. vm_compute. reflexivity. Qed.
