(* ===== verification/ConfigSource.v ===== *)
(** * Configuration sources (src/configsource)

    The [ConfigSource] interface as a type class over the state [S] of a
    source and the outside world [W] it is polled against, with the file,
    object-store and HTTP sources as instances, and the hash policies of
    hash.go.  A fetch is a function of the world at the moment of the poll
    and of the source's own state, and returns the new state: the HTTP source
    remembers the validator of its last response.

    [Data] is an option: [None] is Go's nil slice, the "not modified" answer,
    and differs from an empty document. *)
From S2P Require Import Prelude GoStrings Sha256.
Import Sha256.
Local Open Scope string_scope.

(** ** The interface (source.go) *)
Record FetchedConfig := MkFetched { Data : option string; ETag : string }.

Class ConfigSource (W S E : Type) := Fetch : W -> S -> result E FetchedConfig * S.

(** ** Hash policies (hash.go)

    [HashPolicy] is an [int] with three named values; any other value reaches
    the default branch of [ValidateHash]. *)
Definition HashDisabled : Z := 0.
Definition HashTOFU : Z := 1.
Definition HashPinned : Z := 2.

Inductive HashErr :=
| IntegrityViolation (etag lastHash currentHash : string)
| HashMismatch (pinned current : string)
| UnknownPolicy (policy : Z).

Definition ValidateHash (policy : Z) (pinnedHash currentHash lastHash currentETag lastETag : string)
  : result HashErr unit :=
  if (policy =? HashDisabled)%Z then Ok tt
  else if (policy =? HashTOFU)%Z then
    if lastHash ==s "" then Ok tt
    else if (currentETag ==s lastETag) && (currentHash !=s lastHash)
         then Err (IntegrityViolation currentETag lastHash currentHash)
         else Ok tt
  else if (policy =? HashPinned)%Z then
    if currentHash !=s pinnedHash then Err (HashMismatch pinnedHash currentHash) else Ok tt
  else Err (UnknownPolicy policy).

(** ** FileSource (source_file.go)

    The world is what [os.Stat] (modification time in nanoseconds and size)
    and [os.ReadFile] answer for a path. *)
Module FileSource.

Record FS := MkFS { stat : string -> option (Z * Z); readFile : string -> option string }.
Record t := MkFileSource { path : string }.
Inductive err := ErrStat (p : string) | ErrRead (p : string).

Definition NewFileSource (p : string) : t := MkFileSource p.

Definition Fetch (w : FS) (s : t) : result err FetchedConfig * t :=
  match stat w (path s) with
  | None => (Err (ErrStat (path s)), s)
  | Some (mtime, size) =>
      let etag := "mtime:" ++ FormatInt mtime ++ ":size:" ++ FormatInt size in
      match readFile w (path s) with
      | None => (Err (ErrRead (path s)), s)
      | Some data => (Ok (MkFetched (Some data) etag), s)
      end
  end.

End FileSource.

#[export] Instance file_source : ConfigSource FileSource.FS FileSource.t FileSource.err :=
  FileSource.Fetch.

(** ** S3Source (source_s3.go)

    The object-store client is the world: [GetObject] maps a key to the body
    and ETag of the object or to the client's error. *)
Module S3Source.

Record Object := MkObject { Body : option string; obj_ETag : string }.
Record t := MkS3Source { key : string }.

Definition NewS3Source (k : string) : t := MkS3Source k.

Definition Fetch {E} (getObject : string -> result E Object) (s : t)
  : result (string * E) FetchedConfig * t :=
  match getObject (key s) with
  | Err e => (Err (key s, e), s)
  | Ok obj => (Ok (MkFetched (Body obj) (obj_ETag obj)), s)
  end.

End S3Source.

#[export] Instance s3_source {E} :
  ConfigSource (string -> result E S3Source.Object) S3Source.t (string * E) := S3Source.Fetch.

(** ** HTTPSource (source_http.go)

    A request carries the URL and the header map under canonical keys
    ([http.Header.Set]); the world says which URLs [http.NewRequest] accepts
    and what the server answers, [None] being a transport failure and a body
    [None] a failed read. *)
Module HTTPSource.

Definition maxConfigSize : Z := Z.shiftl 10 20.

Record Request := MkRequest { req_url : string; req_header : gmap string string }.
Record Response := MkResponse {
  StatusCode : Z;
  resp_header : gmap string string;
  Body : option string }.
Record World := MkWorld { valid_url : string -> bool; do_ : Request -> option Response }.

Record t := MkHTTPSource {
  url : string;
  headers : list (string * string);
  lastETag : string;
  lastModified : bool }.

Inductive err :=
| ErrRequest (u : string)
| ErrTransport (u : string)
| ErrRead (u : string)
| ErrTooLarge (u : string)
| ErrStatus (code : Z) (u : string).

Definition NewHTTPSource (u : string) (hs : list (string * string)) : t :=
  MkHTTPSource u hs "" false.

(** [http.Header.Set] and [Get]. *)
Definition header_set (k v : string) (h : gmap string string) : gmap string string :=
  <[CanonicalHeaderKey k := v]> h.
Definition header_get (k : string) (h : gmap string string) : string :=
  default "" (h !! CanonicalHeaderKey k).

(** [io.ReadAll(io.LimitReader(body, n))]. *)
Fixpoint LimitRead (n : Z) (s : string) : string :=
  match s with
  | EmptyString => EmptyString
  | String c s' => if (n <=? 0)%Z then EmptyString else String c (LimitRead (n - 1) s')
  end.

(** The request of one poll: configured headers in iteration order, then the
    conditional header for the remembered validator. *)
Definition build_request (s : t) : Request :=
  let h := fold_left (fun h kv => header_set (fst kv) (snd kv) h) (headers s) ∅ in
  let h' := if lastETag s !=s ""
            then if lastModified s
                 then header_set "If-Modified-Since" (lastETag s) h
                 else header_set "If-None-Match" (lastETag s) h
            else h in
  MkRequest (url s) h'.

Definition Fetch (w : World) (s : t) : result err FetchedConfig * t :=
  if negb (valid_url w (url s)) then (Err (ErrRequest (url s)), s)
  else
    match do_ w (build_request s) with
    | None => (Err (ErrTransport (url s)), s)
    | Some resp =>
        if (StatusCode resp =? 304)%Z then (Ok (MkFetched None (lastETag s)), s)
        else if (StatusCode resp =? 200)%Z then
          match Body resp with
          | None => (Err (ErrRead (url s)), s)
          | Some body =>
              let data := LimitRead (maxConfigSize + 1) body in
              if (maxConfigSize <? Len data)%Z then (Err (ErrTooLarge (url s)), s)
              else
                let e := header_get "ETag" (resp_header resp) in
                let '(etag, fromLastModified) :=
                  if e ==s "" then
                    let lm := header_get "Last-Modified" (resp_header resp) in (lm, lm !=s "")
                  else (e, false) in
                (Ok (MkFetched (Some data) etag),
                 MkHTTPSource (url s) (headers s) etag fromLastModified)
          end
        else (Err (ErrStatus (StatusCode resp) (url s)), s)
    end.

End HTTPSource.

#[export] Instance http_source : ConfigSource HTTPSource.World HTTPSource.t HTTPSource.err :=
  HTTPSource.Fetch.

(** ** Lemmas *)

Lemma LimitRead_length n s :
  Len (HTTPSource.LimitRead n s) = Z.min (Z.max n 0) (Len s).
Proof.
  unfold Len. revert n; induction s as [|c s IH]; intros n; simpl; [lia|].
  destruct (n <=? 0)%Z eqn:E; bprop; simpl; [lia|].
  specialize (IH (n - 1)%Z). lia.
Qed.

Lemma LimitRead_all n s : (Len s <= n)%Z -> HTTPSource.LimitRead n s = s.
Proof.
  unfold Len. revert n; induction s as [|c s IH]; intros n; simpl; [done|].
  intros H. destruct (n <=? 0)%Z eqn:E; bprop; [lia|]. rewrite IH; [done|lia].
Qed.

(** The TOFU policy in one line: a recorded hash is enforced exactly while the
    version identifier stays the same. *)
Lemma ValidateHash_tofu pin cur last cetag letag :
  ValidateHash HashTOFU pin cur last cetag letag = Ok tt <->
  last = "" \/ cetag <> letag \/ cur = last.
Proof.
  unfold ValidateHash. simpl.
  destruct (String.eqb_spec last ""), (String.eqb_spec cetag letag), (String.eqb_spec cur last);
    simpl; naive_solver.
Qed.

Lemma ValidateHash_pinned pin cur last cetag letag :
  ValidateHash HashPinned pin cur last cetag letag = Ok tt <-> cur = pin.
Proof.
  unfold ValidateHash. simpl. destruct (String.eqb_spec cur pin); simpl; naive_solver.
Qed.
