(* ===== verification/Watcher.v ===== *)
(** * ConfigWatcher (src/configsource/watcher.go)

    [Apply] is one poll: fetch, integrity check, change detection, application.
    The mutex is held for the whole call, so a poll is one atomic step; the
    watch loop is a sequence of such steps against a changing world.  A step
    also reports the bytes handed to the caller's [ApplyFunc] ([called]), which
    is what the theorems are about: which documents the service is ever asked
    to run with.  Logging is not modelled.

    Everything is proved against the [ConfigSource] interface; the last part
    instantiates it with the HTTP source. *)
From S2P Require Import Prelude GoStrings Sha256 ConfigSource.
Import Sha256.
Local Open Scope string_scope.

Record ConfigWatcher (S : Type) := MkWatcher {
  source : S;
  lastETag : string;
  lastHash : string;
  hashPolicy : Z;
  pinnedHash : string }.
Arguments MkWatcher {S} _ _ _ _ _.
Arguments source {S} _.
Arguments lastETag {S} _.
Arguments lastHash {S} _.
Arguments hashPolicy {S} _.
Arguments pinnedHash {S} _.

Inductive WatchErr (E AE : Type) :=
| FetchingConfig (e : E)
| HashValidation (e : HashErr)
| ApplyingConfig (e : AE).
Arguments FetchingConfig {E AE} _.
Arguments HashValidation {E AE} _.
Arguments ApplyingConfig {E AE} _.

(** What one poll did: the fetched value, the bytes given to [applyFn], the result. *)
Record event (E AE : Type) := MkEvent {
  fetched : result E FetchedConfig;
  called : option string;
  ret : result (WatchErr E AE) bool }.
Arguments MkEvent {E AE} _ _ _.
Arguments fetched {E AE} _.
Arguments called {E AE} _.
Arguments ret {E AE} _.

Section Options.
Context {S : Type}.

(** [WatcherOption]s are functions on the watcher, applied in order. *)
Definition WithHashPolicy (p : Z) (w : ConfigWatcher S) : ConfigWatcher S :=
  MkWatcher (source w) (lastETag w) (lastHash w) p (pinnedHash w).
Definition WithPinnedHash (h : string) (w : ConfigWatcher S) : ConfigWatcher S :=
  MkWatcher (source w) (lastETag w) (lastHash w) (hashPolicy w) h.
Definition NewConfigWatcher (src : S) (opts : list (ConfigWatcher S -> ConfigWatcher S))
  : ConfigWatcher S :=
  fold_left (fun w opt => opt w) opts (MkWatcher src "" "" HashTOFU "").

End Options.

Section Watch.
Context {W S E A AE : Type} {src : ConfigSource W S E}.
(** The caller's [ApplyFunc], on the service state [A]. *)
Variable applyFn : A -> string -> result AE bool * A.

Abbreviation watcher := (ConfigWatcher S).

Definition Apply (w : W) (st : watcher) (a : A) : event E AE * watcher * A :=
  let '(f, s') := Fetch w (source st) in
  let st1 := MkWatcher s' (lastETag st) (lastHash st) (hashPolicy st) (pinnedHash st) in
  match f with
  | Err e => (MkEvent f None (Err (FetchingConfig e)), st1, a)
  | Ok fc =>
      match Data fc with
      | None => (MkEvent f None (Ok false), st1, a)
      | Some data =>
          let currentHash := ComputeSHA256 data in
          match ValidateHash (hashPolicy st) (pinnedHash st) currentHash (lastHash st)
                  (ETag fc) (lastETag st) with
          | Err e => (MkEvent f None (Err (HashValidation e)), st1, a)
          | Ok _ =>
              if (ETag fc !=s "") && (ETag fc ==s lastETag st) && (currentHash ==s lastHash st)
              then (MkEvent f None (Ok false), st1, a)
              else
                let '(r, a') := applyFn a data in
                match r with
                | Err e =>
                    (MkEvent f (Some data) (Err (ApplyingConfig e)),
                     MkWatcher s' "" (lastHash st) (hashPolicy st) (pinnedHash st), a')
                | Ok changed =>
                    (MkEvent f (Some data) (Ok changed),
                     MkWatcher s' (ETag fc) currentHash (hashPolicy st) (pinnedHash st), a')
                end
          end
      end
  end.

(** The watch loop, one world per tick until the context is cancelled: errors
    are reported and the loop continues.  Events are collected newest first. *)
Fixpoint RunPeriodicWatch (ticks : list W) (st : watcher) (a : A) (tr : list (event E AE))
  : list (event E AE) * watcher * A :=
  match ticks with
  | [] => (tr, st, a)
  | w :: ticks' => let '(ev, st', a') := Apply w st a in RunPeriodicWatch ticks' st' a' (ev :: tr)
  end.

(** The same loop as a relation, for rule induction. *)
Inductive watched (st0 : watcher) (a0 : A) : list (event E AE) -> watcher -> A -> Prop :=
| watched_start : watched st0 a0 [] st0 a0
| watched_tick tr st a w ev st' a' :
    watched st0 a0 tr st a -> Apply w st a = (ev, st', a') -> watched st0 a0 (ev :: tr) st' a'.

Definition ev_etag (ev : event E AE) : string :=
  match fetched ev with Ok fc => ETag fc | Err _ => "" end.

(** The latest application that succeeded: the document the service runs with
    and the version it came under. *)
Fixpoint last_good (tr : list (event E AE)) : option (string * string) :=
  match tr with
  | [] => None
  | ev :: tr' =>
      match called ev with
      | Some d => if is_ok (ret ev) then Some (d, ev_etag ev) else last_good tr'
      | None => last_good tr'
      end
  end.

(** Whether the service has rejected a document since. *)
Fixpoint failed_since (tr : list (event E AE)) : bool :=
  match tr with
  | [] => false
  | ev :: tr' =>
      match called ev with
      | Some _ => negb (is_ok (ret ev))
      | None => failed_since tr'
      end
  end.

Definition calls (tr : list (event E AE)) : list string := omap called tr.

(** The invariant that ties the watcher's fields to the history of the loop:
    the recorded hash is that of the running document, and the recorded version
    is the running document's, or blank once a later document was rejected. *)
Definition watch_inv (tr : list (event E AE)) (st : watcher) : Prop :=
  match last_good tr with
  | Some (d, e) => lastHash st = ComputeSHA256 d /\ lastETag st = (if failed_since tr then "" else e)
  | None => lastHash st = "" /\ lastETag st = ""
  end.

(** ** Lemmas *)

Lemma RunPeriodicWatch_watched st0 a0 ticks st a tr tr' st' a' :
  watched st0 a0 tr st a ->
  RunPeriodicWatch ticks st a tr = (tr', st', a') -> watched st0 a0 tr' st' a'.
Proof.
  revert st a tr; induction ticks as [|w ticks IH]; simpl; intros st a tr Hw Hr; [by simplify_eq|].
  destruct (Apply w st a) as [[ev st1] a1] eqn:E1. eapply IH; [|exact Hr]. by econstructor.
Qed.

Lemma run_watched st0 a0 ticks tr st a :
  RunPeriodicWatch ticks st0 a0 [] = (tr, st, a) -> watched st0 a0 tr st a.
Proof. apply RunPeriodicWatch_watched. constructor. Qed.

(** Everything a poll can do, as one case analysis. *)
Lemma Apply_inv w st a ev st' a' :
  Apply w st a = (ev, st', a') ->
  hashPolicy st' = hashPolicy st /\ pinnedHash st' = pinnedHash st /\
  match called ev with
  | None => lastETag st' = lastETag st /\ lastHash st' = lastHash st /\ a' = a
  | Some d =>
      ValidateHash (hashPolicy st) (pinnedHash st) (ComputeSHA256 d) (lastHash st)
        (ev_etag ev) (lastETag st) = Ok tt /\
      (exists fc, fetched ev = Ok fc /\ Data fc = Some d) /\
      match ret ev with
      | Ok _ => lastETag st' = ev_etag ev /\ lastHash st' = ComputeSHA256 d
      | Err _ => lastETag st' = "" /\ lastHash st' = lastHash st
      end
  end.
Proof.
  unfold Apply. destruct (Fetch w (source st)) as [[fc|e] s']; [|by intros; simplify_eq/=].
  destruct (Data fc) as [d|] eqn:Hd; [|by intros; simplify_eq/=].
  destruct (ValidateHash _ _ _ _ _ _) as [[]|e] eqn:Hv; [|by intros; simplify_eq/=].
  destruct (_ && _); [by intros; simplify_eq/=|].
  destruct (applyFn a d) as [[c|e] a1]; intros; simplify_eq/=; repeat split; eauto.
Qed.

(** The event records what the source answered, and the source's state moves on. *)
Lemma Apply_fetched w st a ev st' a' :
  Apply w st a = (ev, st', a') -> Fetch w (source st) = (fetched ev, source st').
Proof.
  unfold Apply. destruct (Fetch w (source st)) as [[fc|e] s']; [|by intros; simplify_eq/=].
  destruct (Data fc) as [d|] eqn:Hd; [|by intros; simplify_eq/=].
  destruct (ValidateHash _ _ _ _ _ _) as [[]|e]; [|by intros; simplify_eq/=].
  destruct (_ && _); [by intros; simplify_eq/=|].
  destruct (applyFn a d) as [[c|e] a1]; intros; by simplify_eq/=.
Qed.

(** A poll that fetches nothing new leaves the service alone. *)
Lemma Apply_no_data w st a e s' :
  Fetch w (source st) = (Ok (MkFetched None e), s') ->
  called (Apply w st a).1.1 = None /\ ret (Apply w st a).1.1 = Ok false /\ (Apply w st a).2 = a.
Proof. intros H. unfold Apply. rewrite H. done. Qed.

Lemma watched_config st0 a0 tr st a :
  watched st0 a0 tr st a -> hashPolicy st = hashPolicy st0 /\ pinnedHash st = pinnedHash st0.
Proof.
  induction 1 as [|tr st a w ev st' a' _ IH H]; [done|].
  apply Apply_inv in H as (-> & -> & _). done.
Qed.

Lemma watch_inv_step tr w st a ev st' a' :
  watch_inv tr st -> Apply w st a = (ev, st', a') -> watch_inv (ev :: tr) st'.
Proof.
  intros Hi H. apply Apply_inv in H as (_ & _ & H).
  unfold watch_inv in *. simpl. destruct (called ev) as [d|].
  - destruct H as (_ & _ & H). destruct (ret ev) as [?|?]; simpl; [naive_solver|].
    destruct H as [-> ->]. destruct (last_good tr) as [[d0 e0]|]; naive_solver.
  - destruct H as (-> & -> & _). done.
Qed.

Lemma watch_inv_watched st0 a0 tr st a :
  lastHash st0 = "" -> lastETag st0 = "" -> watched st0 a0 tr st a -> watch_inv tr st.
Proof.
  intros H0 H1. induction 1; [done|]. eauto using watch_inv_step.
Qed.

Lemma last_good_recorded tr st :
  watch_inv tr st -> forall d e, last_good tr = Some (d, e) ->
  lastHash st = ComputeSHA256 d /\ lastETag st = (if failed_since tr then "" else e) /\ lastHash st <> "".
Proof.
  unfold watch_inv. intros Hi d e He. rewrite He in Hi. destruct Hi as [Hh ->].
  rewrite Hh. auto using ComputeSHA256_nonempty.
Qed.

(** A document other than the running one, under trust on first use: refused
    exactly when it comes under the recorded version. *)
Lemma Apply_tofu_other w st a d d0 e s' :
  hashPolicy st = HashTOFU -> lastHash st = ComputeSHA256 d0 -> ComputeSHA256 d <> ComputeSHA256 d0 ->
  Fetch w (source st) = (Ok (MkFetched (Some d) e), s') ->
  called (Apply w st a).1.1 = (if decide (e = lastETag st) then None else Some d) /\
  (e = lastETag st -> (Apply w st a).2 = a /\
     exists h, (Apply w st a).1.1 = MkEvent (Ok (MkFetched (Some d) e)) None (Err (HashValidation h))).
Proof.
  intros Hp Hh Hd Hf. unfold Apply. rewrite Hf, Hp, Hh. cbn -[ComputeSHA256].
  rewrite (proj2 (String.eqb_neq _ _) (ComputeSHA256_nonempty d0)),
    (proj2 (String.eqb_neq _ _) Hd). cbn -[ComputeSHA256].
  destruct (decide (e = lastETag st)) as [->|Hne].
  - rewrite eqb_refl_true. cbn. eauto.
  - rewrite (proj2 (String.eqb_neq _ _) Hne), andb_false_r. cbn.
    by destruct (applyFn a d) as [[?|?] ?].
Qed.

(** A poll whose fetch is not the running document reaches the service. *)
Lemma Apply_calls w st a fc d s' :
  Fetch w (source st) = (Ok fc, s') -> Data fc = Some d ->
  ValidateHash (hashPolicy st) (pinnedHash st) (ComputeSHA256 d) (lastHash st)
    (ETag fc) (lastETag st) = Ok tt ->
  ETag fc = "" \/ ETag fc <> lastETag st \/ ComputeSHA256 d <> lastHash st ->
  called (Apply w st a).1.1 = Some d.
Proof.
  intros Hf Hd Hv Hne. unfold Apply. rewrite Hf. cbn. rewrite Hd, Hv.
  replace (_ && _) with false; [by destruct (applyFn a d) as [[?|?] ?]|].
  symmetry. apply not_true_iff_false. rewrite !andb_true_iff, negb_true_iff, !String.eqb_eq, String.eqb_neq.
  naive_solver.
Qed.

End Watch.

(** ** Which documents reach the service *)
Section Theorems.
Context {W S E A AE : Type} {src : ConfigSource W S E}.
Variable applyFn : A -> string -> result AE bool * A.

(** Pinned hash: whatever the source delivers, tick after tick, the
    service is only ever handed documents with the operator's SHA-256. *)
Theorem pinned_only (st0 : ConfigWatcher S) a0 ticks tr st a :
  hashPolicy st0 = HashPinned ->
  RunPeriodicWatch applyFn ticks st0 a0 [] = (tr, st, a) ->
  Forall (fun d => ComputeSHA256 d = pinnedHash st0) (calls tr).
Proof.
  intros Hp Hr. pose proof (run_watched _ _ _ _ _ _ _ Hr) as Hw.
  clear Hr. induction Hw as [|tr st a w ev st' a' Hw IH Ha]; [constructor|].
  apply watched_config in Hw as [Hpol Hpin]. apply Apply_inv in Ha as (_ & _ & Ha).
  unfold calls in *. simpl. destruct (called ev) as [d|]; [|done].
  constructor; [|done]. destruct Ha as [Hv _].
  rewrite Hpol, Hp, Hpin in Hv. by apply ValidateHash_pinned in Hv.
Qed.

(** C3. Trust on first use, exactly: in any run of a watcher with the default
    policy, let (d0, e0) be the last document the service accepted and the
    version it came under.  A later poll that delivers a document with another
    hash is refused, the service not called, exactly when it comes under the
    recorded version, and handed to the service otherwise.  The recorded version
    is e0 as long as the service rejected nothing since; after a rejection it is
    blank, and then only unversioned documents are refused. *)
Theorem tofu_no_silent_swap (s : S) a0 ticks ev tr st a d e d0 e0 :
  RunPeriodicWatch applyFn ticks (NewConfigWatcher s []) a0 [] = (ev :: tr, st, a) ->
  last_good tr = Some (d0, e0) ->
  fetched ev = Ok (MkFetched (Some d) e) -> ComputeSHA256 d <> ComputeSHA256 d0 ->
  called ev = (if decide (e = if failed_since tr then "" else e0) then None else Some d).
Proof.
  intros Hr Hl Hf Hd. pose proof (run_watched _ _ _ _ _ _ _ Hr) as Hw.
  inversion Hw as [|tr' st1 a1 w ev' st' a' Hw1 Ha]; subst.
  destruct (watched_config _ _ _ _ _ _ Hw1) as [Hpol _].
  eapply watch_inv_watched in Hw1; [|done..].
  destruct (last_good_recorded _ _ Hw1 _ _ Hl) as (Hh & Het & _).
  pose proof (Apply_fetched _ _ _ _ _ _ _ Ha) as Hsrc. rewrite Hf in Hsrc.
  destruct (Apply_tofu_other applyFn w st1 a1 d d0 e (source st)) as [Hc _]; try done.
  rewrite Ha, Het in Hc. exact Hc.
Qed.

(** A failed application is retried: when the service rejects a document,
    the next poll that delivers the same document under the same non-empty
    version hands it to the service again, under every hash policy. *)
Theorem failed_apply_retried (st0 : ConfigWatcher S) a0 ticks ev tr st a d err w e s' :
  RunPeriodicWatch applyFn ticks st0 a0 [] = (ev :: tr, st, a) ->
  called ev = Some d -> ret ev = Err err ->
  ev_etag ev = e -> e <> "" ->
  Fetch w (source st) = (Ok (MkFetched (Some d) e), s') ->
  called (Apply applyFn w st a).1.1 = Some d.
Proof.
  intros Hr Hc Hret He Hne Hf. pose proof (run_watched _ _ _ _ _ _ _ Hr) as Hw.
  inversion Hw as [|tr' st1 a1 w1 ev' st' a' Hw1 Ha]; subst.
  apply Apply_inv in Ha as (Hpol & Hpin & Ha). rewrite Hc, Hret in Ha.
  destruct Ha as (Hv & _ & Het & Hh).
  eapply Apply_calls; [exact Hf|done| |rewrite Het; by right; left].
  cbn [ETag]. rewrite Hpol, Hpin, Het, Hh. unfold ValidateHash in *.
  destruct (_ =? HashDisabled)%Z; [done|]. destruct (_ =? HashTOFU)%Z; [|done].
  destruct (lastHash st1 ==s ""); [done|]. by rewrite (proj2 (String.eqb_neq _ _) Hne).
Qed.

(** Trust on first use against a source without version identifiers: once
    a document has been applied, every document with another hash is refused
    and the service is not called, so updates never arrive. *)
Theorem tofu_unversioned_update_refused (s : S) a0 ticks tr st a d0 w d s' :
  RunPeriodicWatch applyFn ticks (NewConfigWatcher s []) a0 [] = (tr, st, a) ->
  last_good tr = Some (d0, "") -> ComputeSHA256 d <> ComputeSHA256 d0 ->
  Fetch w (source st) = (Ok (MkFetched (Some d) ""), s') ->
  exists h, (Apply applyFn w st a).1.1 = MkEvent (Ok (MkFetched (Some d) "")) None (Err (HashValidation h))
            /\ (Apply applyFn w st a).2 = a.
Proof.
  intros Hr Hl Hd Hf. pose proof (run_watched _ _ _ _ _ _ _ Hr) as Hw.
  destruct (watched_config _ _ _ _ _ _ Hw) as [Hpol _].
  eapply watch_inv_watched in Hw; [|done..].
  destruct (last_good_recorded _ _ Hw _ _ Hl) as (Hh & Het & _).
  destruct (Apply_tofu_other applyFn w st a d d0 "" s') as [_ Hc]; try done.
  destruct Hc as [Ha [h Hh']]; [by destruct (failed_since tr)|]. eauto.
Qed.

Lemma run_stutter w (st : ConfigWatcher S) a ev n tr :
  Apply applyFn w st a = (ev, st, a) ->
  RunPeriodicWatch applyFn (replicate n w) st a tr = ((replicate n ev ++ tr)%list, st, a).
Proof.
  intros H. revert tr; induction n as [|n IH]; intros tr; simpl; [done|].
  rewrite H, IH. f_equal. f_equal. change (ev :: replicate n ev ++ tr)%list with (replicate (1 + n) ev ++ tr)%list.
  rewrite Nat.add_comm, replicate_add, <- app_assoc. done.
Qed.

End Theorems.

(** ** The watcher on an HTTP source

    A server that follows the protocol of RFC 9110 for a fixed document:
    304 when [If-None-Match] carries the document's ETag, the document otherwise. *)
Definition etag_server (body etag : string) (req : HTTPSource.Request) : option HTTPSource.Response :=
  if HTTPSource.header_get "If-None-Match" (HTTPSource.req_header req) ==s etag
  then Some (HTTPSource.MkResponse 304 ∅ None)
  else Some (HTTPSource.MkResponse 200 (HTTPSource.header_set "ETag" etag ∅) (Some body)).

Definition etag_world (body etag : string) : HTTPSource.World :=
  HTTPSource.MkWorld (fun _ => true) (etag_server body etag).

Lemma header_get_set k v h : HTTPSource.header_get k (HTTPSource.header_set k v h) = v.
Proof. unfold HTTPSource.header_get, HTTPSource.header_set. by rewrite lookup_insert_eq. Qed.

Lemma http_first_fetch u body etag :
  etag <> "" -> (Len body <= HTTPSource.maxConfigSize)%Z ->
  HTTPSource.Fetch (etag_world body etag) (HTTPSource.NewHTTPSource u []) =
  (Ok (MkFetched (Some body) etag), HTTPSource.MkHTTPSource u [] etag false).
Proof.
  intros He Hlen. unfold HTTPSource.Fetch, etag_world, etag_server. cbn -[Len HTTPSource.maxConfigSize].
  change (HTTPSource.header_get "If-None-Match" ∅) with "".
  rewrite (proj2 (String.eqb_neq "" etag)) by done. cbn -[Len HTTPSource.maxConfigSize].
  rewrite LimitRead_all by lia.
  replace (HTTPSource.maxConfigSize <? _)%Z with false by (symmetry; apply Z.ltb_ge; lia).
  rewrite header_get_set. by rewrite (proj2 (String.eqb_neq etag "")).
Qed.

Lemma http_next_fetch u body etag :
  etag <> "" ->
  let s := HTTPSource.MkHTTPSource u [] etag false in
  HTTPSource.Fetch (etag_world body etag) s = (Ok (MkFetched None etag), s).
Proof.
  intros He s. unfold HTTPSource.Fetch, etag_world, etag_server. cbn.
  rewrite (proj2 (String.eqb_neq etag "")) by done. cbn.
  rewrite header_get_set, eqb_refl_true. done.
Qed.

(** The retry does not survive a conditional source: when the service
    rejects the first document of a server that honours [If-None-Match], the
    HTTP source has already remembered its ETag, every later poll is answered
    304, and the document is never handed to the service again while it stays
    the current one, although the watcher cleared its own ETag to retry. *)
Theorem http_failed_apply_not_retried {A AE} (applyFn : A -> string -> result AE bool * A)
    u body etag a0 a1 e n :
  etag <> "" -> (Len body <= HTTPSource.maxConfigSize)%Z ->
  applyFn a0 body = (Err e, a1) ->
  exists tr st,
    RunPeriodicWatch applyFn (replicate (S n) (etag_world body etag))
      (NewConfigWatcher (HTTPSource.NewHTTPSource u []) []) a0 [] = (tr, st, a1)
    /\ calls tr = [body]
    /\ Forall (fun ev => ret ev = Ok false) (take n tr).
Proof.
  intros He Hlen Ha. cbn [replicate RunPeriodicWatch].
  set (src1 := HTTPSource.MkHTTPSource u [] etag false).
  set (st1 := MkWatcher src1 "" "" HashTOFU "").
  set (ev0 := MkEvent (E := HTTPSource.err) (Ok (MkFetched (Some body) etag)) (Some body) (Err (ApplyingConfig e))).
  assert (Apply applyFn (etag_world body etag) (NewConfigWatcher (HTTPSource.NewHTTPSource u []) []) a0
          = (ev0, st1, a1)) as ->.
  { unfold Apply, Fetch, http_source. cbn [source NewConfigWatcher fold_left].
    rewrite http_first_fetch by done. cbn -[ComputeSHA256 String.eqb].
    rewrite (proj2 (String.eqb_neq etag "")) by done. cbn. by rewrite Ha. }
  set (ev1 := MkEvent (E := HTTPSource.err) (AE := AE) (Ok (MkFetched None etag)) None (Ok false)).
  rewrite (run_stutter applyFn _ st1 a1 ev1).
  2:{ unfold Apply, Fetch, http_source. cbn [source st1].
      unfold src1. by rewrite http_next_fetch. }
  exists (replicate n ev1 ++ [ev0])%list, st1. split; [done|]. split.
  - unfold calls. rewrite omap_app. replace (omap called (replicate n ev1)) with (@nil string); [done|].
    clear; induction n; simpl; auto.
  - rewrite take_app_length' by (symmetry; apply length_replicate). apply Forall_replicate. done.
Qed.

(** ** Witnesses

    A source whose fetches are scripted, and a service that counts and
    rejects the document "bad". *)
Definition script := list (result unit FetchedConfig).

#[local] Instance script_source : ConfigSource (result unit FetchedConfig) unit unit :=
  fun w s => (w, s).

Definition service (n : nat) (d : string) : result unit bool * nat :=
  if d ==s "bad" then (Err tt, n) else (Ok true, S n).

Definition got (d e : string) : result unit FetchedConfig := Ok (MkFetched (Some d) e).

Definition pinned_watcher : ConfigWatcher unit :=
  NewConfigWatcher tt [WithHashPolicy HashPinned; WithPinnedHash (ComputeSHA256 "x")].
Definition pinned_ticks := [got "x" "1"; got "y" "1"; got "x" "2"].
Definition run ticks (st : ConfigWatcher unit) := RunPeriodicWatch service ticks st 0 [].

Lemma run_eta ticks st : run ticks st = ((run ticks st).1.1, (run ticks st).1.2, (run ticks st).2).
Proof. by destruct (run ticks st) as [[? ?] ?]. Qed.

Lemma pinned_only_witness :
  calls (run pinned_ticks pinned_watcher).1.1 = ["x"; "x"] /\
  Forall (fun d => ComputeSHA256 d = pinnedHash pinned_watcher) (calls (run pinned_ticks pinned_watcher).1.1).
Proof.
  split; [vm_compute; reflexivity|].
  eapply (pinned_only service pinned_watcher 0 pinned_ticks); [reflexivity|exact (run_eta pinned_ticks pinned_watcher)].
Defined.

Definition fresh_watcher : ConfigWatcher unit := NewConfigWatcher tt [].

(** Both sides of the rule: "y" under the version of the accepted "x" is
    refused; after the service rejected "bad" it goes through. *)
Definition swap_ticks := [got "x" "v1"; got "y" "v1"].
Definition late_swap_ticks := [got "x" "v1"; got "bad" "v2"; got "y" "v1"].

Lemma tofu_no_silent_swap_witness :
  exists ev, head (run swap_ticks fresh_watcher).1.1 = Some ev /\ called ev = None.
Proof.
  set (r := run swap_ticks fresh_watcher).
  destruct r as [[[|ev tr] st] a] eqn:Er; [vm_compute in Er; discriminate|].
  exists ev. split; [done|].
  assert (last_good tr = Some ("x", "v1") /\ failed_since tr = false /\ fetched ev = got "y" "v1")
    as (Hl & Hs & Hf) by (vm_compute in Er; simplify_eq; vm_compute; done).
  assert (called ev = (if decide ("v1" = if failed_since tr then "" else "v1") then None else Some "y")) as Hc.
  { refine (tofu_no_silent_swap service tt 0 swap_ticks ev tr st a "y" "v1" "x" "v1" Er Hl Hf _).
    vm_compute. discriminate. }
  rewrite Hs in Hc. exact Hc.
Defined.

(** A rejected document disarms the check: version v1 of "x" runs, the service
    rejects version v2, and then a different body under v1, the very swap the
    policy is meant to detect, is handed to the service and accepted. *)
Lemma tofu_swap_after_rejection :
  calls (run late_swap_ticks fresh_watcher).1.1 = ["y"; "bad"; "x"] /\
  last_good (run late_swap_ticks fresh_watcher).1.1 = Some ("y", "v1").
Proof. vm_compute. done. Qed.

Lemma failed_apply_retried_witness :
  called (Apply service (got "bad" "v1") (run [got "bad" "v1"] fresh_watcher).1.2 0).1.1 = Some "bad".
Proof.
  refine (failed_apply_retried service fresh_watcher 0 [got "bad" "v1"]
    (MkEvent (got "bad" "v1") (Some "bad") (Err (ApplyingConfig tt))) []
    (run [got "bad" "v1"] fresh_watcher).1.2 0
    "bad" (ApplyingConfig tt) (got "bad" "v1") "v1" tt _ _ _ _ _ _); [..|discriminate|]; vm_compute; reflexivity.
Defined.

Lemma tofu_unversioned_update_refused_witness :
  exists h, (Apply service (got "new" "") (run [got "old" ""] fresh_watcher).1.2 1).1.1
      = MkEvent (got "new" "") None (Err (HashValidation h))
    /\ (Apply service (got "new" "") (run [got "old" ""] fresh_watcher).1.2 1).2 = 1.
Proof.
  refine (tofu_unversioned_update_refused service tt 0 [got "old" ""] (run [got "old" ""] fresh_watcher).1.1
    (run [got "old" ""] fresh_watcher).1.2 1 "old" (got "new" "") "new" tt _ _ _ _);
    [vm_compute; reflexivity|vm_compute; reflexivity|vm_compute; discriminate|reflexivity].
Defined.

Lemma http_failed_apply_not_retried_witness :
  exists tr st,
    RunPeriodicWatch service (replicate 4 (etag_world "bad" "v1"))
      (NewConfigWatcher (HTTPSource.NewHTTPSource "https://cfg" []) []) 0 [] = (tr, st, 0)
    /\ calls tr = ["bad"]
    /\ Forall (fun ev => ret ev = Ok false) (take 3 tr).
Proof.
  apply (http_failed_apply_not_retried service "https://cfg" "bad" "v1" 0 0 tt 3);
    [discriminate|vm_compute; discriminate|reflexivity].
Defined.
