(* ===== verification/Manifest.v ===== *)
(** * Manifests and source construction (src/configsource)

    manifest.go, source_manifest.go and builder.go: the artifact-pointer
    document, its validation, the source that resolves a service entry through
    it, and the construction of a source from flags.

    [json.Unmarshal] into a [Manifest] is an argument ([unmarshal]), and so are
    the two operations of the object-store client the code calls
    ([s3store.NewClient] and [GetObject]): the theorems hold for every choice.
    Services are a finite map; where the code returns the first error met in
    Go's unspecified iteration order, the model takes one order and the
    theorems only speak about whether there is an error. *)
From S2P Require Import Prelude GoStrings Sha256 Secret ConfigSource Watcher.
Import Sha256.
Local Open Scope string_scope.

(** ** The document (manifest.go) *)
Record ChecksumInfo := MkChecksum { Algorithm : string; Value : string }.
Record ConfigResource := MkResource {
  Provider : string; Path : string; Bucket : string; Region : string; Endpoint : string;
  Checksum : option ChecksumInfo;
  Headers : list (string * string);
  Meta : list (string * string) }.
Record ServiceManifest := MkService {
  Version : string; Active : option bool; Config : ConfigResource }.
Record Manifest := MkManifest {
  ManifestVersion : string; Environment : string; UpdatedAt : string; TraceID : string;
  Services : gmap string ServiceManifest }.

Definition IsActive (sm : ServiceManifest) : bool :=
  match Active sm with None => true | Some b => b end.

Inductive ResourceErr :=
| RequiresBucket | RequiresPath | ProviderRequired | UnsupportedProvider (p : string)
| ChecksumAlgorithmRequired | ChecksumValueRequired | UnsupportedAlgorithm (a : string).

Definition ValidateChecksum (c : option ChecksumInfo) : result ResourceErr unit :=
  match c with
  | None => Ok tt
  | Some ci =>
      if Algorithm ci ==s "" then Err ChecksumAlgorithmRequired
      else if Value ci ==s "" then Err ChecksumValueRequired
      else if Algorithm ci !=s "sha256" then Err (UnsupportedAlgorithm (Algorithm ci))
      else Ok tt
  end.

Definition Validate (cr : ConfigResource) : result ResourceErr unit :=
  let? _ :=
    if Provider cr ==s "s3" then
      if Bucket cr ==s "" then Err RequiresBucket
      else if Path cr ==s "" then Err RequiresPath else Ok tt
    else if (Provider cr ==s "file") || (Provider cr ==s "http") then
      if Path cr ==s "" then Err RequiresPath else Ok tt
    else if Provider cr ==s "" then Err ProviderRequired
    else Err (UnsupportedProvider (Provider cr)) in
  ValidateChecksum (Checksum cr).

Inductive ManifestErr :=
| BadJSON | UnsupportedVersion (v : string) | NoServices
| ServiceVersionRequired (name : string) | ServiceConfig (name : string) (e : ResourceErr).

Definition supportedManifestVersions : list string := ["1"; "1.0"; "1.1"].

Definition validate_service (entry : string * ServiceManifest) : result ManifestErr unit :=
  let '(name, svc) := entry in
  if Version svc ==s "" then Err (ServiceVersionRequired name)
  else map_err (ServiceConfig name) (Validate (Config svc)).

Definition ParseManifest (unmarshal : string -> option Manifest) (data : string)
  : result ManifestErr Manifest :=
  match unmarshal data with
  | None => Err BadJSON
  | Some m =>
      if negb (existsb (String.eqb (ManifestVersion m)) supportedManifestVersions)
      then Err (UnsupportedVersion (ManifestVersion m))
      else if Nat.eqb (size (Services m)) 0 then Err NoServices
      else let? _ := first_err validate_service (map_to_list (Services m)) in Ok m
  end.

Inductive LookupErr := NotFound (name : string) (available : list string) | Inactive (name version : string).

Definition LookupService (m : Manifest) (name : string) : result LookupErr ServiceManifest :=
  match Services m !! name with
  | None => Err (NotFound name (map fst (map_to_list (Services m))))
  | Some svc => if negb (IsActive svc) then Err (Inactive name (Version svc)) else Ok svc
  end.

(** ** The object-store client, as far as these files use it *)
Record AuthConfig := MkAuth {
  AuthMode : string; IAMToken : Secret.t; OAuthToken : Secret.t; SAKeyFile : string;
  AccessKeyID : Secret.t; SecretAccessKey : Secret.t }.
Record S3Config := MkS3Config {
  cfg_Bucket : string; cfg_Endpoint : string; cfg_Region : string; cfg_Auth : AuthConfig }.

(** The outside world of a resolved source: file system, HTTP, object store. *)
Record World := MkWorld {
  w_fs : FileSource.FS;
  w_http : HTTPSource.World;
  w_s3_new : S3Config -> bool;
  w_s3_get : S3Config -> string -> result unit S3Source.Object }.

(** ** Resolved sources (source_manifest.go) *)
Inductive Resolved :=
| RFile (s : FileSource.t)
| RS3 (c : S3Config) (s : S3Source.t)
| RHTTP (s : HTTPSource.t).

Inductive ResolvedErr :=
| RFileErr (e : FileSource.err) | RS3Err (key : string) | RHTTPErr (e : HTTPSource.err).

Definition fetch_resolved (w : World) (r : Resolved) : result ResolvedErr FetchedConfig * Resolved :=
  match r with
  | RFile s => let '(f, s') := FileSource.Fetch (w_fs w) s in (map_err RFileErr f, RFile s')
  | RS3 c s =>
      let '(f, s') := S3Source.Fetch (w_s3_get w c) s in
      (map_err (fun ke => RS3Err (fst ke)) f, RS3 c s')
  | RHTTP s => let '(f, s') := HTTPSource.Fetch (w_http w) s in (map_err RHTTPErr f, RHTTP s')
  end.

Inductive BuildErr := S3ClientErr | UnsupportedManifestProvider (p : string).

Definition buildSourceFromResource (w : World) (cr : ConfigResource) (auth : AuthConfig)
  : result BuildErr Resolved :=
  if Provider cr ==s "file" then Ok (RFile (FileSource.NewFileSource (Path cr)))
  else if Provider cr ==s "s3" then
    let endpoint := if Endpoint cr ==s "" then "https://storage.yandexcloud.net" else Endpoint cr in
    let region := if Region cr ==s "" then "ru-central1" else Region cr in
    let c := MkS3Config (Bucket cr) endpoint region auth in
    if w_s3_new w c then Ok (RS3 c (S3Source.NewS3Source (Path cr))) else Err S3ClientErr
  else if Provider cr ==s "http" then
    let url := if Endpoint cr !=s "" then Endpoint cr ++ Path cr else Path cr in
    Ok (RHTTP (HTTPSource.NewHTTPSource url (Headers cr)))
  else Err (UnsupportedManifestProvider (Provider cr)).

Definition configResourceEqual (a b : ConfigResource) : bool :=
  (Provider a ==s Provider b) && (Path a ==s Path b) &&
  (Bucket a ==s Bucket b) && (Region a ==s Region b) && (Endpoint a ==s Endpoint b).

Record ManifestSource (SB : Type) := MkManifestSource {
  bootstrap : SB;
  serviceName : string;
  auth : AuthConfig;
  lastVersion : string;
  lastCksum : string;
  resolvedSrc : option Resolved;
  resolvedCR : option ConfigResource }.
Arguments MkManifestSource {SB} _ _ _ _ _ _ _.
Arguments bootstrap {SB} _.
Arguments serviceName {SB} _.
Arguments auth {SB} _.
Arguments lastVersion {SB} _.
Arguments lastCksum {SB} _.
Arguments resolvedSrc {SB} _.
Arguments resolvedCR {SB} _.

Inductive SourceErr (EB : Type) :=
| FetchingManifest (e : EB)
| ManifestParse (e : ManifestErr)
| ManifestLookup (e : LookupErr)
| Resolving (e : BuildErr)
| FetchingProvider (e : ResolvedErr)
| ChecksumMismatch (expected actual : string).
Arguments FetchingManifest {EB} _.
Arguments ManifestParse {EB} _.
Arguments ManifestLookup {EB} _.
Arguments Resolving {EB} _.
Arguments FetchingProvider {EB} _.
Arguments ChecksumMismatch {EB} _ _.

Section Source.
Context {WB SB EB : Type} {boot : ConfigSource WB SB EB}.
Variable unmarshal : string -> option Manifest.

Abbreviation msource := (ManifestSource SB).

Definition NewManifestSource (b : SB) (name : string) (au : AuthConfig) : msource :=
  MkManifestSource b name au "" "" None None.

Definition with_bootstrap (b : SB) (ms : msource) : msource :=
  MkManifestSource b (serviceName ms) (auth ms) (lastVersion ms) (lastCksum ms)
    (resolvedSrc ms) (resolvedCR ms).
Definition with_resolved (r : Resolved) (cr : ConfigResource) (ms : msource) : msource :=
  MkManifestSource (bootstrap ms) (serviceName ms) (auth ms) (lastVersion ms) (lastCksum ms)
    (Some r) (Some cr).
(** The fetch mutates the cached source it was resolved to. *)
Definition with_src (r : Resolved) (ms : msource) : msource :=
  MkManifestSource (bootstrap ms) (serviceName ms) (auth ms) (lastVersion ms) (lastCksum ms)
    (Some r) (resolvedCR ms).
Definition with_last (v c : string) (ms : msource) : msource :=
  MkManifestSource (bootstrap ms) (serviceName ms) (auth ms) v c (resolvedSrc ms) (resolvedCR ms).

Definition resolveSource (w : World) (cr : ConfigResource) (ms : msource)
  : result BuildErr Resolved * msource :=
  match resolvedSrc ms, resolvedCR ms with
  | Some src, Some old =>
      if configResourceEqual old cr then (Ok src, ms)
      else match buildSourceFromResource w cr (auth ms) with
           | Err e => (Err e, ms)
           | Ok src => (Ok src, with_resolved src cr ms)
           end
  | _, _ =>
      match buildSourceFromResource w cr (auth ms) with
      | Err e => (Err e, ms)
      | Ok src => (Ok src, with_resolved src cr ms)
      end
  end.

Definition cksum_of (cr : ConfigResource) : string :=
  match Checksum cr with Some ci => Value ci | None => "" end.

Definition syntheticETag (etag version cksum : string) : string :=
  "manifest:" ++ etag ++ ":svc:" ++ version ++ ":cksum:" ++ cksum.

(** [Fetch] from the point where the service entry is known (source_manifest.go:101). *)
Definition fetch_entry (w : World) (etag : string) (svc : ServiceManifest) (ms : msource)
  : result (SourceErr EB) FetchedConfig * msource :=
  let cr := Config svc in
  let cksum := cksum_of cr in
  let synth := syntheticETag etag (Version svc) cksum in
  if (Version svc ==s lastVersion ms) && (cksum ==s lastCksum ms) && (lastVersion ms !=s "")
  then (Ok (MkFetched None synth), ms)
  else
    match resolveSource w cr ms with
    | (Err e, ms1) => (Err (Resolving e), ms1)
    | (Ok src, ms1) =>
        let '(f, src') := fetch_resolved w src in
        let ms2 := with_src src' ms1 in
        match f with
        | Err e => (Err (FetchingProvider e), ms2)
        | Ok cf =>
            match Data cf with
            | None => (Ok (MkFetched None synth), ms2)
            | Some d =>
                let ok := match Checksum cr with
                          | Some ci => ComputeSHA256 d ==s Value ci
                          | None => true
                          end in
                if ok then (Ok (MkFetched (Some d) synth), with_last (Version svc) cksum ms2)
                else (Err (ChecksumMismatch cksum (ComputeSHA256 d)), ms2)
            end
        end
    end.

Definition Fetch (wb : WB * World) (ms : msource)
  : result (SourceErr EB) FetchedConfig * msource :=
  let '(f, b') := ConfigSource.Fetch (fst wb) (bootstrap ms) in
  let ms0 := with_bootstrap b' ms in
  match f with
  | Err e => (Err (FetchingManifest e), ms0)
  | Ok fetched =>
      match Data fetched with
      | None => (Ok (MkFetched None (ETag fetched)), ms0)
      | Some data =>
          match ParseManifest unmarshal data with
          | Err e => (Err (ManifestParse e), ms0)
          | Ok manifest =>
              match LookupService manifest (serviceName ms0) with
              | Err e => (Err (ManifestLookup e), ms0)
              | Ok svc => fetch_entry (snd wb) (ETag fetched) svc ms0
              end
          end
      end
  end.

End Source.

(** ** Construction from flags (builder.go) *)
Record SourceParams := MkParams {
  Source : string; File : string;
  S3Bucket : string; S3Key : string; S3Endpoint : string; S3Region : string; S3AuthMode : string;
  S3AccessKeyID : string; S3SecretKey : string; S3IAMToken : string; S3OAuthToken : string;
  S3SAKeyFile : string;
  HTTPURL : string; HTTPHeaders : list (string * string);
  ManifestServiceName : string; ManifestBootstrap : string; ManifestFile : string }.

Definition s3AuthFromParams (p : SourceParams) : AuthConfig :=
  MkAuth (S3AuthMode p) (Secret.NewSecret (S3IAMToken p)) (Secret.NewSecret (S3OAuthToken p))
    (S3SAKeyFile p) (Secret.NewSecret (S3AccessKeyID p)) (Secret.NewSecret (S3SecretKey p)).

Inductive Built :=
| BFile (s : FileSource.t)
| BS3 (c : S3Config) (s : S3Source.t)
| BHTTP (s : HTTPSource.t)
| BManifest (b : Built) (service : string) (au : AuthConfig).

Inductive BuilderErr :=
| FileRequired | BucketRequired | ClientErr | URLRequired | ServiceNameRequired
| BootstrapRequired | ManifestFileRequired | UnsupportedBootstrap (s : string)
| BootstrapErr (e : BuilderErr) | UnknownSource (s : string) | OutOfFuel.

(** The parameters of the bootstrap source: only the fields its kind uses. *)
Definition bootstrapParams (p : SourceParams) : result BuilderErr SourceParams :=
  let b := ManifestBootstrap p in
  if b ==s "file" then
    if ManifestFile p ==s "" then Err ManifestFileRequired
    else Ok (MkParams b (ManifestFile p) "" "" "" "" "" "" "" "" "" "" "" [] "" "" "")
  else if b ==s "s3" then
    Ok (MkParams b "" (S3Bucket p) (S3Key p) (S3Endpoint p) (S3Region p) (S3AuthMode p)
          (S3AccessKeyID p) (S3SecretKey p) (S3IAMToken p) (S3OAuthToken p) (S3SAKeyFile p)
          "" [] "" "" "")
  else if b ==s "http" then
    Ok (MkParams b "" "" "" "" "" "" "" "" "" "" "" (HTTPURL p) (HTTPHeaders p) "" "" "")
  else Err (UnsupportedBootstrap b).

(** The body of [BuildSource], with the recursive call as [rec]. *)
Definition build_body (s3_new : S3Config -> bool) (rec : SourceParams -> result BuilderErr Built)
    (p : SourceParams) : result BuilderErr Built :=
  if Source p ==s "file" then
    if File p ==s "" then Err FileRequired else Ok (BFile (FileSource.NewFileSource (File p)))
  else if Source p ==s "s3" then
    if S3Bucket p ==s "" then Err BucketRequired
    else
      let c := MkS3Config (S3Bucket p) (S3Endpoint p) (S3Region p) (s3AuthFromParams p) in
      if s3_new c then Ok (BS3 c (S3Source.NewS3Source (S3Key p))) else Err ClientErr
  else if Source p ==s "http" then
    if HTTPURL p ==s "" then Err URLRequired
    else Ok (BHTTP (HTTPSource.NewHTTPSource (HTTPURL p) (HTTPHeaders p)))
  else if Source p ==s "manifest" then
    if ManifestServiceName p ==s "" then Err ServiceNameRequired
    else if ManifestBootstrap p ==s "" then Err BootstrapRequired
    else
      let? bp := bootstrapParams p in
      let? b := map_err BootstrapErr (rec bp) in
      Ok (BManifest b (ManifestServiceName p) (s3AuthFromParams p))
  else Err (UnknownSource (Source p)).

(** [BuildSource] calls itself for the bootstrap; [fuel] bounds that recursion. *)
Fixpoint BuildSource (s3_new : S3Config -> bool) (fuel : nat) (p : SourceParams)
  : result BuilderErr Built :=
  match fuel with
  | O => Err OutOfFuel
  | S n => build_body s3_new (BuildSource s3_new n) p
  end.

#[export] Instance manifest_source {WB SB EB} `{!ConfigSource WB SB EB}
    (unmarshal : string -> option Manifest) :
  ConfigSource (WB * World) (ManifestSource SB) (SourceErr EB) := Fetch unmarshal.

(** What the bootstrap source and the manifest say about the service right now. *)
Definition entry_of {WB SB EB} `{!ConfigSource WB SB EB} (unmarshal : string -> option Manifest)
    (wb : WB) (ms : ManifestSource SB) : option ServiceManifest :=
  match fst (ConfigSource.Fetch wb (bootstrap ms)) with
  | Ok (MkFetched (Some data) _) =>
      match ParseManifest unmarshal data with
      | Ok m => match LookupService m (serviceName ms) with Ok svc => Some svc | Err _ => None end
      | Err _ => None
      end
  | _ => None
  end.

(** The provider named by a resource delivered the document [d] in the world [w]:
    the file's contents, the body of the object, or the body of a 200 answer to
    a request for the resource's URL. *)
Definition or_default (s d : string) : string := if decide (s = "") then d else s.
Definition resource_client (au : AuthConfig) (cr : ConfigResource) : S3Config :=
  MkS3Config (Bucket cr) (or_default (Endpoint cr) "https://storage.yandexcloud.net")
    (or_default (Region cr) "ru-central1") au.

Definition serves (w : World) (au : AuthConfig) (cr : ConfigResource) (d : string) : Prop :=
  (Provider cr = "file" /\ FileSource.readFile (w_fs w) (Path cr) = Some d) \/
  (Provider cr = "s3" /\ exists obj,
     w_s3_get w (resource_client au cr) (Path cr) = Ok obj /\ S3Source.Body obj = Some d) \/
  (Provider cr = "http" /\ exists req resp,
     HTTPSource.req_url req = Endpoint cr ++ Path cr /\
     HTTPSource.do_ (w_http w) req = Some resp /\
     HTTPSource.StatusCode resp = 200%Z /\ HTTPSource.Body resp = Some d).

(** The manifest [text] vouches for the document [d]: it decodes to a manifest of
    a known version with an entry for the service that is not switched off, [d] is
    what the provider of that entry delivers, and [d] has the entry's SHA-256 when
    the entry has a checksum. *)
Definition vouched (unmarshal : string -> option Manifest) (name : string) (au : AuthConfig)
    (text : string) (w : World) (d : string) : Prop :=
  exists m svc, unmarshal text = Some m /\ In (ManifestVersion m) ["1"; "1.0"; "1.1"] /\
    Services m !! name = Some svc /\ Active svc <> Some false /\
    (forall ci, Checksum (Config svc) = Some ci -> Algorithm ci = "sha256" /\ ComputeSHA256 d = Value ci) /\
    serves w au (Config svc) d.

(** A resolved source points to the resource [cr]. *)
Definition targets (au : AuthConfig) (cr : ConfigResource) (r : Resolved) : Prop :=
  match r with
  | RFile s => Provider cr = "file" /\ FileSource.path s = Path cr
  | RS3 c s => Provider cr = "s3" /\ c = resource_client au cr /\ S3Source.key s = Path cr
  | RHTTP s => Provider cr = "http" /\ HTTPSource.url s = Endpoint cr ++ Path cr
  end.

(** The cached source points to the resource it was cached for. *)
Definition cache_ok {SB} (ms : ManifestSource SB) : Prop :=
  forall r, resolvedSrc ms = Some r ->
  exists cr, resolvedCR ms = Some cr /\ targets (auth ms) cr r.

(** ** Lemmas *)

Lemma LookupService_ok m name svc :
  LookupService m name = Ok svc <-> Services m !! name = Some svc /\ IsActive svc = true.
Proof.
  unfold LookupService. destruct (Services m !! name) as [s|]; [|iff_done].
  destruct (IsActive s) eqn:E; simpl; iff_done.
Qed.

Lemma validate_service_ok name svc :
  validate_service (name, svc) = Ok tt <-> Version svc <> "" /\ Validate (Config svc) = Ok tt.
Proof.
  unfold validate_service. destruct (String.eqb_spec (Version svc) ""); [iff_done|].
  destruct (Validate (Config svc)) as [[]|]; simpl; iff_done.
Qed.

Lemma Validate_checksum cr ci :
  Validate cr = Ok tt -> Checksum cr = Some ci -> Algorithm ci = "sha256".
Proof.
  unfold Validate. destruct (if Provider cr ==s "s3" then _ else _) as [[]|e]; cbn; [|done].
  intros H Hc. unfold ValidateChecksum in H. rewrite Hc in H.
  destruct (Algorithm ci ==s ""); [done|]. destruct (Value ci ==s ""); [done|].
  by destruct (String.eqb_spec (Algorithm ci) "sha256").
Qed.

Lemma buildSource_of_valid w cr au :
  Validate cr = Ok tt ->
  (exists r, buildSourceFromResource w cr au = Ok r) \/ buildSourceFromResource w cr au = Err S3ClientErr.
Proof.
  unfold Validate, buildSourceFromResource.
  destruct (Provider cr ==s "s3") eqn:E1; destruct (Provider cr ==s "file") eqn:E2;
    destruct (Provider cr ==s "http") eqn:E3; simpl; intros H;
    try destruct (w_s3_new _ _); eauto; case_go.
Qed.

Lemma buildSource_targets w cr au r :
  buildSourceFromResource w cr au = Ok r -> targets au cr r.
Proof.
  unfold buildSourceFromResource.
  destruct (String.eqb_spec (Provider cr) "file"); [by intros [= <-]|].
  destruct (String.eqb_spec (Provider cr) "s3").
  { destruct (w_s3_new _ _); [|done]. intros [= <-]. cbn. split_and?; try done.
    unfold resource_client, or_default.
    f_equal; match goal with |- context [?s ==s ""] => destruct (String.eqb_spec s "") end;
      by case_decide. }
  destruct (String.eqb_spec (Provider cr) "http"); [|done]. intros [= <-]. cbn. split; [done|].
  by destruct (String.eqb_spec (Endpoint cr) "") as [->|].
Qed.

Lemma targets_equal au old cr r :
  configResourceEqual old cr = true -> targets au old r -> targets au cr r.
Proof.
  unfold configResourceEqual. rewrite !andb_true_iff, !String.eqb_eq. intros [[[[Hp Hpa] Hb] Hr] He].
  destruct r; cbn; unfold resource_client; rewrite <- ?Hp, <- ?Hpa, <- ?Hb, <- ?Hr, <- ?He; tauto.
Qed.

Lemma http_fetch_inv w s f s' :
  HTTPSource.Fetch w s = (f, s') ->
  HTTPSource.url s' = HTTPSource.url s /\
  forall fc d, f = Ok fc -> Data fc = Some d ->
  exists req resp, HTTPSource.req_url req = HTTPSource.url s /\ HTTPSource.do_ w req = Some resp /\
    HTTPSource.StatusCode resp = 200%Z /\ HTTPSource.Body resp = Some d.
Proof.
  unfold HTTPSource.Fetch. destruct (negb _); [by intros [= <- <-]|].
  destruct (HTTPSource.do_ _ _) as [resp|] eqn:Hdo; [|by intros [= <- <-]].
  destruct (_ =? 304)%Z; [intros [= <- <-]; split; [done|]; by intros ? ? [= <-]|].
  destruct (Z.eqb_spec (HTTPSource.StatusCode resp) 200); [|by intros [= <- <-]].
  destruct (HTTPSource.Body resp) as [body|] eqn:Hb; [|by intros [= <- <-]].
  destruct (Z.ltb_spec HTTPSource.maxConfigSize (Len (HTTPSource.LimitRead (HTTPSource.maxConfigSize + 1) body)))
    as [|Hle]; [by intros [= <- <-]|].
  rewrite LimitRead_length in Hle. rewrite LimitRead_all by lia.
  match goal with |- context [let '(_, _) := ?p in _] => destruct p as [etag b] end.
  intros [= <- <-]. split; [done|].
  intros ? ? [= <-] [= <-]. by exists (HTTPSource.build_request s), resp.
Qed.

Lemma fetch_resolved_targets w au cr r f r' :
  fetch_resolved w r = (f, r') -> targets au cr r -> targets au cr r'.
Proof.
  destruct r as [s|c s|s]; cbn.
  - unfold FileSource.Fetch. intros. by case_go.
  - unfold S3Source.Fetch. intros. by case_go.
  - destruct (HTTPSource.Fetch _ s) as [f0 s'] eqn:Hf. apply http_fetch_inv in Hf as [Hu _].
    intros [= _ <-]. cbn. by rewrite Hu.
Qed.

Lemma fetch_resolved_serves w au cr r fc r' d :
  fetch_resolved w r = (Ok fc, r') -> Data fc = Some d -> targets au cr r -> serves w au cr d.
Proof.
  unfold serves. destruct r as [s|c s|s]; cbn.
  - unfold FileSource.Fetch. destruct (FileSource.stat _ _) as [[mt sz]|]; [|done].
    destruct (FileSource.readFile _ _) as [x|] eqn:Hx; [|done].
    intros [= <- _] [= <-] [Hp Hpa]. left. by rewrite <- Hpa.
  - unfold S3Source.Fetch. destruct (w_s3_get w c _) as [o|] eqn:Ho; [|done].
    intros [= <- _] Hd (Hp & -> & Hk). right; left. split; [done|]. exists o. by rewrite <- Hk.
  - destruct (HTTPSource.Fetch _ s) as [[f0|] s'] eqn:Hf; [|done]. apply http_fetch_inv in Hf as [_ Hf].
    intros [= <- _] Hd [Hp Hu]. right; right. split; [done|]. rewrite <- Hu. by apply (Hf f0).
Qed.

Section Facts.
Context {WB SB EB : Type} {boot : ConfigSource WB SB EB}.
Variable unmarshal : string -> option Manifest.
Implicit Types ms : ManifestSource SB.

Lemma resolveSource_frame w cr ms r ms' :
  resolveSource w cr ms = (r, ms') ->
  serviceName ms' = serviceName ms /\ auth ms' = auth ms /\
  lastVersion ms' = lastVersion ms /\ lastCksum ms' = lastCksum ms.
Proof. unfold resolveSource. intros. by case_go. Qed.

(** What resolving leaves in the cache, and what it returns. *)
Lemma resolveSource_targets w cr ms r ms' :
  cache_ok ms -> resolveSource w cr ms = (r, ms') ->
  cache_ok ms' /\
  forall src, r = Ok src -> resolvedSrc ms' = Some src /\ targets (auth ms) cr src.
Proof.
  intros Hc. unfold resolveSource.
  assert (forall (r0 : result BuildErr Resolved) (m' : ManifestSource SB), match buildSourceFromResource w cr (auth ms) with
          | Err e => (Err e, ms) | Ok src => (Ok src, with_resolved src cr ms) end = (r0, m') ->
          cache_ok m' /\ forall src, r0 = Ok src -> resolvedSrc m' = Some src /\ targets (auth ms) cr src) as Hb.
  { intros r0 m'. destruct (buildSourceFromResource w cr (auth ms)) as [src|e] eqn:Hb;
      intros; simplify_eq/=; [|by split].
    apply buildSource_targets in Hb. split; [intros ? [= <-]; by exists cr|]. by intros ? [= <-]. }
  destruct (resolvedSrc ms) as [src|] eqn:Hs; [|apply Hb].
  destruct (Hc src Hs) as (old & Ho & Ht). rewrite Ho.
  destruct (configResourceEqual old cr) eqn:He; [|apply Hb].
  intros; simplify_eq/=. split; [done|]. intros ? [= <-]. eauto using targets_equal.
Qed.

(** A branch that delivers no bytes has nothing to prove about them. *)
Ltac no_bytes := intros; simplify_eq/=; split_and?; try done; intros; by simplify_eq/=.

(** The outcomes of [fetch_entry] that matter: name and credentials never
    change, and bytes come out only after the checksum test, from the entry's
    provider, with the entry recorded. *)
Lemma fetch_entry_inv w etag svc ms r ms' :
  cache_ok ms -> fetch_entry (EB := EB) w etag svc ms = (r, ms') ->
  serviceName ms' = serviceName ms /\ auth ms' = auth ms /\ cache_ok ms' /\
  forall fc d, r = Ok fc -> Data fc = Some d ->
    ETag fc = syntheticETag etag (Version svc) (cksum_of (Config svc)) /\
    lastVersion ms' = Version svc /\ lastCksum ms' = cksum_of (Config svc) /\
    (forall ci, Checksum (Config svc) = Some ci -> ComputeSHA256 d = Value ci) /\
    serves w (auth ms) (Config svc) d.
Proof.
  intros Hc. unfold fetch_entry. destruct (_ && _ && _); [no_bytes|].
  destruct (resolveSource _ _ _) as [[src|e] ms1] eqn:Hr;
    destruct (resolveSource_targets _ _ _ _ _ Hc Hr) as [Hc1 Ht];
    apply resolveSource_frame in Hr as (Hn & Ha & _); [|no_bytes].
  destruct (Ht src eq_refl) as [Hs Htg]. clear Ht.
  destruct (fetch_resolved w src) as [f src'] eqn:Hf.
  assert (cache_ok (with_src src' ms1)) as Hc2.
  { intros ? [= <-]. destruct (Hc1 src Hs) as (cr & ? & ?). exists cr. eauto using fetch_resolved_targets. }
  destruct f as [cf|e]; [|no_bytes]. destruct (Data cf) as [d|] eqn:Hd; [|no_bytes].
  assert (serves w (auth ms) (Config svc) d) as Hsv by eauto using fetch_resolved_serves.
  destruct (Checksum (Config svc)) as [ci|] eqn:Hck; [destruct (String.eqb_spec (ComputeSHA256 d) (Value ci))|];
    intros; simplify_eq/=; split_and?; try done;
    intros; simplify_eq/=; split_and?; try done; intros; by simplify_eq/=.
Qed.

Lemma Fetch_inv wb ms r ms' :
  cache_ok ms -> Fetch unmarshal wb ms = (r, ms') ->
  serviceName ms' = serviceName ms /\ auth ms' = auth ms /\ cache_ok ms' /\
  forall fc d, r = Ok fc -> Data fc = Some d ->
    exists svc data e m, entry_of unmarshal (fst wb) ms = Some svc /\
      fst (ConfigSource.Fetch (fst wb) (bootstrap ms)) = Ok (MkFetched (Some data) e) /\
      ParseManifest unmarshal data = Ok m /\ LookupService m (serviceName ms) = Ok svc /\
      ETag fc = syntheticETag e (Version svc) (cksum_of (Config svc)) /\
      lastVersion ms' = Version svc /\ lastCksum ms' = cksum_of (Config svc) /\
      (forall ci, Checksum (Config svc) = Some ci -> ComputeSHA256 d = Value ci) /\
      serves (snd wb) (auth ms) (Config svc) d.
Proof.
  intros Hc. unfold Fetch, entry_of. destruct (ConfigSource.Fetch _ _) as [[[o e]|e] b']; [|no_bytes].
  destruct o as [data|]; cbn [Data ETag]; [|no_bytes].
  destruct (ParseManifest unmarshal data) as [m|] eqn:Hm; [|no_bytes].
  destruct (LookupService m _) as [svc|] eqn:Hl; [|no_bytes].
  intros H. apply fetch_entry_inv in H as (Hn & Ha & Hc' & H); [|done]. simpl in *. split_and?; try done.
  intros fc d Hr Hd. destruct (H fc d Hr Hd) as (? & ? & ? & ? & ?).
  exists svc, data, e, m. split_and?; try done; by rewrite Hm, Hl.
Qed.

(** An entry that is already recorded is answered without touching the provider. *)
Lemma fetch_entry_unchanged w etag svc ms :
  Version svc = lastVersion ms -> cksum_of (Config svc) = lastCksum ms -> Version svc <> "" ->
  fetch_entry (EB := EB) w etag svc ms =
  (Ok (MkFetched None (syntheticETag etag (Version svc) (cksum_of (Config svc)))), ms).
Proof.
  intros Hv Hc Hne. unfold fetch_entry. rewrite Hv in Hne |- *. rewrite Hc.
  by rewrite !eqb_refl_true, (proj2 (String.eqb_neq _ _) Hne).
Qed.

End Facts.

Lemma ParseManifest_inv unmarshal data m :
  ParseManifest unmarshal data = Ok m <->
  unmarshal data = Some m /\ In (ManifestVersion m) supportedManifestVersions /\
  Services m <> ∅ /\
  forall name svc, Services m !! name = Some svc -> Version svc <> "" /\ Validate (Config svc) = Ok tt.
Proof.
  unfold ParseManifest. destruct (unmarshal data) as [m'|]; [|iff_done].
  destruct (existsb _ _) eqn:Hv; simpl.
  2:{ split; [done|]. intros (Hm & Hin & _). simplify_eq.
      apply not_true_iff_false in Hv. destruct Hv. apply existsb_exists.
      exists (ManifestVersion m). split; [done|apply eqb_refl_true]. }
  apply existsb_exists in Hv as (v & Hin & Heq). apply String.eqb_eq in Heq. subst v.
  destruct (Nat.eqb_spec (size (Services m')) 0) as [Hs|Hs].
  { apply map_size_empty_inv in Hs. split; [done|]. intros (? & _ & ? & _). by simplify_eq. }
  destruct (first_err _ _) as [[]|e] eqn:Hf.
  - apply first_err_ok in Hf. rewrite Forall_forall in Hf.
    split; [|by intros ([= ->] & _)]. intros [= <-]. repeat split; try done.
    + intros He. by rewrite He, map_size_empty in Hs.
    + intros. by apply validate_service_ok with name, Hf, elem_of_map_to_list.
    + intros. by apply validate_service_ok with name, Hf, elem_of_map_to_list.
  - split; [done|]. intros ([= <-] & _ & _ & Hall). exfalso.
    assert (first_err validate_service (map_to_list (Services m')) = Ok tt) as Hok; [|by rewrite Hok in Hf].
    apply first_err_ok, Forall_forall. intros [n svc] Hin'. apply validate_service_ok.
    by apply elem_of_map_to_list, Hall in Hin'.
Qed.

Lemma entry_of_version {WB SB EB} `{!ConfigSource WB SB EB} unmarshal (wb : WB) (ms : ManifestSource SB) svc :
  entry_of unmarshal wb ms = Some svc -> Version svc <> "".
Proof.
  unfold entry_of. destruct (ConfigSource.Fetch wb (bootstrap ms)) as [[[[data|] e]|e] b']; [|done..].
  simpl. destruct (ParseManifest unmarshal data) as [m|] eqn:Hm; [|done].
  destruct (LookupService m (serviceName ms)) as [svc'|] eqn:Hl; [|done].
  intros [= <-]. apply LookupService_ok in Hl as [Hl _]. apply ParseManifest_inv in Hm as (_ & _ & _ & Hall).
  by apply Hall in Hl as [? _].
Qed.

(** ** Theorems *)

(** A manifest is accepted exactly when its version is supported, it lists
    at least one service, and every entry has a version and a valid resource;
    resolving an accepted active entry then never meets an unknown provider. *)
Theorem ParseManifest_spec unmarshal data m :
  (ParseManifest unmarshal data = Ok m <->
    unmarshal data = Some m /\ In (ManifestVersion m) supportedManifestVersions /\
    Services m <> ∅ /\
    forall name svc, Services m !! name = Some svc -> Version svc <> "" /\ Validate (Config svc) = Ok tt) /\
  (ParseManifest unmarshal data = Ok m ->
   forall name svc w au, LookupService m name = Ok svc ->
   (exists r, buildSourceFromResource w (Config svc) au = Ok r) \/
   buildSourceFromResource w (Config svc) au = Err S3ClientErr).
Proof.
  split; [apply ParseManifest_inv|]. intros Hm name svc w au Hl.
  apply LookupService_ok in Hl as [Hl _]. apply ParseManifest_inv in Hm as (_ & _ & _ & Hall).
  apply Hall in Hl as [_ Hv]. by apply buildSource_of_valid.
Qed.

Section Theorems.
Context {WB SB EB A AE : Type} {boot : ConfigSource WB SB EB}.
Variable unmarshal : string -> option Manifest.
Variable applyFn : A -> string -> result AE bool * A.

Lemma manifest_watch_inv b name au (st0 : ConfigWatcher (ManifestSource SB)) a0 tr st a :
  source st0 = NewManifestSource b name au ->
  watched (src := manifest_source unmarshal) applyFn st0 a0 tr st a ->
  serviceName (source st) = name /\ auth (source st) = au /\ cache_ok (source st).
Proof.
  intros H0. induction 1 as [|tr st a w ev st' a' _ (Hn & Ha & Hc) H]; [by rewrite H0|].
  apply Apply_fetched, Fetch_inv in H as (-> & -> & Hc' & _); [|done]. done.
Qed.

(** C4. Manifests are enforced end to end: after any run of a watcher over a
    manifest source, under any hash policy and whatever the bootstrap and the
    providers answered, a document that the next poll hands to the service is
    vouched for by the very text the bootstrap delivered in that poll: the text
    decodes to a manifest of a known version with an entry for this service that
    is not switched off, the document is what that entry's provider delivered in
    this poll, and it has the entry's SHA-256 when the entry has a checksum. *)
Theorem manifest_watch_vouched (st0 : ConfigWatcher (ManifestSource SB)) b name au a0 ticks tr st a
    w ev st' a' d :
  source st0 = NewManifestSource b name au ->
  RunPeriodicWatch (src := manifest_source unmarshal) applyFn ticks st0 a0 [] = (tr, st, a) ->
  Apply (src := manifest_source unmarshal) applyFn w st a = (ev, st', a') ->
  called ev = Some d ->
  exists text etag,
    fst (ConfigSource.Fetch (fst w) (bootstrap (source st))) = Ok (MkFetched (Some text) etag) /\
    vouched unmarshal name au text (snd w) d.
Proof.
  intros H0 Hr Ha Hc. apply run_watched in Hr.
  destruct (manifest_watch_inv _ _ _ _ _ _ _ _ H0 Hr) as (Hn & Hau & Hok).
  pose proof (Apply_fetched _ _ _ _ _ _ _ Ha) as Hf.
  apply Fetch_inv in Hf as (_ & _ & _ & Hf); [|done]. apply Apply_inv in Ha as (_ & _ & Ha).
  rewrite Hc in Ha. destruct Ha as (_ & (fc & Hfc & Hd) & _).
  destruct (Hf fc d Hfc Hd) as (svc & text & e & m & _ & Hb & Hm & Hl & _ & _ & _ & Hck & Hs).
  exists text, e. split; [done|]. exists m, svc.
  apply LookupService_ok in Hl as [Hl Hact]. apply ParseManifest_inv in Hm as (Hu & Hv & _ & Hall).
  rewrite Hn in Hl. rewrite Hau in Hs. apply Hall in Hl as Hval. destruct Hval as [_ Hval].
  split_and?; try done.
  - unfold IsActive in Hact. by destruct (Active svc) as [[]|].
  - intros ci Hci. split; [|by apply Hck]. by eapply Validate_checksum.
Qed.

(** A rejected document is not retried through a manifest: the source
    records the entry's version and checksum before the service has accepted
    the document, so while the manifest keeps that version and checksum the
    next poll reports "unchanged" and the service is not called. *)
Theorem manifest_failed_apply_not_retried (st : ConfigWatcher (ManifestSource SB)) a w1 w2 ev st' a' d err svc1 svc2 :
  cache_ok (source st) ->
  Apply (src := manifest_source unmarshal) applyFn w1 st a = (ev, st', a') ->
  called ev = Some d -> ret ev = Err err ->
  entry_of unmarshal (fst w1) (source st) = Some svc1 ->
  entry_of unmarshal (fst w2) (source st') = Some svc2 ->
  Version svc2 = Version svc1 -> cksum_of (Config svc2) = cksum_of (Config svc1) ->
  let '(ev2, _, a2) := Apply (src := manifest_source unmarshal) applyFn w2 st' a' in
  called ev2 = None /\ ret ev2 = Ok false /\ a2 = a'.
Proof.
  intros Hok Ha Hc _ He1 He2 Hv Hk.
  pose proof (Apply_fetched _ _ _ _ _ _ _ Ha) as Hf.
  apply Apply_inv in Ha as (_ & _ & Ha). rewrite Hc in Ha. destruct Ha as (_ & (fc & Hfc & Hd) & _).
  apply Fetch_inv in Hf as (_ & _ & _ & Hf); [|done].
  destruct (Hf fc d Hfc Hd) as (svc & _ & _ & _ & Hsvc & _ & _ & _ & _ & Hlv & Hlc & _).
  rewrite He1 in Hsvc. injection Hsvc as <-.
  pose proof (entry_of_version _ _ _ _ He2) as Hne.
  destruct (Apply (src := manifest_source unmarshal) applyFn w2 st' a') as [[ev2 st2] a2] eqn:H2.
  enough (exists e s2, Fetch unmarshal w2 (source st') = (Ok (MkFetched None e), s2)) as (e & s2 & Hf2).
  { pose proof (Apply_no_data (src := manifest_source unmarshal) applyFn w2 st' a' e s2 Hf2) as Hnd. by rewrite H2 in Hnd. }
  unfold entry_of in He2. unfold Fetch.
  destruct (ConfigSource.Fetch (fst w2) (bootstrap (source st'))) as [[[[data|] e]|e] b']; [|done..].
  cbn in He2 |- *. destruct (ParseManifest unmarshal data) as [m|]; [|done].
  destruct (LookupService m (serviceName (source st'))) as [s|]; [|done]. injection He2 as ->.
  rewrite fetch_entry_unchanged; [eauto| | |done]; simpl; congruence.
Qed.

End Theorems.

(** A checksum mismatch is reported once and then masked: when an HTTP
    provider that honours [If-None-Match] serves a document whose hash is not
    the manifest's, the first poll fails with the mismatch, and from then on
    the cached provider source answers 304, so the poll reports "unchanged"
    without an error although nothing valid was ever fetched. *)
Theorem checksum_mismatch_masked {SB EB : Type} (ms : ManifestSource SB) w svc ci body etag e1 e2 :
  resolvedSrc ms = None -> lastVersion ms = "" ->
  Provider (Config svc) = "http" -> Endpoint (Config svc) = "" -> Headers (Config svc) = [] ->
  Checksum (Config svc) = Some ci -> ComputeSHA256 body <> Value ci ->
  w_http w = etag_world body etag -> etag <> "" ->
  (Len body <= HTTPSource.maxConfigSize)%Z ->
  exists ms1 synth,
    fetch_entry (EB := EB) w e1 svc ms = (Err (ChecksumMismatch (Value ci) (ComputeSHA256 body)), ms1) /\
    fetch_entry (EB := EB) w e2 svc ms1 = (Ok (MkFetched None synth), ms1).
Proof.
  intros Hr Hlv Hp He Hh Hc Hne Hw Hetag Hlen.
  set (src := HTTPSource.NewHTTPSource (Path (Config svc)) []).
  set (src' := HTTPSource.MkHTTPSource (Path (Config svc)) [] etag false).
  exists (with_src (RHTTP src') (with_resolved (RHTTP src) (Config svc) ms)), (syntheticETag e2 (Version svc) (Value ci)).
  assert (forall m : ManifestSource SB, lastVersion m = "" ->
    (Version svc ==s lastVersion m) && (cksum_of (Config svc) ==s lastCksum m) && (lastVersion m !=s "") = false)
    as Hun by (intros m ->; by rewrite andb_false_r).
  split; unfold fetch_entry; rewrite Hun by done.
  - unfold resolveSource. rewrite Hr. unfold buildSourceFromResource. rewrite Hp, He, Hh. cbn.
    rewrite Hw, http_first_fetch by done. cbn. rewrite Hc.
    rewrite (proj2 (String.eqb_neq _ _) Hne). unfold cksum_of. by rewrite Hc.
  - unfold resolveSource. cbn. unfold configResourceEqual. rewrite !eqb_refl_true. cbn.
    rewrite Hw. unfold src'. rewrite http_next_fetch by done. cbn. unfold cksum_of. by rewrite Hc.
Qed.

Definition is_leaf (b : Built) : bool := match b with BManifest _ _ _ => false | _ => true end.

Lemma bootstrapParams_source p bp :
  bootstrapParams p = Ok bp -> In (Source bp) ["file"; "s3"; "http"].
Proof.
  unfold bootstrapParams.
  destruct (String.eqb_spec (ManifestBootstrap p) "file") as [->|]; [intros; case_go; auto|].
  destruct (String.eqb_spec (ManifestBootstrap p) "s3") as [->|]; [intros; simplify_eq/=; auto|].
  destruct (String.eqb_spec (ManifestBootstrap p) "http") as [->|]; [intros; simplify_eq/=; auto|done].
Qed.

Lemma BuildSource_leaf s3_new n p :
  In (Source p) ["file"; "s3"; "http"] ->
  BuildSource s3_new (S n) p = BuildSource s3_new 1 p /\
  BuildSource s3_new 1 p <> Err OutOfFuel /\
  forall b, BuildSource s3_new 1 p = Ok b -> is_leaf b = true.
Proof.
  intros [H|[H|[H|[]]]]; cbn [BuildSource]; unfold build_body; rewrite <- H; cbn; (split; [done|]); repeat case_match; split; try done; intros; by simplify_eq/=.
Qed.

(** Building a source always terminates: the bootstrap of a manifest is a
    file, object-store or HTTP source, never another manifest, so two levels of
    recursion give the answer for every larger depth and it is never the
    out-of-fuel one. *)
Theorem BuildSource_terminates s3_new n p :
  BuildSource s3_new (2 + n) p = BuildSource s3_new 2 p /\
  BuildSource s3_new 2 p <> Err OutOfFuel /\
  forall b name au, BuildSource s3_new 2 p = Ok (BManifest b name au) ->
    is_leaf b = true /\ name = ManifestServiceName p /\ au = s3AuthFromParams p.
Proof.
  change (BuildSource s3_new (2 + n) p) with (build_body s3_new (BuildSource s3_new (S n)) p).
  change (BuildSource s3_new 2 p) with (build_body s3_new (BuildSource s3_new 1) p).
  unfold build_body at 1 2 3 4.
  destruct (Source p ==s "file"); [repeat case_match; done|].
  destruct (Source p ==s "s3"); [repeat case_match; done|].
  destruct (Source p ==s "http"); [repeat case_match; done|].
  destruct (Source p ==s "manifest"); [|done].
  destruct (ManifestServiceName p ==s ""); [done|]. destruct (ManifestBootstrap p ==s ""); [done|].
  destruct (bootstrapParams p) as [bp|e] eqn:Hbp.
  2:{ unfold bootstrapParams in Hbp. by case_go. }
  apply bootstrapParams_source in Hbp. apply (BuildSource_leaf s3_new n) in Hbp as (Hn & Hf & Hl).
  rewrite Hn. destruct (BuildSource s3_new 1 bp) as [b|e]; cbn; [|done].
  split; [done|]. split; [done|]. intros b' name au [= -> <- <-]. auto.
Qed.

(** ** Witnesses: a file bootstrap, one service served over HTTP. *)
Definition demo_resource (ck : string) : ConfigResource :=
  MkResource "http" "https://cfg/svc.yaml" "" "" "" (Some (MkChecksum "sha256" ck)) [] [].
Definition demo_manifest (ck : string) : Manifest :=
  MkManifest "1.0" "prod" "" "" {["svc" := MkService "7" None (demo_resource ck)]}.
Definition demo_unmarshal (s : string) : option Manifest :=
  if s ==s "good" then Some (demo_manifest (ComputeSHA256 "bad"))
  else if s ==s "wrong" then Some (demo_manifest "00") else None.
Definition demo_auth : AuthConfig :=
  MkAuth "" (Secret.NewSecret "") (Secret.NewSecret "") "" (Secret.NewSecret "") (Secret.NewSecret "").
Definition demo_fs (s : string) : FileSource.FS :=
  FileSource.MkFS (fun _ => Some (5, 9)%Z) (fun _ => Some s).
Definition demo_world : World :=
  MkWorld (demo_fs "") (etag_world "bad" "v1") (fun _ => true) (fun _ _ => Err tt).
Definition demo_source : ManifestSource FileSource.t :=
  NewManifestSource (FileSource.NewFileSource "manifest.json") "svc" demo_auth.
Definition demo_watcher := NewConfigWatcher demo_source [].
Definition demo_tick := (demo_fs "good", demo_world).
Definition demo_run ticks :=
  RunPeriodicWatch (src := manifest_source demo_unmarshal) service ticks demo_watcher 0 [].

Lemma demo_run_eta ticks : demo_run ticks = ((demo_run ticks).1.1, (demo_run ticks).1.2, (demo_run ticks).2).
Proof. by destruct (demo_run ticks) as [[? ?] ?]. Qed.

Lemma manifest_watch_vouched_witness :
  exists text etag,
    fst (ConfigSource.Fetch (fst demo_tick) (bootstrap (source demo_watcher))) = Ok (MkFetched (Some text) etag) /\
    vouched demo_unmarshal "svc" demo_auth text (snd demo_tick) "bad".
Proof.
  destruct (Apply (src := manifest_source demo_unmarshal) service demo_tick demo_watcher 0)
    as [[ev st'] a'] eqn:Ha.
  refine (manifest_watch_vouched (boot := file_source) demo_unmarshal service demo_watcher
    (FileSource.NewFileSource "manifest.json") "svc" demo_auth 0 [] [] demo_watcher 0
    demo_tick ev st' a' "bad" eq_refl eq_refl Ha _).
  vm_compute in Ha. by simplify_eq.
Defined.

Definition demo_step st := Apply (src := manifest_source demo_unmarshal) service demo_tick st 0.

Lemma manifest_failed_apply_not_retried_witness :
  called (demo_step demo_watcher).1.1 = Some "bad" /\
  let '(ev2, _, a2) :=
    Apply (src := manifest_source demo_unmarshal) service demo_tick (demo_step demo_watcher).1.2 0 in
  called ev2 = None /\ ret ev2 = Ok false /\ a2 = 0.
Proof.
  split; [vm_compute; reflexivity|].
  pose proof (manifest_failed_apply_not_retried (boot := file_source) demo_unmarshal service
    demo_watcher 0 demo_tick demo_tick (demo_step demo_watcher).1.1 (demo_step demo_watcher).1.2 0
    "bad" (ApplyingConfig tt) (MkService "7" None (demo_resource (ComputeSHA256 "bad")))
    (MkService "7" None (demo_resource (ComputeSHA256 "bad")))) as H.
  apply H; [by intros ? ?|..]; vm_compute; reflexivity.
Defined.

Lemma checksum_mismatch_masked_witness :
  exists ms1 synth,
    fetch_entry (EB := unit) demo_world "e1" (MkService "7" None (demo_resource "00")) demo_source
      = (Err (ChecksumMismatch "00" (ComputeSHA256 "bad")), ms1) /\
    fetch_entry (EB := unit) demo_world "e2" (MkService "7" None (demo_resource "00")) ms1
      = (Ok (MkFetched None synth), ms1).
Proof.
  refine (checksum_mismatch_masked demo_source demo_world (MkService "7" None (demo_resource "00"))
    (MkChecksum "sha256" "00") "bad" "v1" "e1" "e2" _ _ _ _ _ _ _ _ _ _);
    try reflexivity; vm_compute; discriminate.
Defined.
