(* ===== verification/ReadCache.v ===== *)
(** * In-flight sharing and scoped memoization (src/readcache)

    group.go and scope.go.  [Begin], [Finish] and the follower release are the
    critical sections of [Group]; [Scope.Resolve] runs [Group.Do] with a loader
    that reserves, loads and commits an entry.  Goroutines are a list of
    program counters; every mutex-protected region of the source is one
    [action], executed by [exec], and actions of different goroutines
    interleave in any order.  A call record lives in a heap under an identity,
    since tickets are compared by pointer; [c_key] is a ghost field (the key
    the call was created for), and [loaded] is the ghost history of the values
    that providers returned and the scope retained.

    What a provider, a caller's context or a panic does is chosen by the
    action, so the theorems hold for every such behaviour.  The copies made on
    ingress and egress ([copy], [bytes.Clone]) are the identity on values. *)
From S2P Require Import Prelude GoStrings.
Local Open Scope string_scope.

Record Limits := MkLimits { MaxKeys : Z; MaxFollowers : Z; MaxKeyBytes : Z }.
Record ScopeLimits := MkScopeLimits {
  Flights : Limits; MaxEntries : Z; MaxBytes : Z; MaxValueBytes : Z; MaxAge : Z }.

Inductive RErr := ErrCapacity | ErrKey | ErrAborted | ErrCtx | ErrLoad (n : nat).
Abbreviation res := (result RErr string).

(** ** Group (group.go) *)
Record Call := MkCall { c_key : string; outcome : option res; followers : Z }.
Record Group := MkGroup { calls : gmap string nat; heap : gmap nat Call; next : nat }.

Definition NewGroup (l : Limits) : option Group :=
  if ((MaxKeys l <=? 0) || (MaxFollowers l <=? 0) || (MaxKeyBytes l <=? 0))%Z then None
  else Some (MkGroup ∅ ∅ 0).

(** The boolean says whether the caller leads. *)
Definition Begin (l : Limits) (key : string) (g : Group) : result RErr (bool * nat) * Group :=
  if ((Len key =? 0) || (MaxKeyBytes l <? Len key))%Z then (Err ErrKey, g)
  else
    match calls g !! key with
    | Some c =>
        match heap g !! c with
        | Some call =>
            if (MaxFollowers l <=? followers call)%Z then (Err ErrCapacity, g)
            else (Ok (false, c),
                  MkGroup (calls g)
                    (<[c := MkCall (c_key call) (outcome call) (followers call + 1)]> (heap g)) (next g))
        | None => (Err ErrAborted, g) (* a dangling ticket: excluded by the invariant *)
        end
    | None =>
        if (MaxKeys l <=? Z.of_nat (size (calls g)))%Z then (Err ErrCapacity, g)
        else (Ok (true, next g),
              MkGroup (<[key := next g]> (calls g))
                (<[next g := MkCall key None 0]> (heap g)) (S (next g)))
    end.

(** Only the current ticket for the key completes the call. *)
Definition Finish (key : string) (c : nat) (r : res) (g : Group) : bool * Group :=
  if decide (calls g !! key = Some c) then
    match heap g !! c with
    | Some call =>
        (true, MkGroup (delete key (calls g))
                 (<[c := MkCall (c_key call) (Some r) (followers call)]> (heap g)) (next g))
    | None => (false, g)
    end
  else (false, g).

(** The release closure of a follower; [sync.Once] is the caller's program
    counter, which leaves the releasing state. *)
Definition release (c : nat) (g : Group) : Group :=
  match heap g !! c with
  | Some call =>
      MkGroup (calls g) (<[c := MkCall (c_key call) (outcome call) (followers call - 1)]> (heap g)) (next g)
  | None => g
  end.

(** ** Scope (scope.go) *)

(** A goroutine inside [Resolve].  [PClean], [PFinish] and [PAfter] carry the
    loader's result, [None] while a panic unwinds. *)
Inductive pc :=
| PStart (key : string)
| PBegin (key : string)
| PLead (key : string) (c : nat)
| PLoad (key : string) (c : nat)
| PCommit (key : string) (c : nat) (data : string)
| PClean (key : string) (c : nat) (o : option res)
| PFinish (key : string) (c : nat) (o : option res)
| PAfter (key : string) (c : nat) (o : option res)
| PWait (key : string) (c : nat)
| PRelease (key : string) (c : nat) (r : res)
| PDone (key : string) (c : option nat) (o : option res).

(** Lifetime of the scope: [Cancelled] when its context ended, [Cleared] once
    [Close] has emptied it. *)
Inductive phase := Open | Cancelled | Cleared.

Record Scope := MkScope {
  grp : Group;
  entries : gmap string (option string);
  bytes : Z;
  ph : phase;
  threads : list pc;
  loaded : list (string * string) }.

Definition valid_limits (l : ScopeLimits) : bool :=
  negb ((MaxEntries l <=? 0) || (MaxBytes l <=? 0) || (MaxValueBytes l <=? 0)
        || (MaxBytes l <? MaxValueBytes l) || (MaxAge l <=? 0))%Z.

Definition NewScope (l : ScopeLimits) : option Scope :=
  if valid_limits l then
    match NewGroup (Flights l) with
    | Some g => Some (MkScope g ∅ 0 Open [] [])
    | None => None
    end
  else None.

(** What happens next, and to which goroutine. *)
Inductive action :=
| Spawn (key : string)              (* a caller enters Resolve *)
| Check (t : nat)                   (* scope.go:60, the scope is alive *)
| CtxDead (t : nat)                 (* scope.go:60 or group.go:103, a context has ended *)
| BeginA (t : nat)
| Lookup (t : nat)                  (* scope.go:64-74 *)
| LoadErr (t : nat) (n : nat)
| LoadPanic (t : nat)
| LoadOk (t : nat) (data : string) (dead : bool) (* dead: ctx.Err() at scope.go:87 *)
| Commit (t : nat)                  (* scope.go:93-106 *)
| Clean (t : nat)                   (* the deferred delete *)
| FinishA (t : nat)
| After (t : nat)                   (* Do's deferred Finish, then return *)
| WaitDone (t : nat)
| WaitCancel (t : nat)
| ReleaseA (t : nat)
| Cancel                            (* Close's cancel, or expiry *)
| Clear.                            (* Close's critical section *)

Definition set_thread (t : nat) (p : pc) (s : Scope) : Scope :=
  MkScope (grp s) (entries s) (bytes s) (ph s) (<[t := p]> (threads s)) (loaded s).
Definition set_group (g : Group) (s : Scope) : Scope :=
  MkScope g (entries s) (bytes s) (ph s) (threads s) (loaded s).
Definition set_entries (e : gmap string (option string)) (b : Z) (s : Scope) : Scope :=
  MkScope (grp s) e b (ph s) (threads s) (loaded s).
Definition add_loaded (kv : string * string) (s : Scope) : Scope :=
  MkScope (grp s) (entries s) (bytes s) (ph s) (threads s) (kv :: loaded s).

Definition written (o : option res) : res := default (Err ErrAborted) o.

Definition step_begin (l : ScopeLimits) (t : nat) (key : string) (s : Scope) : Scope :=
  match Begin (Flights l) key (grp s) with
  | (Err e, g) => set_thread t (PDone key None (Some (Err e))) (set_group g s)
  | (Ok (true, c), g) => set_thread t (PLead key c) (set_group g s)
  | (Ok (false, c), g) => set_thread t (PWait key c) (set_group g s)
  end.

Definition step_lookup (l : ScopeLimits) (t : nat) (key : string) (c : nat) (s : Scope) : Scope :=
  match entries s !! key with
  | Some (Some v) => set_thread t (PFinish key c (Some (Ok v))) s
  | _ =>
      if (MaxEntries l <=? Z.of_nat (size (entries s)))%Z
      then set_thread t (PFinish key c (Some (Err ErrCapacity))) s
      else set_thread t (PLoad key c) (set_entries (<[key := None]> (entries s)) (bytes s) s)
  end.

Definition step_loaded (l : ScopeLimits) (t : nat) (key : string) (c : nat) (data : string) (dead : bool)
    (s : Scope) : Scope :=
  if dead then set_thread t (PClean key c (Some (Err ErrCtx))) s
  else if (MaxValueBytes l <? Len data)%Z then set_thread t (PClean key c (Some (Err ErrCapacity))) s
  else set_thread t (PCommit key c data) s.

Definition step_commit (l : ScopeLimits) (t : nat) (key : string) (c : nat) (data : string) (s : Scope) : Scope :=
  match ph s with
  | Open =>
      if (MaxBytes l - bytes s <? Len data)%Z
      then set_thread t (PClean key c (Some (Err ErrCapacity))) s
      else set_thread t (PFinish key c (Some (Ok data)))
             (add_loaded (key, data)
                (set_entries (<[key := Some data]> (entries s)) (bytes s + Len data) s))
  | _ => set_thread t (PClean key c (Some (Err ErrCtx))) s
  end.

Definition exec (l : ScopeLimits) (a : action) (s : Scope) : option Scope :=
  match a with
  | Spawn key => Some (MkScope (grp s) (entries s) (bytes s) (ph s) (threads s ++ [PStart key])%list (loaded s))
  | Check t =>
      match threads s !! t, ph s with
      | Some (PStart key), Open => Some (set_thread t (PBegin key) s)
      | _, _ => None
      end
  | CtxDead t =>
      match threads s !! t with
      | Some (PStart key) | Some (PBegin key) => Some (set_thread t (PDone key None (Some (Err ErrCtx))) s)
      | _ => None
      end
  | BeginA t =>
      match threads s !! t with Some (PBegin key) => Some (step_begin l t key s) | _ => None end
  | Lookup t =>
      match threads s !! t with Some (PLead key c) => Some (step_lookup l t key c s) | _ => None end
  | LoadErr t n =>
      match threads s !! t with
      | Some (PLoad key c) => Some (set_thread t (PClean key c (Some (Err (ErrLoad n)))) s)
      | _ => None
      end
  | LoadPanic t =>
      match threads s !! t with
      | Some (PLoad key c) => Some (set_thread t (PClean key c None) s)
      | _ => None
      end
  | LoadOk t data dead =>
      match threads s !! t with
      | Some (PLoad key c) => Some (step_loaded l t key c data dead s)
      | _ => None
      end
  | Commit t =>
      match threads s !! t with
      | Some (PCommit key c data) => Some (step_commit l t key c data s)
      | _ => None
      end
  | Clean t =>
      match threads s !! t with
      | Some (PClean key c o) =>
          Some (set_thread t (PFinish key c o) (set_entries (delete key (entries s)) (bytes s) s))
      | _ => None
      end
  | FinishA t =>
      match threads s !! t with
      | Some (PFinish key c o) =>
          Some (set_thread t (PAfter key c o) (set_group (snd (Finish key c (written o) (grp s))) s))
      | _ => None
      end
  | After t =>
      match threads s !! t with
      | Some (PAfter key c (Some r)) =>
          Some (set_thread t (PDone key (Some c) (Some r))
                  (set_group (snd (Finish key c (Err ErrAborted) (grp s))) s))
      | Some (PAfter key c None) => Some (set_thread t (PDone key (Some c) None) s)
      | _ => None
      end
  | WaitDone t =>
      match threads s !! t with
      | Some (PWait key c) =>
          match heap (grp s) !! c with
          | Some call => match outcome call with
                         | Some r => Some (set_thread t (PRelease key c r) s)
                         | None => None
                         end
          | None => None
          end
      | _ => None
      end
  | WaitCancel t =>
      match threads s !! t with
      | Some (PWait key c) => Some (set_thread t (PRelease key c (Err ErrCtx)) s)
      | _ => None
      end
  | ReleaseA t =>
      match threads s !! t with
      | Some (PRelease key c r) =>
          Some (set_thread t (PDone key (Some c) (Some r)) (set_group (release c (grp s)) s))
      | _ => None
      end
  | Cancel =>
      match ph s with
      | Open => Some (MkScope (grp s) (entries s) (bytes s) Cancelled (threads s) (loaded s))
      | _ => None
      end
  | Clear =>
      match ph s with
      | Open => None
      | _ => Some (MkScope (grp s) ∅ 0 Cleared (threads s) (loaded s))
      end
  end.

Fixpoint run (l : ScopeLimits) (acts : list action) (s : Scope) : option Scope :=
  match acts with
  | [] => Some s
  | a :: acts' => match exec l a s with Some s' => run l acts' s' | None => None end
  end.

(** ** Observations on program counters *)

(** The ticket a goroutine leads, until its [Finish]. *)
Definition leads (p : pc) : option (string * nat) :=
  match p with
  | PLead k c | PLoad k c | PCommit k c _ | PClean k c _ | PFinish k c _ => Some (k, c)
  | _ => None
  end.

(** The goroutine owns the reservation of its key. *)
Definition loading (p : pc) : bool :=
  match p with PLoad _ _ | PCommit _ _ _ | PClean _ _ _ => true | _ => false end.

Definition follows (c : nat) (p : pc) : bool :=
  match p with PWait _ c' | PRelease _ c' _ => Nat.eqb c' c | _ => false end.

(** The ticket a goroutine is or was attached to. *)
Definition ticket (p : pc) : option (string * nat) :=
  match p with
  | PLead k c | PLoad k c | PCommit k c _ | PClean k c _ | PFinish k c _ | PAfter k c _
  | PWait k c | PRelease k c _ | PDone k (Some c) _ => Some (k, c)
  | _ => None
  end.

(** A result that the goroutine has obtained through its ticket. *)
Definition obtained (p : pc) : option res :=
  match p with
  | PAfter _ _ o => Some (written o)
  | PRelease _ _ r => Some r
  | PDone _ (Some _) (Some r) => Some r
  | _ => None
  end.

(** A successful value on its way to the ticket. *)
Definition pending (p : pc) : option string :=
  match p with
  | PFinish _ _ (Some (Ok v)) => Some v
  | PClean _ _ (Some (Ok v)) => Some v
  | _ => None
  end.

Fixpoint count (f : pc -> bool) (l : list pc) : Z :=
  match l with [] => 0 | p :: l' => (if f p then 1 else 0) + count f l' end.

Definition entry_bytes (o : option string) : Z := match o with Some v => Len v | None => 0 end.
Definition total (m : gmap string (option string)) : Z := map_fold (fun _ o z => (entry_bytes o + z)%Z) 0%Z m.

(** ** Invariants *)
Record GInv (l : Limits) (g : Group) (thr : list pc) : Prop := {
  gi_reg : forall k c, calls g !! k = Some c ->
    exists call, heap g !! c = Some call /\ outcome call = None /\ c_key call = k;
  gi_lead : forall t p k c, thr !! t = Some p -> leads p = Some (k, c) -> calls g !! k = Some c;
  gi_uniq : forall t1 t2 p1 p2 x, thr !! t1 = Some p1 -> thr !! t2 = Some p2 ->
    leads p1 = Some x -> leads p2 = Some x -> t1 = t2;
  gi_live : forall k c, calls g !! k = Some c -> exists t p, thr !! t = Some p /\ leads p = Some (k, c);
  gi_foll : forall c call, heap g !! c = Some call ->
    followers call = count (follows c) thr /\ (followers call <= MaxFollowers l)%Z;
  gi_tick : forall t p k c, thr !! t = Some p -> ticket p = Some (k, c) ->
    exists call, heap g !! c = Some call /\ c_key call = k /\
      (outcome call = None -> calls g !! k = Some c) /\
      (forall r, obtained p = Some r -> r = Err ErrCtx \/ outcome call = Some r) /\
      (forall k' c' o, p = PAfter k' c' o -> outcome call = Some (written o));
  gi_next : forall c, is_Some (heap g !! c) -> c < next g;
  gi_keys : (Z.of_nat (size (calls g)) <= MaxKeys l)%Z }.

Record SInv (l : ScopeLimits) (s : Scope) : Prop := {
  si_size : (Z.of_nat (size (entries s)) <= MaxEntries l)%Z;
  si_bytes : bytes s = total (entries s);
  si_max : (bytes s <= MaxBytes l)%Z;
  si_res : forall k, entries s !! k = Some None ->
    exists t p c, threads s !! t = Some p /\ leads p = Some (k, c) /\ loading p = true;
  si_load : forall t p k c, threads s !! t = Some p -> leads p = Some (k, c) -> loading p = true ->
    entries s !! k = Some None \/ (ph s = Cleared /\ entries s !! k = None);
  si_val : forall k v, entries s !! k = Some (Some v) -> In (k, v) (loaded s) /\ (Len v <= MaxValueBytes l)%Z;
  si_commit : forall t k c d, threads s !! t = Some (PCommit k c d) -> (Len d <= MaxValueBytes l)%Z;
  si_pend : forall t p k c v, threads s !! t = Some p -> leads p = Some (k, c) -> pending p = Some v ->
    In (k, v) (loaded s);
  si_out : forall c call v, heap (grp s) !! c = Some call -> outcome call = Some (Ok v) ->
    In (c_key call, v) (loaded s);
  si_clear : ph s = Cleared -> forall k v, entries s !! k <> Some (Some v) }.

(** ** Counting and summing *)

Lemma count_insert f thr t p p' :
  thr !! t = Some p ->
  count f (<[t := p']> thr) = (count f thr - (if f p then 1 else 0) + (if f p' then 1 else 0))%Z.
Proof.
  revert t; induction thr as [|q thr IH]; intros [|t] H; simplify_eq/=; [|rewrite (IH _ H)]; lia.
Qed.

Lemma count_app f l1 l2 : count f (l1 ++ l2)%list = (count f l1 + count f l2)%Z.
Proof. induction l1; simpl; lia. Qed.

Lemma count_nonneg f thr : (0 <= count f thr)%Z.
Proof. induction thr as [|p thr IH]; simpl; [lia|]. destruct (f p); lia. Qed.

Lemma count_zero f thr : (forall t p, thr !! t = Some p -> f p = false) -> count f thr = 0%Z.
Proof.
  induction thr as [|p thr IH]; intros H; simpl; [done|].
  rewrite (H 0 p eq_refl), IH; [done|]. intros t q Hq. exact (H (S t) q Hq).
Qed.

Lemma total_nonneg m : (0 <= total m)%Z.
Proof.
  unfold total. apply (map_fold_weak_ind (fun z _ => 0 <= z)%Z); [done|].
  intros k o m' z _ Hz. pose proof (Len_nonneg (default "" o)). destruct o; simpl in *; lia.
Qed.

Lemma total_reserved m : (forall k v, m !! k <> Some (Some v)) -> total m = 0%Z.
Proof.
  unfold total. induction m as [|k o m Hk IH] using map_ind; intros H; [done|].
  rewrite map_fold_insert_L; [|intros; simpl; lia|done]. rewrite IH.
  - destruct o as [v|]; [|done]. destruct (H k v). by rewrite lookup_insert_eq.
  - intros k' v Hk'. apply (H k' v). rewrite lookup_insert_ne; [done|congruence].
Qed.

Lemma total_split m k : total m = (entry_bytes (default None (m !! k)) + total (delete k m))%Z.
Proof.
  unfold total. destruct (m !! k) as [o|] eqn:E; simpl.
  - rewrite (map_fold_delete_L _ _ k o); [done| |done]. intros; simpl; lia.
  - by rewrite delete_id.
Qed.

Lemma total_insert m k o : total (<[k := o]> m) = (entry_bytes o + total (delete k m))%Z.
Proof. rewrite (total_split _ k). by rewrite lookup_insert_eq, delete_insert_eq. Qed.

Lemma size_insert_le {A} (m : gmap string A) k v : size (<[k := v]> m) <= S (size m).
Proof.
  destruct (m !! k) eqn:E.
  - rewrite map_size_insert_Some by eauto. lia.
  - by rewrite map_size_insert_None.
Qed.

Lemma size_delete_le {A} (m : gmap string A) k : size (delete k m) <= size m.
Proof. rewrite map_size_delete. destruct (m !! k); simpl; lia. Qed.

(** A goroutine list after one program counter changed. *)
Lemma lookup_set (thr : list pc) t p p' t' q :
  thr !! t = Some p -> <[t := p']> thr !! t' = Some q ->
  (t' = t /\ q = p') \/ (t' <> t /\ thr !! t' = Some q).
Proof. intros Hp Hq. apply list_lookup_insert_Some in Hq as [(-> & -> & _)|[? ?]]; auto. Qed.

Lemma lookup_set_eq (thr : list pc) t p p' : thr !! t = Some p -> <[t := p']> thr !! t = Some p'.
Proof. intros Hp. apply list_lookup_insert_eq. by eapply lookup_lt_Some. Qed.

Lemma lookup_set_ne (thr : list pc) t t' p' q :
  t' <> t -> thr !! t' = Some q -> <[t := p']> thr !! t' = Some q.
Proof. intros Hne Hq. by rewrite list_lookup_insert_ne. Qed.

Lemma leads_ticket p x : leads p = Some x -> ticket p = Some x.
Proof. destruct p; naive_solver. Qed.

(** ** The group invariant is kept by every kind of step *)

(** Steps that keep the group and the goroutine's role. *)
Lemma ginv_local l g thr t p p' :
  GInv l g thr -> thr !! t = Some p ->
  leads p' = leads p -> (forall c, follows c p' = follows c p) ->
  (forall x, ticket p' = Some x -> ticket p = Some x) ->
  (forall k c call r, ticket p' = Some (k, c) -> heap g !! c = Some call -> obtained p' = Some r ->
     r = Err ErrCtx \/ outcome call = Some r) ->
  (forall k c o, p' <> PAfter k c o) ->
  GInv l g (<[t := p']> thr).
Proof.
  intros HI Ht Hl Hf Htk Ho Ha. destruct HI as [h1 h2 h3 h4 h5 h6 h7 h8]. split; [done| | | | | |done|done].
  - intros t' q k c Hq Hlq. destruct (lookup_set _ _ _ _ _ _ Ht Hq) as [[-> ->]|[_ ?]]; [|by eauto].
    rewrite Hl in Hlq. eauto.
  - intros t1 t2 p1 p2 x H1 H2 L1 L2.
    destruct (lookup_set _ _ _ _ _ _ Ht H1) as [[-> ->]|[? ?]], (lookup_set _ _ _ _ _ _ Ht H2) as [[-> ->]|[? ?]];
      rewrite ?Hl in *; eauto.
  - intros k c Hc. destruct (h4 _ _ Hc) as (t' & q & Hq & Hlq). destruct (decide (t' = t)) as [->|].
    + simplify_eq. exists t, p'. split; [by eapply lookup_set_eq|congruence].
    + exists t', q. split; [by apply lookup_set_ne|done].
  - intros c call Hc. rewrite (count_insert _ _ _ _ _ Ht), Hf. destruct (h5 _ _ Hc). split; lia.
  - intros t' q k c Hq Htq. destruct (lookup_set _ _ _ _ _ _ Ht Hq) as [[-> ->]|[_ ?]]; [|by eauto].
    destruct (h6 t p k c Ht (Htk _ Htq)) as (call & Hc & Hk & Hn & _). exists call. naive_solver.
Qed.

Lemma ginv_spawn l g thr key : GInv l g thr -> GInv l g (thr ++ [PStart key])%list.
Proof.
  intros [h1 h2 h3 h4 h5 h6 h7 h8]. split; [done| | | | | |done|done].
  - intros t p k c Hp Hl. apply lookup_snoc_Some in Hp as [[_ ?]|[_ <-]]; [eauto|done].
  - intros t1 t2 p1 p2 x H1 H2 L1 L2.
    apply lookup_snoc_Some in H1 as [[_ H1]|[_ <-]]; [|done].
    apply lookup_snoc_Some in H2 as [[_ H2]|[_ <-]]; [eauto|done].
  - intros k c Hc. destruct (h4 _ _ Hc) as (t & p & Hp & Hl). exists t, p. split; [|done].
    apply lookup_app_l_Some. done.
  - intros c call Hc. rewrite count_app. simpl. destruct (h5 _ _ Hc). lia.
  - intros t p k c Hp Hl. apply lookup_snoc_Some in Hp as [[_ ?]|[_ <-]]; [eauto|done].
Qed.

(** A new leader: a fresh call registered under a free key. *)
Lemma ginv_leader l g thr t p key :
  GInv l g thr -> thr !! t = Some p -> leads p = None -> (forall c, follows c p = false) ->
  calls g !! key = None -> (Z.of_nat (size (calls g)) < MaxKeys l)%Z -> (0 <= MaxFollowers l)%Z ->
  GInv l (MkGroup (<[key := next g]> (calls g)) (<[next g := MkCall key None 0]> (heap g)) (S (next g)))
    (<[t := PLead key (next g)]> thr).
Proof.
  intros HI Ht Hl Hf Hk Hs Hm. destruct HI as [h1 h2 h3 h4 h5 h6 h7 h8].
  assert (forall c call, heap g !! c = Some call -> c <> next g) as Hfresh
    by (intros c call Hc ->; pose proof (h7 (next g) ltac:(eauto)); lia).
  split; cbn [calls heap next].
  - intros k c. rewrite lookup_insert_Some. intros [[<- <-]|[Hne Hc]].
    + rewrite lookup_insert_eq. eauto.
    + destruct (h1 _ _ Hc) as (call & Hc' & ? & ?). rewrite lookup_insert_ne by (apply not_eq_sym; eauto). eauto.
  - intros t' q k c Hq Hlq. destruct (lookup_set _ _ _ _ _ _ Ht Hq) as [[-> ->]|[_ Hq']].
    + simplify_eq/=. by rewrite lookup_insert_eq.
    + pose proof (h2 _ _ _ _ Hq' Hlq). rewrite lookup_insert_ne; [done|congruence].
  - intros t1 t2 p1 p2 [k c] H1 H2 L1 L2.
    destruct (lookup_set _ _ _ _ _ _ Ht H1) as [[-> ->]|[? H1']], (lookup_set _ _ _ _ _ _ Ht H2) as [[-> ->]|[? H2']];
      simplify_eq/=; eauto.
    + pose proof (h2 _ _ _ _ H2' L2). congruence.
    + pose proof (h2 _ _ _ _ H1' L1). congruence.
  - intros k c. rewrite lookup_insert_Some. intros [[<- <-]|[Hne Hc]].
    + exists t, (PLead key (next g)). split; [by eapply lookup_set_eq|done].
    + destruct (h4 _ _ Hc) as (t' & q & Hq & Hlq). exists t', q. split; [|done].
      apply lookup_set_ne; [congruence|done].
  - intros c call. rewrite lookup_insert_Some, (count_insert _ _ _ _ _ Ht), Hf. cbn [follows].
    intros [[<- <-]|[Hne Hc]]; [|destruct (h5 _ _ Hc); lia].
    cbn [followers]. rewrite count_zero; [lia|]. intros t' q Hq. destruct (follows (next g) q) eqn:E; [|done].
    destruct q; try done; apply Nat.eqb_eq in E; subst;
      destruct (h6 _ _ _ _ Hq eq_refl) as (call & Hc & _); by destruct (Hfresh _ _ Hc).
  - intros t' q k c Hq Htq. destruct (lookup_set _ _ _ _ _ _ Ht Hq) as [[-> ->]|[_ Hq']].
    + simplify_eq/=. exists (MkCall k None 0). rewrite !lookup_insert_eq. naive_solver.
    + destruct (h6 _ _ _ _ Hq' Htq) as (call & Hc & Hck & Hn & Ho). exists call.
      rewrite lookup_insert_ne by (apply not_eq_sym; eauto). split; [done|]. split; [done|]. split; [|done].
      intros E. specialize (Hn E). rewrite lookup_insert_ne; [done|congruence].
  - intros c. rewrite lookup_insert_is_Some. intros [->|[_ Hc]]; [lia|]. specialize (h7 _ Hc). lia.
  - rewrite map_size_insert_None by done. lia.
Qed.

(** A goroutine joins ([d] = 1) or leaves ([d] = -1) a call. *)
Lemma ginv_count l g thr t p p' c call d :
  GInv l g thr -> thr !! t = Some p -> heap g !! c = Some call ->
  leads p = None -> leads p' = None ->
  (forall c', (if follows c' p' then 1 else 0) - (if follows c' p then 1 else 0) = if decide (c' = c) then d else 0)%Z ->
  (followers call + d <= MaxFollowers l)%Z ->
  (ticket p' = Some (c_key call, c)) ->
  (forall r, obtained p' = Some r -> r = Err ErrCtx \/ outcome call = Some r) ->
  (forall k c o, p' <> PAfter k c o) ->
  (outcome call = None -> calls g !! c_key call = Some c) ->
  GInv l (MkGroup (calls g) (<[c := MkCall (c_key call) (outcome call) (followers call + d)]> (heap g)) (next g))
    (<[t := p']> thr).
Proof.
  intros HI Ht Hc Hl Hl' Hd Hm Htk Ho Ha Hn. destruct HI as [h1 h2 h3 h4 h5 h6 h7 h8].
  assert (forall x call0, heap g !! x = Some call0 ->
    exists call1, <[c := MkCall (c_key call) (outcome call) (followers call + d)]> (heap g) !! x = Some call1 /\
      c_key call1 = c_key call0 /\ outcome call1 = outcome call0) as Hsame.
  { intros x call0 Hx. destruct (decide (c = x)) as [->|].
    - rewrite lookup_insert_eq. simplify_eq. eauto.
    - rewrite lookup_insert_ne by done. eauto. }
  split; cbn [calls heap next]; [| | | | | | |done].
  - intros k x Hx. destruct (h1 _ _ Hx) as (call0 & H0 & Hout & Hk).
    destruct (Hsame _ _ H0) as (call1 & ? & ? & ?). exists call1. naive_solver congruence.
  - intros t' q k x Hq Hlq. destruct (lookup_set _ _ _ _ _ _ Ht Hq) as [[-> ->]|[_ ?]]; [congruence|eauto].
  - intros t1 t2 p1 p2 x H1 H2 L1 L2.
    destruct (lookup_set _ _ _ _ _ _ Ht H1) as [[-> ->]|[? ?]], (lookup_set _ _ _ _ _ _ Ht H2) as [[-> ->]|[? ?]];
      try congruence; eauto.
  - intros k x Hx. destruct (h4 _ _ Hx) as (t' & q & Hq & Hlq). exists t', q. split; [|done].
    apply lookup_set_ne; [congruence|done].
  - intros x call0 Hx. rewrite (count_insert _ _ _ _ _ Ht). specialize (Hd x).
    apply lookup_insert_Some in Hx as [[<- <-]|[Hne Hx]]; cbn [followers].
    + destruct (h5 _ _ Hc). rewrite decide_True in Hd by done. lia.
    + destruct (h5 _ _ Hx). rewrite decide_False in Hd by done. lia.
  - intros t' q k x Hq Htq. destruct (lookup_set _ _ _ _ _ _ Ht Hq) as [[-> ->]|[_ Hq']].
    + rewrite Htk in Htq. simplify_eq. destruct (Hsame _ _ Hc) as (call1 & H1 & Hk1 & Ho1).
      exists call1. rewrite Hk1, Ho1. repeat split; try done. intros k' c' o E. by destruct (Ha k' c' o).
    + destruct (h6 _ _ _ _ Hq' Htq) as (call0 & H0 & Hk0 & Hn0 & Ho0 & Ha0).
      destruct (Hsame _ _ H0) as (call1 & H1 & Hk1 & Ho1).
      exists call1. rewrite Hk1, Ho1. auto.
  - intros x. rewrite lookup_insert_is_Some. intros [<-|[_ Hx]]; eauto.
Qed.

(** The leader completes its call: the key is free, the outcome is fixed. *)
Lemma ginv_finish l g thr t key c o call :
  GInv l g thr -> thr !! t = Some (PFinish key c o) -> heap g !! c = Some call -> calls g !! key = Some c ->
  GInv l (MkGroup (delete key (calls g)) (<[c := MkCall (c_key call) (Some (written o)) (followers call)]> (heap g)) (next g))
    (<[t := PAfter key c o]> thr).
Proof.
  intros HI Ht Hc Hk. destruct HI as [h1 h2 h3 h4 h5 h6 h7 h8].
  destruct (h1 _ _ Hk) as (call' & Hc' & Hnone & Hkey). simplify_eq.
  assert (forall k x, calls g !! k = Some x -> k <> c_key call -> x <> c) as Hinj
    by (intros k x Hx Hne ->; destruct (h1 _ _ Hx) as (call0 & ? & _ & ?); congruence).
  split; cbn [calls heap next].
  - intros k x. rewrite lookup_delete_Some. intros [Hne Hx]. destruct (h1 _ _ Hx) as (call0 & H0 & ?).
    exists call0. rewrite lookup_insert_ne; [done|]. intros <-. by eapply Hinj.
  - intros t' q k x Hq Hlq. destruct (lookup_set _ _ _ _ _ _ Ht Hq) as [[-> ->]|[Hne Hq']]; [done|].
    pose proof (h2 _ _ _ _ Hq' Hlq) as Hx. rewrite lookup_delete_ne; [done|]. intros <-. simplify_eq.
    by destruct (Hne (h3 _ _ _ _ _ Hq' Ht Hlq eq_refl)).
  - intros t1 t2 p1 p2 x H1 H2 L1 L2.
    destruct (lookup_set _ _ _ _ _ _ Ht H1) as [[-> ->]|[? ?]], (lookup_set _ _ _ _ _ _ Ht H2) as [[-> ->]|[? ?]];
      try done; eauto.
  - intros k x. rewrite lookup_delete_Some. intros [Hne Hx]. destruct (h4 _ _ Hx) as (t' & q & Hq & Hlq).
    exists t', q. split; [|done]. apply lookup_set_ne; [|done]. intros ->. simplify_eq/=.
  - intros x call0 Hx. rewrite (count_insert _ _ _ _ _ Ht). cbn [follows].
    apply lookup_insert_Some in Hx as [[<- <-]|[Hne Hx]]; cbn [followers];
      [destruct (h5 _ _ Hc)|destruct (h5 _ _ Hx)]; split; lia.
  - intros t' q k x Hq Htq. destruct (lookup_set _ _ _ _ _ _ Ht Hq) as [[-> ->]|[_ Hq']].
    + simplify_eq/=. eexists. rewrite lookup_insert_eq. split; [done|]. cbn. naive_solver.
    + destruct (h6 _ _ _ _ Hq' Htq) as (call0 & H0 & Hk0 & Hn0 & Ho0 & Ha0).
      destruct (decide (c = x)) as [<-|Hne].
      * eexists. rewrite lookup_insert_eq. split; [done|]. cbn. simplify_eq. repeat split; try done.
        -- intros r Hr. destruct (Ho0 r Hr) as [?|?]; [by left|congruence].
        -- intros k' c' o' ->. rewrite (Ha0 _ _ _ eq_refl) in Hnone. done.
      * exists call0. rewrite lookup_insert_ne by done. split; [done|]. split; [done|]. split; [|done].
        intros E. specialize (Hn0 E). rewrite lookup_delete_ne; [done|]. congruence.
  - intros x. rewrite lookup_insert_is_Some. intros [<-|[_ Hx]]; eauto.
  - pose proof (size_delete_le (calls g) (c_key call)). lia.
Qed.

Lemma Finish_stale key c r g : calls g !! key <> Some c -> Finish key c r g = (false, g).
Proof. intros H. unfold Finish. by rewrite decide_False. Qed.

(** A step that only moves one goroutine within its role. *)
Ltac glocal := (eapply ginv_local; [eassumption|eassumption|done|done|done|
  intros; simplify_eq/=|done]).

Lemma ginv_begin l t key s :
  (0 <= MaxFollowers (Flights l))%Z ->
  GInv (Flights l) (grp s) (threads s) -> threads s !! t = Some (PBegin key) ->
  GInv (Flights l) (grp (step_begin l t key s)) (threads (step_begin l t key s)).
Proof.
  intros Hm HI Ht. unfold step_begin, Begin.
  destruct (_ || _); [glocal|].
  destruct (calls (grp s) !! key) as [c|] eqn:Hk.
  - destruct (gi_reg _ _ _ HI _ _ Hk) as (call & Hc & Hn & Hkey). rewrite Hc.
    destruct (_ <=? _)%Z eqn:E; [glocal|]. bprop.
    eapply ginv_count; try done; simpl; try congruence; [|lia].
    intros c'. destruct (Nat.eqb_spec c c'), (decide (c' = c)); first [lia|congruence].
  - destruct (_ <=? _)%Z eqn:E; [glocal|]. bprop. by eapply ginv_leader.
Qed.

Lemma ginv_exec l a s s' :
  (0 <= MaxFollowers (Flights l))%Z ->
  GInv (Flights l) (grp s) (threads s) -> exec l a s = Some s' ->
  GInv (Flights l) (grp s') (threads s').
Proof.
  intros Hm HI He. destruct a as [key|t|t|t|t|t n|t|t data dead|t|t|t|t|t|t|t| |]; cbn [exec] in He;
    try (destruct (threads s !! t) as [p|] eqn:Ht; [destruct p as [k|k|k c|k c|k c d|k c o|k c o|k c o|k c|k c r|k co o]|];
         try discriminate).
  - simplify_eq/=. by apply ginv_spawn.
  - destruct (ph s); simplify_eq/=. glocal.
  - simplify_eq/=. glocal.
  - simplify_eq/=. glocal.
  - simplify_eq. by apply ginv_begin.
  - simplify_eq. unfold step_lookup. repeat case_match; simpl; glocal.
  - simplify_eq/=. glocal.
  - simplify_eq/=. glocal.
  - simplify_eq. unfold step_loaded. repeat case_match; simpl; glocal.
  - simplify_eq. unfold step_commit. repeat case_match; simpl; glocal.
  - simplify_eq/=. glocal.
  - simplify_eq/=. pose proof (gi_lead _ _ _ HI _ _ _ _ Ht eq_refl) as Hk.
    destruct (gi_reg _ _ _ HI _ _ Hk) as (call & Hc & _).
    unfold Finish. rewrite decide_True, Hc by done. by apply ginv_finish.
  - destruct (gi_tick _ _ _ HI _ _ _ _ Ht eq_refl) as (call & Hc & Hk & _ & _ & Ho).
    specialize (Ho _ _ _ eq_refl).
    assert (calls (grp s) !! k <> Some c) as Hstale
      by (intros Hr; destruct (gi_reg _ _ _ HI _ _ Hr) as (? & ? & ? & _); congruence).
    destruct o as [r|]; simplify_eq/=; rewrite ?Finish_stale by done; simpl; glocal. right. congruence.
  - destruct (heap (grp s) !! c) as [call|] eqn:Hc; [|done]. destruct (outcome call) as [r|] eqn:Ho; [|done].
    simplify_eq/=. glocal. right. congruence.
  - simplify_eq/=. glocal. by left.
  - simplify_eq/=. destruct (gi_tick _ _ _ HI _ _ _ _ Ht eq_refl) as (call & Hc & Hk & Hn & Ho & _).
    unfold release. rewrite Hc. unfold set_group, set_thread; simpl.
    eapply (ginv_count _ _ _ _ _ _ _ _ (-1)); try done; simpl; try congruence.
    + intros c'. destruct (Nat.eqb_spec c c'), (decide (c' = c)); first [lia|congruence].
    + destruct (gi_foll _ _ _ HI _ _ Hc). lia.
    + by rewrite Hk.
  - destruct (ph s); by simplify_eq/=.
  - destruct (ph s); by simplify_eq/=.
Qed.

(** ** The storage invariant *)

(** Steps that leave the entries alone. *)
Lemma sinv_move l s t p p' g :
  SInv l s -> threads s !! t = Some p ->
  (loading p = true -> leads p' = leads p /\ loading p' = true) ->
  (forall k c, leads p' = Some (k, c) -> loading p' = true ->
     entries s !! k = Some None \/ (ph s = Cleared /\ entries s !! k = None)) ->
  (forall k c d, p' = PCommit k c d -> (Len d <= MaxValueBytes l)%Z) ->
  (forall k c v, leads p' = Some (k, c) -> pending p' = Some v -> In (k, v) (loaded s)) ->
  (forall c call v, heap g !! c = Some call -> outcome call = Some (Ok v) -> In (c_key call, v) (loaded s)) ->
  SInv l (set_thread t p' (set_group g s)).
Proof.
  intros [h1 h2 h3 h4 h5 h6 h7 h8 h9 h10] Ht C1 C2 C3 C4 C5.
  split; cbn [set_thread set_group entries bytes loaded ph threads grp]; try done.
  - intros k Hk. destruct (h4 _ Hk) as (t' & q & c & Hq & Hl & Hd). destruct (decide (t' = t)) as [->|].
    + simplify_eq. destruct (C1 Hd) as [E1 E2]. exists t, p', c. split; [by eapply lookup_set_eq|].
      split; [congruence|done].
    + exists t', q, c. split; [by apply lookup_set_ne|done].
  - intros t' q k c Hq. destruct (lookup_set _ _ _ _ _ _ Ht Hq) as [[-> ->]|[_ ?]]; eauto.
  - intros t' k c d Hq. destruct (lookup_set _ _ _ _ _ _ Ht Hq) as [[-> <-]|[_ ?]]; eauto.
  - intros t' q k c v Hq. destruct (lookup_set _ _ _ _ _ _ Ht Hq) as [[-> ->]|[_ ?]]; eauto.
Qed.

Lemma set_group_same s : set_group (grp s) s = s.
Proof. by destruct s. Qed.

(** Same, with the group untouched. *)
Lemma sinv_move' l s t p p' :
  SInv l s -> threads s !! t = Some p ->
  (loading p = true -> leads p' = leads p /\ loading p' = true) ->
  (forall k c, leads p' = Some (k, c) -> loading p' = true ->
     entries s !! k = Some None \/ (ph s = Cleared /\ entries s !! k = None)) ->
  (forall k c d, p' = PCommit k c d -> (Len d <= MaxValueBytes l)%Z) ->
  (forall k c v, leads p' = Some (k, c) -> pending p' = Some v -> In (k, v) (loaded s)) ->
  SInv l (set_thread t p' s).
Proof.
  intros HI. intros. rewrite <- (set_group_same s). eapply sinv_move; try done. apply (si_out _ _ HI).
Qed.

(** The reservation of a key by its leader (scope.go:73). *)
Lemma sinv_reserve l s t key c :
  SInv l s -> threads s !! t = Some (PLead key c) ->
  (forall v, entries s !! key <> Some (Some v)) -> (Z.of_nat (size (entries s)) < MaxEntries l)%Z ->
  SInv l (set_thread t (PLoad key c) (set_entries (<[key := None]> (entries s)) (bytes s) s)).
Proof.
  intros [h1 h2 h3 h4 h5 h6 h7 h8 h9 h10] Ht Hno Hs.
  split; cbn [set_thread set_entries entries bytes loaded ph threads grp]; try done.
  - pose proof (size_insert_le (entries s) key None). lia.
  - rewrite total_insert. rewrite (total_split _ key) in h2.
    destruct (entries s !! key) as [[v|]|] eqn:E; [by destruct (Hno v)| |]; simpl in *; lia.
  - intros k. rewrite lookup_insert_Some. intros [[<- _]|[Hne Hk]].
    + exists t, (PLoad key c), c. split; [by eapply lookup_set_eq|done].
    + destruct (h4 _ Hk) as (t' & q & c' & Hq & Hl & Hd). exists t', q, c'. split; [|done].
      apply lookup_set_ne; [|done]. intros ->. by simplify_eq.
  - intros t' q k c' Hq Hl Hd. destruct (decide (key = k)) as [<-|Hne]; [rewrite lookup_insert_eq; by left|].
    rewrite lookup_insert_ne by done. destruct (lookup_set _ _ _ _ _ _ Ht Hq) as [[-> ->]|[_ ?]]; [by simplify_eq/=|eauto].
  - intros k v. rewrite lookup_insert_Some. intros [[_ ?]|[_ ?]]; [done|eauto].
  - intros t' k c' d Hq. destruct (lookup_set _ _ _ _ _ _ Ht Hq) as [[-> ?]|[_ ?]]; [done|eauto].
  - intros t' q k c' v Hq Hl Hp. destruct (lookup_set _ _ _ _ _ _ Ht Hq) as [[-> ->]|[_ ?]]; [done|eauto].
  - intros Hph k v. rewrite lookup_insert_Some. intros [[_ ?]|[_ ?]]; [done|]. by eapply h10.
Qed.

(** No other goroutine owns the reservation of a leader's key. *)
Lemma sole_loader l s t p t' q k c c' :
  GInv l (grp s) (threads s) -> threads s !! t = Some p -> leads p = Some (k, c) ->
  threads s !! t' = Some q -> leads q = Some (k, c') -> t' = t.
Proof.
  intros HI Hp Hl Hq Hl'. pose proof (gi_lead _ _ _ HI _ _ _ _ Hp Hl). pose proof (gi_lead _ _ _ HI _ _ _ _ Hq Hl').
  simplify_eq. eapply (gi_uniq _ _ _ HI); eauto.
Qed.

(** The commit of a loaded value (scope.go:101-105). *)
Lemma sinv_commit l s t key c data :
  GInv (Flights l) (grp s) (threads s) -> SInv l s -> threads s !! t = Some (PCommit key c data) ->
  ph s = Open -> (Len data <= MaxBytes l - bytes s)%Z ->
  SInv l (set_thread t (PFinish key c (Some (Ok data)))
    (add_loaded (key, data) (set_entries (<[key := Some data]> (entries s)) (bytes s + Len data) s))).
Proof.
  intros HG [h1 h2 h3 h4 h5 h6 h7 h8 h9 h10] Ht Hph Hb.
  assert (entries s !! key = Some None) as Hres
    by (destruct (h5 _ _ _ _ Ht eq_refl eq_refl) as [?|[? _]]; [done|congruence]).
  assert (forall t' q k c', t' <> t -> threads s !! t' = Some q -> leads q = Some (k, c') -> k <> key) as Hoth
    by (intros t' q k c' Hne Hq Hl ->; destruct Hne; exact (sole_loader _ _ _ _ _ _ _ _ _ HG Ht eq_refl Hq Hl)).
  split; cbn [set_thread set_entries add_loaded entries bytes loaded ph threads grp].
  - by rewrite map_size_insert_Some by eauto.
  - rewrite total_insert. rewrite (total_split _ key), Hres in h2. simpl in *. lia.
  - lia.
  - intros k. rewrite lookup_insert_Some. intros [[_ ?]|[Hne Hk]]; [done|].
    destruct (h4 _ Hk) as (t' & q & c' & Hq & Hl & Hd). exists t', q, c'. split; [|done].
    apply lookup_set_ne; [|done]. intros ->. by simplify_eq/=.
  - intros t' q k c' Hq Hl Hd. destruct (lookup_set _ _ _ _ _ _ Ht Hq) as [[-> ->]|[Hne Hq']]; [done|].
    rewrite lookup_insert_ne by (apply not_eq_sym; eauto). eauto.
  - intros k v. rewrite lookup_insert_Some. intros [[<- [= <-]]|[_ Hk]].
    + split; [by left|]. by eapply h7.
    + destruct (h6 _ _ Hk). split; [by right|done].
  - intros t' k c' d Hq. destruct (lookup_set _ _ _ _ _ _ Ht Hq) as [[-> ?]|[_ ?]]; [done|eauto].
  - intros t' q k c' v Hq Hl Hp. destruct (lookup_set _ _ _ _ _ _ Ht Hq) as [[-> ->]|[_ ?]].
    + simplify_eq/=. by left.
    + right. eauto.
  - intros x call v Hx Hv. right. eauto.
  - congruence.
Qed.

(** The deferred delete of an uncommitted reservation (scope.go:76-82). *)
Lemma sinv_clean l s t key c o :
  GInv (Flights l) (grp s) (threads s) -> SInv l s -> threads s !! t = Some (PClean key c o) ->
  SInv l (set_thread t (PFinish key c o) (set_entries (delete key (entries s)) (bytes s) s)).
Proof.
  intros HG [h1 h2 h3 h4 h5 h6 h7 h8 h9 h10] Ht.
  assert (forall t' q k c', t' <> t -> threads s !! t' = Some q -> leads q = Some (k, c') -> k <> key) as Hoth
    by (intros t' q k c' Hne Hq Hl ->; destruct Hne; exact (sole_loader _ _ _ _ _ _ _ _ _ HG Ht eq_refl Hq Hl)).
  split; cbn [set_thread set_entries entries bytes loaded ph threads grp]; try done.
  - pose proof (size_delete_le (entries s) key). lia.
  - rewrite (total_split _ key) in h2.
    destruct (h5 _ _ _ _ Ht eq_refl eq_refl) as [E|[_ E]]; rewrite E in h2; simpl in *; lia.
  - intros k. rewrite lookup_delete_Some. intros [Hne Hk].
    destruct (h4 _ Hk) as (t' & q & c' & Hq & Hl & Hd). exists t', q, c'. split; [|done].
    apply lookup_set_ne; [|done]. intros ->. by simplify_eq/=.
  - intros t' q k c' Hq Hl Hd. destruct (lookup_set _ _ _ _ _ _ Ht Hq) as [[-> ->]|[Hne Hq']]; [done|].
    rewrite lookup_delete_ne by (apply not_eq_sym; eauto). eauto.
  - intros k v. rewrite lookup_delete_Some. intros [_ ?]. eauto.
  - intros t' k c' d Hq. destruct (lookup_set _ _ _ _ _ _ Ht Hq) as [[-> ?]|[_ ?]]; [done|eauto].
  - intros t' q k c' v Hq Hl Hp. destruct (lookup_set _ _ _ _ _ _ Ht Hq) as [[-> ->]|[_ ?]]; [|eauto].
    simplify_eq/=. eapply (h8 t (PClean k c' o)); [done..|]. by destruct o as [[?|?]|].
  - intros Hph k v. rewrite lookup_delete_Some. intros [_ ?]. by eapply h10.
Qed.

(** A step in which the goroutine leads nothing afterwards and held no reservation. *)
Ltac smove := (eapply sinv_move'; [eassumption|eassumption|try done|
  intros; simplify_eq/=; try done|intros; simplify_eq/=; try done|intros; simplify_eq/=; try done]).

Lemma sinv_begin l t key s :
  GInv (Flights l) (grp s) (threads s) -> SInv l s -> threads s !! t = Some (PBegin key) ->
  SInv l (step_begin l t key s).
Proof.
  intros HG HS Ht. pose proof (si_out _ _ HS) as Hout. unfold step_begin, Begin.
  destruct (_ || _); [rewrite set_group_same; smove|].
  destruct (calls (grp s) !! key) as [c|] eqn:Hk.
  - destruct (gi_reg _ _ _ HG _ _ Hk) as (call & Hc & Hn & Hkey). rewrite Hc.
    destruct (_ <=? _)%Z; [rewrite set_group_same; smove|].
    eapply sinv_move; try done. intros x call0 v. cbn [heap].
    rewrite lookup_insert_Some. intros [[<- <-]|[_ Hx]]; cbn; eauto.
  - destruct (_ <=? _)%Z; [rewrite set_group_same; smove|].
    eapply sinv_move; try done. intros x call0 v. cbn [heap].
    rewrite lookup_insert_Some. intros [[<- <-]|[_ Hx]]; cbn; [done|eauto].
Qed.

Lemma sinv_finish l s t key c o :
  GInv (Flights l) (grp s) (threads s) -> SInv l s -> threads s !! t = Some (PFinish key c o) ->
  SInv l (set_thread t (PAfter key c o) (set_group (snd (Finish key c (written o) (grp s))) s)).
Proof.
  intros HG HS Ht. pose proof (gi_lead _ _ _ HG _ _ _ _ Ht eq_refl) as Hk.
  destruct (gi_reg _ _ _ HG _ _ Hk) as (call & Hc & _ & Hkey).
  unfold Finish. rewrite decide_True, Hc by done. cbn [snd].
  eapply sinv_move; try done. intros x call0 v. cbn [heap].
  rewrite lookup_insert_Some. intros [[<- <-]|[_ Hx]]; cbn; [|by eapply (si_out _ _ HS)].
  intros [= Hw]. eapply (si_pend _ _ HS t _ _ c); [done|simpl; by rewrite Hkey|].
  destruct o as [[w|e]|]; by simplify_eq/=.
Qed.

Lemma sinv_exec l a s s' :
  GInv (Flights l) (grp s) (threads s) -> SInv l s -> exec l a s = Some s' -> SInv l s'.
Proof.
  intros HG HS He. destruct a as [key|t|t|t|t|t n|t|t data dead|t|t|t|t|t|t|t| |]; cbn [exec] in He;
    try (destruct (threads s !! t) as [p|] eqn:Ht; [destruct p as [k|k|k c|k c|k c d|k c o|k c o|k c o|k c|k c r|k co o]|];
         try discriminate).
  - simplify_eq/=. destruct HS as [h1 h2 h3 h4 h5 h6 h7 h8 h9 h10].
    split; cbn [entries bytes loaded ph threads grp]; try done.
    + intros k Hk. destruct (h4 _ Hk) as (t & p & c & Hp & ?). exists t, p, c. split; [|done]. by apply lookup_app_l_Some.
    + intros t p k c Hp Hl. apply lookup_snoc_Some in Hp as [[_ ?]|[_ <-]]; [eauto|done].
    + intros t k c d Hp. apply lookup_snoc_Some in Hp as [[_ ?]|[_ ?]]; [eauto|done].
    + intros t p k c v Hp Hl. apply lookup_snoc_Some in Hp as [[_ ?]|[_ <-]]; [eauto|done].
  - destruct (ph s); simplify_eq. smove.
  - simplify_eq. smove.
  - simplify_eq. smove.
  - simplify_eq. by apply sinv_begin.
  - simplify_eq. unfold step_lookup. destruct (entries s !! k) as [[v|]|] eqn:Ek;
      [|destruct (_ <=? _)%Z eqn:E; bprop; [smove|apply sinv_reserve; naive_solver]..].
    smove. by apply (si_val _ _ HS) in Ek as [? _].
  - simplify_eq. smove. exact (si_load _ _ HS _ _ _ _ Ht eq_refl eq_refl).
  - simplify_eq. smove. exact (si_load _ _ HS _ _ _ _ Ht eq_refl eq_refl).
  - simplify_eq. pose proof (si_load _ _ HS _ _ _ _ Ht eq_refl eq_refl).
    unfold step_loaded. destruct dead; [smove|]. destruct (_ <? _)%Z eqn:E; bprop; smove.
  - simplify_eq. pose proof (si_load _ _ HS _ _ _ _ Ht eq_refl eq_refl).
    unfold step_commit. destruct (ph s) eqn:Hph; [|smove; by rewrite Hph..].
    destruct (_ <? _)%Z eqn:E; bprop; [smove; by rewrite Hph|]. by apply sinv_commit.
  - simplify_eq. by apply sinv_clean.
  - simplify_eq. by apply sinv_finish.
  - destruct (gi_tick _ _ _ HG _ _ _ _ Ht eq_refl) as (call & Hc & _ & _ & _ & Ho).
    specialize (Ho _ _ _ eq_refl). destruct o as [r|]; simplify_eq; [|smove].
    rewrite Finish_stale; [simpl; rewrite set_group_same; smove|].
    intros Hr. destruct (gi_reg _ _ _ HG _ _ Hr) as (? & ? & ? & _). congruence.
  - repeat case_match; simplify_eq. smove.
  - simplify_eq. smove.
  - simplify_eq. unfold release. pose proof (si_out _ _ HS) as Hout.
    destruct (heap (grp s) !! c) as [call|] eqn:Hc; [|rewrite set_group_same; smove].
    eapply sinv_move; try done. intros x call0 v. cbn [heap].
    rewrite lookup_insert_Some. intros [[<- <-]|[_ Hx]]; cbn; eauto.
  - destruct (ph s) eqn:Hph; simplify_eq. destruct HS as [h1 h2 h3 h4 h5 h6 h7 h8 h9 h10].
    split; cbn [entries bytes loaded ph threads grp]; try done.
    intros t p k c Hp Hl Hd. destruct (h5 _ _ _ _ Hp Hl Hd) as [?|[? _]]; [by left|congruence].
  - assert (SInv l (MkScope (grp s) ∅ 0 Cleared (threads s) (loaded s)) /\ s' = MkScope (grp s) ∅ 0 Cleared (threads s) (loaded s))
      as [? ->]; [|done].
    split; [|destruct (ph s); by simplify_eq]. destruct HS as [h1 h2 h3 h4 h5 h6 h7 h8 h9 h10].
    split; cbn [entries bytes loaded ph threads grp]; try done.
    + rewrite map_size_empty. lia.
    + pose proof (total_nonneg (entries s)). lia.
    + intros. right. by rewrite lookup_empty.
Qed.

(** ** Reachable states *)
Lemma NewScope_inv l s :
  NewScope l = Some s ->
  (0 <= MaxFollowers (Flights l))%Z /\ GInv (Flights l) (grp s) (threads s) /\ SInv l s.
Proof.
  unfold NewScope, NewGroup, valid_limits. destruct (negb _) eqn:E1; [|done].
  destruct ((MaxKeys _ <=? 0) || _ || _)%Z eqn:E2; [done|]. intros; simplify_eq. bprop. split; [lia|]. split; split; cbn; try done.
  - intros c. rewrite lookup_empty. intros [? ?]. done.
  - rewrite map_size_empty. lia.
  - rewrite map_size_empty. lia.
  - lia.
Qed.

Lemma scope_run_inv l acts s s' :
  (0 <= MaxFollowers (Flights l))%Z ->
  GInv (Flights l) (grp s) (threads s) -> SInv l s -> run l acts s = Some s' ->
  GInv (Flights l) (grp s') (threads s') /\ SInv l s'.
Proof.
  intros Hm. revert s; induction acts as [|a acts IH]; simpl; intros s HG HS Hr; [by simplify_eq|].
  destruct (exec l a s) as [s1|] eqn:E; [|done].
  eapply IH; [|by eapply sinv_exec|done]. by eapply ginv_exec.
Qed.

Lemma reachable_inv l s0 acts s :
  NewScope l = Some s0 -> run l acts s0 = Some s ->
  GInv (Flights l) (grp s) (threads s) /\ SInv l s.
Proof. intros H0 Hr. destruct (NewScope_inv _ _ H0) as (? & ? & ?). by eapply scope_run_inv. Qed.

(** ** Theorems *)

(** C9. Single flight: in every reachable state at most one goroutine leads a
    given key, the number of keys in flight is within its limit, and the
    follower count of every call is exactly the number of goroutines attached
    to it, between zero and the limit. *)
Theorem single_flight l s0 acts s :
  NewScope l = Some s0 -> run l acts s0 = Some s ->
  (forall t1 t2 p1 p2 k c1 c2, threads s !! t1 = Some p1 -> threads s !! t2 = Some p2 ->
     leads p1 = Some (k, c1) -> leads p2 = Some (k, c2) -> t1 = t2) /\
  (Z.of_nat (size (calls (grp s))) <= MaxKeys (Flights l))%Z /\
  (forall c call, heap (grp s) !! c = Some call ->
     followers call = count (follows c) (threads s) /\ (0 <= followers call <= MaxFollowers (Flights l))%Z).
Proof.
  intros H0 Hr. destruct (reachable_inv _ _ _ _ H0 Hr) as [HG _].
  split; [|split; [apply (gi_keys _ _ _ HG)|]].
  - intros t1 t2 p1 p2 k c1 c2 H1 H2 L1 L2. symmetry. by eapply sole_loader.
  - intros c call Hc. destruct (gi_foll _ _ _ HG _ _ Hc) as [E ?]. split; [done|].
    rewrite E in *. pose proof (count_nonneg (follows c) (threads s)). lia.
Qed.

(** Followers share the leader's outcome: two goroutines attached to the
    same call that obtained a result other than their own cancellation obtained
    the same one, and it is the outcome recorded in the call, whatever the
    leader did (success, error, panic) and whatever calls for the same key
    came later. *)
Theorem shared_outcome l s0 acts s t1 t2 p1 p2 k1 k2 c r1 r2 :
  NewScope l = Some s0 -> run l acts s0 = Some s ->
  threads s !! t1 = Some p1 -> threads s !! t2 = Some p2 ->
  ticket p1 = Some (k1, c) -> ticket p2 = Some (k2, c) ->
  obtained p1 = Some r1 -> obtained p2 = Some r2 ->
  r1 <> Err ErrCtx -> r2 <> Err ErrCtx ->
  k1 = k2 /\ r1 = r2.
Proof.
  intros H0 Hr Hp1 Hp2 T1 T2 O1 O2 N1 N2. destruct (reachable_inv _ _ _ _ H0 Hr) as [HG _].
  destruct (gi_tick _ _ _ HG _ _ _ _ Hp1 T1) as (call & Hc & Hk & _ & Ho & _).
  destruct (gi_tick _ _ _ HG _ _ _ _ Hp2 T2) as (call' & Hc' & Hk' & _ & Ho' & _).
  simplify_eq. destruct (Ho _ O1) as [?|E1]; [done|]. destruct (Ho' _ O2) as [?|E2]; [done|].
  split; [done|congruence].
Qed.

(** C31. No follower is stranded: a goroutine waiting on a call either can read
    its outcome now or there is a live goroutine that leads the call, even
    after panics, cancellations and the closing of the scope. *)
Theorem no_orphan_waiters l s0 acts s t k c :
  NewScope l = Some s0 -> run l acts s0 = Some s -> threads s !! t = Some (PWait k c) ->
  is_Some (exec l (WaitDone t) s) \/
  exists t' p, threads s !! t' = Some p /\ leads p = Some (k, c).
Proof.
  intros H0 Hr Ht. destruct (reachable_inv _ _ _ _ H0 Hr) as [HG _].
  destruct (gi_tick _ _ _ HG _ _ _ _ Ht eq_refl) as (call & Hc & _ & Hn & _).
  destruct (outcome call) as [r|] eqn:Ho.
  - left. simpl. rewrite Ht, Hc, Ho. eauto.
  - right. exact (gi_live _ _ _ HG _ _ (Hn eq_refl)).
Qed.

(** Storage stays bounded and exactly accounted: the byte counter is the
    sum of the retained values and never exceeds its limit, the number of
    entries (reservations included) never exceeds its limit, no retained value
    exceeds the value limit, every reservation belongs to a goroutine that
    will commit or delete it, and a closed scope retains no value. *)
Theorem scope_accounting l s0 acts s :
  NewScope l = Some s0 -> run l acts s0 = Some s ->
  bytes s = total (entries s) /\ (0 <= bytes s <= MaxBytes l)%Z /\
  (Z.of_nat (size (entries s)) <= MaxEntries l)%Z /\
  (forall k v, entries s !! k = Some (Some v) -> (Len v <= MaxValueBytes l)%Z) /\
  (forall k, entries s !! k = Some None ->
     exists t p c, threads s !! t = Some p /\ leads p = Some (k, c) /\ loading p = true) /\
  (ph s = Cleared -> bytes s = 0%Z /\ forall k v, entries s !! k <> Some (Some v)).
Proof.
  intros H0 Hr. destruct (reachable_inv _ _ _ _ H0 Hr) as [_ HS].
  pose proof (si_bytes _ _ HS) as Hb. pose proof (total_nonneg (entries s)).
  pose proof (si_max _ _ HS). split; [done|]. split; [lia|]. split; [apply (si_size _ _ HS)|].
  split; [intros k v Hk; by apply (si_val _ _ HS) in Hk as [_ ?]|]. split; [apply (si_res _ _ HS)|].
  intros Hph. pose proof (si_clear _ _ HS Hph) as Hc. split; [|done].
  rewrite Hb. by apply total_reserved.
Qed.

(** Memoized answers are genuine: a value that [Resolve] returns for a key
    is one that a provider loaded for that very key within this scope. *)
Theorem resolve_sound l s0 acts s t k c v :
  NewScope l = Some s0 -> run l acts s0 = Some s ->
  threads s !! t = Some (PDone k (Some c) (Some (Ok v))) -> In (k, v) (loaded s).
Proof.
  intros H0 Hr Ht. destruct (reachable_inv _ _ _ _ H0 Hr) as [HG HS].
  destruct (gi_tick _ _ _ HG _ _ _ _ Ht eq_refl) as (call & Hc & <- & _ & Ho & _).
  destruct (Ho _ eq_refl) as [?|E]; [done|]. by eapply (si_out _ _ HS).
Qed.

(** ** Witnesses: one leader, one follower, one late caller, limits of two. *)
Definition demo_limits : ScopeLimits := MkScopeLimits (MkLimits 2 2 8) 2 10 6 1.
Definition demo_acts : list action :=
  [Spawn "a"; Spawn "a"; Spawn "b"; Check 0; Check 1; BeginA 0; BeginA 1; Lookup 0;
   LoadOk 0 "xyz" false; Commit 0; FinishA 0; WaitDone 1; ReleaseA 1; After 0;
   Check 2; BeginA 2; Lookup 2; LoadPanic 2; Spawn "b"; Check 3; BeginA 3].
Definition demo_start : Scope := default (MkScope (MkGroup ∅ ∅ 0) ∅ 0 Open [] []) (NewScope demo_limits).
Definition demo_end : Scope := default demo_start (run demo_limits demo_acts demo_start).

Lemma demo_start_eq : NewScope demo_limits = Some demo_start.
Proof. reflexivity. Qed.
Lemma demo_run : run demo_limits demo_acts demo_start = Some demo_end.
Proof. vm_compute. reflexivity. Qed.

Lemma single_flight_witness :
  (Z.of_nat (size (calls (grp demo_end))) <= 2)%Z /\ size (calls (grp demo_end)) = 1.
Proof.
  split; [|vm_compute; reflexivity].
  exact (proj1 (proj2 (single_flight demo_limits demo_start demo_acts demo_end demo_start_eq demo_run))).
Defined.

Lemma shared_outcome_witness :
  "a" = "a" /\ (Ok "xyz" : res) = Ok "xyz".
Proof.
  refine (shared_outcome demo_limits demo_start demo_acts demo_end 0 1
    (PDone "a" (Some 0) (Some (Ok "xyz"))) (PDone "a" (Some 0) (Some (Ok "xyz"))) "a" "a" 0 (Ok "xyz") (Ok "xyz")
    demo_start_eq demo_run _ _ eq_refl eq_refl eq_refl eq_refl _ _); try discriminate; vm_compute; reflexivity.
Defined.

Lemma no_orphan_waiters_witness :
  threads demo_end !! 3 = Some (PWait "b" 1) /\
  (is_Some (exec demo_limits (WaitDone 3) demo_end) \/
   exists t' p, threads demo_end !! t' = Some p /\ leads p = Some ("b", 1)).
Proof.
  assert (threads demo_end !! 3 = Some (PWait "b" 1)) as H by (vm_compute; reflexivity).
  split; [exact H|].
  exact (no_orphan_waiters demo_limits demo_start demo_acts demo_end 3 "b" 1 demo_start_eq demo_run H).
Defined.

Lemma scope_accounting_witness : bytes demo_end = total (entries demo_end) /\ bytes demo_end = 3%Z.
Proof.
  split; [|vm_compute; reflexivity].
  exact (proj1 (scope_accounting demo_limits demo_start demo_acts demo_end demo_start_eq demo_run)).
Defined.

Lemma resolve_sound_witness : In ("a", "xyz") (loaded demo_end).
Proof.
  apply (resolve_sound demo_limits demo_start demo_acts demo_end 1 "a" 0 "xyz" demo_start_eq demo_run).
  vm_compute. reflexivity.
Defined.
