(* ===== verification/AuditEvent.v ===== *)
(** * Audit events: identity and validation (src/audit)

    store.go, identity.go, validate.go, [cloneEvent] of client.go and the
    adapter of recorder.go.  UUIDs come from a library; what the code relies on
    is the class [UUIDLib].  [json.Valid] is an argument.  A [json.RawMessage]
    is a string: nil and empty are not told apart, as in the code, which only
    looks at lengths. *)
From S2P Require Import Prelude GoStrings.
Local Open Scope string_scope.

(** github.com/google/uuid: parsing, printing in canonical form, the zero value. *)
Class UUIDLib := {
  UUID : Type;
  uuid_eq : EqDecision UUID;
  Nil : UUID;
  Parse : string -> option UUID;
  uuid_String : UUID -> string;
  Parse_String : forall u, Parse (uuid_String u) = Some u;
  String_nonempty : forall u, uuid_String u <> "" }.
#[export] Existing Instance uuid_eq.

Record Event := MkEvent {
  ID : string; Service : string; Actor : string; Action : string;
  TargetType : string; TargetID : string; ScopeType : string; ScopeID : string;
  BeforeState : string; AfterState : string; Metadata : string;
  RequestID : string; ClientIP : string;
  CreatedAt : Z }.

Definition with_identity (id : string) (t : Z) (e : Event) : Event :=
  MkEvent id (Service e) (Actor e) (Action e) (TargetType e) (TargetID e) (ScopeType e) (ScopeID e)
    (BeforeState e) (AfterState e) (Metadata e) (RequestID e) (ClientIP e) t.
Definition with_service (s : string) (e : Event) : Event :=
  MkEvent (ID e) s (Actor e) (Action e) (TargetType e) (TargetID e) (ScopeType e) (ScopeID e)
    (BeforeState e) (AfterState e) (Metadata e) (RequestID e) (ClientIP e) (CreatedAt e).

(** [cloneEvent]: field by field, with the raw messages re-allocated. *)
Definition cloneEvent (e : option Event) : option Event :=
  match e with
  | None => None
  | Some e =>
      Some (MkEvent (ID e) (Service e) (Actor e) (Action e) (TargetType e) (TargetID e) (ScopeType e)
              (ScopeID e) ("" ++ BeforeState e) ("" ++ AfterState e) ("" ++ Metadata e)
              (RequestID e) (ClientIP e) (CreatedAt e))
  end.

Inductive EventErr :=
| EventRequired | RandomFailed | BadEventID | NilEvent | MissingFields | BadJSONField
| StateTooLarge | MetadataTooLarge.

Definition MaxStateBytes : Z := Z.shiftl 64 10.
Definition MaxMetadataBytes : Z := Z.shiftl 16 10.

(** [t.UTC().Truncate(time.Microsecond)]. *)
Definition TruncateMicro (t : Z) : Z := (t - t mod Microsecond)%Z.

Section Identity.
Context `{UUIDLib}.

Definition parseEventID (raw : string) : result EventErr UUID :=
  match Parse raw with
  | Some u => if decide (u = Nil) then Err BadEventID else Ok u
  | None => Err BadEventID
  end.

Definition ValidateEventID (id : string) : result EventErr unit :=
  if id ==s "" then Ok tt else let? _ := parseEventID id in Ok tt.

(** [rnd] is what [uuid.NewRandom] returns, [now] the clock. *)
Definition PrepareEvent (rnd : option UUID) (now : Z) (event : option Event) : result EventErr Event :=
  match cloneEvent event with
  | None => Err EventRequired
  | Some prepared =>
      let id := if ID prepared ==s ""
                then match rnd with Some u => Ok u | None => Err RandomFailed end
                else parseEventID (ID prepared) in
      let? u := id in
      let t := if IsZero (CreatedAt prepared) then now else CreatedAt prepared in
      Ok (with_identity (uuid_String u) (TruncateMicro t) prepared)
  end.

Variable json_Valid : string -> bool.

Definition ValidateEvent (e : option Event) : result EventErr unit :=
  match e with
  | None => Err NilEvent
  | Some e =>
      let? _ := ValidateEventID (ID e) in
      if (Actor e ==s "") || (Action e ==s "") || (TargetType e ==s "") || (ScopeType e ==s "")
      then Err MissingFields
      else
        let? _ := first_err (fun raw => if (0 <? Len raw)%Z && negb (json_Valid raw) then Err BadJSONField else Ok tt)
                    [BeforeState e; AfterState e; Metadata e] in
        if ((MaxStateBytes <? Len (BeforeState e)) || (MaxStateBytes <? Len (AfterState e)))%Z
        then Err StateTooLarge
        else if (MaxMetadataBytes <? Len (Metadata e))%Z then Err MetadataTooLarge
        else Ok tt
  end.

(** recorder.go: the event handed to the asynchronous client. *)
Definition recorder_event (service : string) (event : option Event) : option Event :=
  match cloneEvent event with
  | None => None
  | Some ev => Some (if Service ev ==s "" then with_service service ev else ev)
  end.

(** ** Lemmas *)

Lemma cloneEvent_id e : cloneEvent e = e.
Proof. by destruct e as [[]|]. Qed.

Lemma parseEventID_String u : u <> Nil -> parseEventID (uuid_String u) = Ok u.
Proof. intros Hu. unfold parseEventID. by rewrite Parse_String, decide_False. Qed.

Lemma parseEventID_ok raw u : parseEventID raw = Ok u -> Parse raw = Some u /\ u <> Nil.
Proof. unfold parseEventID. intros. case_go. Qed.

Lemma TruncateMicro_idem t : TruncateMicro (TruncateMicro t) = TruncateMicro t.
Proof.
  unfold TruncateMicro, Microsecond.
  replace ((t - t mod 1000) mod 1000)%Z with 0%Z; [lia|].
  rewrite Zminus_mod_idemp_r. replace (t - t)%Z with 0%Z by lia. done.
Qed.

Lemma TruncateMicro_bounds t : (t - 1000 < TruncateMicro t <= t)%Z.
Proof. unfold TruncateMicro, Microsecond. pose proof (Z.mod_pos_bound t 1000). lia. Qed.

Lemma PrepareEvent_inv rnd now e p :
  PrepareEvent rnd now (Some e) = Ok p ->
  exists u, p = with_identity (uuid_String u) (TruncateMicro (if IsZero (CreatedAt e) then now else CreatedAt e)) e /\
    ((ID e = "" /\ rnd = Some u) \/ (ID e <> "" /\ parseEventID (ID e) = Ok u)).
Proof.
  unfold PrepareEvent. rewrite cloneEvent_id.
  destruct (String.eqb_spec (ID e) ""); [destruct rnd as [u|]|destruct (parseEventID (ID e)) as [u|]];
    intros; simplify_eq/=; eauto 10.
Qed.

(** Events that carry an identity already: what [PrepareEvent] returns. *)
Definition prepared (p : Event) : Prop :=
  exists u, u <> Nil /\ ID p = uuid_String u /\ CreatedAt p <> 0%Z /\ TruncateMicro (CreatedAt p) = CreatedAt p.

Lemma prepared_stable rnd now p : prepared p -> PrepareEvent rnd now (Some p) = Ok p.
Proof.
  intros (u & Hu & Hid & Hc & Ht). unfold PrepareEvent. rewrite cloneEvent_id, Hid.
  rewrite (proj2 (String.eqb_neq _ _) (String_nonempty u)), parseEventID_String by done.
  unfold IsZero. rewrite (proj2 (Z.eqb_neq _ _) Hc), Ht, <- Hid. by destruct p.
Qed.

Lemma PrepareEvent_prepared rnd now e p :
  PrepareEvent rnd now (Some e) = Ok p -> rnd <> Some Nil ->
  (Microsecond <= now)%Z -> (CreatedAt e = 0 \/ Microsecond <= CreatedAt e)%Z -> prepared p.
Proof.
  intros Hp Hr Hnow Hc. apply PrepareEvent_inv in Hp as (u & -> & Hu). exists u. cbn [ID with_identity CreatedAt].
  set (t := if IsZero (CreatedAt e) then now else CreatedAt e). repeat split.
  - destruct Hu as [[_ ->]|[_ Hu]]; [congruence|by apply parseEventID_ok in Hu as [_ ?]].
  - assert (1000 <= t)%Z.
    { unfold t, IsZero, Microsecond in *. destruct (CreatedAt e =? 0)%Z eqn:E; bprop; lia. }
    pose proof (TruncateMicro_bounds t). lia.
  - apply TruncateMicro_idem.
Qed.

(** Identity is stable: preparing an event that was already prepared
    changes nothing, whatever the random source and the clock say by then, so
    a retained event keeps its ID and timestamp across retries. *)
Theorem PrepareEvent_idempotent rnd now rnd' now' e p :
  PrepareEvent rnd now (Some e) = Ok p -> rnd <> Some Nil ->
  (Microsecond <= now)%Z -> (CreatedAt e = 0 \/ Microsecond <= CreatedAt e)%Z ->
  PrepareEvent rnd' now' (Some p) = Ok p.
Proof. intros. eapply prepared_stable, PrepareEvent_prepared; eauto. Qed.

End Identity.

(** ** A concrete UUID library for the witnesses: canonical text is the value. *)
Definition text_uuid : UUIDLib.
Proof.
  refine {| UUID := { s : string | bool_decide (s <> "") };
            Nil := exist _ "0" I;
            Parse := fun s => match decide (s <> "") with
                              | left H => Some (exist _ s (bool_decide_pack _ H)) | right _ => None end;
            uuid_String := proj1_sig |}.
  - intros [s Hs]. simpl. destruct (decide (s <> "")) as [H|H].
    + f_equal. by apply dsig_eq.
    + destruct (H (bool_decide_unpack _ Hs)).
  - intros [s Hs]. exact (bool_decide_unpack _ Hs).
Defined.

Definition demo_event (id : string) (t : Z) : Event :=
  MkEvent id "" "ann" "update" "user" "7" "tenant" "t1" "" "{}" "" "r1" "10.0.0.1" t.

Lemma PrepareEvent_idempotent_witness :
  PrepareEvent (H := text_uuid) None 0 (Some (demo_event "8f" 5000)) = Ok (demo_event "8f" 5000).
Proof.
  apply (PrepareEvent_idempotent (H := text_uuid) None 9999 None 0 (demo_event "8f" 5321)
           (demo_event "8f" 5000)); [reflexivity|discriminate|vm_compute; discriminate|].
  right. vm_compute. discriminate.
Defined.
