(* ===== verification/Outbox.v ===== *)
(** * The transactional outbox (src/audit/outbox.go)

    The table is a finite map from event ID to row; every SQL statement of
    outbox.go is a function on it at the database clock's current instant.
    [EnqueueTx] runs in the caller's transaction, [claim] takes a 60-second
    lease on the oldest due row of the service, [finish] deletes or
    reschedules the row if the lease token still matches.

    [DeliverOne] is their sequential composition.  Relays run concurrently, in
    one process or several, may crash at any point and may lose the answer of
    a statement that the database did execute; [Sys] interleaves them.  Lease
    tokens are fresh UUIDs, drawn here from a counter.  [enq] and [delivered]
    are ghost histories: the rows ever enqueued, and the payloads the receiver
    ever accepted. *)
From S2P Require Import Prelude GoStrings AuditEvent.
From Stdlib Require Import OrdersEx.
Local Open Scope string_scope.

Definition outboxLease : Z := (60 * Second)%Z.
Definition outboxDBTimeout : Z := (5 * Second)%Z.
Definition outboxSendTimeout : Z := (30 * Second)%Z.
Definition maxOutboxPayload : Z := Z.shiftl 256 10.

Record row := MkRow {
  r_service : string; payload : string; enqueued_at : Z; next_attempt : Z; attempts : Z;
  lease_token : option nat; lease_until : option Z }.

Inductive OutboxErr :=
| EventInvalid (e : EventErr) | ServiceMismatch | MarshalFailed | PayloadTooLarge
| IdentityConflict | LeaseLost | TransportRequired | DeliveryFailed | DBError.

(** ** Statements *)

(** INSERT .. ON CONFLICT(id) DO UPDATE SET id=EXCLUDED.id WHERE same service and payload. *)
Definition insert_row (now : Z) (id service pl : string) (tbl : gmap string row)
  : result OutboxErr unit * gmap string row :=
  match tbl !! id with
  | None => (Ok tt, <[id := MkRow service pl now now 0 None None]> tbl)
  | Some r =>
      if (r_service r ==s service) && (payload r ==s pl) then (Ok tt, tbl)
      else (Err IdentityConflict, tbl)
  end.

Definition retrySeconds (attempts : Z) : Z :=
  if (5 <? attempts)%Z then 30%Z else if (attempts <? 1)%Z then 1%Z else Z.shiftl 1 (attempts - 1).

Record outboxClaim := MkClaim { cl_id : string; cl_token : nat; cl_payload : string; cl_attempts : Z }.

(** The WHERE clause of the candidate query; [locked] are the rows that
    concurrent transactions hold (SKIP LOCKED). *)
Definition eligible (service : string) (now : Z) (locked : string -> bool) (e : string * row) : bool :=
  let '(id, r) := e in
  (r_service r ==s service) && (next_attempt r <=? now)%Z &&
  match lease_until r with None => true | Some u => (u <=? now)%Z end && negb (locked id).

(** ORDER BY next_attempt, enqueued_at, id. *)
Definition row_compare (a b : string * row) : comparison :=
  match Z.compare (next_attempt (snd a)) (next_attempt (snd b)) with
  | Eq => match Z.compare (enqueued_at (snd a)) (enqueued_at (snd b)) with
          | Eq => String.compare (fst a) (fst b)
          | c => c
          end
  | c => c
  end.

Fixpoint pick (l : list (string * row)) : option (string * row) :=
  match l with
  | [] => None
  | x :: l' =>
      match pick l' with
      | None => Some x
      | Some y => match row_compare y x with Lt => Some y | _ => Some x end
      end
  end.

Definition claim (service : string) (token : nat) (now : Z) (locked : string -> bool) (tbl : gmap string row)
  : option outboxClaim * gmap string row :=
  match pick (List.filter (eligible service now locked) (map_to_list tbl)) with
  | None => (None, tbl)
  | Some (id, r) =>
      (Some (MkClaim id token (payload r) (attempts r + 1)),
       <[id := MkRow (r_service r) (payload r) (enqueued_at r) (next_attempt r) (attempts r + 1)
                 (Some token) (Some (now + outboxLease)%Z)]> tbl)
  end.

(** The lease condition of both statements of [finish]. *)
Definition holds_lease (now : Z) (c : outboxClaim) (r : row) : bool :=
  match lease_token r, lease_until r with
  | Some tok, Some u => Nat.eqb tok (cl_token c) && (now <? u)%Z
  | _, _ => false
  end.

Definition finish (now : Z) (c : outboxClaim) (delivered : bool) (tbl : gmap string row)
  : result OutboxErr unit * gmap string row :=
  match tbl !! cl_id c with
  | Some r =>
      if holds_lease now c r then
        (Ok tt,
         if delivered then delete (cl_id c) tbl
         else <[cl_id c := MkRow (r_service r) (payload r) (enqueued_at r)
                             (now + retrySeconds (cl_attempts c) * Second) (attempts r) None None]> tbl)
      else (Err LeaseLost, tbl)
  | None => (Err LeaseLost, tbl)
  end.

Section Operations.
Context `{UUIDLib}.
Variable json_Valid : string -> bool.
Variable marshal : Event -> option string.
Variable unmarshal : string -> option Event.

(** [exec_ok]: the statement runs; when it fails the caller rolls back. *)
Definition EnqueueTx (service : string) (rnd : option UUID) (now : Z) (exec_ok : bool) (event : option Event)
    (tbl : gmap string row) : result OutboxErr unit * gmap string row :=
  match PrepareEvent rnd now event with
  | Err e => (Err (EventInvalid e), tbl)
  | Ok prepared =>
      if (Service prepared !=s "") && (Service prepared !=s service) then (Err ServiceMismatch, tbl)
      else
        let prepared := with_service service prepared in
        match ValidateEvent json_Valid (Some prepared) with
        | Err e => (Err (EventInvalid e), tbl)
        | Ok _ =>
            match marshal prepared with
            | None => (Err MarshalFailed, tbl)
            | Some pl =>
                if (maxOutboxPayload <? Len pl)%Z then (Err PayloadTooLarge, tbl)
                else if exec_ok then insert_row now (ID prepared) service pl tbl else (Err DBError, tbl)
            end
        end
  end.

(** How a statement may go wrong: it fails before it takes effect, or its
    answer is lost after it did (a dropped connection, a cancelled context). *)
Inductive fault := NoFault | NotRun | AnswerLost.

Definition db_exec {A} (f : fault) (st : gmap string row -> result OutboxErr A * gmap string row)
    (tbl : gmap string row) : result OutboxErr A * gmap string row :=
  match f with
  | NoFault => st tbl
  | NotRun => (Err DBError, tbl)
  | AnswerLost => (Err DBError, snd (st tbl))
  end.

Definition claim_stmt (service : string) (token : nat) (now : Z) (locked : string -> bool)
    (tbl : gmap string row) : result OutboxErr (option outboxClaim) * gmap string row :=
  let '(oc, tbl') := claim service token now locked tbl in (Ok oc, tbl').

(** One relay iteration without interference: claim at [t0], send, finish at
    [t1], the two statements with the faults [f0] and [f1].  The pair is Go's
    [(worked, err)]. *)
Definition DeliverOne (service : string) (token : nat) (locked : string -> bool) (t0 t1 : Z) (f0 f1 : fault)
    (transport : option (Event -> bool)) (tbl : gmap string row)
  : (bool * result OutboxErr unit) * gmap string row :=
  match transport with
  | None => ((false, Err TransportRequired), tbl)
  | Some send =>
      match db_exec f0 (claim_stmt service token t0 locked) tbl with
      | (Err e, tbl1) => ((false, Err e), tbl1)
      | (Ok None, tbl1) => ((false, Ok tt), tbl1)
      | (Ok (Some c), tbl1) =>
          let sent := match unmarshal (cl_payload c) with Some e => send e | None => false end in
          match db_exec f1 (finish t1 c sent) tbl1 with
          | (Err e, tbl2) => ((true, Err e), tbl2)
          | (Ok _, tbl2) => ((true, if sent then Ok tt else Err DeliveryFailed), tbl2)
          end
      end
  end.

(** What the environment contributes to one turn of the relay loop: the time
    from claim to finish, the overshoot of the one-second timer, the faults,
    the rows other transactions have locked and the transport's answers. *)
Record turn := MkTurn {
  t_send : Z; t_late : Z; t_f0 : fault; t_f1 : fault; t_locked : string -> bool; t_answer : Event -> bool }.

(** The relay loop from instant [now]; the list ends when the context does. *)
Fixpoint Run (service : string) (token : nat) (now : Z) (turns : list turn) (tbl : gmap string row)
  : gmap string row :=
  match turns with
  | [] => tbl
  | u :: turns' =>
      let t1 := (now + t_send u)%Z in
      match DeliverOne service token (t_locked u) now t1 (t_f0 u) (t_f1 u) (Some (t_answer u)) tbl with
      | ((true, Ok _), tbl') => Run service (S token) t1 turns' tbl'
      | (_, tbl') => Run service (S token) (t1 + Second + t_late u) turns' tbl'
      end
  end.

End Operations.

(** [Backlog]: pending rows of the service, and the age of the oldest. *)
Definition own_rows (service : string) (tbl : gmap string row) : list (string * row) :=
  List.filter (fun e => r_service (snd e) ==s service) (map_to_list tbl).
Definition Backlog (service : string) (now : Z) (tbl : gmap string row) : Z * Z :=
  let l := own_rows service tbl in
  (Z.of_nat (length l),
   match l with
   | [] => 0%Z
   | e :: l' =>
       Z.max 0 (now - fold_left (fun z e => Z.min z (enqueued_at (snd e))) l' (enqueued_at (snd e)))
   end).

(** ** Concurrent relays *)

(** [t0] is the ghost instant of the claim. *)
Inductive wpc :=
| Idle
| Sending (c : outboxClaim) (t0 : Z)
| Finishing (c : outboxClaim) (t0 : Z) (ok : bool).

Record Sys := MkSys {
  tbl : gmap string row; clock : Z; workers : list wpc; nextTok : nat;
  enq : list (string * string); delivered : list (string * string) }.

Inductive action :=
| Tick (d : N)
| Enqueue (id service pl : string)
| ClaimA (w : nat) (service : string) (locked : string -> bool) (answer_lost : bool)
| SendA (w : nat) (received ok : bool)   (* an acknowledged send was received *)
| FinishA (w : nat)
| FinishSkipped (w : nat)                (* the statement failed before executing *)
| Crash (w : nat).

Definition set_worker (w : nat) (p : wpc) (s : Sys) : Sys :=
  MkSys (tbl s) (clock s) (<[w := p]> (workers s)) (nextTok s) (enq s) (delivered s).
Definition set_tbl (t : gmap string row) (s : Sys) : Sys :=
  MkSys t (clock s) (workers s) (nextTok s) (enq s) (delivered s).

Definition exec (a : action) (s : Sys) : option Sys :=
  match a with
  | Tick d => Some (MkSys (tbl s) (clock s + Z.of_N d) (workers s) (nextTok s) (enq s) (delivered s))
  | Enqueue id service pl =>
      match insert_row (clock s) id service pl (tbl s) with
      | (Ok _, t) => Some (MkSys t (clock s) (workers s) (nextTok s) ((id, pl) :: enq s) (delivered s))
      | (Err _, _) => Some s
      end
  | ClaimA w service locked answer_lost =>
      match workers s !! w with
      | Some Idle =>
          let '(oc, t) := claim service (nextTok s) (clock s) locked (tbl s) in
          let p := match oc with
                   | Some c => if answer_lost then Idle else Sending c (clock s)
                   | None => Idle
                   end in
          Some (MkSys t (clock s) (<[w := p]> (workers s)) (S (nextTok s)) (enq s) (delivered s))
      | _ => None
      end
  | SendA w received ok =>
      match workers s !! w with
      | Some (Sending c t0) =>
          if ok && negb received then None
          else Some (MkSys (tbl s) (clock s) (<[w := Finishing c t0 ok]> (workers s)) (nextTok s) (enq s)
                 (if received then (cl_id c, cl_payload c) :: delivered s else delivered s))
      | _ => None
      end
  | FinishA w =>
      match workers s !! w with
      | Some (Finishing c t0 ok) =>
          Some (set_worker w Idle (set_tbl (snd (finish (clock s) c ok (tbl s))) s))
      | _ => None
      end
  | FinishSkipped w =>
      match workers s !! w with Some (Finishing c t0 ok) => Some (set_worker w Idle s) | _ => None end
  | Crash w => match workers s !! w with Some _ => Some (set_worker w Idle s) | None => None end
  end.

Fixpoint run (acts : list action) (s : Sys) : option Sys :=
  match acts with
  | [] => Some s
  | a :: acts' => match exec a s with Some s' => run acts' s' | None => None end
  end.

Definition init (n : nat) (t0 : Z) : Sys := MkSys ∅ t0 (replicate n Idle) 0 [] [].

(** The claim a relay holds. *)
Definition held (p : wpc) : option (outboxClaim * Z) :=
  match p with Idle => None | Sending c t0 | Finishing c t0 _ => Some (c, t0) end.

Record Inv (s : Sys) : Prop := {
  i_kept : forall id pl, In (id, pl) (enq s) ->
    (exists r, tbl s !! id = Some r /\ payload r = pl) \/ In (id, pl) (delivered s);
  i_pair : forall id r, tbl s !! id = Some r -> lease_token r = None <-> lease_until r = None;
  i_tok : forall id r tok, tbl s !! id = Some r -> lease_token r = Some tok -> tok < nextTok s;
  i_held : forall w p c t0, workers s !! w = Some p -> held p = Some (c, t0) -> cl_token c < nextTok s;
  i_dist : forall w1 w2 p1 p2 c1 c2 t1 t2, workers s !! w1 = Some p1 -> workers s !! w2 = Some p2 ->
    held p1 = Some (c1, t1) -> held p2 = Some (c2, t2) -> cl_token c1 = cl_token c2 -> w1 = w2;
  i_match : forall w p c t0 id r, workers s !! w = Some p -> held p = Some (c, t0) ->
    tbl s !! id = Some r -> lease_token r = Some (cl_token c) ->
    id = cl_id c /\ payload r = cl_payload c /\ lease_until r = Some (t0 + outboxLease)%Z;
  i_lease : forall w p c t0, workers s !! w = Some p -> held p = Some (c, t0) ->
    (clock s < t0 + outboxLease)%Z -> exists r, tbl s !! cl_id c = Some r /\ lease_token r = Some (cl_token c);
  i_sent : forall w c t0, workers s !! w = Some (Finishing c t0 true) ->
    In (cl_id c, cl_payload c) (delivered s) }.

(** ** The statements, characterised *)

Lemma pick_In l x : pick l = Some x -> In x l.
Proof.
  revert x; induction l as [|y l IH]; simpl; intros x; [done|].
  destruct (pick l) as [z|]; [destruct (row_compare z y)|]; intros [= <-]; auto.
Qed.

Lemma pick_None l : pick l = None <-> l = [].
Proof.
  destruct l as [|x l]; [done|]. split; [|done]. simpl. destruct (pick l) as [y|]; [destruct (row_compare y x)|]; done.
Qed.

Definition row_lt (a b : string * row) : Prop := row_compare a b = Lt.

Lemma row_lt_lex a b :
  row_lt a b <->
  (next_attempt (snd a) < next_attempt (snd b) \/
   next_attempt (snd a) = next_attempt (snd b) /\
   (enqueued_at (snd a) < enqueued_at (snd b) \/
    enqueued_at (snd a) = enqueued_at (snd b) /\ String_as_OT.lt (fst a) (fst b)))%Z.
Proof.
  unfold row_lt, row_compare.
  destruct (Z.compare_spec (next_attempt (snd a)) (next_attempt (snd b)));
    destruct (Z.compare_spec (enqueued_at (snd a)) (enqueued_at (snd b)));
    split; intros Hx; try done; try lia; try (right; split; [done|]; try (left; done));
    try (right; split; done); destruct Hx as [?|[? [?|[? ?]]]]; try lia; done.
Qed.

Lemma row_lt_asym a b : row_lt a b -> row_lt b a -> False.
Proof.
  rewrite !row_lt_lex. intros [?|[? [?|[? H1]]]] [?|[? [?|[? H2]]]]; try lia.
  pose proof (StrictOrder_Transitive (R := String_as_OT.lt) _ _ _ H1 H2) as Hxx.
  by apply (StrictOrder_Irreflexive (R := String_as_OT.lt)) in Hxx.
Qed.

Lemma row_lt_cotrans a b c : row_lt a c -> row_lt a b \/ row_lt b c.
Proof.
  rewrite !row_lt_lex. intros Hac.
  destruct (Z.compare_spec (next_attempt (snd a)) (next_attempt (snd b)));
    destruct (Z.compare_spec (next_attempt (snd b)) (next_attempt (snd c))); try (by auto); try lia.
  destruct (Z.compare_spec (enqueued_at (snd a)) (enqueued_at (snd b)));
    destruct (Z.compare_spec (enqueued_at (snd b)) (enqueued_at (snd c))); try (by auto); try lia; try (left; lia); try (right; lia).
  assert (String_as_OT.lt (fst a) (fst c)) as Hs by (destruct Hac as [?|[? [?|[? ?]]]]; [lia|lia|done]).
  destruct (String_as_OT.compare_spec (fst a) (fst b)) as [E|?|?]; [right|left|right].
  - right. split; [done|]. right. split; [done|]. by rewrite <- E.
  - right. split; [done|]. by right.
  - right. split; [done|]. right. split; [done|].
    by apply (StrictOrder_Transitive (R := String_as_OT.lt) _ (fst a)).
Qed.

(** The candidate is the least due row. *)
Lemma pick_min l x y : pick l = Some x -> In y l -> ~ row_lt y x.
Proof.
  revert x; induction l as [|z l IH]; intros x; simpl; [done|].
  destruct (pick l) as [m|] eqn:Hp.
  - destruct (row_compare m z) eqn:Hc; intros [= <-] [<-|Hy] Hlt;
      try (by eapply row_lt_asym); try (by eapply IH);
      destruct (row_lt_cotrans _ m _ Hlt) as [?|Hmz]; try (by eapply IH); unfold row_lt in Hmz; congruence.
  - apply pick_None in Hp as ->. intros [= <-] [<-|[]] Hlt. by eapply row_lt_asym.
Qed.

Lemma claim_inv service token now locked t oc t' :
  claim service token now locked t = (oc, t') ->
  match oc with
  | None => t' = t /\ forall id r, t !! id = Some r -> eligible service now locked (id, r) = false
  | Some c =>
      exists r, t !! cl_id c = Some r /\ eligible service now locked (cl_id c, r) = true /\
        c = MkClaim (cl_id c) token (payload r) (attempts r + 1) /\
        t' = <[cl_id c := MkRow (r_service r) (payload r) (enqueued_at r) (next_attempt r) (attempts r + 1)
                 (Some token) (Some (now + outboxLease)%Z)]> t /\
        forall id r', t !! id = Some r' -> eligible service now locked (id, r') = true ->
          ~ row_lt (id, r') (cl_id c, r)
  end.
Proof.
  unfold claim. destruct (pick _) as [[id r]|] eqn:Hp; intros [= <- <-].
  - pose proof (pick_In _ _ Hp) as Hin. apply filter_In in Hin as [Hin He].
    apply list_elem_of_In, elem_of_map_to_list in Hin. exists r. cbn [cl_id]. repeat split; try done.
    intros id' r' Hr' He'. eapply pick_min; [exact Hp|]. apply filter_In. split; [|done].
    by apply list_elem_of_In, elem_of_map_to_list.
  - apply pick_None in Hp. split; [done|]. intros id r Hr. apply not_true_iff_false. intros He.
    assert (In (id, r) (List.filter (eligible service now locked) (map_to_list t))) as Hin; [|by rewrite Hp in Hin].
    apply filter_In. split; [|done]. by apply list_elem_of_In, elem_of_map_to_list.
Qed.

Lemma eligible_expired service now locked id r :
  eligible service now locked (id, r) = true ->
  r_service r = service /\ (next_attempt r <= now)%Z /\
  (forall u, lease_until r = Some u -> (u <= now)%Z) /\ locked id = false.
Proof.
  unfold eligible. intros He. bprop. destruct He as [[[Hs Hn] Hu] Hl]. repeat split; try done.
  intros u Hu'. rewrite Hu' in Hu. by bprop.
Qed.

Lemma finish_inv now c d t res t' :
  finish now c d t = (res, t') ->
  (exists r u, t !! cl_id c = Some r /\ lease_token r = Some (cl_token c) /\ lease_until r = Some u /\
     (now < u)%Z /\ res = Ok tt /\
     t' = if d then delete (cl_id c) t
          else <[cl_id c := MkRow (r_service r) (payload r) (enqueued_at r)
                   (now + retrySeconds (cl_attempts c) * Second) (attempts r) None None]> t)
  \/ (res = Err LeaseLost /\ t' = t).
Proof.
  unfold finish, holds_lease. destruct (t !! cl_id c) as [r|]; [|intros; simplify_eq; auto].
  destruct (lease_token r) as [tok|] eqn:Ht, (lease_until r) as [u|] eqn:Hu; try (intros; simplify_eq; by auto).
  destruct (Nat.eqb_spec tok (cl_token c)); [|intros; simplify_eq/=; by auto].
  destruct (now <? u)%Z eqn:E; bprop; intros; simplify_eq/=; [|auto]. left. exists r, u. auto 10.
Qed.

Lemma finish_ok now c d t r u :
  t !! cl_id c = Some r -> lease_token r = Some (cl_token c) -> lease_until r = Some u -> (now < u)%Z ->
  fst (finish now c d t) = Ok tt.
Proof.
  intros Hr Ht Hu Hn. unfold finish, holds_lease. rewrite Hr, Ht, Hu, Nat.eqb_refl.
  by rewrite (proj2 (Z.ltb_lt _ _) Hn).
Qed.

(** ** The invariant is kept by every action *)

Lemma lookup_worker (ws : list wpc) w p p' w' q :
  ws !! w = Some p -> <[w := p']> ws !! w' = Some q -> (w' = w /\ q = p') \/ (w' <> w /\ ws !! w' = Some q).
Proof. intros Hp Hq. apply list_lookup_insert_Some in Hq as [(-> & -> & _)|[? ?]]; auto. Qed.

(** A relay that stops holding a claim, the table unchanged. *)
Lemma inv_drop s w p : Inv s -> workers s !! w = Some p -> Inv (set_worker w Idle s).
Proof.
  intros [h1 h2 h3 h4 h5 h6 h7 h8] Hw. split; cbn [set_worker tbl clock workers nextTok enq delivered]; try done.
  - intros w' q c t0 Hq. destruct (lookup_worker _ _ _ _ _ _ Hw Hq) as [[-> ->]|[_ ?]]; [done|eauto].
  - intros w1 w2 p1 p2 c1 c2 t1 t2 Hq1 Hq2.
    destruct (lookup_worker _ _ _ _ _ _ Hw Hq1) as [[-> ->]|[_ ?]]; [done|].
    destruct (lookup_worker _ _ _ _ _ _ Hw Hq2) as [[-> ->]|[_ ?]]; [done|eauto].
  - intros w' q c t0 id r Hq. destruct (lookup_worker _ _ _ _ _ _ Hw Hq) as [[-> ->]|[_ ?]]; [done|eauto].
  - intros w' q c t0 Hq. destruct (lookup_worker _ _ _ _ _ _ Hw Hq) as [[-> ->]|[_ ?]]; [done|eauto].
  - intros w' c t0 Hq. destruct (lookup_worker _ _ _ _ _ _ Hw Hq) as [[-> ?]|[_ ?]]; [done|eauto].
Qed.

Lemma inv_insert s id service pl t :
  Inv s -> insert_row (clock s) id service pl (tbl s) = (Ok tt, t) ->
  Inv (MkSys t (clock s) (workers s) (nextTok s) ((id, pl) :: enq s) (delivered s)).
Proof.
  intros [h1 h2 h3 h4 h5 h6 h7 h8]. unfold insert_row. destruct (tbl s !! id) as [r|] eqn:Hid.
  - destruct (_ && _) eqn:E; [|done]. intros [= <-]. bprop. destruct E as [_ Hpl].
    split; cbn; try done. intros id' pl' [[= <- <-]|Hin]; [left; eauto|auto].
  - intros [= <-]. split; cbn; try done.
    + intros id' pl' [[= <- <-]|Hin].
      * left. eexists. by rewrite lookup_insert_eq.
      * destruct (h1 _ _ Hin) as [(r & Hr & ?)|?]; [left|by right].
        exists r. rewrite lookup_insert_ne; [done|congruence].
    + intros id' r. rewrite lookup_insert_Some. intros [[<- <-]|[_ ?]]; [done|eauto].
    + intros id' r tok. rewrite lookup_insert_Some. intros [[<- <-]|[_ ?]]; [done|eauto].
    + intros w p c t0 id' r Hw Hh. rewrite lookup_insert_Some. intros [[<- <-]|[_ ?]]; [done|eauto].
    + intros w p c t0 Hw Hh Hc. destruct (h7 _ _ _ _ Hw Hh Hc) as (r & Hr & ?).
      exists r. rewrite lookup_insert_ne; [done|congruence].
Qed.

Lemma inv_claim s w service locked lost oc t :
  Inv s -> workers s !! w = Some Idle ->
  claim service (nextTok s) (clock s) locked (tbl s) = (oc, t) ->
  Inv (MkSys t (clock s)
         (<[w := match oc with Some c => if lost : bool then Idle else Sending c (clock s) | None => Idle end]> (workers s))
         (S (nextTok s)) (enq s) (delivered s)).
Proof.
  intros HI Hw Hc. apply claim_inv in Hc. pose proof HI as [h1 h2 h3 h4 h5 h6 h7 h8]. destruct oc as [c|].
  2:{ destruct Hc as [-> _]. destruct (inv_drop _ _ _ HI Hw) as [g1 g2 g3 g4 g5 g6 g7 g8].
      split; cbn in *; try done; [intros id r tok Hr Ht; specialize (g3 _ _ _ Hr Ht); lia|
      intros w' p c t0 Hp Hh; specialize (g4 _ _ _ _ Hp Hh); lia]. }
  destruct Hc as (r & Hr & He & Hcl & -> & _). apply eligible_expired in He as (_ & _ & Hexp & _).
  assert (cl_token c = nextTok s) as Htok by (by rewrite Hcl). assert (cl_payload c = payload r) as Hpl by (by rewrite Hcl).
  assert (forall w' q, <[w := if lost then Idle else Sending c (clock s)]> (workers s) !! w' = Some q ->
    (w' = w /\ (held q = None \/ q = Sending c (clock s))) \/ (w' <> w /\ workers s !! w' = Some q)) as Hcase.
  { intros w' q Hq. destruct (lookup_worker _ _ _ _ _ _ Hw Hq) as [[-> ->]|?]; [left|by right]. destruct lost; auto. }
  assert (forall w' q c' t0, workers s !! w' = Some q -> held q = Some (c', t0) -> cl_token c' <> nextTok s) as Hold
    by (intros w' q c' t0 Hq Hh E; specialize (h4 _ _ _ _ Hq Hh); lia).
  split; cbn [tbl clock workers nextTok enq delivered].
  - intros id pl Hin. destruct (h1 _ _ Hin) as [(r' & Hr' & Hp)|?]; [left|by right].
    destruct (decide (cl_id c = id)) as [<-|]; [rewrite lookup_insert_eq|rewrite lookup_insert_ne by done; eauto].
    simplify_eq. eexists; split; [done|done].
  - intros id r'. rewrite lookup_insert_Some. intros [[<- <-]|[_ ?]]; [done|eauto].
  - intros id r' tok. rewrite lookup_insert_Some. intros [[<- <-]|[_ Hr']] Ht; [simplify_eq/=; lia|].
    specialize (h3 _ _ _ Hr' Ht). lia.
  - intros w' q c' t0 Hq Hh. destruct (Hcase _ _ Hq) as [[-> [?| ->]]|[_ Hq']]; [congruence|simplify_eq/=; lia|].
    specialize (h4 _ _ _ _ Hq' Hh). lia.
  - intros w1 w2 p1 p2 c1 c2 t1 t2 Hq1 Hq2 Hh1 Hh2 E.
    destruct (Hcase _ _ Hq1) as [[-> [?| ->]]|[_ Hq1']]; [congruence| |];
      (destruct (Hcase _ _ Hq2) as [[-> [?| ->]]|[_ Hq2']]; [congruence| |]); simplify_eq/=; eauto.
    + destruct (Hold _ _ _ _ Hq2' Hh2). congruence.
    + destruct (Hold _ _ _ _ Hq1' Hh1). congruence.
  - intros w' q c' t0 id r' Hq Hh Hr' Ht. apply lookup_insert_Some in Hr' as [[<- <-]|[Hne Hr']].
    + simplify_eq/=. destruct (Hcase _ _ Hq) as [[-> [?| ->]]|[_ Hq']]; [congruence| |].
      * by simplify_eq/=.
      * destruct (Hold _ _ _ _ Hq' Hh). congruence.
    + destruct (Hcase _ _ Hq) as [[-> [?| ->]]|[_ Hq']]; [congruence| |by eauto].
      simplify_eq/=. specialize (h3 _ _ _ Hr' Ht). lia.
  - intros w' q c' t0 Hq Hh Hlt. destruct (Hcase _ _ Hq) as [[-> [?| ->]]|[_ Hq']]; [congruence| |].
    + simplify_eq/=. eexists. rewrite lookup_insert_eq. split; [done|]. simpl. by rewrite Htok.
    + destruct (h7 _ _ _ _ Hq' Hh Hlt) as (r' & Hr' & Ht'). exists r'. split; [|done].
      rewrite lookup_insert_ne; [done|]. intros E. rewrite <- E in Hr'.
      assert (r' = r) as -> by congruence.
      destruct (h6 _ _ _ _ _ _ Hq' Hh Hr Ht') as (_ & _ & Hu). specialize (Hexp _ Hu). lia.
  - intros w' c' t0 Hq. destruct (Hcase _ _ Hq) as [[-> [?|?]]|[_ Hq']]; [done|done|eauto].
Qed.

Lemma inv_finish s w c t0 ok :
  Inv s -> workers s !! w = Some (Finishing c t0 ok) ->
  Inv (set_worker w Idle (set_tbl (snd (finish (clock s) c ok (tbl s))) s)).
Proof.
  intros HI Hw. destruct (finish (clock s) c ok (tbl s)) as [res t] eqn:Hf. cbn [snd].
  apply finish_inv in Hf as [(r & u & Hr & Ht & Hu & Hlt & _ & ->)|[_ ->]].
  2:{ replace (set_tbl (tbl s) s) with s by (by destruct s). by eapply inv_drop. }
  destruct (i_match _ HI _ _ _ _ _ _ Hw eq_refl Hr Ht) as (_ & Hpl & _).
  pose proof (i_dist _ HI) as Hd. pose proof (i_sent _ HI) as Hs.
  destruct (inv_drop _ _ _ HI Hw) as [h1 h2 h3 h4 h5 h6 h7 h8]. unfold set_worker, set_tbl in *.
  cbn [tbl clock workers nextTok enq delivered] in *.
  assert (forall w' q c' t1, <[w := Idle]> (workers s) !! w' = Some q -> held q = Some (c', t1) -> cl_token c' <> cl_token c) as Hoth.
  { intros w' q c' t1 Hq Hh E. destruct (lookup_worker _ _ _ _ _ _ Hw Hq) as [[-> ->]|[Hne Hq']]; [done|].
    destruct Hne. by eapply (Hd _ _ _ _ _ _ _ _ Hq' Hw Hh eq_refl). }
  assert (forall id r', (if ok then delete (cl_id c) (tbl s) else
      <[cl_id c := MkRow (r_service r) (payload r) (enqueued_at r) (clock s + retrySeconds (cl_attempts c) * Second)
          (attempts r) None None]> (tbl s)) !! id = Some r' ->
      (lease_token r' = None /\ lease_until r' = None) \/ tbl s !! id = Some r') as Hnew.
  { intros id r'. destruct ok; [rewrite lookup_delete_Some; naive_solver|].
    rewrite lookup_insert_Some. intros [[<- <-]|[_ ?]]; auto. }
  split; cbn [tbl clock workers nextTok enq delivered]; try done.
  - intros id pl Hin. destruct (h1 _ _ Hin) as [(r' & Hr' & Hp)|?]; [|by right].
    destruct (decide (cl_id c = id)) as [<-|Hne].
    + simplify_eq. destruct ok; [right; rewrite Hpl; by eapply (Hs w)|left]. eexists. by rewrite lookup_insert_eq.
    + left. exists r'. destruct ok; [by rewrite lookup_delete_ne|by rewrite lookup_insert_ne].
  - intros id r' Hr'. destruct (Hnew _ _ Hr') as [[E1 E2]|?]; [by rewrite E1, E2|eauto].
  - intros id r' tok Hr' Htk. destruct (Hnew _ _ Hr') as [[E1 _]|?]; [congruence|eauto].
  - intros w' q c' t1 id r' Hq Hh Hr' Htk. destruct (Hnew _ _ Hr') as [[E1 _]|?]; [congruence|eauto].
  - intros w' q c' t1 Hq Hh Hlt'. destruct (h7 _ _ _ _ Hq Hh Hlt') as (r' & Hr' & Htk'). exists r'. split; [|done].
    assert (cl_id c <> cl_id c') as Hne.
    { intros E. rewrite <- E in Hr'. destruct (Hoth _ _ _ _ Hq Hh). congruence. }
    destruct ok; [by rewrite lookup_delete_ne|by rewrite lookup_insert_ne].
Qed.

Lemma outbox_inv_tick s d :
  Inv s -> Inv (MkSys (tbl s) (clock s + Z.of_N d) (workers s) (nextTok s) (enq s) (delivered s)).
Proof. intros [h1 h2 h3 h4 h5 h6 h7 h8]. split; cbn; try done. intros w p c t0 Hw Hh Hlt. eapply h7; eauto. lia. Qed.

Lemma inv_send s w c t0 received ok :
  Inv s -> workers s !! w = Some (Sending c t0) -> (ok = true -> received = true) ->
  Inv (MkSys (tbl s) (clock s) (<[w := Finishing c t0 ok]> (workers s)) (nextTok s) (enq s)
         (if received then (cl_id c, cl_payload c) :: delivered s else delivered s)).
Proof.
  intros [h1 h2 h3 h4 h5 h6 h7 h8] Hw Hok.
  assert (forall x, In x (delivered s) -> In x (if received then (cl_id c, cl_payload c) :: delivered s else delivered s))
    as Hsub by (destruct received; simpl; auto).
  assert (forall w' q, <[w := Finishing c t0 ok]> (workers s) !! w' = Some q ->
    exists p, workers s !! w' = Some p /\ held p = held q) as Hback.
  { intros w' q Hq. destruct (lookup_worker _ _ _ _ _ _ Hw Hq) as [[-> ->]|[_ ?]]; eauto. }
  split; cbn [tbl clock workers nextTok enq delivered]; try done.
  - intros id pl Hin. destruct (h1 _ _ Hin); auto.
  - intros w' q c' t1 Hq Hh. destruct (Hback _ _ Hq) as (p & Hp & E). rewrite <- E in Hh. eauto.
  - intros w1 w2 p1 p2 c1 c2 t1 t2 Hq1 Hq2 Hh1 Hh2. destruct (Hback _ _ Hq1) as (p & Hp & E).
    destruct (Hback _ _ Hq2) as (p' & Hp' & E'). rewrite <- E in Hh1. rewrite <- E' in Hh2. eauto.
  - intros w' q c' t1 id r Hq Hh. destruct (Hback _ _ Hq) as (p & Hp & E). rewrite <- E in Hh. eauto.
  - intros w' q c' t1 Hq Hh. destruct (Hback _ _ Hq) as (p & Hp & E). rewrite <- E in Hh. eauto.
  - intros w' c' t1 Hq. destruct (lookup_worker _ _ _ _ _ _ Hw Hq) as [[-> [= -> -> <-]]|[_ ?]]; [|eauto].
    rewrite Hok by done. by left.
Qed.

Lemma outbox_inv_exec a s s' : Inv s -> exec a s = Some s' -> Inv s'.
Proof.
  intros HI. destruct a as [d|id service pl|w service locked lost|w received ok|w|w|w]; simpl.
  - intros [= <-]. by apply outbox_inv_tick.
  - destruct (insert_row _ _ _ _ _) as [[[]|e] t] eqn:E; intros [= <-]; [by eapply inv_insert|done].
  - destruct (workers s !! w) as [[]|] eqn:Hw; try done.
    destruct (claim _ _ _ _ _) as [oc t] eqn:E. intros [= <-]. by eapply inv_claim.
  - destruct (workers s !! w) as [[]|] eqn:Hw; try done.
    destruct (ok && negb received) eqn:E; intros [= <-]. apply inv_send; try done. by destruct ok, received.
  - destruct (workers s !! w) as [[]|] eqn:Hw; try done. intros [= <-]. by eapply inv_finish.
  - destruct (workers s !! w) as [[]|] eqn:Hw; try done. intros [= <-]. by eapply inv_drop.
  - destruct (workers s !! w) eqn:Hw; try done. intros [= <-]. by eapply inv_drop.
Qed.

Lemma outbox_inv_init n t0 : Inv (init n t0).
Proof.
  split; simpl; try done;
    intros; repeat match goal with H : replicate _ _ !! _ = Some _ |- _ => apply lookup_replicate in H as [? _] end; by simplify_eq/=.
Qed.

Lemma outbox_run_inv acts s s' : Inv s -> run acts s = Some s' -> Inv s'.
Proof.
  revert s; induction acts as [|a acts IH]; simpl; intros s HI; [by intros [= <-]|].
  destruct (exec a s) eqn:E; [|done]. apply IH. by eapply outbox_inv_exec.
Qed.

Lemma reach_inv n t0 acts s : run acts (init n t0) = Some s -> Inv s.
Proof. apply outbox_run_inv, outbox_inv_init. Qed.

(** Nothing is made up: rows, claims and deliveries carry enqueued payloads. *)
Record Src (s : Sys) : Prop := {
  s_row : forall id r, tbl s !! id = Some r -> In (id, payload r) (enq s);
  s_claim : forall w p c t0, workers s !! w = Some p -> held p = Some (c, t0) -> In (cl_id c, cl_payload c) (enq s);
  s_del : forall x, In x (delivered s) -> In x (enq s) }.

Lemma src_drop s w p : Src s -> workers s !! w = Some p -> Src (set_worker w Idle s).
Proof.
  intros [h1 h2 h3] Hw. split; cbn; try done.
  intros w' q c t0 Hq. destruct (lookup_worker _ _ _ _ _ _ Hw Hq) as [[-> ->]|[_ ?]]; [done|eauto].
Qed.

Lemma src_claim s w service locked lost oc t :
  Src s -> workers s !! w = Some Idle ->
  claim service (nextTok s) (clock s) locked (tbl s) = (oc, t) ->
  Src (MkSys t (clock s)
         (<[w := match oc with Some c => if lost : bool then Idle else Sending c (clock s) | None => Idle end]> (workers s))
         (S (nextTok s)) (enq s) (delivered s)).
Proof.
  intros HS Hw Hc. apply claim_inv in Hc. pose proof HS as [h1 h2 h3]. destruct oc as [c|].
  2:{ destruct Hc as [-> _]. by destruct (src_drop _ _ _ HS Hw). }
  destruct Hc as (r & Hr & _ & Hcl & -> & _). split; cbn; try done.
  - intros id r'. rewrite lookup_insert_Some. intros [[<- <-]|[_ ?]]; [by apply (h1 _ r)|eauto].
  - intros w' q c' t0 Hq Hh. destruct (lookup_worker _ _ _ _ _ _ Hw Hq) as [[-> ->]|[_ ?]]; [|eauto].
    destruct lost; simplify_eq/=. rewrite Hcl. by apply (h1 _ r).
Qed.

Lemma src_exec a s s' : Src s -> exec a s = Some s' -> Src s'.
Proof.
  intros HS. destruct a as [d|id service pl|w service locked lost|w received ok|w|w|w]; simpl.
  - intros [= <-]. by destruct HS.
  - unfold insert_row. destruct HS as [h1 h2 h3]. destruct (tbl s !! id) as [r|] eqn:E; [destruct (_ && _)|];
      intros [= <-]; split; cbn; try done; eauto.
    intros id' r. rewrite lookup_insert_Some. intros [[<- <-]|[_ ?]]; [by left|eauto].
  - destruct (workers s !! w) as [[]|] eqn:Hw; try done.
    destruct (claim _ _ _ _ _) as [oc t] eqn:E. intros [= <-]. by eapply src_claim.
  - destruct (workers s !! w) as [[]|] eqn:Hw; try done. destruct HS as [h1 h2 h3].
    destruct (ok && negb received) eqn:E; intros [= <-]. split; cbn; try done.
    + intros w' q c' t1 Hq Hh. destruct (lookup_worker _ _ _ _ _ _ Hw Hq) as [[-> ->]|[_ ?]]; [|eauto].
      simplify_eq/=. by eapply (h2 w).
    + destruct received; [|auto]. intros x [<-|?]; [by eapply (h2 w)|auto].
  - destruct (workers s !! w) as [[]|] eqn:Hw; try done. intros [= <-].
    destruct (finish _ _ _ _) as [res t] eqn:Hf. destruct (src_drop _ _ _ HS Hw) as [h1 h2 h3].
    split; cbn in *; try done. intros id r Hr.
    apply finish_inv in Hf as [(r0 & u & Hr0 & _ & _ & _ & _ & ->)|[_ ->]]; [|auto].
    destruct ok; [apply lookup_delete_Some in Hr as [_ ?]; auto|].
    apply lookup_insert_Some in Hr as [[<- <-]|[_ ?]]; [by apply (h1 _ r0)|auto].
  - destruct (workers s !! w) as [[]|] eqn:Hw; try done. intros [= <-]. by eapply src_drop.
  - destruct (workers s !! w) eqn:Hw; try done. intros [= <-]. by eapply src_drop.
Qed.

Lemma reach_src n t0 acts s : run acts (init n t0) = Some s -> Src s.
Proof.
  assert (Src (init n t0)) as H0.
  { split; simpl; try done. intros w p c t1 Hp. by apply lookup_replicate in Hp as [-> _]. }
  revert H0. generalize (init n t0). induction acts as [|a acts IH]; simpl; intros s0 HS; [by intros [= <-]|].
  destruct (exec a s0) eqn:E; [|done]. apply IH. by eapply src_exec.
Qed.

(** ** Theorems on concurrent relays *)

(** C1. No audit event is lost and none is invented: whatever the relays of
    all replicas do, in any interleaving, with crashes, lost answers and
    expired leases, every payload ever enqueued is still in the table under
    its ID or was accepted by the receiver, and what the receiver accepted was
    enqueued under that ID. *)
Theorem outbox_no_loss n t0 acts s :
  run acts (init n t0) = Some s ->
  (forall id pl, In (id, pl) (enq s) ->
    (exists r, tbl s !! id = Some r /\ payload r = pl) \/ In (id, pl) (delivered s)) /\
  (forall id pl, In (id, pl) (delivered s) -> In (id, pl) (enq s)).
Proof. intros Hr. split; [apply (i_kept _ (reach_inv _ _ _ _ Hr))|intros id pl; apply (s_del _ (reach_src _ _ _ _ Hr))]. Qed.

Definition any_row : string -> bool := fun _ => false.

Lemma outbox_no_loss_witness :
  exists s, run [Enqueue "e1" "svc" "p"; ClaimA 0 "svc" any_row false; SendA 0 true true; FinishA 0] (init 2 0) = Some s /\
    tbl s !! "e1" = None /\ In ("e1", "p") (delivered s).
Proof.
  eexists. split; [vm_compute; reflexivity|]. split; [reflexivity|].
  refine (match proj1 (outbox_no_loss 2 0 [Enqueue "e1" "svc" "p"; ClaimA 0 "svc" any_row false; SendA 0 true true; FinishA 0]
            _ _) "e1" "p" _ with or_introl (ex_intro _ _ (conj H _)) => _ | or_intror H => H end);
    [vm_compute; reflexivity|left; reflexivity|discriminate H].
Defined.

(** C34. The lease is long enough: a relay whose send and finish stay within
    their timeouts after its claim still holds the lease, however many other
    relays run, so its [finish] succeeds. *)
Theorem lease_suffices n t0 acts s w c tc ok :
  run acts (init n t0) = Some s -> workers s !! w = Some (Finishing c tc ok) ->
  (clock s <= tc + outboxSendTimeout + outboxDBTimeout)%Z ->
  fst (finish (clock s) c ok (tbl s)) = Ok tt.
Proof.
  intros Hr Hw Hc. pose proof (reach_inv _ _ _ _ Hr) as HI.
  assert (clock s < tc + outboxLease)%Z as Hlt by (unfold outboxSendTimeout, outboxDBTimeout, outboxLease, Second in *; lia).
  destruct (i_lease _ HI _ _ _ _ Hw eq_refl Hlt) as (r & Hr' & Ht).
  destruct (i_match _ HI _ _ _ _ _ _ Hw eq_refl Hr' Ht) as (_ & _ & Hu). by eapply finish_ok.
Qed.

Definition sent_late : list action :=
  [ Enqueue "e1" "svc" "p"; ClaimA 0 "svc" any_row false; Tick 7000000000; ClaimA 1 "svc" any_row false; SendA 0 true true ].

Lemma lease_suffices_witness :
  exists s, run sent_late (init 2 0) = Some s /\
    fst (finish (clock s) (MkClaim "e1" 0 "p" 1) true (tbl s)) = Ok tt.
Proof.
  eexists. split; [vm_compute; reflexivity|].
  refine (lease_suffices 2 0 sent_late _ 0 _ 0 true _ _ _); [vm_compute; reflexivity|reflexivity|vm_compute; discriminate].
Defined.

(** C2. Fencing: an expired worker cannot finish, and of two relays that hold
    claims on one row at most one can; the other gets [ErrOutboxLeaseLost] and
    the table is left as it was. *)
Theorem stale_relay_fenced n t0 acts s w p c tc d :
  run acts (init n t0) = Some s -> workers s !! w = Some p -> held p = Some (c, tc) ->
  (tc + outboxLease <= clock s)%Z \/
  (exists w' p' c' tc' d', w' <> w /\ workers s !! w' = Some p' /\ held p' = Some (c', tc') /\
     cl_id c' = cl_id c /\ fst (finish (clock s) c' d' (tbl s)) = Ok tt) ->
  finish (clock s) c d (tbl s) = (Err LeaseLost, tbl s).
Proof.
  intros Hr Hw Hh Hx. pose proof (reach_inv _ _ _ _ Hr) as HI.
  destruct (finish (clock s) c d (tbl s)) as [res t] eqn:Hf.
  apply finish_inv in Hf as [(r & u & Hrw & Ht & Hu & Hlt & -> & _)|[-> ->]]; [exfalso|done].
  destruct (i_match _ HI _ _ _ _ _ _ Hw Hh Hrw Ht) as (_ & _ & Hu').
  destruct Hx as [Hx|(w' & p' & c' & tc' & d' & Hne & Hw' & Hh' & Hid & Hok)]; [rewrite Hu in Hu'; simplify_eq; lia|].
  destruct (finish (clock s) c' d' (tbl s)) as [res' t'] eqn:Hf'. simpl in Hok. subst res'.
  apply finish_inv in Hf' as [(r' & u' & Hrw' & Ht' & _)|[? _]]; [|done].
  rewrite Hid in Hrw'. apply Hne. eapply (i_dist _ HI w' w); eauto. congruence.
Qed.

Definition taken_over : list action :=
  [ Enqueue "e1" "svc" "p"; ClaimA 0 "svc" any_row false; Tick 60000000000; ClaimA 1 "svc" any_row false ].

Lemma stale_relay_fenced_witness :
  exists s, run taken_over (init 2 0) = Some s /\
    finish (clock s) (MkClaim "e1" 0 "p" 1) true (tbl s) = (Err LeaseLost, tbl s).
Proof.
  eexists. split; [vm_compute; reflexivity|].
  refine (stale_relay_fenced 2 0 taken_over _ 0 (Sending (MkClaim "e1" 0 "p" 1) 0) _ 0 true _ _ _ _);
    [vm_compute; reflexivity|reflexivity|reflexivity|].
  right. exists 1, (Sending (MkClaim "e1" 1 "p" 2) 60000000000), (MkClaim "e1" 1 "p" 2), 60000000000%Z, true.
  repeat split; try reflexivity. discriminate.
Defined.

(** ** The sequential relay *)

Lemma retrySeconds_bounds a : (1 <= retrySeconds a <= 30)%Z.
Proof.
  unfold retrySeconds. destruct (5 <? a)%Z eqn:E1; [lia|]. destruct (a <? 1)%Z eqn:E2; [lia|]. bprop.
  assert (a = 1 \/ a = 2 \/ a = 3 \/ a = 4 \/ a = 5)%Z as Ha by lia.
  by decompose [or] Ha; subst; vm_compute.
Qed.

(** The claimed row, and what one uninterfered iteration does with it. *)
Lemma finish_own service token t0 t1 locked t c t' d :
  claim service token t0 locked t = (Some c, t') -> (t1 < t0 + outboxLease)%Z ->
  exists r, t !! cl_id c = Some r /\ cl_payload c = payload r /\
    finish t1 c d t' =
      (Ok tt, if d then delete (cl_id c) t
              else <[cl_id c := MkRow (r_service r) (payload r) (enqueued_at r)
                       (t1 + retrySeconds (attempts r + 1) * Second) (attempts r + 1) None None]> t).
Proof.
  intros Hc Ht. apply claim_inv in Hc as (r & Hr & _ & Hcl & -> & _). exists r. repeat split; [done|by rewrite Hcl|].
  unfold finish. rewrite lookup_insert_eq. unfold holds_lease. cbn. rewrite Hcl. cbn.
  rewrite Nat.eqb_refl, (proj2 (Z.ltb_lt _ _) Ht). cbn. f_equal.
  destruct d; [by rewrite delete_insert_eq|by rewrite insert_insert_eq].
Qed.

Section Relay.
Context `{UUIDLib}.
Variable json_Valid : string -> bool.
Variable marshal : Event -> option string.
Variable unmarshal : string -> option Event.

Abbreviation deliver := (DeliverOne unmarshal).
Abbreviation relay := (Run unmarshal).

(** Whether the receiver acknowledges a payload. *)
Definition acked (send : Event -> bool) (pl : string) : bool :=
  match unmarshal pl with Some e => send e | None => false end.

(** What an iteration may do to the table: nothing, take a lease it then
    keeps, reschedule, or remove an acknowledged row. *)
Lemma deliver_cases service token locked t0 t1 f0 f1 send t :
  let t' := snd (deliver service token locked t0 t1 f0 f1 (Some send) t) in
  t' = t \/ exists id r r', t !! id = Some r /\ r_service r = service /\ r_service r' = service /\
    payload r' = payload r /\ (t' = <[id := r']> t \/ (t' = delete id t /\ acked send (payload r) = true)).
Proof.
  unfold DeliverOne, claim_stmt. destruct (claim service token t0 locked t) as [oc t1'] eqn:Hc.
  pose proof (claim_inv _ _ _ _ _ _ _ Hc) as Hcl. destruct oc as [c|].
  2:{ destruct Hcl as [-> _]. destruct f0; simpl; rewrite ?Hc; auto. }
  destruct Hcl as (r & Hr & He & Ec & -> & _). apply eligible_expired in He as (Hs & _).
  assert (cl_payload c = payload r) as Hpl by (by rewrite Ec).
  set (r1 := MkRow _ _ _ _ _ _ _) in *. destruct f0; simpl; rewrite ?Hc; cbn [fst snd]; [|auto|].
  2:{ right. exists (cl_id c), r, r1. auto 10. }
  fold (acked send (cl_payload c)). rewrite Hpl.
  destruct (finish t1 c (acked send (payload r)) (<[cl_id c := r1]> t)) as [res t2] eqn:Hf.
  assert (t2 = <[cl_id c := r1]> t \/ exists r', r_service r' = service /\ payload r' = payload r /\
     (t2 = <[cl_id c := r']> t \/ (t2 = delete (cl_id c) t /\ acked send (payload r) = true))) as H2.
  { apply finish_inv in Hf as [(r2 & u & Hr2 & _ & _ & _ & _ & ->)|[_ ->]]; [right|by left].
    rewrite lookup_insert_eq in Hr2. injection Hr2 as <-. destruct (acked send (payload r)).
    - exists r1. rewrite delete_insert_eq. auto.
    - eexists. rewrite insert_insert_eq. split; [|split; [|by left]]; done. }
  destruct f1; simpl; rewrite ?Hf.
  - right. exists (cl_id c), r. destruct H2 as [->|(r' & Hs' & Hp' & H2)]; [exists r1|exists r'];
      destruct res; simpl; auto 10.
  - right. exists (cl_id c), r, r1. auto 10.
  - right. exists (cl_id c), r. destruct H2 as [->|(r' & Hs' & Hp' & H2)]; [exists r1|exists r']; auto 10.
Qed.

(** [DeliverOne] retains the row on uncertainty: under any failure of the
    statements, of decoding or of the transport, the only row that can leave
    the table is one of the service's own whose payload the transport
    acknowledged; every other row keeps its payload. *)
Theorem DeliverOne_retains service token locked t0 t1 f0 f1 send t id r :
  t !! id = Some r ->
  match snd (deliver service token locked t0 t1 f0 f1 (Some send) t) !! id with
  | Some r' => payload r' = payload r /\ r_service r' = r_service r
  | None => r_service r = service /\ acked send (payload r) = true
  end.
Proof.
  intros Hid.
  destruct (deliver_cases service token locked t0 t1 f0 f1 send t)
    as [->|(id' & r0 & r' & Hr0 & Hs & Hs' & Hp & [->|[-> Ha]])]; [by rewrite Hid| |];
    destruct (decide (id' = id)) as [->|Hne]; simplify_eq.
  - by rewrite lookup_insert_eq.
  - by rewrite lookup_insert_ne, Hid.
  - by rewrite lookup_delete_eq.
  - by rewrite lookup_delete_ne, Hid.
Qed.

(** What an undisturbed iteration does, branch by branch: with no due row
    it reports no work and changes nothing; otherwise it takes the least due
    row by (next_attempt, enqueued_at, id), and removes it if the transport
    acknowledges it, or puts it back unleased, its attempt counted, due again
    between 1 and 30 seconds later. *)
Theorem DeliverOne_outcome service token locked t0 t1 send t worked res t' :
  (t1 < t0 + outboxLease)%Z ->
  deliver service token locked t0 t1 NoFault NoFault (Some send) t = ((worked, res), t') ->
  (worked = false /\ res = Ok tt /\ t' = t /\
     forall id r, t !! id = Some r -> eligible service t0 locked (id, r) = false) \/
  (worked = true /\ exists id r, t !! id = Some r /\ eligible service t0 locked (id, r) = true /\
     (forall id' r', t !! id' = Some r' -> eligible service t0 locked (id', r') = true -> ~ row_lt (id', r') (id, r)) /\
     if acked send (payload r) then res = Ok tt /\ t' = delete id t
     else res = Err DeliveryFailed /\
       exists due, (t1 + Second <= due <= t1 + 30 * Second)%Z /\
         t' = <[id := MkRow service (payload r) (enqueued_at r) due (attempts r + 1) None None]> t).
Proof.
  intros Ht. unfold DeliverOne, claim_stmt. simpl.
  destruct (claim service token t0 locked t) as [[c|] tc] eqn:Hc; pose proof (claim_inv _ _ _ _ _ _ _ Hc) as Hcl.
  2:{ destruct Hcl as [-> Hn]. intros [= <- <- <-]. by left. }
  fold (acked send (cl_payload c)).
  destruct (finish_own _ _ _ t1 _ _ _ _ (acked send (cl_payload c)) Hc Ht) as (r & Hr & Hpl & ->).
  destruct Hcl as (r0 & Hr0 & He & _ & _ & Hmin). assert (r0 = r) as -> by congruence. rewrite Hpl.
  intros [= <- <- <-]. right. split; [done|]. exists (cl_id c), r. do 3 (split; [done|]).
  apply eligible_expired in He as [<- _].
  destruct (acked send (payload r)); [done|]. split; [done|]. eexists. split; [|done].
  pose proof (retrySeconds_bounds (attempts r + 1)). unfold Second. lia.
Qed.

(** A service's relay, whatever happens in its turns, never touches a row of
    another service that shares the table. *)
Theorem Run_isolated service token now turns t id r :
  t !! id = Some r -> r_service r <> service -> Run unmarshal service token now turns t !! id = Some r.
Proof.
  revert token now t; induction turns as [|u turns IH]; intros token now t Hid Hs; [done|].
  cbn [Run]. set (t1 := (now + t_send u)%Z).
  pose proof (deliver_cases service token (t_locked u) now t1 (t_f0 u) (t_f1 u) (t_answer u) t) as Hd.
  destruct (deliver _ _ _ _ _ _ _ _ _) as [[w res] t']. simpl in Hd.
  assert (t' !! id = Some r) as Hid'.
  { destruct Hd as [->|(id' & r0 & r' & Hr0 & Hs0 & _ & _ & [->|[-> _]])]; [done| |];
      assert (id' <> id) by congruence; [by rewrite lookup_insert_ne|by rewrite lookup_delete_ne]. }
  destruct w, res; apply IH; done.
Qed.

(** A turn in which nothing goes wrong and the receiver accepts. *)
Definition good_turn (u : turn) : Prop :=
  (0 <= t_send u < outboxLease)%Z /\ t_f0 u = NoFault /\ t_f1 u = NoFault /\
  (forall id, t_locked u id = false) /\ (forall e, t_answer u e = true) /\ (0 <= t_late u)%Z.

(** Rows of the service that are due, unleased and decodable. *)
Definition deliverable (service : string) (now : Z) (t : gmap string row) : Prop :=
  forall id r, t !! id = Some r -> r_service r = service ->
    (next_attempt r <= now)%Z /\ lease_until r = None /\ is_Some (unmarshal (payload r)).

Lemma deliver_good service token now u t :
  good_turn u -> deliverable service now t ->
  (forall id r, t !! id = Some r -> r_service r <> service) \/
  exists id r, t !! id = Some r /\ r_service r = service /\
    deliver service token (t_locked u) now (now + t_send u) (t_f0 u) (t_f1 u) (Some (t_answer u)) t =
      ((true, Ok tt), delete id t).
Proof.
  intros (Hsend & -> & -> & Hl & Ha & _) Hdue. unfold DeliverOne, claim_stmt. simpl.
  destruct (claim service token now (t_locked u) t) as [[c|] tc] eqn:Hc; pose proof (claim_inv _ _ _ _ _ _ _ Hc) as Hcl.
  - right. destruct (finish_own _ _ _ (now + t_send u) _ _ _ _ true Hc ltac:(lia)) as (r & Hr & Hpl & Hfin).
    destruct Hcl as (r0 & Hr0 & He & _). assert (r0 = r) as -> by congruence.
    apply eligible_expired in He as [Hs _]. destruct (Hdue _ _ Hr Hs) as (_ & _ & [e Hu]).
    exists (cl_id c), r. rewrite Hpl, Hu, Ha. by rewrite Hfin.
  - left. destruct Hcl as [_ Hn]. intros id r Hr Hs. destruct (Hdue _ _ Hr Hs) as (Hnow & Hlu & _).
    specialize (Hn _ _ Hr). unfold eligible in Hn. rewrite Hs, Hlu, Hl, String.eqb_refl in Hn. simpl in Hn.
    by rewrite (proj2 (Z.leb_le _ _) Hnow) in Hn.
Qed.

Lemma own_rows_delete service t id r :
  t !! id = Some r -> r_service r = service ->
  length (own_rows service t) = S (length (own_rows service (delete id t))).
Proof.
  intros Hr Hs. unfold own_rows. rewrite <- (Permutation_length (filter_perm _ _ _ (map_to_list_delete t id r Hr))).
  simpl. by rewrite Hs, String.eqb_refl.
Qed.

Lemma own_rows_nil service t :
  own_rows service t = [] <-> forall id r, t !! id = Some r -> r_service r <> service.
Proof.
  unfold own_rows. split.
  - intros Hn id r Hr Hs. assert (In (id, r) (List.filter (fun e => r_service (snd e) ==s service) (map_to_list t))) as Hin;
      [|by rewrite Hn in Hin].
    apply filter_In. split; [by apply list_elem_of_In, elem_of_map_to_list|]. simpl. by rewrite Hs, String.eqb_refl.
  - intros Hn. destruct (List.filter _ _) as [|[id r] l] eqn:E; [done|].
    assert (In (id, r) (List.filter (fun e => r_service (snd e) ==s service) (map_to_list t))) as Hin by (rewrite E; by left).
    apply filter_In in Hin as [Hin Hs]. bprop. apply list_elem_of_In, elem_of_map_to_list in Hin. by destruct (Hn _ _ Hin).
Qed.

(** With no due rows left, good turns change nothing. *)
Lemma deliver_idle service token u now t :
  good_turn u -> (forall id r, t !! id = Some r -> r_service r <> service) ->
  deliver service token (t_locked u) now (now + t_send u) (t_f0 u) (t_f1 u) (Some (t_answer u)) t = ((false, Ok tt), t).
Proof.
  intros (_ & -> & _) Hn. unfold DeliverOne, claim_stmt. simpl.
  destruct (claim service token now (t_locked u) t) as [[c|] tc] eqn:Hc; apply claim_inv in Hc.
  - destruct Hc as (r & Hr & He & _). apply eligible_expired in He as [Hs _]. by destruct (Hn _ _ Hr).
  - by destruct Hc as [-> _].
Qed.

(** The relay drains the backlog: if the service's rows are due, unleased and
    decodable, and as many turns as there are rows go well, the backlog is
    empty afterwards, which is what [Backlog] then reports. *)
Theorem Run_drains service token now turns t :
  Forall good_turn turns -> deliverable service now t -> length (own_rows service t) <= length turns ->
  forall at_, Backlog service at_ (relay service token now turns t) = (0, 0)%Z.
Proof.
  intros Hg Hd Hlen at_. enough (own_rows service (relay service token now turns t) = []) as Hn
    by (unfold Backlog; by rewrite Hn).
  revert token now t Hd Hlen. induction Hg as [|u turns Hu _ IH]; intros token now t Hd Hlen.
  { simpl in *. destruct (own_rows service t); [done|simpl in Hlen; lia]. }
  assert (forall now' t', (now <= now')%Z -> (forall id r, t' !! id = Some r -> t !! id = Some r) ->
    deliverable service now' t') as Hmono.
  { intros now' t' Hle Hsub id r Hr Hs. destruct (Hd _ _ (Hsub _ _ Hr) Hs) as (? & ? & ?). repeat split; try done. lia. }
  pose proof Hu as (? & _ & _ & _ & _ & ?). simpl in Hlen. cbn [Run].
  destruct (deliver_good service token now u t Hu Hd) as [Hnone|(id & r & Hr & Hs & ->)].
  - rewrite (deliver_idle _ _ _ _ _ Hu Hnone). apply IH; [apply Hmono; [unfold Second; lia|done]|].
    rewrite (proj2 (own_rows_nil _ _) Hnone). simpl. lia.
  - rewrite (own_rows_delete _ _ _ _ Hr Hs) in Hlen. apply IH; [|lia]. apply Hmono; [lia|].
    intros id' r'. by rewrite lookup_delete_Some; intros [_ ?].
Qed.

(** Enqueueing a prepared event again is safe: a retry of the business
    transaction, at any later time and after the relay has worked on the row,
    succeeds without touching the table; another event under the same
    identity is refused. *)
Theorem EnqueueTx_retry service rnd now p pl t rnd' now' t' r :
  prepared p -> EnqueueTx json_Valid marshal service rnd now true (Some p) t = (Ok tt, t') ->
  marshal (with_service service p) = Some pl ->
  (exists r1, t' !! ID p = Some r1 /\ r_service r1 = service /\ payload r1 = pl) /\
  forall t2, t2 !! ID p = Some r ->
    (r_service r = service -> payload r = pl ->
       EnqueueTx json_Valid marshal service rnd' now' true (Some p) t2 = (Ok tt, t2)) /\
    (payload r <> pl ->
       EnqueueTx json_Valid marshal service rnd' now' true (Some p) t2 = (Err IdentityConflict, t2)).
Proof.
  intros Hp. unfold EnqueueTx. rewrite !prepared_stable by done. destruct (_ && _); [done|].
  destruct (ValidateEvent _ _); [|done]. intros He Hm. rewrite Hm in *. destruct (_ <? _)%Z; [done|].
  change (ID (with_service service p)) with (ID p) in *. unfold insert_row in *. split.
  - destruct (t !! ID p) as [r0|] eqn:E0; simplify_eq/=.
    + destruct (_ && _) eqn:Eq; simplify_eq/=. bprop. destruct Eq. eauto.
    + eexists. by rewrite lookup_insert_eq.
  - intros t2 ->. split.
    + intros -> ->. by rewrite !String.eqb_refl.
    + intros Hne. by rewrite (proj2 (String.eqb_neq _ _) Hne), andb_false_r.
Qed.

End Relay.

(** ** Witnesses: a table with one row of each of two services *)

Definition demo_row (service pl : string) : row := MkRow service pl 5 5 0 None None.
Definition demo_tbl : gmap string row := <["a" := demo_row "svc" "pa"]> (<["b" := demo_row "other" "pb"]> ∅).
Definition demo_unmarshal (pl : string) : option Event := Some (demo_event pl 5000).
Definition demo_turn : turn := MkTurn 1 0 NoFault NoFault any_row (fun _ => true).

Lemma DeliverOne_retains_witness :
  snd (DeliverOne demo_unmarshal "svc" 0 any_row 10 20 NoFault AnswerLost (Some (fun _ => true)) demo_tbl) !! "a" = None /\
  acked demo_unmarshal (fun _ => true) "pa" = true.
Proof.
  pose proof (DeliverOne_retains demo_unmarshal "svc" 0 any_row 10 20 NoFault AnswerLost (fun _ => true) demo_tbl
                "a" (demo_row "svc" "pa") eq_refl) as H.
  split; [reflexivity|]. exact (proj2 H).
Defined.

Lemma DeliverOne_outcome_witness :
  DeliverOne demo_unmarshal "svc" 0 any_row 10 20 NoFault NoFault (Some (fun _ => true)) demo_tbl
    = ((true, Ok tt), delete "a" demo_tbl).
Proof.
  destruct (DeliverOne demo_unmarshal "svc" 0 any_row 10 20 NoFault NoFault (Some (fun _ => true)) demo_tbl)
    as [[w res] t'] eqn:E.
  pose proof (DeliverOne_outcome demo_unmarshal "svc" 0 any_row 10 20 (fun _ => true) demo_tbl w res t' eq_refl E) as H.
  destruct H as [(_ & _ & _ & Hn)|(-> & id & r & Hr & He & _ & -> & ->)].
  - specialize (Hn "a" (demo_row "svc" "pa") eq_refl). vm_compute in Hn. discriminate.
  - destruct (decide (id = "a")) as [->|Hne]; [reflexivity|]. exfalso.
    unfold demo_tbl in Hr. rewrite lookup_insert_ne in Hr by congruence.
    apply lookup_insert_Some in Hr as [[<- <-]|[_ Hr]]; [vm_compute in He; discriminate|by rewrite lookup_empty in Hr].
Defined.

Lemma Run_isolated_witness :
  Run demo_unmarshal "svc" 0 10 [demo_turn; demo_turn] demo_tbl !! "b" = Some (demo_row "other" "pb").
Proof. apply (Run_isolated demo_unmarshal); [reflexivity|discriminate]. Defined.

Lemma Run_drains_witness :
  length (own_rows "svc" demo_tbl) = 1 /\
  Backlog "svc" 50 (Run demo_unmarshal "svc" 0 10 [demo_turn] demo_tbl) = (0, 0)%Z.
Proof.
  split; [reflexivity|]. apply (Run_drains demo_unmarshal); [|intros id r Hr Hs|vm_compute; lia].
  - constructor; [|constructor]. repeat split; vm_compute; congruence.
  - unfold demo_tbl in Hr. apply lookup_insert_Some in Hr as [[<- <-]|[_ Hr]]; [repeat split; [vm_compute; discriminate|by eexists]|].
    apply lookup_insert_Some in Hr as [[<- <-]|[_ Hr]]; [discriminate|by rewrite lookup_empty in Hr].
Defined.

Definition demo_prepared : Event :=
  MkEvent "8f" "svc" "ann" "update" "user" "7" "tenant" "t1" "" "" "" "r1" "10.0.0.1" 5000.

Lemma EnqueueTx_retry_witness :
  let enqueue := EnqueueTx (H := text_uuid) (fun _ => true) (fun _ => Some "pl") "svc" None in
  fst (enqueue 7%Z true (Some demo_prepared) ∅) = Ok tt /\
  enqueue 99%Z true (Some demo_prepared) (<["8f" := MkRow "svc" "pl" 7 7 3 (Some 4) (Some 90%Z)]> ∅)
    = (Ok tt, <["8f" := MkRow "svc" "pl" 7 7 3 (Some 4) (Some 90%Z)]> ∅).
Proof.
  split; [vm_compute; reflexivity|].
  eapply (EnqueueTx_retry (H := text_uuid) (fun _ => true) (fun _ => Some "pl") "svc" None 7 demo_prepared "pl" ∅ None 99
            _ (MkRow "svc" "pl" 7 7 3 (Some 4) (Some 90%Z))).
  - exists (exist _ "8f" I). repeat split; [intros E; discriminate (f_equal proj1_sig E)|discriminate].
  - vm_compute. reflexivity.
  - reflexivity.
  - apply lookup_insert_eq.
  - reflexivity.
  - reflexivity.
Defined.
