(* ===== verification/AsyncClient.v ===== *)
(** * Batching clients (the shared core of src/audit/client.go and src/notify/client.go)

    Callers push events into a bounded channel; one dispatcher gathers them
    into batches, flushed when full, when the debounce timer fires or when the
    channel is closed; workers send the batches.  Channels are queues with a
    capacity, goroutines are program points, and [exec_step] is one atomic step
    of one of them.  Every [Send] returns (it runs under a 30-second context);
    whether it succeeds is the environment's choice.  The two packages run the
    same code on events of their own type [E]; what differs, [Record] and
    [Close], is in AuditClient.v and Notify.v.

    [recorded], [sent], [logged] and [dropped] are ghost histories of events:
    handed to [Record], accepted by the transport, reported in the fallback log,
    and given up without a trace.  A line of the fallback log carries the event
    only if [json.Marshal] encodes it; whether it does is the class [Marshals]
    ([json.Marshal] fails on a raw message that is not JSON), and a line without
    the event has its reason alone. *)
From S2P Require Import Prelude.
Local Open Scope Z_scope.

Definition defaultClientBufferSize : Z := 1000.
Definition defaultClientFlushTimeout : Z := 100 * Millisecond.
Definition defaultClientWorkers : Z := 2.
Definition defaultClientMaxBatch : nat := 100.
Definition batchOutChanMultiplier : Z := 4.

Record ClientConfig := MkClientConfig {
  HasTransport : bool; BufferSize : Z; FlushTimeout : Z; Workers : Z; FallbackToLog : option bool }.

Class Marshals (E : Type) := marshals : E -> bool.

Inductive reason := client_closed | buffer_full | batch_channel_full | transport_error.

(** The dispatcher is gathering or has returned; a worker waits, sends, or has returned. *)
Inductive worker (E : Type) := Waiting | Sending (b : list E) | Done.
Arguments Waiting {E}. Arguments Sending {E} _. Arguments Done {E}.

Record Client (E : Type) := MkClient {
  fallbackLog : bool; evCap : nat; outCap : nat;
  events : list E; closed : bool;
  batch : list E; timer : bool; dispatcherDone : bool;
  batches : list (list E); batchesClosed : bool;
  workers : list (worker E);
  recorded : list E; sent : list E; logged : list (reason * bool * E); dropped : list E }.
Arguments MkClient {E}. Arguments fallbackLog {E}. Arguments evCap {E}. Arguments outCap {E}. Arguments events {E}.
Arguments closed {E}. Arguments batch {E}. Arguments timer {E}. Arguments dispatcherDone {E}. Arguments batches {E}.
Arguments batchesClosed {E}. Arguments workers {E}. Arguments recorded {E}. Arguments sent {E}. Arguments logged {E}. Arguments dropped {E}.

Section Client.
Context {Ev : Type} `{EqDecision Ev} {marshal : Marshals Ev}.
Abbreviation Event := Ev.

(** [NewClient]: the defaults, the channel capacities and the goroutines; an
    error when there is no transport. *)
Definition NewClient (cfg : ClientConfig) : option (Client Ev) :=
  if negb (HasTransport cfg) then None
  else
    let bufferSize := if BufferSize cfg <=? 0 then defaultClientBufferSize else BufferSize cfg in
    let nworkers := if Workers cfg <=? 0 then defaultClientWorkers else Workers cfg in
    let fb := match FallbackToLog cfg with None => true | Some b => b end in
    let outCap := wrap64 (nworkers * batchOutChanMultiplier) in
    let outCap := if outCap <? 4 then 4 else outCap in
    Some (MkClient fb (Z.to_nat bufferSize) (Z.to_nat outCap) [] false [] false false [] false
          (replicate (Z.to_nat nworkers) Waiting) [] [] [] []).

(** ** Steps *)

Definition set_events (l : list Event) (c : Client Ev) : Client Ev :=
  MkClient (fallbackLog c) (evCap c) (outCap c) l (closed c) (batch c) (timer c) (dispatcherDone c)
    (batches c) (batchesClosed c) (workers c) (recorded c) (sent c) (logged c) (dropped c).
Definition set_batch (b : list Event) (t : bool) (c : Client Ev) : Client Ev :=
  MkClient (fallbackLog c) (evCap c) (outCap c) (events c) (closed c) b t (dispatcherDone c)
    (batches c) (batchesClosed c) (workers c) (recorded c) (sent c) (logged c) (dropped c).
Definition set_batches (l : list (list Event)) (c : Client Ev) : Client Ev :=
  MkClient (fallbackLog c) (evCap c) (outCap c) (events c) (closed c) (batch c) (timer c) (dispatcherDone c)
    l (batchesClosed c) (workers c) (recorded c) (sent c) (logged c) (dropped c).
Definition set_worker (w : nat) (p : worker Ev) (c : Client Ev) : Client Ev :=
  MkClient (fallbackLog c) (evCap c) (outCap c) (events c) (closed c) (batch c) (timer c) (dispatcherDone c)
    (batches c) (batchesClosed c) (<[w := p]> (workers c)) (recorded c) (sent c) (logged c) (dropped c).
Definition add_recorded (e : Event) (c : Client Ev) : Client Ev :=
  MkClient (fallbackLog c) (evCap c) (outCap c) (events c) (closed c) (batch c) (timer c) (dispatcherDone c)
    (batches c) (batchesClosed c) (workers c) (e :: recorded c) (sent c) (logged c) (dropped c).
Definition add_sent (l : list Event) (c : Client Ev) : Client Ev :=
  MkClient (fallbackLog c) (evCap c) (outCap c) (events c) (closed c) (batch c) (timer c) (dispatcherDone c)
    (batches c) (batchesClosed c) (workers c) (recorded c) (l ++ sent c)%list (logged c) (dropped c).

(** The line [logFallback] and [logFallbackErr] write for an event: its reason,
    whether the payload is in it, and the event it is about. *)
Definition log_line (r : reason) (e : Event) : reason * bool * Event :=
  if marshals e then (r, true, e) else (r, false, e).

(** [logFallback] and [logFallbackErr] for each event of a list. *)
Definition fallback (r : reason) (l : list Event) (c : Client Ev) : Client Ev :=
  if fallbackLog c then
    MkClient (fallbackLog c) (evCap c) (outCap c) (events c) (closed c) (batch c) (timer c) (dispatcherDone c)
      (batches c) (batchesClosed c) (workers c) (recorded c) (sent c) (map (log_line r) l ++ logged c)%list (dropped c)
  else
    MkClient (fallbackLog c) (evCap c) (outCap c) (events c) (closed c) (batch c) (timer c) (dispatcherDone c)
      (batches c) (batchesClosed c) (workers c) (recorded c) (sent c) (logged c) (l ++ dropped c)%list.

Definition close_events (c : Client Ev) : Client Ev :=
  MkClient (fallbackLog c) (evCap c) (outCap c) (events c) true (batch c) (timer c) (dispatcherDone c)
    (batches c) (batchesClosed c) (workers c) (recorded c) (sent c) (logged c) (dropped c).
(** [defer close(c.batches)] and [defer c.wg.Done()]. *)
Definition dispatcher_return (c : Client Ev) : Client Ev :=
  MkClient (fallbackLog c) (evCap c) (outCap c) (events c) (closed c) (batch c) (timer c) true
    (batches c) true (workers c) (recorded c) (sent c) (logged c) (dropped c).

(** Putting an event into the channel if there is room, else into the log. *)
Definition enqueue (e : Ev) (c : Client Ev) : Client Ev :=
  if Nat.ltb (length (events c)) (evCap c) then set_events (events c ++ [e])%list c
  else fallback buffer_full [e] c.

(** The dispatcher's [flush]. *)
Definition flush (c : Client Ev) : Client Ev :=
  match batch c with
  | [] => c
  | out =>
      let c := set_batch [] (timer c) c in
      if Nat.ltb (length (batches c)) (outCap c) then set_batches (batches c ++ [out])%list c
      else fallback batch_channel_full out c
  end.

(** One turn of [dispatchLoop] that receives from [events]; [None] blocks. *)
Definition dispatch_recv (c : Client Ev) : option (Client Ev) :=
  if dispatcherDone c then None
  else match events c with
       | [] => if closed c then Some (dispatcher_return (flush c)) else None
       | e :: rest =>
           let c := set_events rest c in
           match batch c with
           | [] => Some (set_batch [e] true c)
           | b =>
               let b := (b ++ [e])%list in
               if Nat.leb defaultClientMaxBatch (length b) then Some (flush (set_batch b false c))
               else Some (set_batch b true c)
           end
       end.

(** One turn in which the debounce timer fires. *)
Definition dispatch_timer (c : Client Ev) : option (Client Ev) :=
  if dispatcherDone c then None
  else match batch c with
       | [] => None
       | _ => if timer c then Some (flush (set_batch (batch c) false c)) else None
       end.

(** [workerLoop]: take a batch, or return once the channel is closed and empty. *)
Definition worker_take (w : nat) (c : Client Ev) : option (Client Ev) :=
  match workers c !! w with
  | Some Waiting =>
      match batches c with
      | b :: rest => Some (set_worker w (Sending b) (set_batches rest c))
      | [] => if batchesClosed c then Some (set_worker w Done c) else None
      end
  | _ => None
  end.

Definition worker_sent (w : nat) (ok : bool) (c : Client Ev) : option (Client Ev) :=
  match workers c !! w with
  | Some (Sending b) =>
      let c := set_worker w Waiting c in
      Some (if ok then add_sent b c else fallback transport_error b c)
  | _ => None
  end.

(** The steps of the goroutines the client runs. *)
Inductive step := ARecv | ATimer | ATake (w : nat) | ASent (w : nat) (ok : bool).

Definition exec_step (a : step) (c : Client Ev) : option (Client Ev) :=
  match a with
  | ARecv => dispatch_recv c
  | ATimer => dispatch_timer c
  | ATake w => worker_take w c
  | ASent w ok => worker_sent w ok c
  end.

(** [c.wg.Wait()] returns: the dispatcher and every worker have. *)
Definition is_done (w : worker Ev) : bool := match w with Done => true | _ => false end.
Definition wg_done (c : Client Ev) : bool := dispatcherDone c && forallb is_done (workers c).

(** ** Conservation and bounds *)

Definition carried (w : worker Ev) : list Event := match w with Sending b => b | _ => [] end.

Definition in_flight (c : Client Ev) : list Event :=
  (events c ++ batch c ++ concat (batches c) ++ concat (map carried (workers c)))%list.

Definition batch_size_ok (b : list Event) : Prop := (1 <= length b <= defaultClientMaxBatch)%nat.

(** What holds even in the middle of a dispatcher turn, and between steps. *)
Record Core (c : Client Ev) : Prop := {
  i_cons : recorded c ≡ₚ (in_flight c ++ sent c ++ map snd (logged c) ++ dropped c)%list;
  i_evcap : (length (events c) <= evCap c)%nat;
  i_outcap : (length (batches c) <= outCap c)%nat;
  i_full : (length (batch c) <= defaultClientMaxBatch)%nat;
  i_sizes : Forall batch_size_ok (batches c);
  i_sending : forall w b, workers c !! w = Some (Sending b) -> batch_size_ok b;
  i_done : forall w, workers c !! w = Some Done -> batchesClosed c = true /\ batches c = [];
  i_drop : fallbackLog c = true -> dropped c = [];
  i_workers : (0 < length (workers c))%nat;
  i_logged : Forall (fun x => snd (fst x) = marshals (snd x)) (logged c) }.

Record Inv (c : Client Ev) : Prop := {
  i_core : Core c;
  i_batch : (length (batch c) < defaultClientMaxBatch)%nat;
  i_timer : batch c <> [] -> timer c = true;
  i_disp : dispatcherDone c = true -> closed c = true /\ events c = [] /\ batch c = [];
  i_bclosed : batchesClosed c = dispatcherDone c }.

(** Multiplicities, to prove permutations by arithmetic. *)
Definition one (x e : Event) : nat := if decide (e = x) then 1%nat else 0%nat.
Fixpoint cnt (x : Event) (l : list Event) : nat :=
  match l with [] => 0%nat | e :: l' => (one x e + cnt x l')%nat end.

Lemma cnt_app x l l' : cnt x (l ++ l')%list = (cnt x l + cnt x l')%nat.
Proof. induction l; simpl; lia. Qed.

Lemma perm_cnt l l' : l ≡ₚ l' <-> forall x, cnt x l = cnt x l'.
Proof.
  assert (forall x l, cnt x l = count_occ (fun a b => decide (a = b)) l x) as Hc.
  { intros x. induction l0 as [|e l0 IH]; [done|]. simpl. unfold one. rewrite IH. by destruct (decide (e = x)). }
  rewrite (Permutation_count_occ (fun a b => decide (a = b))). by setoid_rewrite Hc.
Qed.

Lemma cnt_workers x ws w p q :
  ws !! w = Some p ->
  (cnt x (concat (map carried (<[w := q]> ws))) + cnt x (carried p) =
   cnt x (carried q) + cnt x (concat (map carried ws)))%nat.
Proof.
  revert w; induction ws as [|y ws IH]; intros [|w]; simpl; try done.
  - intros [= ->]. rewrite !cnt_app. lia.
  - intros Hw. rewrite !cnt_app. specialize (IH _ Hw). change (list_insert w q ws) with (<[w:=q]> ws). lia.
Qed.

Lemma log_line_event r e : snd (log_line r e) = e.
Proof. unfold log_line. by destruct (marshals e). Qed.

Lemma snd_log_line (r : reason) (l : list Event) : map snd (map (log_line r) l) = l.
Proof. induction l; simpl; rewrite ?log_line_event; congruence. Qed.

Lemma log_lines_marshalled r l : Forall (fun x => snd (fst x) = marshals (snd x)) (map (log_line r) l).
Proof. induction l as [|e l IH]; constructor; [|done]. unfold log_line. by destruct (marshals e) eqn:E. Qed.

Lemma cnt_concat_app x l l' : cnt x (concat (l ++ l')%list) = (cnt x (concat l) + cnt x (concat l'))%nat.
Proof. by rewrite concat_app, cnt_app. Qed.

Ltac cnt_solve :=
  apply perm_cnt; intros ?x;
  repeat match goal with H : _ ≡ₚ _ |- _ => rewrite perm_cnt in H; specialize (H x) end;
  unfold in_flight in *; cbn in *;
  rewrite ?cnt_app, ?cnt_concat_app, ?map_app, ?snd_log_line, ?cnt_app in *; cbn in *; rewrite ?cnt_app in *; cbn in *; lia.

Lemma core_fallback r l c :
  recorded c ≡ₚ (l ++ in_flight c ++ sent c ++ map snd (logged c) ++ dropped c)%list ->
  (length (events c) <= evCap c)%nat -> (length (batches c) <= outCap c)%nat ->
  (length (batch c) <= defaultClientMaxBatch)%nat -> Forall batch_size_ok (batches c) ->
  (forall w b, workers c !! w = Some (Sending b) -> batch_size_ok b) ->
  (forall w, workers c !! w = Some Done -> batchesClosed c = true /\ batches c = []) ->
  (fallbackLog c = true -> dropped c = []) -> (0 < length (workers c))%nat ->
  Forall (fun x => snd (fst x) = marshals (snd x)) (logged c) -> Core (fallback r l c).
Proof.
  intros H1 H2 H3 H4 H5 H6 H7 H8 H9 H10. unfold fallback.
  destruct (fallbackLog c) eqn:Hf; split; cbn; try done; try congruence;
    try (apply Forall_app; split; [apply log_lines_marshalled|done]); cnt_solve.
Qed.

Lemma core_flush c :
  Core c -> batchesClosed c = false ->
  Core (flush c) /\ batch (flush c) = [] /\ events (flush c) = events c /\ closed (flush c) = closed c /\
  dispatcherDone (flush c) = dispatcherDone c /\ batchesClosed (flush c) = batchesClosed c.
Proof.
  intros HC Hb. pose proof HC as [h1 h2 h3 h4 h5 h6 h7 h8 h9 h10]. unfold flush. destruct (batch c) as [|e b] eqn:E; [done|].
  cbn [batches set_batch outCap]. destruct (Nat.ltb_spec (length (batches c)) (outCap c)) as [Hlt|Hge].
  - split; [|done]. split; cbn; try done.
    + unfold in_flight in h1. rewrite E in h1. cnt_solve.
    + rewrite length_app. simpl. lia.
    + lia.
    + apply Forall_app. split; [done|]. constructor; [|constructor]. split; simpl in *; lia.
    + intros w Hw. destruct (h7 _ Hw). congruence.
  - split; [|by unfold fallback; destruct (fallbackLog _)].
    apply core_fallback; try done; [|simpl; lia]. unfold in_flight in h1. rewrite E in h1. cnt_solve.
Qed.

Ltac size_lia := unfold defaultClientMaxBatch in *; cbn in *; lia.

Lemma inv_fallback r e c : Inv c -> Inv (fallback r [e] (add_recorded e c)).
Proof.
  intros [[h1 h2 h3 h4 h5 h6 h7 h8 h9 h10] g1 g2 g3 g4].
  split; [apply core_fallback; cbn; try done; cnt_solve|..]; unfold fallback; destruct (fallbackLog _); done.
Qed.

Lemma inv_enqueue e c : Inv c -> closed c = false -> Inv (enqueue e (add_recorded e c)).
Proof.
  intros HI Hcl. pose proof HI as [[h1 h2 h3 h4 h5 h6 h7 h8 h9 h10] g1 g2 g3 g4]. unfold enqueue. cbn [events add_recorded evCap].
  destruct (Nat.ltb_spec (length (events c)) (evCap c)); [|by apply inv_fallback].
  split; cbn; try done.
  - split; cbn; try done; [cnt_solve|rewrite length_app; simpl; lia].
  - intros Hd. destruct (g3 Hd). congruence.
Qed.

Lemma inv_close c : Inv c -> Inv (close_events c).
Proof. intros [[] g1 g2 g3 g4]. split; cbn; try done. intros Hd. by destruct (g3 Hd) as (_ & ? & ?). Qed.

Lemma inv_recv c c' : Inv c -> dispatch_recv c = Some c' -> Inv c'.
Proof.
  intros HI. pose proof HI as [HC g1 g2 g3 g4]. unfold dispatch_recv.
  destruct (dispatcherDone c) eqn:Hd; [done|].
  destruct (events c) as [|e rest] eqn:He.
  { destruct (closed c) eqn:Hcl; [|done]. intros [= <-].
    destruct (core_flush c HC ltac:(congruence)) as ([h1 h2 h3 h4 h5 h6 h7 h8 h9 h10] & E1 & E2 & E3 & E4 & E5).
    split; cbn; try done; [|rewrite E1; size_lia|by rewrite E3, E2, E1].
    split; cbn; try done. intros w Hw. destruct (h7 _ Hw). congruence. }
  destruct HC as [h1 h2 h3 h4 h5 h6 h7 h8 h9 h10]. unfold in_flight in h1. rewrite He in *.
  cbn [batch set_events]. destruct (batch c) as [|y b] eqn:Eb.
  { intros [= <-]. split; cbn in *; try done; [|size_lia|congruence|congruence]. split; cbn in *; try done; try size_lia. cnt_solve. }
  remember ((y :: b) ++ [e])%list as b' eqn:Eb'.
  assert (length b' = S (length b) + 1)%nat as Hb' by (subst b'; rewrite length_app; done).
  assert (length b' <= defaultClientMaxBatch)%nat as Hle by (simpl in *; lia).
  assert (forall t, Core (set_batch b' t (set_events rest c)))%nat as Hcore.
  { intros t. split; cbn in *; try done; try lia. subst b'. cnt_solve. }
  destruct (Nat.leb_spec defaultClientMaxBatch (length b')) as [Hge|Hlt]; intros Hx; injection Hx as <-.
  - destruct (core_flush _ (Hcore false) ltac:(cbn; congruence)) as (HC' & E1 & E2 & E3 & E4 & E5).
    cbn in E2, E3, E4, E5. split; [done|rewrite E1; size_lia|by rewrite E1|congruence|congruence].
  - split; [done|cbn in *; lia|done|cbn; congruence|cbn; congruence].
Qed.

Lemma inv_timer c c' : Inv c -> dispatch_timer c = Some c' -> Inv c'.
Proof.
  intros [HC g1 g2 g3 g4]. unfold dispatch_timer. destruct (dispatcherDone c) eqn:Hd; [done|].
  destruct (batch c) as [|e b] eqn:Eb; [done|]. destruct (timer c); [|done]. intros [= <-].
  assert (Core (set_batch (e :: b) false c)) as HC'.
  { destruct HC as [h1 h2 h3 h4 h5 h6 h7 h8 h9 h10]. unfold in_flight in h1. rewrite Eb in *. split; cbn; try done. }
  destruct (core_flush _ HC' ltac:(cbn; congruence)) as (HC2 & E1 & E2 & E3 & E4 & E5).
  split; [done|rewrite E1; size_lia|by rewrite E1|rewrite E4; cbn; congruence|rewrite E5, E4; cbn; congruence].
Qed.

Lemma inv_take w c c' : Inv c -> worker_take w c = Some c' -> Inv c'.
Proof.
  intros [[h1 h2 h3 h4 h5 h6 h7 h8 h9 h10] g1 g2 g3 g4]. unfold worker_take.
  destruct (workers c !! w) as [[]|] eqn:Hw; try done. destruct (batches c) as [|b rest] eqn:Eb.
  - destruct (batchesClosed c) eqn:Hbc; [|done]. intros [= <-]. split; cbn; try done; [|congruence]. split; cbn; try done.
    + rewrite h1. apply perm_cnt. intros x. pose proof (cnt_workers x _ _ _ Done Hw). unfold in_flight.
      cbn in *. rewrite !cnt_app. rewrite Eb. cbn. lia.
    + rewrite Eb. simpl. lia.
    + by rewrite Eb.
    + intros w' b Hw'. apply list_lookup_insert_Some in Hw' as [(_ & ? & _)|[_ ?]]; [done|eauto].
    + by rewrite length_insert.
  - intros [= <-]. split; cbn; try done. apply Forall_cons in h5 as [Hb h5]. split; cbn in *; try done.
    + rewrite h1. apply perm_cnt. intros x. pose proof (cnt_workers x _ _ _ (Sending b) Hw). unfold in_flight.
      cbn in *. rewrite !cnt_app. rewrite Eb. cbn. rewrite cnt_app. lia.
    + lia.
    + intros w' b' Hw'. apply list_lookup_insert_Some in Hw' as [(_ & [= <-] & _)|[_ ?]]; [done|eauto].
    + intros w' Hw'. apply list_lookup_insert_Some in Hw' as [(_ & ? & _)|[_ Hw']]; [done|]. by destruct (h7 _ Hw').
    + by rewrite length_insert.
Qed.

Lemma inv_sent w ok c c' : Inv c -> worker_sent w ok c = Some c' -> Inv c'.
Proof.
  intros [[h1 h2 h3 h4 h5 h6 h7 h8 h9 h10] g1 g2 g3 g4]. unfold worker_sent.
  destruct (workers c !! w) as [[]|] eqn:Hw; try done. intros [= <-].
  assert (recorded c ≡ₚ (b ++ in_flight (set_worker w Waiting c) ++ sent c ++ map snd (logged c) ++ dropped c)%list) as Hc.
  { rewrite h1. apply perm_cnt. intros x. pose proof (cnt_workers x _ _ _ Waiting Hw). unfold in_flight.
    cbn in *. rewrite !cnt_app. lia. }
  assert (forall w' b', workers (set_worker w Waiting c) !! w' = Some (Sending b') -> batch_size_ok b') as Hs.
  { intros w' b' Hw'. apply list_lookup_insert_Some in Hw' as [(_ & ? & _)|[_ ?]]; [done|eauto]. }
  assert (forall w', workers (set_worker w Waiting c) !! w' = Some Done -> batchesClosed c = true /\ batches c = []) as Hdn.
  { intros w' Hw'. apply list_lookup_insert_Some in Hw' as [(_ & ? & _)|[_ ?]]; [done|eauto]. }
  assert (0 < length (workers (set_worker w Waiting c)))%nat as Hlen by (cbn; by rewrite length_insert).
  destruct ok.
  - split; cbn; try done. split; cbn; try done. rewrite Hc. cnt_solve.
  - split; [by apply core_fallback|..]; unfold fallback; destruct (fallbackLog _); done.
Qed.

Lemma inv_step a c c' : Inv c -> exec_step a c = Some c' -> Inv c'.
Proof. intros HI. destruct a; simpl; [by apply inv_recv|by apply inv_timer|by apply inv_take|by apply inv_sent]. Qed.

Lemma inv_new cfg c : NewClient cfg = Some c -> Inv c.
Proof.
  unfold NewClient. destruct (HasTransport cfg); [|done]. intros [= <-].
  assert (forall n, concat (map carried (replicate n Waiting)) = []) as Hw by (induction n; simpl; auto).
  split; cbn; try done; [|size_lia]. split; cbn; try lia; try done.
  - unfold in_flight. cbn. by rewrite Hw.
  - intros w b Hb. by apply lookup_replicate in Hb as [? _].
  - intros w Hb. by apply lookup_replicate in Hb as [? _].
  - rewrite length_replicate. unfold defaultClientWorkers. destruct (Workers cfg <=? 0) eqn:E; bprop; lia.
Qed.

(** ** With the fallback disabled nothing is logged *)

Definition off (c : Client Ev) : Prop := fallbackLog c = false -> logged c = [].

Lemma off_fallback r l c : off c -> off (fallback r l c).
Proof. unfold off, fallback. destruct (fallbackLog c); done. Qed.

Lemma off_enqueue e c : off c -> off (enqueue e c).
Proof. intros Ho. unfold enqueue. destruct (Nat.ltb _ _); [done|]. by apply off_fallback. Qed.

Lemma off_flush c : off c -> off (flush c).
Proof.
  intros Ho. unfold flush. destruct (batch c); [done|]. destruct (Nat.ltb _ _); [done|]. by apply off_fallback.
Qed.

Lemma off_step a c c' : off c -> exec_step a c = Some c' -> off c'.
Proof.
  intros Ho. destruct a as [| |w|w ok]; simpl; intros Hx.
  - unfold dispatch_recv in Hx. destruct (dispatcherDone c); [done|].
    destruct (events c); [destruct (closed c); [|done]; injection Hx as <-; by apply off_flush|].
    cbn [batch set_events] in Hx. destruct (batch c); [by injection Hx as <-|].
    destruct (Nat.leb _ _); injection Hx as <-; [by apply off_flush|done].
  - unfold dispatch_timer in Hx. destruct (dispatcherDone c); [done|]. destruct (batch c); [done|].
    destruct (timer c); [|done]. injection Hx as <-. by apply off_flush.
  - unfold worker_take in Hx. by case_go.
  - unfold worker_sent in Hx. destruct (workers c !! w) as [[]|]; try done.
    injection Hx as <-. destruct ok; [done|by apply off_fallback].
Qed.

(** ** [Close] returns *)

Definition wwork (w : worker Ev) : nat := match w with Waiting => 1 | Sending _ => 2 | Done => 0 end.
Definition sum_work (ws : list (worker Ev)) : nat := list_sum (map wwork ws).
#[local] Arguments sum_work _ : simpl never.
Definition work (c : Client Ev) : nat :=
  (4 * length (events c) + match batch c with [] => 0 | _ => 3 end + 2 * length (batches c) +
   sum_work (workers c) + if dispatcherDone c then 0 else 1)%nat.

Lemma sum_work_insert ws w p q :
  ws !! w = Some p -> (sum_work (<[w := q]> ws) + wwork p = wwork q + sum_work ws)%nat.
Proof.
  unfold sum_work. revert w; induction ws as [|y ws IH]; intros [|w]; simpl; try done.
  - intros [= ->]. lia.
  - intros Hw. specialize (IH _ Hw). change (list_insert w q ws) with (<[w := q]> ws). lia.
Qed.

Lemma work_flush c : (work (flush c) <= work c)%nat /\ (batch c <> [] -> work (flush c) < work c)%nat.
Proof.
  unfold flush. destruct (batch c) as [|e b] eqn:E; [done|]. unfold fallback.
  destruct (Nat.ltb _ _); [|destruct (fallbackLog _)]; (split; [|intros _]); unfold work; cbn;
    rewrite E, ?length_app; cbn; lia.
Qed.

Lemma work_fallback r l c : work (fallback r l c) = work c.
Proof. unfold fallback. by destruct (fallbackLog c). Qed.

Lemma flush_done c : dispatcherDone (flush c) = dispatcherDone c.
Proof. unfold flush. destruct (batch c); [done|]. unfold fallback. destruct (Nat.ltb _ _); [done|]. by destruct (fallbackLog _). Qed.

Lemma work_return c : dispatcherDone c = false -> (S (work (dispatcher_return c)) = work c)%nat.
Proof. intros Hd. unfold work, dispatcher_return. cbn. rewrite Hd. lia. Qed.

Lemma work_recv c c' : dispatch_recv c = Some c' -> (work c' < work c)%nat.
Proof.
  unfold dispatch_recv. destruct (dispatcherDone c) eqn:Hd; [done|].
  destruct (events c) as [|e rest] eqn:He.
  { destruct (closed c); [|done]. intros [= <-]. pose proof (work_flush c) as [? _].
    pose proof (work_return (flush c) ltac:(by rewrite flush_done)). lia. }
  cbn [batch set_events]. destruct (batch c) as [|y b] eqn:Eb.
  { intros [= <-]. unfold work. cbn. rewrite He, Eb. cbn. lia. }
  destruct (Nat.leb _ _); intros Hx; injection Hx as <-.
  - match goal with |- context [flush ?c1] => pose proof (work_flush c1) as [Hw _]; set (c2 := c1) in * end.
    assert (work c2 < work c)%nat; [|lia]. unfold c2, work. cbn. rewrite He, Eb. cbn. lia.
  - unfold work. cbn. rewrite He, Eb. cbn. lia.
Qed.

Lemma work_step a c c' : exec_step a c = Some c' -> (work c' < work c)%nat.
Proof.
  destruct a as [| |w|w ok]; simpl.
  - apply work_recv.
  - unfold dispatch_timer. destruct (dispatcherDone c); [done|]. destruct (batch c) as [|e b] eqn:Eb; [done|].
    destruct (timer c); [|done]. intros Hx. injection Hx as <-.
    destruct (work_flush (set_batch (e :: b) false c)) as [_ Hw]. specialize (Hw ltac:(done)).
    enough (work (set_batch (e :: b) false c) = work c) by lia. unfold work. cbn. by rewrite Eb.
  - unfold worker_take. destruct (workers c !! w) as [[]|] eqn:Hw; try done.
    destruct (batches c) as [|b rest] eqn:Eb; [destruct (batchesClosed c); [|done]|]; intros [= <-];
      unfold work; cbn; rewrite Eb; cbn; [pose proof (sum_work_insert _ _ _ Done Hw)|pose proof (sum_work_insert _ _ _ (Sending b) Hw)];
      simpl in *; lia.
  - unfold worker_sent. destruct (workers c !! w) as [[]|] eqn:Hw; try done.
    pose proof (sum_work_insert _ _ _ Waiting Hw). intros [= <-].
    destruct ok; [|rewrite work_fallback]; unfold work; cbn; simpl in *; lia.
Qed.

Lemma closed_fallback r l c : closed (fallback r l c) = closed c.
Proof. unfold fallback. by destruct (fallbackLog _). Qed.

Lemma closed_step a c c' : exec_step a c = Some c' -> closed c' = closed c.
Proof.
  assert (forall c, closed (flush c) = closed c) as Hfl.
  { intros c0. unfold flush. destruct (batch c0); [done|]. destruct (Nat.ltb _ _); [done|]. by rewrite closed_fallback. }
  destruct a as [| |w|w ok]; simpl.
  - unfold dispatch_recv. intros Hx. destruct (dispatcherDone c); [done|].
    destruct (events c); [destruct (closed c) eqn:Hc; [|done]; injection Hx as <-; cbn; by rewrite Hfl|].
    cbn [batch set_events] in Hx. destruct (batch c); [by injection Hx as <-|].
    destruct (Nat.leb _ _); injection Hx as <-; [by rewrite Hfl|done].
  - unfold dispatch_timer. intros Hx. destruct (dispatcherDone c); [done|]. destruct (batch c); [done|].
    destruct (timer c); [|done]. injection Hx as <-. by rewrite Hfl.
  - unfold worker_take. intros Hx. case_go.
  - unfold worker_sent. intros Hx. destruct (workers c !! w) as [[]|]; try done.
    injection Hx as <-. destruct ok; [done|by rewrite closed_fallback].
Qed.

(** A closed client that has not finished can move, whatever the transport answers. *)
Lemma close_progress c ok :
  Inv c -> closed c = true -> wg_done c = false ->
  exists a c', exec_step a c = Some c' /\ (forall w ok', a = ASent w ok' -> ok' = ok).
Proof.
  intros HI Hc. unfold wg_done. destruct (dispatcherDone c) eqn:Hd; simpl.
  - intros Hw. assert (exists w p, workers c !! w = Some p /\ is_done p = false) as (w & p & Hp & Hnd).
    { induction (workers c) as [|p ws IH]; [done|]. simpl in Hw. destruct (is_done p) eqn:E; [|by exists 0%nat, p].
      destruct (IH Hw) as (w & q & ? & ?). by exists (S w), q. }
    pose proof (i_bclosed _ HI) as Hb. rewrite Hd in Hb. destruct p as [|b|]; [| |done].
    + exists (ATake w). simpl. unfold worker_take. rewrite Hp, Hb. destruct (batches c); eexists; repeat split; done.
    + exists (ASent w ok). simpl. unfold worker_sent. rewrite Hp. eexists; split; [done|].
      by intros ? ? [= _ <-].
  - intros _. exists ARecv. simpl. unfold dispatch_recv. rewrite Hd, Hc.
    cbn [batch set_events].
    destruct (events c); [|destruct (batch c); [|destruct (Nat.leb _ _)]]; eexists; repeat split; done.
Qed.

(** When all goroutines have returned, nothing is left in the queues. *)
Lemma wg_done_drained c :
  Inv c -> wg_done c = true -> recorded c ≡ₚ (sent c ++ map snd (logged c) ++ dropped c)%list.
Proof.
  intros HI Hw. unfold wg_done in Hw. apply andb_prop in Hw as [Hd Hw].
  destruct HI as [[h1 _ _ _ _ _ h7 _ h9 _] _ _ g3 g4]. destruct (g3 Hd) as (_ & He & Hb).
  rewrite h1. unfold in_flight. rewrite He, Hb. cbn.
  assert (concat (batches c) = [] /\ concat (map carried (workers c)) = []) as [-> ->]; [|done].
  rewrite forallb_forall in Hw. split.
  - destruct (workers c) as [|p ws]; [simpl in h9; lia|]. specialize (h7 0%nat).
    specialize (Hw p ltac:(by left)). destruct p; try done. by destruct (h7 eq_refl) as [_ ->].
  - clear -Hw. induction (workers c) as [|p ws IH]; [done|]. simpl. rewrite IH by (intros; apply Hw; by right).
    specialize (Hw p ltac:(by left)). by destruct p.
Qed.

End Client.
