(* ===== verification/AuditClient.v ===== *)
(** * The asynchronous audit client (src/audit/client.go)

    [Record], [RecordSync] and [Close] of the audit client over the batching
    core of AsyncClient.v: a record is prepared and put into the channel under
    the client's mutex, under which [Close] also closes the channel. *)
From S2P Require Import Prelude GoStrings AuditEvent AsyncClient.
Local Open Scope Z_scope.

Inductive ClientErr := TransportRequired | SendFailed | BadEvent (e : EventErr).

#[global] Instance Event_eq_dec : EqDecision Event.
Proof. solve_decision. Defined.

Section Steps.
Context `{UUIDLib} {marshal : Marshals Event}.
Abbreviation Client := (AsyncClient.Client Event).

(** [Record], atomic under the mutex. *)
Definition Record_ (rnd : option UUID) (now : Z) (event : option Event) (c : Client) : Client :=
  match event with
  | None => c
  | Some _ =>
      match PrepareEvent rnd now event with
      | Err _ => c
      | Ok prepared =>
          let c := add_recorded prepared c in
          if closed c then fallback client_closed [prepared] c else enqueue prepared c
      end
  end.

(** [RecordSync]: one event, straight through the transport. *)
Definition RecordSync (rnd : option UUID) (now : Z) (transport : option (list Event -> bool)) (event : option Event)
  : result ClientErr unit * list (list Event) :=
  match event with
  | None => (Ok tt, [])
  | Some _ =>
      match transport with
      | None => (Err TransportRequired, [])
      | Some send =>
          match PrepareEvent rnd now event with
          | Err e => (Err (BadEvent e), [])
          | Ok prepared => (if send [prepared] then Ok tt else Err SendFailed, [[prepared]])
          end
      end
  end.

(** The callers' steps and the goroutines' ones. *)
Inductive action :=
| ARecord (rnd : option UUID) (now : Z) (event : option Event)
| AClose
| AStep (a : step).

Definition exec (a : action) (c : Client) : option Client :=
  match a with
  | ARecord rnd now event => Some (Record_ rnd now event c)
  | AClose => Some (if closed c then c else close_events c)
  | AStep a => exec_step a c
  end.

Fixpoint run (acts : list action) (c : Client) : option Client :=
  match acts with
  | [] => Some c
  | a :: acts' => match exec a c with Some c' => run acts' c' | None => None end
  end.

Lemma inv_record rnd now event c : Inv c -> Inv (Record_ rnd now event c).
Proof.
  intros HI. unfold Record_. destruct event as [e|]; [|done]. destruct (PrepareEvent rnd now (Some e)) as [p|]; [|done].
  cbn [closed add_recorded]. destruct (closed c) eqn:Hcl; [by apply inv_fallback|by apply inv_enqueue].
Qed.

Lemma client_run_inv acts c c' : Inv c -> run acts c = Some c' -> Inv c'.
Proof.
  revert c; induction acts as [|a acts IH]; simpl; intros c HI; [by intros [= <-]|].
  destruct (exec a c) as [c1|] eqn:E; [|done]. apply IH. destruct a; simpl in E.
  - injection E as <-. by apply inv_record.
  - injection E as <-. destruct (closed c); [done|]. by apply inv_close.
  - by eapply inv_step.
Qed.

(** The steps of the goroutines that [Close] waits for. *)
Definition internal (a : action) : bool := match a with AStep _ => true | _ => false end.

Lemma work_run acts c c' :
  forallb internal acts = true -> run acts c = Some c' -> (length acts + work c' <= work c)%nat.
Proof.
  revert c; induction acts as [|a acts IH]; simpl; intros c Ha; [by intros [= <-]|].
  apply andb_prop in Ha as [Ha1 Ha2]. destruct (exec a c) as [c1|] eqn:E; [|done]. intros Hr.
  destruct a; try done. pose proof (work_step _ _ _ E). specialize (IH _ Ha2 Hr). lia.
Qed.

Lemma run_closed acts c c' : forallb internal acts = true -> run acts c = Some c' -> closed c = true -> closed c' = true.
Proof.
  revert c; induction acts as [|a acts IH]; simpl; intros c Ha; [by intros [= <-]|].
  apply andb_prop in Ha as [Ha1 Ha2]. destruct (exec a c) as [c1|] eqn:E; [|done]. intros Hr Hc.
  destruct a; try done. eapply IH; [done|done|]. by rewrite (closed_step _ _ _ E).
Qed.




(** C35. [Close] returns: once the client is closed, its goroutines take at most
    [work c] further steps, and as long as one of them has not returned some
    step is possible however the transport answers; when [wg.Wait] returns
    nothing is left in the queues, so every event was accepted, logged or,
    with the fallback disabled, dropped. *)
Theorem Close_returns cfg c0 acts c acts' c' ok :
  NewClient cfg = Some c0 -> run acts c0 = Some c -> closed c = true ->
  forallb internal acts' = true -> run acts' c = Some c' ->
  (length acts' <= work c)%nat /\
  (if wg_done c' then recorded c' ≡ₚ (sent c' ++ map snd (logged c') ++ dropped c')%list
   else exists a c2, internal a = true /\ exec a c' = Some c2 /\ (forall w ok', a = AStep (ASent w ok') -> ok' = ok)).
Proof.
  intros Hn Hr Hc Hi Hr'. split; [pose proof (work_run _ _ _ Hi Hr'); lia|].
  pose proof (client_run_inv _ _ _ (client_run_inv _ _ _ (inv_new _ _ Hn) Hr) Hr') as HI.
  destruct (wg_done c') eqn:Hw; [by apply wg_done_drained|].
  destruct (close_progress c' ok HI) as (a & c2 & Ha & Hok); [by eapply run_closed|done|].
  exists (AStep a), c2. split; [done|]. split; [done|]. intros w ok' [= ->]. by eapply Hok.
Qed.

End Steps.

(** ** Witnesses *)

Definition demo_cfg (fb : bool) : ClientConfig := MkClientConfig true 8 0 1 (Some fb).
Definition record_one {U : UUIDLib} (id : string) : list action := [ARecord None 5000 (Some (demo_event id 5000)); AStep ARecv; AStep ATimer].

(** One worker is busy with the first batch, four more fill the channel, and
    a sixth event sits in the dispatcher's batch when the client is closed. *)
Definition busy_close {U : UUIDLib} : list action :=
  (record_one "1" ++ [AStep (ATake 0)] ++ record_one "2" ++ record_one "3" ++ record_one "4" ++ record_one "5" ++
   [ARecord None 5000 (Some (demo_event "6" 5000)); AStep ARecv; AClose; AStep ARecv])%list.

#[local] Instance encodes_but_3 : Marshals Event := fun e => negb (GoStrings.HasPrefix (ID e) "3").

Definition demo_client (fb : bool) : AsyncClient.Client Event :=
  match NewClient (demo_cfg fb) with Some c => c | None => MkClient fb 0 0 [] false [] false false [] false [] [] [] [] [] end.



Definition drain {U : UUIDLib} : list action :=
  concat (replicate 5 [AStep (ASent 0 true); AStep (ATake 0)]).

Lemma Close_returns_witness :
  exists c c', run (H := text_uuid) (busy_close (U := text_uuid)) (demo_client true) = Some c /\ closed c = true /\
    run (H := text_uuid) (drain (U := text_uuid)) c = Some c' /\ wg_done c' = true /\
    (length (drain (U := text_uuid)) <= work c)%nat.
Proof.
  do 2 eexists. split; [vm_compute; reflexivity|]. split; [reflexivity|]. split; [vm_compute; reflexivity|].
  split; [reflexivity|].
  refine (proj1 (Close_returns (H := text_uuid) (demo_cfg true) (demo_client true)
            (busy_close (U := text_uuid)) _ (drain (U := text_uuid)) _ true _ _ _ _ _)); vm_compute; reflexivity.
Defined.

(** The final flush of [Close] does not wait for room in the batch channel:
    with the fallback disabled the sixth event is given up without a trace,
    although the transport never failed. *)
Theorem close_flush_can_drop :
  exists c, run (H := text_uuid) (busy_close (U := text_uuid)) (demo_client false) = Some c /\
    map ID (dropped c) = ["6"%string] /\ logged c = [].
Proof. eexists. split; [vm_compute; reflexivity|]. split; reflexivity. Qed.
