(* ===== verification/AuditList.v ===== *)
(** * The audit store's queries (src/audit/postgres.go)

    The table is the list of its rows.  [List] builds the query's condition
    filter by filter, as the code does, and applies it: WHERE, ORDER BY
    created_at DESC, id DESC, LIMIT.  Cursors are the base64 text of a
    timestamp and an ID; [TimeText] is RFC 3339 formatting and parsing of
    timestamps.  The database's input functions are arguments: [jsonb] for
    JSON columns, which normalises the text, [uuid_ok] for IDs. *)
From S2P Require Import Prelude GoStrings AuditEvent.
From stdpp Require Import sorting.
From Stdlib Require Import OrdersEx.
Local Open Scope string_scope.

(** ** base64.RawURLEncoding *)
Module Base64.

Definition alphabet : string := "ABCDEFGHIJKLMNOPQRSTUVWXYZabcdefghijklmnopqrstuvwxyz0123456789-_".

Definition sextet (v : N) : ascii :=
  match String.get (N.to_nat v) alphabet with Some c => c | None => "="%char end.

Fixpoint index (c : ascii) (s : string) (i : N) : option N :=
  match s with
  | "" => None
  | String d s' => if Ascii.eqb c d then Some i else index c s' (i + 1)%N
  end.
Definition value (c : ascii) : option N := index c alphabet 0.

Fixpoint sextets (s : string) : list N :=
  match s with
  | "" => []
  | String a "" => [code a / 4; code a mod 4 * 16]%N
  | String a (String b "") => [code a / 4; code a mod 4 * 16 + code b / 16; code b mod 16 * 4]%N
  | String a (String b (String c s')) =>
      [code a / 4; code a mod 4 * 16 + code b / 16; code b mod 16 * 4 + code c / 64; code c mod 64]%N ++ sextets s'
  end.

Definition EncodeToString (s : string) : string := String.string_of_list_ascii (map sextet (sextets s)).

(** Line breaks are skipped; any other byte outside the alphabet is an error. *)
Definition newline (c : ascii) : bool := (code c =? 10)%N || (code c =? 13)%N.

Fixpoint values (s : string) : option (list N) :=
  match s with
  | "" => Some []
  | String c s' =>
      if newline c then values s'
      else v ← value c; l ← values s'; Some (v :: l)
  end.

Fixpoint octets (l : list N) : option string :=
  match l with
  | [] => Some ""
  | [_] => None
  | [v1; v2] => Some (String (ascii_of_N (v1 * 4 + v2 / 16)) "")
  | [v1; v2; v3] =>
      Some (String (ascii_of_N (v1 * 4 + v2 / 16)) (String (ascii_of_N (v2 mod 16 * 16 + v3 / 4)) ""))
  | v1 :: v2 :: v3 :: v4 :: l' =>
      s ← octets l';
      Some (String (ascii_of_N (v1 * 4 + v2 / 16))
              (String (ascii_of_N (v2 mod 16 * 16 + v3 / 4)) (String (ascii_of_N (v3 mod 4 * 64 + v4)) s)))
  end.

Definition DecodeString (s : string) : option string := l ← values s; octets l.

Lemma code_bound c : (code c < 256)%N.
Proof. apply N_ascii_bounded. Qed.

Lemma code_back c n : n = code c -> ascii_of_N n = c.
Proof. intros ->. apply ascii_N_embedding. Qed.

Ltac bytes_lia := zify; Z.to_euclidean_division_equations; lia.

Lemma string_ind3 (P : string -> Prop) :
  P "" -> (forall a, P (String a "")) -> (forall a b, P (String a (String b ""))) ->
  (forall a b c s, P s -> P (String a (String b (String c s)))) -> forall s, P s.
Proof.
  intros h0 h1 h2 h3. fix IH 1. intros [|a [|b [|c s]]]; [done|done|done|]. apply h3, IH.
Qed.

Lemma octets_sextets s : octets (sextets s) = Some s.
Proof.
  induction s as [|a|a b|a b c s IH] using string_ind3; [done|..]; cbn [sextets octets app];
    rewrite ?IH; cbn [mbind option_bind]; repeat f_equal; apply code_back;
    pose proof (code_bound a); try pose proof (code_bound b); try pose proof (code_bound c); bytes_lia.
Qed.

Lemma sextets_small s : Forall (fun v => v < 64)%N (sextets s).
Proof.
  induction s as [|a|a b|a b c s IH] using string_ind3; cbn [sextets app]; repeat constructor; try done;
    pose proof (code_bound a); try pose proof (code_bound b); try pose proof (code_bound c); bytes_lia.
Qed.

Lemma value_sextet v : (v < 64)%N -> value (sextet v) = Some v /\ newline (sextet v) = false.
Proof.
  intros Hv.
  assert (forallb (fun i => let v := N.of_nat i in
    match value (sextet v) with Some w => N.eqb w v | None => false end && negb (newline (sextet v))) (seq 0 64) = true)
    as Hall by (vm_compute; reflexivity).
  rewrite forallb_forall in Hall. specialize (Hall (N.to_nat v) ltac:(apply in_seq; lia)).
  cbv zeta in Hall. rewrite N2Nat.id in Hall. apply andb_prop in Hall as [Hx Hn].
  destruct (value (sextet v)) as [w|]; [|done]. apply N.eqb_eq in Hx as ->. by destruct (newline _).
Qed.

Lemma values_sextets l : Forall (fun v => v < 64)%N l -> values (String.string_of_list_ascii (map sextet l)) = Some l.
Proof.
  induction 1 as [|v l Hv _ IH]; [done|]. simpl. destruct (value_sextet v Hv) as [-> ->]. simpl. by rewrite IH.
Qed.

Lemma Decode_Encode s : DecodeString (EncodeToString s) = Some s.
Proof. unfold DecodeString, EncodeToString. rewrite values_sextets by apply sextets_small. apply octets_sextets. Qed.

Lemma Encode_nonempty s : s <> "" -> EncodeToString s <> "".
Proof. intros Hs E. pose proof (Decode_Encode s) as Hd. rewrite E in Hd. by injection Hd as <-. Qed.

End Base64.

(** ** Rows, filters, cursors *)

Record row := MkRow {
  r_id : string; actor : string; action : string; target_type : string; target_id : string;
  scope_type : string; scope_id : string;
  before_state : option string; after_state : option string; metadata : option string;
  created_at : Z }.

Record ListFilter := MkFilter {
  f_ScopeType : string; f_ScopeID : string; f_Service : string; f_Actor : string; f_Action : string;
  f_TargetType : string; f_TargetID : string; f_RequestID : string;
  f_Since : option Z; f_Until : option Z; f_Cursor : string; f_Limit : Z }.

Record ListResult := MkResult { Events : list Event; NextCursor : string }.

Inductive StoreErr := InsertFailed | ListFailed.

(** time.RFC3339Nano: formatting, parsing, and that a timestamp's text has no bar. *)
Class TimeText := {
  FormatNano : Z -> string;
  ParseNano : string -> option Z;
  Parse_Format : forall t, ParseNano (FormatNano t) = Some t;
  Format_no_bar : forall t, all_bytes (fun c => negb (Ascii.eqb c "|")) (FormatNano t) = true }.

Section Cursor.
Context `{TimeText}.

Definition encodeCursor (t : Z) (id : string) : string :=
  Base64.EncodeToString (FormatNano t ++ "|" ++ id).
Definition EncodeListCursor := encodeCursor.

Definition decodeCursor (cursor : string) : option (Z * string) :=
  b ← Base64.DecodeString cursor;
  parts ← SplitN2 "|" b;
  t ← ParseNano (fst parts);
  Some (t, snd parts).
Definition DecodeListCursor := decodeCursor.

End Cursor.

(** ** [PostgresStore] *)
Module PostgresStore.
Section Store.
Context `{TimeText}.
Variable jsonb : string -> option string.
Variable uuid_ok : string -> bool.

Definition nullableJSON (data : string) : option string := if data ==s "" then None else Some data.

(** A parameter of a JSONB column: NULL, or the normalised text if it is JSON. *)
Definition json_param (data : string) : option (option string) :=
  match nullableJSON data with
  | None => Some None
  | Some d => match jsonb d with Some n => Some (Some n) | None => None end
  end.

(** INSERT: the ID and the timestamp are the columns' defaults. *)
Definition Record_ (gen_id : string) (now : Z) (event : Event) (tbl : list row) : result StoreErr unit * list row :=
  match json_param (BeforeState event), json_param (AfterState event), json_param (Metadata event) with
  | Some b, Some a, Some m =>
      (Ok tt, MkRow gen_id (Actor event) (Action event) (TargetType event) (TargetID event)
                (ScopeType event) (ScopeID event) b a m now :: tbl)
  | _, _, _ => (Err InsertFailed, tbl)
  end.

Definition eq_cond (want : string) (get : row -> string) (r : row) : bool := (want ==s "") || (get r ==s want).

(** The rows strictly after a cursor in the listing order. *)
Definition after_cursor (t : Z) (id : string) (r : row) : bool :=
  (created_at r <? t)%Z || ((created_at r =? t)%Z && String.ltb (r_id r) id).

(** The WHERE clause without the cursor. *)
Definition where_ (f : ListFilter) (r : row) : bool :=
  eq_cond (f_ScopeType f) scope_type r && eq_cond (f_ScopeID f) scope_id r && eq_cond (f_Actor f) actor r &&
  eq_cond (f_Action f) action r && eq_cond (f_TargetType f) target_type r && eq_cond (f_TargetID f) target_id r &&
  match f_Since f with None => true | Some s => (s <=? created_at r)%Z end &&
  match f_Until f with None => true | Some u => (created_at r <=? u)%Z end.

(** The cursor's condition: an unreadable cursor is ignored, one whose ID is
    not a UUID fails the query. *)
Definition cursor_cond (f : ListFilter) : result StoreErr (row -> bool) :=
  if f_Cursor f ==s "" then Ok (fun _ => true)
  else match decodeCursor (f_Cursor f) with
       | None => Ok (fun _ => true)
       | Some (t, id) => if uuid_ok id then Ok (after_cursor t id) else Err ListFailed
       end.

(** ORDER BY created_at DESC, id DESC. *)
Definition newer (a b : row) : Prop := after_cursor (created_at a) (r_id a) b = true \/
  (created_at a = created_at b /\ r_id a = r_id b).
#[global] Instance newer_dec a b : Decision (newer a b).
Proof. unfold newer. apply _. Defined.

Definition scan (r : row) : Event :=
  MkEvent (r_id r) "" (actor r) (action r) (target_type r) (target_id r) (scope_type r) (scope_id r)
    (default "" (before_state r)) (default "" (after_state r)) (default "" (metadata r)) "" "" (created_at r).

Definition limit_of (f : ListFilter) : Z :=
  if (f_Limit f <=? 0)%Z || (100 <? f_Limit f)%Z then 50%Z else f_Limit f.

(** [db_ok] is false when the query, a scan or the row iteration fails. *)
Definition List (db_ok : bool) (f : ListFilter) (tbl : list row) : result StoreErr ListResult :=
  let limit := limit_of f in
  let? cond := cursor_cond f in
  if negb db_ok then Err ListFailed else
  let rows := take (Z.to_nat (limit + 1)) (merge_sort newer (List.filter (fun r => where_ f r && cond r) tbl)) in
  let events := map scan rows in
  if (limit <? Z.of_nat (length events))%Z then
    let events := take (Z.to_nat limit) events in
    match last events with
    | Some l => Ok (MkResult events (EncodeListCursor (CreatedAt l) (ID l)))
    | None => Ok (MkResult events "")
    end
  else Ok (MkResult events "").

(** A client that follows [NextCursor] until there is none, on a database that
    answers. *)
Definition with_cursor (c : string) (f : ListFilter) : ListFilter :=
  MkFilter (f_ScopeType f) (f_ScopeID f) (f_Service f) (f_Actor f) (f_Action f) (f_TargetType f) (f_TargetID f)
    (f_RequestID f) (f_Since f) (f_Until f) c (f_Limit f).

Fixpoint walk (fuel : nat) (f : ListFilter) (tbl : list row) : option (list (list Event)) :=
  match fuel with
  | O => None
  | S n =>
      match List true f tbl with
      | Err _ => None
      | Ok res =>
          if NextCursor res ==s "" then Some [Events res]
          else pages ← walk n (with_cursor (NextCursor res) f) tbl; Some (Events res :: pages)
      end
  end.

End Store.
End PostgresStore.
Import PostgresStore.

(** ** The listing order *)

Definition key_lt (t : Z) (id : string) (t' : Z) (id' : string) : Prop :=
  (t < t')%Z \/ (t = t' /\ String_as_OT.lt id id').

Lemma after_cursor_lt t id r : after_cursor t id r = true <-> key_lt (created_at r) (r_id r) t id.
Proof.
  unfold after_cursor, key_lt. bprop. unfold String.ltb.
  change (String_as_OT.lt (r_id r) id) with (String.compare (r_id r) id = Lt).
  destruct (String.compare (r_id r) id); intuition congruence.
Qed.

Lemma key_lt_irrefl t id : ~ key_lt t id t id.
Proof. intros [?|[_ Hl]]; [lia|]. by apply (StrictOrder_Irreflexive (R := String_as_OT.lt)) in Hl. Qed.

Lemma key_lt_trans t1 i1 t2 i2 t3 i3 : key_lt t1 i1 t2 i2 -> key_lt t2 i2 t3 i3 -> key_lt t1 i1 t3 i3.
Proof.
  unfold key_lt. intros [?|[? H1]] [?|[? H2]]; try (left; lia). right. split; [lia|].
  by apply (StrictOrder_Transitive (R := String_as_OT.lt) _ i2).
Qed.

Lemma key_total t1 i1 t2 i2 : key_lt t1 i1 t2 i2 \/ (t1 = t2 /\ i1 = i2) \/ key_lt t2 i2 t1 i1.
Proof.
  unfold key_lt. destruct (Z.lt_trichotomy t1 t2) as [?|[->|?]]; [auto| |auto].
  destruct (String_as_OT.compare_spec i1 i2) as [->|?|?]; auto 6.
Qed.

Lemma newer_lt a b :
  newer a b <-> key_lt (created_at b) (r_id b) (created_at a) (r_id a) \/ (created_at a = created_at b /\ r_id a = r_id b).
Proof. unfold newer. by rewrite after_cursor_lt. Qed.

#[export] Instance newer_trans : Transitive newer.
Proof.
  intros a b c. rewrite !newer_lt. intros [H1|[E1 E2]] [H2|[E3 E4]].
  - left. by eapply key_lt_trans.
  - left. by rewrite <- E3, <- E4.
  - left. by rewrite E1, E2.
  - right. split; congruence.
Qed.

#[export] Instance newer_total : Total newer.
Proof.
  intros a b. rewrite !newer_lt.
  destruct (key_total (created_at a) (r_id a) (created_at b) (r_id b)) as [?|[[-> ->]|?]]; auto.
Qed.

Lemma newer_same a b : newer a b -> newer b a -> r_id a = r_id b.
Proof.
  rewrite !newer_lt. intros [H1|[_ ?]] [H2|[_ ?]]; try done.
  destruct (key_lt_irrefl (created_at a) (r_id a)). by eapply key_lt_trans.
Qed.

(** In a listing without duplicate IDs, the rows after the cursor of one are those that follow it. *)
Lemma after_split p x q :
  StronglySorted newer (p ++ x :: q) -> NoDup (map r_id (p ++ x :: q)) ->
  List.filter (after_cursor (created_at x) (r_id x)) (p ++ x :: q) = q.
Proof.
  intros Hs Hn. rewrite List.filter_app.
  assert (forall y, List.In y p -> after_cursor (created_at x) (r_id x) y = false) as Hp.
  { intros y Hy. apply not_true_iff_false. rewrite after_cursor_lt. intros Hlt.
    assert (newer y x) as Hyx.
    { clear -Hs Hy. induction p as [|z p IH]; [done|]. apply StronglySorted_inv in Hs as [Hs Hz].
      destruct Hy as [->|Hy]; [|by apply IH]. rewrite Forall_forall in Hz. apply Hz. set_solver. }
    rewrite newer_lt in Hyx. destruct Hyx as [Hl|[E1 E2]].
    - destruct (key_lt_irrefl (created_at x) (r_id x)). by eapply key_lt_trans.
    - rewrite E1, E2 in Hlt. by apply key_lt_irrefl in Hlt. }
  assert (List.filter (after_cursor (created_at x) (r_id x)) p = []) as ->.
  { clear -Hp. induction p as [|z p IH]; [done|]. simpl. rewrite Hp by (by left). apply IH. intros; apply Hp; by right. }
  simpl. rewrite (proj1 (not_true_iff_false (after_cursor (created_at x) (r_id x) x)))
    by (rewrite after_cursor_lt; apply key_lt_irrefl).
  rewrite map_app in Hn. apply NoDup_app in Hn as (_ & _ & Hn). simpl in Hn. apply NoDup_cons in Hn as [Hx _].
  assert (StronglySorted newer (x :: q)) as Hxq.
  { clear -Hs. induction p as [|z p IH]; [done|]. apply StronglySorted_inv in Hs as [Hs _]. auto. }
  apply StronglySorted_inv in Hxq as [_ Hxq]. rewrite Forall_forall in Hxq.
  assert (forall y, List.In y q -> after_cursor (created_at x) (r_id x) y = true) as Hq.
  { intros y Hy. destruct (Hxq y ltac:(by apply list_elem_of_In)) as [?|[_ E]]; [done|]. destruct Hx. rewrite E.
    apply list_elem_of_In. by apply in_map. }
  clear -Hq. induction q as [|z q IH]; [done|]. simpl. rewrite Hq by (by left). f_equal. apply IH. intros; apply Hq; by right.
Qed.

Section Paging.
Context `{TimeText}.
Variable uuid_ok : string -> bool.
Variable tbl : list row.
Hypothesis tbl_ids : NoDup (map r_id tbl).
Hypothesis tbl_uuids : Forall (fun r => uuid_ok (r_id r) = true) tbl.

(** Everything the filter selects, newest first. *)
Definition selected (f : ListFilter) : list row := merge_sort newer (List.filter (where_ f) tbl).

Lemma map_filter_sub {A B} (g : A -> B) h (l : list A) : NoDup (map g l) -> NoDup (map g (List.filter h l)).
Proof.
  induction l as [|x l IH]; simpl; [done|]. rewrite NoDup_cons. intros [Hx Hl]. destruct (h x); [|by auto].
  simpl. constructor; [|by auto]. contradict Hx. apply list_elem_of_fmap in Hx as (y & -> & Hy).
  apply list_elem_of_fmap. exists y. split; [done|]. apply list_elem_of_In in Hy. apply filter_In in Hy as [Hy _].
  by apply list_elem_of_In.
Qed.

Lemma selected_nodup f : NoDup (map r_id (selected f)).
Proof.
  unfold selected. change (NoDup (r_id <$> merge_sort newer (List.filter (where_ f) tbl))).
  rewrite merge_sort_Permutation. by apply map_filter_sub.
Qed.

Lemma selected_sorted f : StronglySorted newer (selected f).
Proof. apply StronglySorted_merge_sort; apply _. Qed.

Lemma selected_in f r : List.In r (selected f) -> List.In r tbl.
Proof.
  intros Hr. apply list_elem_of_In in Hr. unfold selected in Hr. rewrite merge_sort_Permutation in Hr.
  apply list_elem_of_In in Hr. by apply filter_In in Hr as [Hr _].
Qed.

Lemma cursor_roundtrip t id : decodeCursor (encodeCursor t id) = Some (t, id).
Proof.
  unfold decodeCursor, encodeCursor. rewrite Base64.Decode_Encode. cbn [mbind option_bind].
  change ("|" ++ id) with (String "|" id). rewrite SplitN2_app by apply Format_no_bar. simpl. by rewrite Parse_Format.
Qed.

Lemma encodeCursor_nonempty t id : encodeCursor t id <> "".
Proof. apply Base64.Encode_nonempty. destruct (FormatNano t); discriminate. Qed.

Definition cursor_of (r : row) : string := EncodeListCursor (created_at r) (r_id r).

(** Where a walk stands: [p] was returned, [q] is to come. *)
Definition stands (f : ListFilter) (p q : list row) (cursor : string) : Prop :=
  selected f = (p ++ q)%list /\ match last p with None => cursor = "" | Some x => cursor = cursor_of x end.

Lemma stands_rows f p q cursor :
  stands f p q cursor ->
  exists cond, cursor_cond uuid_ok (with_cursor cursor f) = Ok cond /\
    merge_sort newer (List.filter (fun r => where_ (with_cursor cursor f) r && cond r) tbl) = q.
Proof.
  intros [Hsel Hcur]. unfold cursor_cond. cbn [f_Cursor with_cursor].
  destruct (last p) as [x|] eqn:Hl.
  - apply last_Some in Hl as [p' ->]. subst cursor. unfold cursor_of, EncodeListCursor.
    rewrite (proj2 (String.eqb_neq _ _) (encodeCursor_nonempty _ _)). rewrite cursor_roundtrip.
    assert (List.In x tbl) as Hx by (apply (selected_in f); rewrite Hsel; apply in_or_app; left; apply in_or_app; right; by left).
    rewrite Forall_forall in tbl_uuids. rewrite tbl_uuids by (by apply list_elem_of_In). eexists. split; [done|].
    rewrite <- app_assoc in Hsel. simpl in Hsel.
    pose proof (selected_sorted f) as Hs. pose proof (selected_nodup f) as Hn. rewrite Hsel in Hs, Hn.
    pose proof (after_split _ _ _ Hs Hn) as Hq.
    apply (StronglySorted_unique_strong newer).
    + intros a b Ha Hb H1 H2. rewrite merge_sort_Permutation in Ha. apply list_elem_of_In, filter_In in Ha as [Ha _].
      assert (List.In b tbl) as Hb' by (apply (selected_in f); rewrite Hsel; apply in_or_app; right; right; by apply list_elem_of_In).
      pose proof (newer_same _ _ H1 H2) as E. clear -tbl_ids Ha Hb' E.
      induction tbl as [|z l IH]; [done|]. simpl in tbl_ids. apply NoDup_cons in tbl_ids as [Hz Hn].
      destruct Ha as [->|Ha], Hb' as [->|Hb']; [done| | |by apply IH];
        destruct Hz; [rewrite E|rewrite <- E]; apply list_elem_of_In; by apply in_map.
    + apply StronglySorted_merge_sort; apply _.
    + clear -Hs. induction p' as [|z p IH]; [by apply StronglySorted_inv in Hs as [? _]|]. apply StronglySorted_inv in Hs as [Hs _]. auto.
    + rewrite merge_sort_Permutation. rewrite <- Hq, <- Hsel. unfold selected.
      rewrite (filter_perm _ _ _ (merge_sort_Permutation newer _)). clear.
      induction tbl as [|z l IH]; [done|]. simpl. change (where_ (with_cursor ?c f) z) with (where_ f z).
      destruct (where_ f z); simpl; [|done]. destruct (after_cursor _ _ z); [by constructor|done].
  - apply last_None in Hl as ->. subst cursor. eexists. split; [done|]. simpl in Hsel. rewrite <- Hsel. unfold selected. f_equal.
    apply filter_ext. intros r. by rewrite andb_true_r.
Qed.

Lemma limit_pos f : (1 <= limit_of f <= 100)%Z.
Proof. unfold limit_of. destruct ((f_Limit f <=? 0)%Z || (100 <? f_Limit f)%Z) eqn:E; bprop; lia. Qed.

(** One page from there. *)
Lemma List_at f p q cursor :
  stands f p q cursor ->
  let n := Z.to_nat (limit_of f) in
  if Nat.leb (length q) n
  then List uuid_ok true (with_cursor cursor f) tbl = Ok (MkResult (map scan q) "")
  else exists x, last (take n q) = Some x /\
    List uuid_ok true (with_cursor cursor f) tbl = Ok (MkResult (map scan (take n q)) (cursor_of x)).
Proof.
  intros Hst n. destruct (stands_rows _ _ _ _ Hst) as (cond & Hc & Hrows). unfold List. cbn [negb]. rewrite Hc, Hrows.
  change (limit_of (with_cursor cursor f)) with (limit_of f). pose proof (limit_pos f) as Hlim.
  replace (Z.to_nat (limit_of f + 1)) with (S n) by lia. rewrite length_map, length_take.
  destruct (Nat.leb_spec (length q) n) as [Hle|Hgt].
  - rewrite (proj2 (Z.ltb_ge _ _)) by lia. by rewrite take_ge by lia.
  - rewrite (proj2 (Z.ltb_lt _ _)) by lia. fold n.
    change (take n (map scan (take (S n) q))) with (take n (scan <$> take (S n) q)).
    rewrite <- fmap_take, take_take, Nat.min_l by lia.
    destruct (last (take n q)) as [x|] eqn:El.
    + exists x. split; [done|]. rewrite fmap_last, El. done.
    + apply last_None in El. apply (f_equal length) in El. rewrite length_take in El. simpl in El. lia.
Qed.

Lemma walk_at fuel : forall f p q cursor,
  stands f p q cursor -> length q < fuel ->
  exists pages, walk uuid_ok fuel (with_cursor cursor f) tbl = Some pages /\
    concat pages = map scan q /\ Forall (fun pg => length pg <= Z.to_nat (limit_of f)) pages /\
    length pages <= S (length q / Z.to_nat (limit_of f)).
Proof.
  induction fuel as [|fuel IH]; intros f p q cursor Hst Hlen; [lia|]. pose proof (limit_pos f) as Hlim.
  assert (Z.to_nat (limit_of f) <> 0) as Hn0 by lia. clear Hlim.
  pose proof (List_at _ _ _ _ Hst) as Hpage. cbn zeta in Hpage. cbn [walk]. set (n := Z.to_nat (limit_of f)) in *.
  destruct (Nat.leb_spec (length q) n) as [Hle|Hgt].
  - rewrite Hpage. simpl. eexists. split; [done|]. simpl. rewrite app_nil_r. repeat split; [|lia].
    constructor; [|constructor]. by rewrite length_map.
  - destruct Hpage as (x & Hx & ->). cbn [NextCursor Events].
    rewrite (proj2 (String.eqb_neq (cursor_of x) _) (encodeCursor_nonempty _ _)).
    change (with_cursor (cursor_of x) (with_cursor cursor f)) with (with_cursor (cursor_of x) f).
    destruct Hst as [Hsel Hcur].
    assert (stands f (p ++ take n q) (drop n q) (cursor_of x)) as Hst'.
    { split; [by rewrite <- app_assoc, take_drop|]. apply last_Some in Hx as [l' ->]. by rewrite app_assoc, last_snoc. }
    destruct (IH _ _ _ _ Hst') as (pages & -> & Hcat & Hall & Hnum); [rewrite length_drop; lia|].
    simpl. eexists. split; [done|]. repeat split.
    + simpl. rewrite Hcat. rewrite <- (take_drop n q) at 3. by rewrite map_app.
    + constructor; [|done]. rewrite length_map, length_take. lia.
    + simpl. rewrite length_drop in Hnum. fold n in Hnum. assert (length q / n = (length q - n) / n + 1) as ->.
      { rewrite <- Nat.div_add by done. f_equal. lia. }
      revert Hnum. generalize ((length q - n) / n). lia.
Qed.

(** What a filter asks for: each text that is set equals the row's, and the
    row's time lies in the interval.  The filter's service and request ID are not
    part of it, although the query parameters are documented. *)
Definition asks (want have : string) : Prop := want <> "" -> have = want.
Definition selects (f : ListFilter) (r : row) : Prop :=
  asks (f_ScopeType f) (scope_type r) /\ asks (f_ScopeID f) (scope_id r) /\ asks (f_Actor f) (actor r) /\
  asks (f_Action f) (action r) /\ asks (f_TargetType f) (target_type r) /\ asks (f_TargetID f) (target_id r) /\
  (forall t, f_Since f = Some t -> t <= created_at r)%Z /\ (forall t, f_Until f = Some t -> created_at r <= t)%Z.

(** The same filter with another service and request ID. *)
Definition with_service (svc req : string) (f : ListFilter) : ListFilter :=
  MkFilter (f_ScopeType f) (f_ScopeID f) svc (f_Actor f) (f_Action f) (f_TargetType f) (f_TargetID f)
    req (f_Since f) (f_Until f) (f_Cursor f) (f_Limit f).

(** Later first, and the greater ID first among rows of one instant. *)
Definition listed_before (a b : row) : Prop :=
  (created_at b < created_at a)%Z \/ (created_at a = created_at b /\ String_as_OT.lt (r_id b) (r_id a)).

Lemma eq_cond_asks want get r : eq_cond want get r = true <-> asks want (get r).
Proof.
  unfold eq_cond, asks. rewrite orb_true_iff, !String.eqb_eq. destruct (decide (want = "")); naive_solver.
Qed.

Lemma where_selects f r : where_ f r = true <-> selects f r.
Proof.
  unfold where_, selects. rewrite !andb_true_iff, !eq_cond_asks.
  assert (match f_Since f with None => true | Some s => (s <=? created_at r)%Z end = true <->
          forall t, f_Since f = Some t -> (t <= created_at r)%Z) as ->
    by (destruct (f_Since f); rewrite ?Z.leb_le; naive_solver).
  assert (match f_Until f with None => true | Some u => (created_at r <=? u)%Z end = true <->
          forall t, f_Until f = Some t -> (created_at r <= t)%Z) as ->
    by (destruct (f_Until f); rewrite ?Z.leb_le; naive_solver).
  tauto.
Qed.

Lemma selected_exact f r : List.In r (selected f) <-> List.In r tbl /\ selects f r.
Proof.
  rewrite <- where_selects, <- filter_In, <- !list_elem_of_In. unfold selected. by rewrite merge_sort_Permutation.
Qed.

Lemma newer_strict l : StronglySorted newer l -> NoDup (map r_id l) -> StronglySorted listed_before l.
Proof.
  induction 1 as [|x l Hl IH Hx]; intros Hn; constructor; simpl in Hn; apply NoDup_cons in Hn as [Hnx Hn]; [by apply IH|].
  rewrite Forall_forall in Hx |- *. intros y Hy. specialize (Hx y Hy). apply newer_lt in Hx as [[?|[? ?]]|[_ He]].
  - by left.
  - by right.
  - destruct Hnx. rewrite He. apply list_elem_of_fmap. by exists y.
Qed.

Lemma walk_service svc req n c f : walk uuid_ok n (with_cursor c (with_service svc req f)) tbl = walk uuid_ok n (with_cursor c f) tbl.
Proof.
  revert c; induction n as [|n IH]; intros c; [done|]. cbn [walk].
  change (List uuid_ok true (with_cursor c (with_service svc req f)) tbl) with (List uuid_ok true (with_cursor c f) tbl).
  destruct (List uuid_ok true (with_cursor c f) tbl) as [res|]; [|done]. destruct (NextCursor res ==s ""); [done|].
  change (with_cursor (NextCursor res) (with_cursor c (with_service svc req f))) with (with_cursor (NextCursor res) (with_service svc req f)).
  change (with_cursor (NextCursor res) (with_cursor c f)) with (with_cursor (NextCursor res) f). by rewrite IH.
Qed.

(** C13. Paging is exact: a client that starts without a cursor and follows
    [NextCursor] gets every row that its filter selects by scope, actor, action,
    target and time, exactly once, later rows first (by ID within an instant), in
    pages of at most the limit (50 when it is not between 1 and 100), and stops
    after at most 1 + n/limit requests.  The filter's service and request ID have
    no influence. *)
Theorem paging_exact f :
  exists rows pages, (forall r, List.In r rows <-> List.In r tbl /\ selects f r) /\
    NoDup (map r_id rows) /\ StronglySorted listed_before rows /\
    let limit := Z.to_nat (if decide (1 <= f_Limit f <= 100)%Z then f_Limit f else 50%Z) in
    walk uuid_ok (S (length rows)) (with_cursor "" f) tbl = Some pages /\
    concat pages = map scan rows /\
    Forall (fun pg => length pg <= limit) pages /\
    length pages <= S (length rows / limit) /\
    forall svc req, walk uuid_ok (S (length rows)) (with_cursor "" (with_service svc req f)) tbl = Some pages.
Proof.
  destruct (walk_at (S (length (selected f))) f [] (selected f) "") as (pages & Hw & Hc & Hf & Hn); [done|lia|].
  exists (selected f), pages. split; [apply selected_exact|]. split; [apply selected_nodup|].
  split; [apply newer_strict; [apply selected_sorted|apply selected_nodup]|].
  assert (limit_of f = (if decide (1 <= f_Limit f <= 100)%Z then f_Limit f else 50%Z)) as <-.
  { unfold limit_of. destruct (_ || _) eqn:E; bprop; case_decide; lia. }
  split_and!; try done. intros svc req. by rewrite walk_service.
Qed.

End Paging.

(** ** Witnesses *)

(** A concrete [TimeText]: sign and binary digits. *)
Fixpoint bits (p : positive) : string :=
  match p with xH => "" | xO q => String "0" (bits q) | xI q => String "1" (bits q) end.
Fixpoint unbits (s : string) : option positive :=
  match s with
  | "" => Some xH
  | String c s' => q ← unbits s'; if Ascii.eqb c "0" then Some (xO q) else if Ascii.eqb c "1" then Some (xI q) else None
  end.

Lemma unbits_bits p : unbits (bits p) = Some p.
Proof. induction p as [p IH|p IH|]; simpl; [by rewrite IH|by rewrite IH|done]. Qed.

Lemma bits_no_bar p : all_bytes (fun c => negb (Ascii.eqb c "|")) (bits p) = true.
Proof. induction p; simpl; auto. Qed.

Definition binary_time : TimeText.
Proof.
  refine {| FormatNano := fun t => match t with Z0 => "Z" | Zpos p => String "P" (bits p) | Zneg p => String "N" (bits p) end;
            ParseNano := fun s => match s with
              | String c s' => if Ascii.eqb c "P" then Zpos <$> unbits s' else if Ascii.eqb c "N" then Zneg <$> unbits s'
                               else if Ascii.eqb c "Z" then Some Z0 else None
              | "" => None end |}.
  - intros [|p|p]; [done|simpl; by rewrite unbits_bits|simpl; by rewrite unbits_bits].
  - intros [|p|p]; [done|apply bits_no_bar|apply bits_no_bar].
Defined.

Definition demo_row (id : string) (t : Z) : row := MkRow id "ann" "update" "user" "7" "tenant" "t1" None None None t.
Definition demo_rows : list row := [demo_row "a" 5; demo_row "b" 9; demo_row "c" 5; demo_row "d" 1].
Definition demo_filter : ListFilter := MkFilter "tenant" "" "" "ann" "" "" "" "" (Some 2%Z) None "" 2.

Example demo_walk :
  (fun pages => map ID (concat pages)) <$> walk (H := binary_time) (fun _ => true) 4 demo_filter demo_rows = Some ["b"; "c"; "a"].
Proof. vm_compute. reflexivity. Qed.

Lemma paging_exact_witness :
  exists rows pages, (forall r, List.In r rows <-> List.In r demo_rows /\ selects demo_filter r) /\
    walk (H := binary_time) (fun _ => true) (S (length rows)) demo_filter demo_rows = Some pages /\
    concat pages = map scan rows.
Proof.
  destruct (paging_exact (H := binary_time) (fun _ => true) demo_rows) with (f := demo_filter)
    as (rows & pages & Hin & _ & _ & Hw & Hc & _).
  - apply (bool_decide_unpack _). vm_compute. exact I.
  - repeat constructor.
  - exists rows, pages. split; [exact Hin|]. split; [exact Hw|exact Hc].
Defined.
