(* ===== verification/Transport.v ===== *)
(** * Audit transports (src/audit/grpc_transport.go, http_transport.go)

    Each [Send] is a function of the events to its calls and its error.  The
    remote endpoints are arguments: what they answer to a request.  A nil
    pointer in the slice of events is [None]. *)
From S2P Require Import Prelude GoStrings AuditEvent Outbox.
Local Open Scope string_scope.

(** auditv1.AuditEvent; the timestamp is unset for a zero time. *)
Record AuditEvent := MkAuditEvent { base : Event; Timestamp : option Z }.

Definition EventToProto (e : Event) : AuditEvent :=
  MkAuditEvent (with_identity (ID e) 0 e) (if IsZero (CreatedAt e) then None else Some (CreatedAt e)).

Definition EventsToProto (events : list (option Event)) : list AuditEvent :=
  flat_map (fun o => match o with None => [] | Some e => [EventToProto e] end) events.

Inductive SendErr := RPCFailed (code : Z) | MarshalFailed | RequestFailed | UnexpectedStatus (status : Z).

(** The gRPC clients: [None] is a transport without a connection. *)
Module GRPCTransport.
Definition Send (client : option (list AuditEvent -> option Z)) (events : list (option Event))
  : result SendErr unit * list (list AuditEvent) :=
  match client, events with
  | None, _ | _, [] => (Ok tt, [])
  | Some call, _ =>
      let req := EventsToProto events in
      (match call req with Some code => Err (RPCFailed code) | None => Ok tt end, [req])
  end.
End GRPCTransport.

Module GRPCSingleTransport.
(** One turn of the loop: the first error is kept, the call made anyway. *)
Definition step (call : AuditEvent -> option Z) (acc : result SendErr unit * list AuditEvent) (o : option Event)
  : result SendErr unit * list AuditEvent :=
  let '(firstErr, calls) := acc in
  match o with
  | None => acc
  | Some e =>
      let req := EventToProto e in
      (match firstErr, call req with Ok _, Some code => Err (RPCFailed code) | r, _ => r end, calls ++ [req])%list
  end.

Definition Send (client : option (AuditEvent -> option Z)) (events : list (option Event))
  : result SendErr unit * list AuditEvent :=
  match client, events with
  | None, _ | _, [] => (Ok tt, [])
  | Some call, _ =>
      fold_left (step call) events (Ok tt, [])
  end.
End GRPCSingleTransport.

(** The HTTP client; [do] answers a POST with a status or fails. *)
Module HTTPTransport.
Definition NewHTTPTransport (baseURL : string) : string := TrimRightByte "/" (TrimSpace baseURL) ++ "/ingest".

Definition Send (marshal : list (option Event) -> option string) (do_ : string -> string -> option Z) (ingestURL : string)
    (events : list (option Event)) : result SendErr unit :=
  match events with
  | [] => Ok tt
  | _ =>
      match marshal events with
      | None => Err MarshalFailed
      | Some body =>
          match do_ ingestURL body with
          | None => Err RequestFailed
          | Some status => if (status =? 200)%Z || (status =? 202)%Z then Ok tt else Err (UnexpectedStatus status)
          end
      end
  end.
End HTTPTransport.

(** The single-event client reports success only when every call succeeded,
    and makes one call per event whatever fails. *)
Lemma single_send_exact (call : AuditEvent -> option Z) events :
  let '(res, calls) := GRPCSingleTransport.Send (Some call) events in
  calls = EventsToProto events /\ (is_ok res = true <-> Forall (fun r => call r = None) calls).
Proof.
  unfold GRPCSingleTransport.Send. destruct events as [|o0 l0]; [by split; [|split; [constructor|]]|].
  generalize (o0 :: l0). clear o0 l0. intros l.
  enough (forall l (acc : result SendErr unit * list AuditEvent),
    (is_ok (fst acc) = true <-> Forall (fun r => call r = None) (snd acc)) ->
    let '(res, calls) := fold_left (GRPCSingleTransport.step call) l acc in
    calls = (snd acc ++ EventsToProto l)%list /\ (is_ok res = true <-> Forall (fun r => call r = None) calls)) as Hg.
  { specialize (Hg l (Ok tt, [])). apply Hg. by split; [constructor|]. }
  clear l. induction l as [|[e|] l IH]; intros [r calls] Hacc; cbn [fold_left].
  - cbn. by rewrite app_nil_r.
  - specialize (IH (GRPCSingleTransport.step call (r, calls) (Some e))). cbn in IH, Hacc.
    destruct (fold_left (GRPCSingleTransport.step call) l _) as [res calls']. rewrite <- app_assoc in IH. apply IH.
    rewrite Forall_app, Forall_singleton, <- Hacc. destruct r as [[]|]; cbn; [|by split; [|intros [? _]]].
    destruct (call (EventToProto e)); cbn; split; [done|by intros [_ ?]|done|done].
  - apply (IH (r, calls)). exact Hacc.
Qed.

(** A gRPC transport without a connection reports success without sending
    anything, so a relay that uses it removes rows that nobody received. *)
Theorem unconnected_transport_discards :
  let send e := is_ok (fst (GRPCTransport.Send None [Some e])) in
  snd (GRPCTransport.Send None [Some (demo_event "e" 1000)]) = [] /\
  snd (DeliverOne demo_unmarshal "svc" 0 any_row 10 20 NoFault NoFault (Some send) demo_tbl) !! "a" = None.
Proof. split; reflexivity. Qed.
