(* ===== verification/JsonRedact.v ===== *)
(** * JSON redaction (src/jsonredact)

    redact.go on the values [json.Unmarshal] produces.  A Go map is the list of
    its entries; the traversals only look entries up and overwrite values, so
    the iteration order does not matter.  Each operation returns the mutated
    value and Go's boolean.  Decoding and encoding of JSON text are arguments.
    text.go is in [TextRedact]. *)
From S2P Require Import Prelude GoStrings Secret.
Local Open Scope string_scope.

Inductive json :=
| JNull | JBool (b : bool) | JNumber (literal : string) | JString (s : string)
| JArray (l : list json) | JObject (m : list (string * json)).

Definition DefaultMask : string := "[REDACTED]".

(** Apply [f] to the values of a map or slice and tell whether one matched. *)
Definition each {A} (f : A -> A * bool) (l : list A) : list A * bool :=
  (map (fun x => fst (f x)) l, existsb (fun x => snd (f x)) l).

Fixpoint RedactPath (data : json) (path : list string) (mask : string) : json * bool :=
  match path with
  | [] => (data, false)
  | key :: rest =>
      match data with
      | JObject m =>
          let upd (hit : string -> bool) (f : json -> json * bool) :=
            each (fun e => if hit (fst e) then let '(v, b) := f (snd e) in ((fst e, v), b) else (e, false)) m in
          match rest with
          | [] => let '(m', b) := upd (fun k => k ==s key) (fun _ => (JString mask, true)) in (JObject m', b)
          | _ =>
              let '(m', b) := upd (fun k => (key ==s "*") || (k ==s key)) (fun v => RedactPath v rest mask) in
              (JObject m', b)
          end
      | JArray l =>
          let nextPath := if key ==s "*" then rest else path in
          let '(l', b) := each (fun v => RedactPath v nextPath mask) l in (JArray l', b)
      | _ => (data, false)
      end
  end.

(** The walk that [redactKeysWalk] and [RedactSensitiveKeys] share, with the test on keys. *)
Fixpoint redact_walk (hit : string -> bool) (mask : string) (data : json) : json * bool :=
  match data with
  | JObject m =>
      let '(m', b) :=
        each (fun e => if hit (fst e) then ((fst e, JString mask), true)
                       else let '(v, b) := redact_walk hit mask (snd e) in ((fst e, v), b)) m in
      (JObject m', b)
  | JArray l => let '(l', b) := each (redact_walk hit mask) l in (JArray l', b)
  | _ => (data, false)
  end.

(** [strings.ToLower] on configured and inbound keys, which may hold any letters. *)
Class Lowering := lower : string -> string.

Section Keys.
Context {low : Lowering}.

Definition in_lookup (keys : list string) (k : string) : bool := existsb (String.eqb (lower k)) (map lower keys).

Definition redactKeysWalk (data : json) (keys : list string) (mask : string) : json * bool :=
  redact_walk (in_lookup keys) mask data.
Definition RedactKeys (data : json) (keys : list string) (mask : string) : json * bool :=
  match keys with [] => (data, false) | _ => redactKeysWalk data keys mask end.
Definition RedactSensitiveKeys (data : json) (mask : string) : json * bool :=
  redact_walk LogUtil.IsSensitiveKey mask data.

Definition RedactQueryMap (query : list (string * string)) (mask : string) (extraKeys : list string)
  : list (string * string) :=
  map (fun e => if LogUtil.IsSensitiveKey (fst e) then (fst e, mask)
                else if in_lookup extraKeys (fst e) then (fst e, mask) else e) query.

Record Config := MkConfig { PathFields : list string; SensitiveKeys : list string; Mask : string }.

Section Codec.
Variable Unmarshal : string -> option json.
Variable Marshal : json -> option string.

Inductive RedactErr := BadJSON | EncodeFailed.

Definition mask_of (cfg : Config) : string := if Mask cfg ==s "" then DefaultMask else Mask cfg.

(** The mutations between decoding and encoding. *)
Definition redact_all (cfg : Config) (data : json) : json :=
  let data := fold_left (fun d p => fst (RedactPath d p (mask_of cfg))) (map (Split ".") (PathFields cfg)) data in
  match SensitiveKeys cfg with
  | [] => fst (RedactSensitiveKeys data (mask_of cfg))
  | keys => fst (RedactKeys data keys (mask_of cfg))
  end.

(** The result is nil for empty input. *)
Definition ParseAndRedactJSON (raw : string) (cfg : Config) : result RedactErr string :=
  if raw ==s "" then Ok ""
  else match Unmarshal raw with
       | None => Err BadJSON
       | Some data => match Marshal (redact_all cfg data) with Some out => Ok out | None => Err EncodeFailed end
       end.
End Codec.
End Keys.

(** ** What the fields of a value are *)

(** All entries of all maps, at any depth. *)
Fixpoint fields (d : json) : list (string * json) :=
  match d with
  | JObject m => m ++ flat_map (fun e => fields (snd e)) m
  | JArray l => flat_map fields l
  | _ => []
  end.

(** The terminal fields a path denotes. *)
Fixpoint select (d : json) (path : list string) : list json :=
  match path with
  | [] => []
  | key :: rest =>
      match d with
      | JObject m =>
          match rest with
          | [] => map snd (List.filter (fun e => fst e ==s key) m)
          | _ => flat_map (fun e => if (key ==s "*") || (fst e ==s key) then select (snd e) rest else []) m
          end
      | JArray l => flat_map (fun v => select v (if key ==s "*" then rest else path)) l
      | _ => []
      end
  end.

(** [masks mask d d']: [d'] is [d] with some fields' values replaced by the mask. *)
Inductive masks (mask : string) : json -> json -> Prop :=
| masks_refl d : masks mask d d
| masks_array l l' : Forall2 (masks mask) l l' -> masks mask (JArray l) (JArray l')
| masks_object m m' :
    Forall2 (fun e e' => fst e = fst e' /\ (snd e' = JString mask \/ masks mask (snd e) (snd e'))) m m' ->
    masks mask (JObject m) (JObject m').

(** Induction through arrays and maps. *)
Section JsonInd.
Variable P : json -> Prop.
Hypothesis Hnull : P JNull.
Hypothesis Hbool : forall b, P (JBool b).
Hypothesis Hnumber : forall s, P (JNumber s).
Hypothesis Hstring : forall s, P (JString s).
Hypothesis Harray : forall l, Forall P l -> P (JArray l).
Hypothesis Hobject : forall m, Forall (fun e => P (snd e)) m -> P (JObject m).
Fixpoint json_ind' (d : json) : P d :=
  match d with
  | JNull => Hnull | JBool b => Hbool b | JNumber s => Hnumber s | JString s => Hstring s
  | JArray l => Harray l
      ((fix go (l : list json) : Forall P l :=
          match l with [] => Forall_nil_2 _ | x :: l' => Forall_cons_2 _ x l' (json_ind' x) (go l') end) l)
  | JObject m => Hobject m
      ((fix go (m : list (string * json)) : Forall (fun e => P (snd e)) m :=
          match m with [] => Forall_nil_2 _ | x :: m' => Forall_cons_2 _ x m' (json_ind' (snd x)) (go m') end) m)
  end.
End JsonInd.

(** ** Lemmas *)

Lemma Forall2_map_r {A B} (R : A -> B -> Prop) (f : A -> B) l : Forall (fun x => R x (f x)) l -> Forall2 R l (map f l).
Proof. induction 1; simpl; constructor; auto. Qed.

Lemma Forall2_elem_of_r {A B} (R : A -> B -> Prop) l l' y : Forall2 R l l' -> y ∈ l' -> exists x, x ∈ l /\ R x y.
Proof.
  induction 1 as [|x z l l' Hx _ IH]; [by intros ?%not_elem_of_nil|].
  intros [->|Hy]%elem_of_cons; [exists x; split; [left|done]|]. destruct (IH Hy) as (w & ? & ?). exists w. split; [by right|done].
Qed.

Lemma walk_masks hit mask d : masks mask d (fst (redact_walk hit mask d)).
Proof.
  induction d as [|b|s|s|l IH|m IH] using json_ind'; simpl; try constructor.
  - by apply Forall2_map_r.
  - apply Forall2_map_r. eapply Forall_impl; [exact IH|]. intros [k v] Hv. simpl in *.
    destruct (hit k); [by auto|]. destruct (redact_walk hit mask v). simpl in *. auto.
Qed.

Lemma path_masks mask d : forall p, masks mask d (fst (RedactPath d p mask)).
Proof.
  induction d as [|b|s|s|l IH|m IH] using json_ind'; intros [|key rest]; try (apply masks_refl).
  - simpl. constructor. apply Forall2_map_r. eapply Forall_impl; [exact IH|]. auto.
  - simpl. destruct rest as [|k2 rest]; constructor; apply Forall2_map_r; eapply Forall_impl; try exact IH;
      intros [k v] Hv; simpl in *; case_match; simpl; auto using masks_refl.
    specialize (Hv (k2 :: rest)). destruct (RedactPath v (k2 :: rest) mask). simpl in *. auto.
Qed.

Lemma walk_fields hit mask d k v :
  In (k, v) (fields (fst (redact_walk hit mask d))) -> hit k = true -> v = JString mask.
Proof.
  intros Hin Hk. revert Hin. induction d as [|b|s|s|l IH|m IH] using json_ind'; simpl; try done.
  - rewrite in_flat_map. intros (x & Hx & Hv). apply in_map_iff in Hx as (y & <- & Hy).
    rewrite Forall_forall in IH. apply (IH y); [by apply list_elem_of_In|done].
  - rewrite in_app_iff, in_flat_map. rewrite Forall_forall in IH.
    intros [Hx|(x & Hx & Hv)]; apply in_map_iff in Hx as ([k' v'] & E & Hy); simpl in E; destruct (hit k') eqn:Hh.
    + by injection E as <- <-.
    + destruct (redact_walk hit mask v') as [w b]. simpl in E. injection E as <- <-. congruence.
    + simpl in E. subst x. simpl in Hv. done.
    + apply (IH (k', v')); [by apply list_elem_of_In|]. simpl. destruct (redact_walk hit mask v') as [w b]. by simplify_eq/=.
Qed.

Lemma select_string s p : select (JString s) p = [].
Proof. by destruct p. Qed.

Lemma masks_string mask s d : masks mask (JString s) d -> d = JString s.
Proof. by inversion 1. Qed.

(** Masking more never unmasks what a path denotes. *)
Lemma masks_select mask d : forall d' p,
  masks mask d d' -> (forall v, In v (select d p) -> v = JString mask) ->
  forall v, In v (select d' p) -> v = JString mask.
Proof.
  induction d as [|b|s|s|l IH|m IH] using json_ind'; intros d' p Hm Hs v Hv;
    (inversion Hm as [|l1 l' Hl|m1 m' Hl]; subst; [by apply Hs|..]).
  - destruct p as [|key rest]; [done|]. simpl in *. apply in_flat_map in Hv as (x' & Hx' & Hv).
    apply list_elem_of_In in Hx'. destruct (Forall2_elem_of_r _ _ _ _ Hl Hx') as (x & Hx & Hxx).
    rewrite Forall_forall in IH. eapply (IH x Hx x'); [done| |exact Hv].
    intros w Hw. apply Hs. apply in_flat_map. exists x. split; [by apply list_elem_of_In|done].
  - destruct p as [|key rest]; [done|]. rewrite Forall_forall in IH. destruct rest as [|k2 rest].
    + simpl in *. apply in_map_iff in Hv as ([k' v'] & <- & Hv). apply filter_In in Hv as [Hv Hk].
      apply list_elem_of_In in Hv. destruct (Forall2_elem_of_r _ _ _ _ Hl Hv) as ([k0 v0] & H0 & E & Hor). simpl in *.
      subst k0. destruct Hor as [?|Hor]; [done|].
      assert (v0 = JString mask) as ->; [|by apply masks_string in Hor].
      apply Hs. apply in_map_iff. exists (k', v0). split; [done|]. apply filter_In. split; [by apply list_elem_of_In|done].
    + cbn [select] in *. apply in_flat_map in Hv as ([k' v'] & Hv' & Hv).
      apply list_elem_of_In in Hv'. destruct (Forall2_elem_of_r _ _ _ _ Hl Hv') as ([k0 v0] & H0 & E & Hor). simpl fst in *; simpl snd in *.
      subst k0. destruct ((key ==s "*") || (k' ==s key)) eqn:Hk; [|done].
      destruct Hor as [->|Hor]; [by rewrite select_string in Hv|].
      eapply (IH _ H0 v'); [done| |exact Hv]. intros w Hw. apply Hs. apply in_flat_map. exists (k', v0).
      split; [by apply list_elem_of_In|]. simpl. by rewrite Hk.
Qed.

(** [RedactPath] masks all that its path denotes. *)
Lemma path_select mask d : forall p v, In v (select (fst (RedactPath d p mask)) p) -> v = JString mask.
Proof.
  induction d as [|b|s|s|l IH|m IH] using json_ind'; intros [|key rest] v; try done.
  - simpl. rewrite flat_map_concat_map, map_map, <- flat_map_concat_map. rewrite in_flat_map. intros (x & Hx & Hv).
    rewrite Forall_forall in IH. eapply (IH x); [by apply list_elem_of_In|exact Hv].
  - rewrite Forall_forall in IH. destruct rest as [|k2 rest].
    + simpl. rewrite in_map_iff. intros ([k' v'] & <- & Hv). apply filter_In in Hv as [Hv Hk].
      apply in_map_iff in Hv as ([k0 v0] & E & _). simpl in *. destruct (k0 ==s key) eqn:E0; simpl in E; simplify_eq/=; congruence.
    + cbn [RedactPath select each fst]. rewrite in_flat_map. intros ([k' v'] & Hx & Hv).
      apply in_map_iff in Hx as ([k0 v0] & E & Hin). cbn [fst snd] in *.
      destruct ((key ==s "*") || (k0 ==s key)) eqn:E0.
      * pose proof (IH (k0, v0) ltac:(by apply list_elem_of_In) (k2 :: rest) v) as IHv. cbn [snd] in IHv.
        destruct (RedactPath v0 (k2 :: rest) mask) as [w b]. cbn in E. injection E as <- <-.
        rewrite E0 in Hv. by apply IHv.
      * cbn in E. injection E as <- <-. by rewrite E0 in Hv.
Qed.

Lemma masks_trans mask d1 : forall d2 d3, masks mask d1 d2 -> masks mask d2 d3 -> masks mask d1 d3.
Proof.
  induction d1 as [|b|s|s|l IH|m IH] using json_ind'; intros d2 d3 H1 H2;
    (inversion H1 as [|l1 l' Hl|m1 m' Hl]; subst; [done|..]).
  - inversion H2 as [|l2 l'' Hl2|]; subst; [done|]. constructor. clear H1 H2. revert l'' Hl2.
    induction Hl as [|x y l l' Hxy Hl IHl]; intros l'' Hl2; inversion Hl2; subst; constructor;
      apply Forall_cons in IH as [IHx IH]; eauto.
  - inversion H2 as [| |m2 m'' Hl2]; subst; [done|]. constructor. clear H1 H2. revert m'' Hl2.
    induction Hl as [|x y l l' [Hk Hv] Hl IHl]; intros l'' Hl2; inversion Hl2 as [|? z ? ? [Hk2 Hv2]]; subst; constructor;
      apply Forall_cons in IH as [IHx IH]; eauto.
    split; [congruence|]. destruct Hv2 as [?|Hv2]; [by left|]. destruct Hv as [Hv|Hv]; [|right; eauto].
    left. rewrite Hv in Hv2. by apply masks_string in Hv2.
Qed.

Lemma paths_all mask (ps : list (list string)) : forall d,
  let d' := fold_left (fun d p => fst (RedactPath d p mask)) ps d in
  masks mask d d' /\ forall p v, In p ps -> In v (select d' p) -> v = JString mask.
Proof.
  induction ps as [|p ps IH]; intros d; simpl; [split; [constructor|done]|].
  destruct (IH (fst (RedactPath d p mask))) as [Hm Hp]. split; [eapply masks_trans; [apply path_masks|exact Hm]|].
  intros q v [<-|Hq]; [|by apply Hp]. apply (masks_select _ _ _ _ Hm), path_select.
Qed.

(** The keys a configuration redacts: its own list, or the built-in patterns. *)
Definition redacted_key {low : Lowering} (cfg : Config) (k : string) : bool :=
  match SensitiveKeys cfg with [] => LogUtil.IsSensitiveKey k | keys => in_lookup keys k end.

(** C10. What [ParseAndRedactJSON] lets out: the output is the encoding of the
    input document with nothing but field values replaced, by the mask; every
    field denoted by a configured path and, at any depth, every field with a
    redacted key holds the mask. *)
Theorem ParseAndRedactJSON_sound {low : Lowering} Unmarshal Marshal raw cfg out :
  raw <> "" -> ParseAndRedactJSON Unmarshal Marshal raw cfg = Ok out ->
  exists data data', Unmarshal raw = Some data /\ Marshal data' = Some out /\ masks (mask_of cfg) data data' /\
    (forall p v, In p (PathFields cfg) -> In v (select data' (Split "." p)) -> v = JString (mask_of cfg)) /\
    (forall k v, In (k, v) (fields data') -> redacted_key cfg k = true -> v = JString (mask_of cfg)).
Proof.
  intros Hraw. unfold ParseAndRedactJSON. rewrite (proj2 (String.eqb_neq _ _) Hraw).
  destruct (Unmarshal raw) as [data|]; [|done]. destruct (Marshal _) as [o|] eqn:Ho; intros [= <-].
  destruct (paths_all (mask_of cfg) (map (Split ".") (PathFields cfg)) data) as [Hm Hp].
  exists data, (redact_all cfg data). split; [done|]. split; [done|]. unfold redact_all, redacted_key.
  set (d1 := fold_left _ _ _) in *.
  assert (exists hit, match SensitiveKeys cfg with [] => fst (RedactSensitiveKeys d1 (mask_of cfg))
            | keys => fst (RedactKeys d1 keys (mask_of cfg)) end = fst (redact_walk hit (mask_of cfg) d1) /\
      hit = fun k => match SensitiveKeys cfg with [] => LogUtil.IsSensitiveKey k | keys => in_lookup keys k end)
    as (hit & Hd & Hhit) by (eexists; split; [|reflexivity]; by destruct (SensitiveKeys cfg)).
  destruct (SensitiveKeys cfg) as [|k0 ks]; rewrite Hd;
    (split; [eapply masks_trans; [exact Hm|apply walk_masks]|]);
    (split; [intros p v Hin; apply (masks_select _ d1); [apply walk_masks|]; intros w; apply Hp; by apply in_map|]);
    intros k v Hin Hk; apply (walk_fields _ _ _ _ _ Hin); by subst hit.
Qed.

Lemma existsb_flat {A B} (f : A -> bool) (g : A -> list B) l :
  Forall (fun x => f x = negb (bool_decide (g x = []))) l -> existsb f l = negb (bool_decide (flat_map g l = [])).
Proof.
  induction 1 as [|x l Hx _ IH]; simpl; [done|]. rewrite Hx, IH. destruct (g x); simpl; [done|].
  destruct (bool_decide_reflect (b :: (l0 ++ flat_map g l)%list = [])); [done|done].
Qed.

Lemma walk_reported hit mask d : snd (redact_walk hit mask d) = existsb (fun e => hit (fst e)) (fields d).
Proof.
  induction d as [|b|s|s|l IH|m IH] using json_ind'; simpl; try done.
  - induction IH as [|x l Hx _ IHl]; simpl; [done|]. by rewrite existsb_app, Hx, IHl.
  - rewrite existsb_app. induction IH as [|[k v] m Hv _ IHm]; simpl in *; [done|]. rewrite existsb_app.
    destruct (hit k); simpl; [done|]. destruct (redact_walk hit mask v) as [w b]. simpl in *. subst b.
    rewrite IHm. destruct (existsb (fun e => hit (fst e)) (fields v)); simpl; [by rewrite orb_true_r|done].
Qed.

Lemma path_reported mask d : forall p, snd (RedactPath d p mask) = negb (bool_decide (select d p = [])).
Proof.
  induction d as [|b|s|s|l IH|m IH] using json_ind'; intros [|key rest]; try done.
  - cbn [RedactPath select each snd]. apply existsb_flat. eapply Forall_impl; [exact IH|]. intros x Hx. apply Hx.
  - destruct rest as [|k2 rest]; cbn [RedactPath select each snd].
    + clear IH. induction m as [|[k v] m IHm]; [done|]. simpl. destruct (k ==s key); simpl; [done|exact IHm].
    + apply existsb_flat. eapply Forall_impl; [exact IH|].
      intros [k v] Hv. cbn [fst snd] in *. destruct ((key ==s "*") || (k ==s key)); [|done].
      rewrite <- Hv. by destruct (RedactPath v (k2 :: rest) mask).
Qed.

(** The results reported are exact: [RedactPath] returns true exactly when
    its path denotes a field of the document, and the key walks exactly when
    some key at some depth is to be redacted. *)
Theorem redaction_reported {low : Lowering} d mask :
  (forall p, snd (RedactPath d p mask) = negb (bool_decide (select d p = []))) /\
  (forall keys, snd (RedactKeys d keys mask) = existsb (fun e => in_lookup keys (fst e)) (fields d)) /\
  snd (RedactSensitiveKeys d mask) = existsb (fun e => LogUtil.IsSensitiveKey (fst e)) (fields d).
Proof.
  split; [apply path_reported|]. split; [|apply walk_reported].
  intros [|k0 ks]; [simpl|apply walk_reported]. induction (fields d); simpl; auto.
Qed.

(** ** Witness *)

#[local] Instance ascii_lowering : Lowering := ToLower.

Definition demo_doc : json :=
  JObject [("user", JObject [("name", JString "ann"); ("Token", JString "t0p")]);
           ("items", JArray [JObject [("card", JNumber "4111"); ("n", JNumber "1")]])].
Definition demo_cfg : Config := MkConfig ["items.card"] [] "".

Lemma ParseAndRedactJSON_sound_witness :
  ParseAndRedactJSON (fun _ => Some demo_doc) (fun _ => Some "out") "in" demo_cfg = Ok "out" /\
  redact_all demo_cfg demo_doc =
    JObject [("user", JObject [("name", JString "ann"); ("Token", JString DefaultMask)]);
             ("items", JArray [JObject [("card", JString DefaultMask); ("n", JNumber "1")]])] /\
  exists data data', Some demo_doc = Some data /\ Some "out" = Some "out" /\ masks (mask_of demo_cfg) data data' /\
    (forall p v, In p (PathFields demo_cfg) -> In v (select data' (Split "." p)) -> v = JString (mask_of demo_cfg)) /\
    (forall k v, In (k, v) (fields data') -> redacted_key demo_cfg k = true -> v = JString (mask_of demo_cfg)).
Proof.
  split; [vm_compute; reflexivity|]. split; [vm_compute; reflexivity|].
  refine (ParseAndRedactJSON_sound (fun _ => Some demo_doc) (fun _ => Some "out") "in" demo_cfg "out" _ _);
    [discriminate|vm_compute; reflexivity].
Defined.
