(* ===== verification/Regex.v ===== *)
(** * Regular expressions of Go's package regexp

    The part of package regexp that the code uses: search for the leftmost match
    with the priorities of Perl (first alternative, greedy repetition), word
    boundaries, captures, [MatchString], [ReplaceAllString] with its templates
    and [ReplaceAllStringFunc].  The matcher is a backtracking one in
    continuation-passing style; [den] is what an expression means, and the
    matcher is proved to find a match exactly where there is one.

    Expressions read bytes.  A code point outside ASCII that an expression
    names is the sequence of its bytes; a negated class of ASCII characters
    takes the bytes of any other code point one at a time, which is the same
    in an expression where such a class is repeated as often as possible. *)
From S2P Require Import Prelude GoStrings.
From Stdlib Require String.
Local Open Scope nat_scope.
#[local] Arguments Nat.ltb : simpl never.

Inductive re :=
| Empty | Class (f : ascii -> bool) | Seq (a b : re) | Alt (a b : re) | Star (r : re) | Group (i : nat) (r : re) | WordB.

Definition Plus (r : re) : re := Seq r (Star r).
Definition Opt (r : re) : re := Alt r Empty.
Definition seqs (rs : list re) : re := foldr Seq Empty rs.
Definition alts (r : re) (rs : list re) : re := fold_left Alt rs r.

(** A position: the byte before it and the text from it on. *)
Abbreviation text := (list ascii).
Abbreviation pos := (option ascii * text)%type.
Abbreviation caps := (list (nat * text)).

Definition word_byte (c : ascii) : bool := is_upper c || is_lower c || is_digit c || Ascii.eqb c "_".

Definition at_boundary (p : pos) : bool :=
  let before := match fst p with Some c => word_byte c | None => false end in
  let after := match snd p with c :: _ => word_byte c | [] => false end in
  xorb before after.

(** Greedy repetition: another turn that takes something, if the rest can then
    succeed, and otherwise no more. *)
Definition star_loop {A} (turn : pos -> caps -> (pos -> caps -> option A) -> option A) (k : pos -> caps -> option A)
  : nat -> pos -> caps -> option A :=
  fix loop n p c :=
    match n with
    | O => k p c
    | S n =>
        match turn p c (fun q c' => if Nat.ltb (length (snd q)) (length (snd p)) then loop n q c' else None) with
        | Some x => Some x
        | None => k p c
        end
    end.

(** Runs [r] at [p] and goes on with [k]; the first way in the order of
    priority in which both succeed. *)
Fixpoint bt {A} (r : re) (p : pos) (c : caps) (k : pos -> caps -> option A) : option A :=
  match r with
  | Empty => k p c
  | Class f => match snd p with x :: s => if f x then k (Some x, s) c else None | [] => None end
  | Seq a b => bt a p c (fun q c' => bt b q c' k)
  | Alt a b => match bt a p c k with Some x => Some x | None => bt b p c k end
  | Star r => star_loop (bt r) k (length (snd p)) p c
  | Group i r => bt r p c (fun q c' => k q ((i, take (length (snd p) - length (snd q)) (snd p)) :: c'))
  | WordB => if at_boundary p then k p c else None
  end.

Definition match_at (r : re) (p : pos) : option (pos * caps) := bt r p [] (fun q c => Some (q, c)).

(** The leftmost match: the text before it, its text, where it ends, and its
    groups. *)
Record found := MkFound { gap : text; matched : text; stop : pos; groups : caps }.

Fixpoint find (r : re) (before : option ascii) (s : text) : option found :=
  match match_at r (before, s) with
  | Some (q, c) => Some (MkFound [] (take (length s - length (snd q)) s) q c)
  | None =>
      match s with
      | [] => None
      | x :: s' => match find r (Some x) s' with
                   | Some f => Some (MkFound (x :: gap f) (matched f) (stop f) (groups f))
                   | None => None
                   end
      end
  end.

Definition MatchString (r : re) (s : string) : bool :=
  match find r None (String.list_ascii_of_string s) with Some _ => true | None => false end.

(** The loop of [replaceAll].  [fresh] is false right after a match, where an
    empty match is not replaced; after an empty match the search goes on one
    byte later. *)
Fixpoint replace (n : nat) (r : re) (repl : text -> caps -> text) (fresh : bool) (p : pos) : text :=
  match n with
  | O => snd p
  | S n =>
      match find r (fst p) (snd p) with
      | None => snd p
      | Some f =>
          match matched f with
          | [] =>
              gap f ++ (if fresh || negb (bool_decide (gap f = [])) then repl [] (groups f) else []) ++
              match snd (stop f) with
              | [] => []
              | x :: s => x :: replace n r repl true (Some x, s)
              end
          | m => gap f ++ repl m (groups f) ++ replace n r repl false (stop f)
          end
      end
  end.

Definition replaceAll (r : re) (repl : text -> caps -> text) (s : text) : text :=
  replace (S (length s)) r repl true (None, s).

(** *** Templates: [$1], [${1}] and [$$] *)

Definition name_byte : ascii -> bool := word_byte.

Fixpoint take_name (s : text) : text * text :=
  match s with
  | c :: s' => if name_byte c then let '(n, rest) := take_name s' in (c :: n, rest) else ([], s)
  | [] => ([], [])
  end.

(** The name and the rest of the template after [$], if it is well formed. *)
Definition extract (s : text) : option (text * text) :=
  match s with
  | "{"%char :: s' =>
      match take_name s' with
      | ([], _) => None
      | (n, "}"%char :: rest) => Some (n, rest)
      | _ => None
      end
  | _ => match take_name s with ([], _) => None | (n, rest) => Some (n, rest) end
  end.

(** The text of a group: empty for a name that is no number of a group. *)
Definition group_text (m : text) (c : caps) (name : text) : text :=
  match parse_digits (String.string_of_list_ascii name) 0 with
  | Some 0%Z => m
  | Some i => match List.find (fun g => Z.eqb (Z.of_nat (fst g)) i) c with Some g => snd g | None => [] end
  | None => []
  end.

Fixpoint expand (n : nat) (template : text) (m : text) (c : caps) : text :=
  match n with
  | O => []
  | S n =>
      match template with
      | [] => []
      | "$"%char :: t =>
          match t with
          | "$"%char :: t' => "$"%char :: expand n t' m c
          | _ => match extract t with
                 | Some (name, rest) => group_text m c name ++ expand n rest m c
                 | None => "$"%char :: expand n t m c
                 end
          end
      | x :: t => x :: expand n t m c
      end
  end.

Definition ReplaceAllString (r : re) (src repl : string) : string :=
  let t := String.list_ascii_of_string repl in
  String.string_of_list_ascii (replaceAll r (expand (length t) t) (String.list_ascii_of_string src)).

Definition ReplaceAllStringFunc (r : re) (src : string) (f : string -> string) : string :=
  String.string_of_list_ascii
    (replaceAll r (fun m _ => String.list_ascii_of_string (f (String.string_of_list_ascii m))) (String.list_ascii_of_string src)).

(** [FindStringSubmatch(s)[i]]. *)
Definition FindStringSubmatch (r : re) (s : string) (i : nat) : option string :=
  match find r None (String.list_ascii_of_string s) with
  | Some f => Some (String.string_of_list_ascii
                (match i with O => matched f | _ => default [] (snd <$> List.find (fun g => Nat.eqb (fst g) i) (groups f)) end))
  | None => None
  end.

(** *** Classes *)

Definition range (a b : ascii) (c : ascii) : bool := ((code a <=? code c) && (code c <=? code b))%N.
Definition among (cs : string) (c : ascii) : bool := existsb (Ascii.eqb c) (String.list_ascii_of_string cs).
Definition alnum (c : ascii) : bool := is_upper c || is_lower c || is_digit c.
(** [\s]. *)
Definition space (c : ascii) : bool := existsb (N.eqb (code c)) [9; 10; 12; 13; 32]%N.
Definition lit (c : ascii) : re := Class (Ascii.eqb c).
Definition word (s : string) : re := seqs (map lit (String.list_ascii_of_string s)).

(** With the flag [i] a letter matches in both cases, [k] also the Kelvin sign
    and [s] also the long s. *)
Definition kelvin : re := seqs (map (fun n => lit (ascii_of_N n)) [226; 132; 170]%N).
Definition long_s : re := seqs (map (fun n => lit (ascii_of_N n)) [197; 191]%N).
Definition fold_lit (c : ascii) : re :=
  let both := Class (fun x => Ascii.eqb (lower_byte x) (lower_byte c)) in
  if Ascii.eqb (lower_byte c) "k" then Alt both kelvin
  else if Ascii.eqb (lower_byte c) "s" then Alt both long_s
  else both.
Definition fold_word (s : string) : re := seqs (map fold_lit (String.list_ascii_of_string s)).

(** ** What an expression means *)

Inductive den : re -> pos -> pos -> Prop :=
| den_empty p : den Empty p p
| den_class f b x s : f x = true -> den (Class f) (b, x :: s) (Some x, s)
| den_seq a b p q t : den a p q -> den b q t -> den (Seq a b) p t
| den_alt_l a b p q : den a p q -> den (Alt a b) p q
| den_alt_r a b p q : den b p q -> den (Alt a b) p q
| den_star_0 r p : den (Star r) p p
| den_star_1 r p q t :
    den r p q -> length (snd q) < length (snd p) -> den (Star r) q t -> den (Star r) p t
| den_group i r p q : den r p q -> den (Group i r) p q
| den_wordb p : at_boundary p = true -> den WordB p p.

Create HintDb regex.
#[export] Hint Constructors den : regex.

(** [den] with the groups before and after. *)
Inductive denc : re -> pos -> caps -> pos -> caps -> Prop :=
| denc_empty p c : denc Empty p c p c
| denc_class f b x s c : f x = true -> denc (Class f) (b, x :: s) c (Some x, s) c
| denc_seq a b p c q c1 t c2 : denc a p c q c1 -> denc b q c1 t c2 -> denc (Seq a b) p c t c2
| denc_alt_l a b p c q c' : denc a p c q c' -> denc (Alt a b) p c q c'
| denc_alt_r a b p c q c' : denc b p c q c' -> denc (Alt a b) p c q c'
| denc_star_0 r p c : denc (Star r) p c p c
| denc_star_1 r p c q c1 t c2 :
    denc r p c q c1 -> length (snd q) < length (snd p) -> denc (Star r) q c1 t c2 -> denc (Star r) p c t c2
| denc_group i r p c q c' :
    denc r p c q c' -> denc (Group i r) p c q ((i, take (length (snd p) - length (snd q)) (snd p)) :: c')
| denc_wordb p c : at_boundary p = true -> denc WordB p c p c.

#[export] Hint Constructors denc : regex.

Lemma denc_den r p c q c' : denc r p c q c' -> den r p q.
Proof. induction 1; eauto with regex. Qed.

Lemma bt_groups {A} r p c (k : pos -> caps -> option A) x :
  bt r p c k = Some x -> exists q c', denc r p c q c' /\ k q c' = Some x.
Proof.
  revert p c k. induction r as [|f|a IHa b IHb|a IHa b IHb|r IH|i r IH|]; intros p c k; cbn.
  - eauto with regex.
  - destruct p as [b [|y s]]; cbn; [done|]. destruct (f y) eqn:Hf; [|done]. eauto with regex.
  - intros (q & c1 & Hq & (t & c2 & Ht & Hk)%IHb)%IHa. eauto with regex.
  - destruct (bt a p c k) as [y|] eqn:Ha.
    + intros [= <-]. apply IHa in Ha as (q & c' & Hq & Hk). eauto with regex.
    + intros (q & c' & Hq & Hk)%IHb. eauto with regex.
  - generalize (length (snd p)) as n. intros n. revert p c. induction n as [|n IHn]; intros p c; cbn; [eauto with regex|].
    destruct (bt r p c _) as [y|] eqn:Hb; [|eauto with regex].
    intros [= <-]. apply IH in Hb as (q & c1 & Hq & Hk). cbn beta in Hk. destruct (Nat.ltb_spec (length (snd q)) (length (snd p))); [|done].
    apply IHn in Hk as (t & c2 & Ht & Hk). eauto with regex.
  - intros (q & c' & Hq & Hk)%IH. eauto with regex.
  - destruct (at_boundary p) eqn:Hb; [|done]. eauto with regex.
Qed.

(** With enough turns left the loop is complete, too. *)
Definition loop_ok {A} (r : re) (p : pos) (c : caps) (k : pos -> caps -> option A) : Prop :=
  match r with
  | Star r => forall n, length (snd p) <= n -> star_loop (bt r) k n p c <> None
  | _ => True
  end.

Lemma bt_complete_loop r p q : den r p q ->
  forall A c (k : pos -> caps -> option A), (forall c', k q c' <> None) -> bt r p c k <> None /\ loop_ok r p c k.
Proof.
  induction 1 as [p|f b x s Hf|a b p q t _ IHa _ IHb|a b p q _ IH|a b p q _ IH|r p|r p q t Hd IHd Hlt Hds IHs|i r p q _ IH|p Hb];
    intros A c k Hk; cbn.
  - done.
  - by rewrite Hf.
  - split; [|done]. apply IHa. intros c'. by apply IHb.
  - destruct (IH A c k Hk). by destruct (bt a p c k).
  - split; [|done]. destruct (bt a p c k); [done|]. by apply IH.
  - assert (forall n, star_loop (bt r) k n p c <> None) as Hl; [|by split].
    intros [|n]; cbn; [done|]. by destruct (bt r p c _).
  - assert (forall n, length (snd p) <= n -> star_loop (bt r) k n p c <> None) as Hl; [|by split; [apply Hl|]].
    intros [|n] Hn; [lia|]. cbn. destruct (bt r p c _) as [y|] eqn:Hb; [done|]. exfalso. revert Hb. apply IHd. intros c'.
    rewrite (proj2 (Nat.ltb_lt _ _) Hlt). destruct (IHs A c' k Hk) as [_ Hs]. apply Hs. lia.
  - split; [|done]. apply IH. done.
  - by rewrite Hb.
Qed.

Lemma match_at_sound r p q c : match_at r p = Some (q, c) -> den r p q.
Proof. intros (q' & c' & Hd & [= -> _])%bt_groups. by eapply denc_den. Qed.

Lemma match_at_complete r p q : den r p q -> match_at r p <> None.
Proof. intros Hd. apply (bt_complete_loop _ _ _ Hd). done. Qed.

(** A match is a prefix of the text at its position. *)
Definition moves (p q : pos) : Prop := exists m, snd p = m ++ snd q /\ fst q = default (fst p) (Some <$> last m).

Lemma moves_refl p : moves p p.
Proof. by exists []. Qed.

Lemma moves_trans p q t : moves p q -> moves q t -> moves p t.
Proof.
  intros (m & Hm & Hf) (m' & Hm' & Hf'). exists (m ++ m'). split; [by rewrite Hm, Hm', app_assoc|].
  rewrite Hf', Hf. destruct m' as [|x m'] using rev_ind; [by rewrite app_nil_r|]. by rewrite app_assoc, !last_snoc.
Qed.

Lemma den_moves r p q : den r p q -> moves p q.
Proof.
  induction 1; try done; eauto using moves_refl, moves_trans. by exists [x].
Qed.

(** The search finds the leftmost match, and none only if there is none. *)
Lemma find_some r b s f :
  find r b s = Some f ->
  s = gap f ++ matched f ++ snd (stop f) /\
  den r (default b (Some <$> last (gap f)), matched f ++ snd (stop f)) (stop f) /\
  fst (stop f) = default b (Some <$> last (gap f ++ matched f)) /\
  forall g1 g2 q, gap f = g1 ++ g2 -> g2 <> [] ->
    ~ den r (default b (Some <$> last g1), g2 ++ matched f ++ snd (stop f)) q.
Proof.
  revert b f. induction s as [|x s IH]; intros b f; cbn; destruct (match_at r _) as [[q c]|] eqn:Hm; try done.
  - intros [= <-]. cbn. apply match_at_sound in Hm. destruct (den_moves _ _ _ Hm) as (m & Hs & Hf). cbn in *.
    destruct m, q as [q1 [|]]; try done. cbn in *. repeat split; try done. by intros [|] [|] ?.
  - intros [= <-]. cbn. apply match_at_sound in Hm. pose proof (den_moves _ _ _ Hm) as (m & Hs & Hf). cbn [fst snd] in *.
    assert (take (length (x :: s) - length (snd q)) (x :: s) = m) as Ht.
    { rewrite Hs, length_app, Nat.add_sub. apply take_app_length. }
    cbn [length] in Ht. rewrite Ht. rewrite <- Hs. repeat split; try done. by intros [|] [|] ?.
  - destruct (find r (Some x) s) as [f'|] eqn:Hfd; [|done]. intros [= <-]. cbn.
    destruct (IH _ _ Hfd) as (H1 & H2 & H3 & H4).
    assert (forall l : text, default b (Some <$> last (x :: l)) = default (Some x) (Some <$> last l)) as Hl
      by (intros l; rewrite last_cons; by destruct (last l)).
    rewrite Hl. split; [by rewrite H1 at 1|]. split; [done|]. split; [by rewrite Hl|].
    intros [|y g1] g2 q Hg Hne.
    + cbn in Hg. subst g2. cbn. rewrite <- H1. intros Hd. by apply match_at_complete in Hd.
    + injection Hg as <- Hg. rewrite Hl. by apply H4.
Qed.

Lemma find_none r b s g1 g2 q :
  find r b s = None -> s = g1 ++ g2 -> ~ den r (default b (Some <$> last g1), g2) q.
Proof.
  revert b g1. induction s as [|x s IH]; intros b g1; cbn; destruct (match_at r _) as [[q' c]|] eqn:Hm; try done.
  - intros _ Hg Hd. destruct g1, g2; try done. by apply match_at_complete in Hd.
  - destruct (find r (Some x) s) as [f'|] eqn:Hfd; [done|]. intros _ Hg Hd. destruct g1 as [|y g1].
    + cbn in Hg. subst g2. by apply match_at_complete in Hd.
    + injection Hg as <- Hg. eapply (IH _ g1); [exact Hfd|exact Hg|].
      rewrite last_cons in Hd. by destruct (last g1).
Qed.

(** ** What replacing does *)

(** Whether an expression can match the empty text. *)
Fixpoint nullable (r : re) : bool :=
  match r with
  | Empty | Star _ | WordB => true
  | Class _ => false
  | Seq a b => nullable a && nullable b
  | Alt a b => nullable a || nullable b
  | Group _ r => nullable r
  end.

Lemma den_shrinks r p q : den r p q -> length (snd q) <= length (snd p).
Proof. intros (m & -> & _)%den_moves. rewrite length_app. lia. Qed.

Lemma den_progress r p q : den r p q -> nullable r = false -> length (snd q) < length (snd p).
Proof.
  induction 1 as [p|f b x s Hf|a b p q t Ha IHa Hb IHb|a b p q _ IH|a b p q _ IH| | |i r p q _ IH|]; cbn; try done; intros Hn.
  - lia.
  - apply den_shrinks in Ha, Hb. apply andb_false_iff in Hn as [Hn|Hn]; [specialize (IHa Hn)|specialize (IHb Hn)]; lia.
  - apply orb_false_iff in Hn as [Hn _]. auto.
  - apply orb_false_iff in Hn as [_ Hn]. auto.
Qed.

(** The output for the text at [p]: without a match the text itself; otherwise
    the text up to the leftmost match, the replacement, and what comes of the
    rest. *)
Inductive replaced (r : re) (repl : text -> caps -> text) : pos -> text -> Prop :=
| replaced_end p : find r (fst p) (snd p) = None -> replaced r repl p (snd p)
| replaced_match p f out :
    find r (fst p) (snd p) = Some f -> matched f <> [] -> replaced r repl (stop f) out ->
    replaced r repl p (gap f ++ repl (matched f) (groups f) ++ out).

(** One turn per byte is enough. *)
Lemma replace_replaced r repl n fr p :
  nullable r = false -> length (snd p) < n -> replaced r repl p (replace n r repl fr p).
Proof.
  intros Hr. revert fr p. induction n as [|n IH]; intros fr p Hn; [lia|]. cbn.
  destruct (find r (fst p) (snd p)) as [f|] eqn:Hf; [|by constructor].
  destruct (find_some _ _ _ _ Hf) as (Hs & Hd & _). apply den_progress in Hd; [|done]. cbn in Hd. rewrite length_app in Hd.
  destruct (matched f) as [|x m] eqn:Hm; [cbn in Hd; lia|]. rewrite <- Hm.
  apply replaced_match; [done|by rewrite Hm|]. apply IH. apply (f_equal length) in Hs. rewrite !length_app in Hs. cbn in Hs. lia.
Qed.

Lemma replaceAll_replaced r repl s : nullable r = false -> replaced r repl (None, s) (replaceAll r repl s).
Proof. intros Hr. apply replace_replaced; [done|]. cbn. lia. Qed.

Definition infix (m s : text) : Prop := exists a b, s = a ++ m ++ b.

Lemma infix_split c m x y : (c ∉ m) -> infix m (x ++ c :: y) -> infix m x \/ infix m y.
Proof.
  intros Hc (a & b & Heq). revert a Heq. induction x as [|z x IH]; intros a Heq.
  - destruct a as [|a0 a]; cbn in Heq.
    + destruct m as [|m0 m]; [left; by exists [], []|]. injection Heq as <- _. set_solver.
    + injection Heq as _ ->. right. by exists a, b.
  - destruct a as [|a0 a]; cbn in Heq.
    + destruct m as [|m0 m]; [left; by exists [], (z :: x)|]. injection Heq as <- Heq.
      assert (exists b', x = m ++ b') as [b' ->]; [|left; by exists [], b'].
      clear IH. revert x Heq. induction m as [|m1 m IHm]; intros x Heq; [by eexists|].
      destruct x as [|z' x]; cbn in Heq; injection Heq as <- Heq; [set_solver|].
      destruct (IHm ltac:(set_solver) x Heq) as [b' ->]. by exists b'.
    + injection Heq as <- Heq. destruct (IH a Heq) as [(a' & b' & ->)|Hy]; [|by right]. left. by exists (z :: a'), b'.
Qed.

(** When every text in [bad] is matched wherever it occurs, and the replacement
    is a mask whose ends occur in no such text and whose middle contains none,
    none is left. *)
Lemma replaced_none_left r repl (bad : text -> Prop) c d mid p out :
  (forall m, bad m -> m <> [] /\ (c ∉ m) /\ (d ∉ m) /\ ~ infix m mid) ->
  (forall m b rest, bad m -> exists q, den r (b, m ++ rest) q) ->
  (forall m g, repl m g = c :: mid ++ [d]) ->
  replaced r repl p out -> forall m, bad m -> ~ infix m out.
Proof.
  intros Hbad Hden Hmask. induction 1 as [p Hf|p f out Hf Hne _ IH]; intros m Hm.
  - intros (a & b & Hs). destruct (Hden m (default (fst p) (Some <$> last a)) b Hm) as [q Hq].
    exact (find_none _ _ _ _ _ _ Hf Hs Hq).
  - destruct (Hbad m Hm) as (Hnil & Hc & Hd & Hmid). rewrite Hmask. cbn [app]. rewrite <- app_assoc. cbn [app].
    intros [Hg|[Hi|Ho]%(infix_split d)]%(infix_split c); [|by apply Hmid|by eapply IH|done|done].
    destruct Hg as (a & b & Hg). destruct (find_some _ _ _ _ Hf) as (_ & _ & _ & Hnone).
    destruct (Hden m (default (fst p) (Some <$> last a)) (b ++ matched f ++ snd (stop f)) Hm) as [q Hq].
    apply (Hnone a (m ++ b) q Hg); [by destruct m|]. by rewrite <- app_assoc.
Qed.

(** ** Captures *)

Lemma denc_moves r p c q c' : denc r p c q c' -> moves p q.
Proof. intros Hd. by eapply den_moves, denc_den. Qed.

Fixpoint group_free (r : re) : bool :=
  match r with
  | Empty | Class _ | WordB => true
  | Seq a b | Alt a b => group_free a && group_free b
  | Star r => group_free r
  | Group _ _ => false
  end.

Lemma group_free_caps r p c q c' : denc r p c q c' -> group_free r = true -> c' = c.
Proof.
  induction 1 as [| |? ? ? ? ? ? ? ? _ IH1 _ IH2| | | |? ? ? ? ? ? ? _ IH1 _ _ IH2| |]; cbn; try done; intros Hg.
  - apply andb_true_iff in Hg as [Ha Hb]. rewrite IH2, IH1 by done. done.
  - apply andb_true_iff in Hg as [Ha Hb]. auto.
  - apply andb_true_iff in Hg as [Ha Hb]. auto.
  - rewrite IH2, IH1 by done. done.
Qed.

(** The expression starts with its only group, perhaps at a word boundary. *)
Definition leading_group (r : re) : bool :=
  match r with
  | Seq (Group 1 a) b | Seq WordB (Seq (Group 1 a) b) => group_free a && group_free b
  | _ => false
  end.

Lemma group_prefix a b p q c' :
  group_free a && group_free b = true -> denc (Seq (Group 1 a) b) p [] q c' ->
  exists t u, c' = [(1, t)] /\ snd p = t ++ u ++ snd q.
Proof.
  intros [Ha Hb]%andb_true_iff Hd. inversion Hd as [| |? ? ? ? q1 c1 ? ? Hg Hr| | | | | |]; subst.
  inversion Hg as [| | | | | | |? ? ? ? ? c2 Ha'|]; subst.
  apply group_free_caps in Ha' as Hc2; [|done]. subst c2.
  apply group_free_caps in Hr as Hc'; [|done]. subst c'.
  destruct (denc_moves _ _ _ _ _ Ha') as (t & Ht & _). destruct (denc_moves _ _ _ _ _ Hr) as (u & Hu & _).
  exists t, u. rewrite Ht, length_app, Nat.add_sub, take_app_length. split; [done|]. by rewrite Hu.
Qed.

Lemma find_groups r b s f :
  find r b s = Some f -> exists b', denc r (b', matched f ++ snd (stop f)) [] (stop f) (groups f).
Proof.
  revert b f. induction s as [|x s IH]; intros b f; cbn; destruct (match_at r _) as [[q c]|] eqn:Hm; try done.
  - intros [= <-]. apply bt_groups in Hm as (q' & c' & Hd & [= -> ->]). exists b. cbn.
    destruct (denc_moves _ _ _ _ _ Hd) as (m & Hs & _). cbn [snd] in Hs.
    destruct m, (snd q) as [|] eqn:Hq; try done.
  - intros [= <-]. apply bt_groups in Hm as (q' & c' & Hd & [= -> ->]). exists b. cbn [matched stop groups].
    destruct (denc_moves _ _ _ _ _ Hd) as (m & Hs & _). cbn [snd] in Hs.
    assert (take (length (x :: s) - length (snd q)) (x :: s) = m) as Ht.
    { rewrite Hs, length_app, Nat.add_sub. apply take_app_length. }
    cbn [length] in Ht. rewrite Ht. by rewrite <- Hs.
  - destruct (find r (Some x) s) as [f'|] eqn:Hf; [|done]. intros [= <-]. cbn. by eapply IH.
Qed.

Lemma leading_group_prefix r b s f :
  leading_group r = true -> find r b s = Some f -> exists t u, groups f = [(1, t)] /\ matched f = t ++ u.
Proof.
  intros Hr (b' & Hd)%find_groups.
  assert (exists t u, groups f = [(1, t)] /\ matched f ++ snd (stop f) = t ++ u ++ snd (stop f)) as (t & u & Hg & Hm).
  { destruct r as [| |r1 r2| | | |]; try done. destruct r1 as [| | | | |i a|]; try done.
    - destruct i as [|[|]]; try done. by apply (group_prefix a r2) in Hd.
    - destruct r2 as [| |[| | | | |i a|] r2| | | |]; try done. destruct i as [|[|]]; try done.
      inversion Hd as [| |? ? ? ? ? ? ? ? Hw Hg| | | | | |]; subst. inversion Hw; subst. by apply (group_prefix a r2) in Hg. }
  exists t, u. split; [done|]. rewrite app_assoc in Hm. by apply app_inv_tail in Hm.
Qed.

(** When each replacement is a prefix of the match and then a piece whose ends do
    not occur in [m] and whose middle does not contain it, the output contains
    [m] only if the text does. *)
Lemma replaced_introduces_none r repl m p out :
  m <> [] ->
  (forall b s f, find r b s = Some f -> exists t u c mid d,
     matched f = t ++ u /\ repl (matched f) (groups f) = t ++ c :: mid ++ [d] /\
     (c ∉ m) /\ (d ∉ m) /\ ~ infix m mid) ->
  replaced r repl p out -> infix m out -> infix m (snd p).
Proof.
  intros Hm Hrepl. induction 1 as [p Hf|p f out Hf Hne _ IH]; [done|].
  destruct (Hrepl _ _ _ Hf) as (t & u & c & mid & d & Ht & Hr & Hc & Hd & Hmid).
  destruct (find_some _ _ _ _ Hf) as (Hs & _). rewrite Hs, Hr.
  replace (gap f ++ (t ++ c :: mid ++ [d]) ++ out) with ((gap f ++ t) ++ c :: mid ++ d :: out)
    by (rewrite <- !app_assoc; cbn; by rewrite <- app_assoc).
  intros [(a & b & Hg)|[Hi|(a & b & Ho)%IH]%(infix_split d)]%(infix_split c); [|done| |done|done].
  - exists a, (b ++ u ++ snd (stop f)). rewrite Ht. rewrite <- (app_assoc t). rewrite (app_assoc (gap f)), Hg. by rewrite <- !app_assoc.
  - exists (gap f ++ matched f ++ a), b. rewrite Ho. by rewrite <- !app_assoc.
Qed.

(** ** Strings and their bytes *)

Definition to_text (s : string) : text := String.list_ascii_of_string s.
Lemma to_text_app a b : to_text (a ++ b) = (to_text a ++ to_text b)%list.
Proof. induction a as [|c a IH]; [done|]. rewrite append_cons. unfold to_text in *. cbn. by rewrite IH. Qed.

Lemma to_text_of t : to_text (String.string_of_list_ascii t) = t.
Proof. apply String.list_ascii_of_string_of_list_ascii. Qed.

Lemma Contains_infix s m : Contains s m = true <-> infix (to_text m) (to_text s).
Proof.
  rewrite Contains_spec. split.
  - intros (a & b & ->). exists (to_text a), (to_text b). by rewrite !to_text_app.
  - intros (a & b & H). exists (String.string_of_list_ascii a), (String.string_of_list_ascii b).
    apply (f_equal String.string_of_list_ascii) in H. unfold to_text in H.
    rewrite String.string_of_list_ascii_of_string in H. rewrite H.
    rewrite <- (String.string_of_list_ascii_of_string (String.string_of_list_ascii a ++ m ++ String.string_of_list_ascii b)).
    f_equal. fold (to_text m). change String.list_ascii_of_string with to_text. by rewrite !to_text_app, !to_text_of.
Qed.

Lemma to_text_length s : length (to_text s) = String.length s.
Proof. induction s as [|c s IH]; cbn; [done|]. by rewrite <- IH. Qed.

(** ** Repeated classes *)

Lemma den_star_class f b t rest :
  forallb f t = true -> exists b', den (Star (Class f)) (b, t ++ rest)%list (b', rest).
Proof.
  revert b. induction t as [|x t IH]; intros b; cbn; [eauto with regex|]. intros [Hx Ht]%andb_true_iff.
  destruct (IH (Some x) Ht) as [b' Hb]. exists b'. eapply den_star_1; [by apply den_class|cbn; lia|done].
Qed.

Lemma den_plus_class f b t rest :
  t <> [] -> forallb f t = true -> exists b', den (Plus (Class f)) (b, t ++ rest)%list (b', rest).
Proof.
  destruct t as [|x t]; [done|]. cbn. intros _ [Hx Ht]%andb_true_iff. destruct (den_star_class f (Some x) t rest Ht) as [b' Hb].
  exists b'. eapply den_seq; [by apply den_class|done].
Qed.

Lemma lit_den c b rest : den (lit c) (b, c :: rest) (Some c, rest).
Proof. apply den_class, Ascii.eqb_refl. Qed.

Lemma star_class_inv f p q : den (Star (Class f)) p q -> exists l, forallb f l = true /\ snd p = l ++ snd q.
Proof.
  remember (Star (Class f)) as r eqn:Hr. induction 1 as [| | | | |r p|r p q t Hd _ _ _ IH| |]; try done.
  - by exists [].
  - injection Hr as ->. inversion Hd; subst. destruct (IH eq_refl) as (l & Hl & Hs). cbn in Hs. exists (x :: l).
    cbn. split; [by apply andb_true_iff|by rewrite Hs].
Qed.

Lemma plus_class_inv f p q :
  den (Plus (Class f)) p q -> exists l, l <> [] /\ forallb f l = true /\ snd p = l ++ snd q.
Proof.
  intros Hd. inversion Hd as [| |? ? ? q1 ? H1 H2| | | | | |]; subst. inversion H1; subst.
  apply star_class_inv in H2 as (l & Hl & Hs). cbn in Hs. exists (x :: l). cbn. split; [done|].
  split; [by apply andb_true_iff|by rewrite Hs].
Qed.

Lemma lit_inv c p q : den (lit c) p q -> snd p = c :: snd q.
Proof. intros Hd. inversion Hd as [|? ? ? ? He| | | | | | |]; subst. by apply Ascii.eqb_eq in He as ->. Qed.

Lemma seq_inv a b p t : den (Seq a b) p t -> exists q, den a p q /\ den b q t.
Proof. intros Hd. inversion Hd; subst. eauto. Qed.

(** ** Where nothing matches *)

Lemma replaced_cons r repl b x s out :
  match_at r (b, x :: s) = None -> replaced r repl (Some x, s) out -> replaced r repl (b, x :: s) (x :: out).
Proof.
  intros Hm Hr. inversion Hr as [p Hf|p f out' Hf Hne Hr']; subst; cbn [fst snd] in *.
  - apply (replaced_end r repl (b, x :: s)). cbn. by rewrite Hm, Hf.
  - apply (replaced_match r repl (b, x :: s) (MkFound (x :: gap f) (matched f) (stop f) (groups f))); [|done..].
    cbn. by rewrite Hm, Hf.
Qed.

Lemma replaced_det r repl p o1 o2 : replaced r repl p o1 -> replaced r repl p o2 -> o1 = o2.
Proof.
  intros H1. revert o2. induction H1 as [p Hf|p f out Hf Hne _ IH]; intros o2 H2;
    inversion H2 as [? Hf'|? f' out' Hf' Hne' H2']; subst; rewrite Hf in Hf'; try done.
  injection Hf' as <-. by rewrite (IH _ H2').
Qed.

Lemma MatchString_spec r s :
  MatchString r s = true <-> exists a b q, to_text s = a ++ b /\ den r (last a, b) q.
Proof.
  unfold MatchString. destruct (find r None _) as [f|] eqn:Hf; split; try done.
  - intros _. destruct (find_some _ _ _ _ Hf) as (Hs & Hd & _). exists (gap f), (matched f ++ snd (stop f)), (stop f).
    split; [done|]. by destruct (last (gap f)).
  - intros (a & b & q & Hs & Hd). exfalso. apply (find_none _ _ _ a b q Hf Hs). by destruct (last a).
Qed.
