(* ===== verification/HttpResponse.v ===== *)
(** * Response diagnostics for audit events (src/audit/http_response.go)

    What a gateway may keep of an error response.  A [map[string]
    json.RawMessage] is the list of an object's entries, each raw message the
    value it encodes.  Media-type parsing and JSON coding are arguments; UTF-8
    validity is written out. *)
From S2P Require Import Prelude GoStrings AuditEvent JsonRedact TextRedact.
Local Open Scope string_scope.
Local Open Scope Z_scope.

Definition HTTPResponseVersion : Z := 1.
Definition MaxHTTPInspectBytes : Z := Z.shiftl 64 10.
Definition DefaultHTTPBodyBytes : Z := Z.shiftl 4 10.

Record HTTPResponse := MkResponse {
  Version : Z; Status : Z; State : string; OmissionReason : string; ContentType : string; Origin : string;
  Stage : string; DurationMS : Z; ObservedBytes : Z; CaptureComplete : bool;
  Code : string; Message : string; Body : string; FieldsOmitted : bool }.

Record HTTPResponseInput := MkInput {
  in_Status : Z; in_ContentType : string; in_ContentEncoding : string; in_Body : string; in_ObservedBytes : Z;
  in_Complete : bool; in_MaxBodyBytes : Z; in_Secrets : list string; in_Redact : Config }.

(** ** utf8.ValidString *)

Definition byte_in (lo hi : N) (c : ascii) : bool := ((lo <=? code c) && (code c <=? hi))%N.
Definition cont : ascii -> bool := byte_in 128 191.

(** The second byte a leading byte of a three- or four-byte sequence accepts. *)
Definition second3 (a : ascii) : option (ascii -> bool) :=
  if byte_in 224 224 a then Some (byte_in 160 191)
  else if byte_in 237 237 a then Some (byte_in 128 159)
  else if byte_in 225 239 a then Some cont else None.
Definition second4 (a : ascii) : option (ascii -> bool) :=
  if byte_in 240 240 a then Some (byte_in 144 191)
  else if byte_in 241 243 a then Some cont
  else if byte_in 244 244 a then Some (byte_in 128 143) else None.

Fixpoint ValidString (s : string) : bool :=
  match s with
  | "" => true
  | String a s1 =>
      if byte_in 0 127 a then ValidString s1
      else if byte_in 194 223 a then
        match s1 with String b s2 => cont b && ValidString s2 | _ => false end
      else match second3 a with
           | Some ok =>
               match s1 with
               | String b (String c s3) => ok b && cont c && ValidString s3
               | _ => false
               end
           | None =>
               match second4 a with
               | Some ok =>
                   match s1 with
                   | String b (String c (String d s4)) => ok b && cont c && cont d && ValidString s4
                   | _ => false
                   end
               | None => false
               end
           end
  end%string.

Lemma ascii_valid s : all_bytes (byte_in 0 127) s = true -> ValidString s = true.
Proof. induction s as [|c s IH]; [done|]. cbn [all_bytes ValidString]. intros [-> Hs]%andb_true_iff. auto. Qed.

(** ** [clipDiagnostic] *)

Definition prefix_of (n : nat) (s : string) : string := String.substring 0 n s.

(** The loop that drops the last byte until the text is valid. *)
Fixpoint trim_valid (n : nat) (value : string) : string :=
  if ValidString (prefix_of n value) then prefix_of n value
  else match n with O => "" | S n' => trim_valid n' value end.

Definition clipDiagnostic (value : string) (limit : Z) : string :=
  if Len value <=? limit then value else trim_valid (Z.to_nat limit) value.

(** ** The allow-list *)

(** The values of the sanitised map. *)
Inductive diag := DText (s : string) | DNumber (z : Z) | DObject (m : list (string * diag)).

Definition allowed : list string :=
  ["code"; "errorCode"; "error_code"; "error"; "message"; "error_description"; "detail"; "title"; "description";
   "reason"; "status"; "request_id"; "requestId"]%string.

Fixpoint lookup_key {A} (m : list (string * A)) (k : string) : option A :=
  match m with [] => None | (k', v) :: m' => if k' ==s k then Some v else lookup_key m' k end.

(** [json.Unmarshal] of one value into a string, an object, an int; null
    decodes into a string as the empty one, and into a map as nil. *)
Definition as_string (v : json) : option string :=
  match v with JString s => Some s | JNull => Some "" | _ => None end%string.
Definition as_object (v : json) : option (list (string * json)) :=
  match v with JObject m => Some m | _ => None end.
Definition as_int (v : json) : option Z :=
  match v with JNumber l => ParseInt l | _ => None end.

Section Capture.
(** The media type and whether parsing succeeded: a bad parameter is an error
    that still yields the type. *)
Context {low : Lowering}.
Variable ParseMediaType : string -> string * bool.
Variable Unmarshal : string -> option json.
Variable Marshal : json -> option string.
Variable MarshalIndent : list (string * diag) -> option string.

Definition clean (secrets : list string) (value : string) : string :=
  clipDiagnostic (RedactText value secrets) DefaultHTTPBodyBytes.

(** [fuel] counts the levels left; the code starts at depth 0 and stops below depth 4. *)
Fixpoint safe_fields (fuel : nat) (object : list (string * json)) (secrets : list string)
  : list (string * diag) * bool :=
  match fuel with
  | O => ([], true)
  | S n =>
      let step (acc : list (string * diag) * bool) (key : string) :=
        let '(out, omitted) := acc in
        match lookup_key object key with
        | None => acc
        | Some raw =>
            match as_string raw with
            | Some value => (out ++ [(key, DText (clean secrets value))], omitted)%list
            | None =>
                if key ==s "error" then
                  match as_object raw with
                  | Some nested =>
                      let '(flds, nestedOmitted) := safe_fields n nested secrets in
                      let omitted := omitted || nestedOmitted in
                      match flds with [] => (out, omitted) | _ => (out ++ [(key, DObject flds)], omitted)%list end
                  | None => acc
                  end
                else if key ==s "status" then
                  match as_int raw with Some z => (out ++ [(key, DNumber z)], omitted)%list | None => acc end
                else acc
            end
        end in
      let '(out, omitted) := fold_left step allowed ([], false) in
      (out, omitted || negb (Nat.eqb (length out) (length object)))
  end.
Definition safeErrorFields (object : list (string * json)) (secrets : list string) (depth : nat) :=
  safe_fields (5 - depth) object secrets.

Fixpoint diagnosticString (object : list (string * diag)) (keys : list string) : string :=
  match keys with
  | [] => ""
  | key :: keys' =>
      match lookup_key object key with
      | Some (DText v) => if v ==s "" then diagnosticString object keys' else v
      | _ => diagnosticString object keys'
      end
  end%string.

Definition omit (reason : string) (r : HTTPResponse) : HTTPResponse :=
  MkResponse (Version r) (Status r) (State r) reason (ContentType r) (Origin r) (Stage r) (DurationMS r)
    (ObservedBytes r) (CaptureComplete r) (Code r) (Message r) (Body r) (FieldsOmitted r).
Definition with_state (s : string) (r : HTTPResponse) : HTTPResponse :=
  MkResponse (Version r) (Status r) s (OmissionReason r) (ContentType r) (Origin r) (Stage r) (DurationMS r)
    (ObservedBytes r) (CaptureComplete r) (Code r) (Message r) (Body r) (FieldsOmitted r).
Definition with_omitted (b : bool) (r : HTTPResponse) : HTTPResponse :=
  MkResponse (Version r) (Status r) (State r) (OmissionReason r) (ContentType r) (Origin r) (Stage r) (DurationMS r)
    (ObservedBytes r) (CaptureComplete r) (Code r) (Message r) (Body r) b.
Definition with_diag (code message : string) (r : HTTPResponse) : HTTPResponse :=
  MkResponse (Version r) (Status r) (State r) (OmissionReason r) (ContentType r) (Origin r) (Stage r) (DurationMS r)
    (ObservedBytes r) (CaptureComplete r) code message (Body r) (FieldsOmitted r).
Definition with_body (b : string) (r : HTTPResponse) : HTTPResponse :=
  MkResponse (Version r) (Status r) (State r) (OmissionReason r) (ContentType r) (Origin r) (Stage r) (DurationMS r)
    (ObservedBytes r) (CaptureComplete r) (Code r) (Message r) b (FieldsOmitted r).

(** The two rounds of redaction, then the decoding of the envelope. *)
Definition envelope (i : HTTPResponseInput) : option (list (string * json)) :=
  let builtin := ParseAndRedactJSON Unmarshal Marshal (in_Body i) (MkConfig (PathFields (in_Redact i)) [] "") in
  let redacted := match builtin, SensitiveKeys (in_Redact i) with
                  | Ok r, _ :: _ => ParseAndRedactJSON Unmarshal Marshal r (in_Redact i)
                  | _, _ => builtin
                  end in
  match redacted with
  | Err _ => None
  | Ok r => v ← Unmarshal r; as_object v
  end.

Definition code_of (safe : list (string * diag)) : string :=
  let c := diagnosticString safe ["code"; "errorCode"; "error_code"; "error"]%string in
  match lookup_key safe "error" with
  | Some (DObject nested) =>
      if c ==s "" then diagnosticString nested ["code"; "errorCode"; "error_code"]%string else c
  | _ => c
  end.
Definition message_of (safe : list (string * diag)) : string :=
  let c := diagnosticString safe
             ["message"; "error_description"; "detail"; "title"; "description"; "reason"]%string in
  match lookup_key safe "error" with
  | Some (DObject nested) =>
      if c ==s "" then diagnosticString nested ["message"; "detail"; "description"; "reason"]%string else c
  | _ => c
  end.

Definition CaptureHTTPResponse (i : HTTPResponseInput) : HTTPResponse :=
  let '(ct, ok) := ParseMediaType (in_ContentType i) in
  let out := MkResponse HTTPResponseVersion (in_Status i) "omitted" ""
               (if ok : bool then clipDiagnostic ct 128 else "")
               "unknown" "" 0 (in_ObservedBytes i) (in_Complete i) "" "" "" false in
  if negb (in_Complete i) || (MaxHTTPInspectBytes <? Len (in_Body i)) then omit "inspection_limit" out
  else if (in_ContentEncoding i !=s "") && negb (EqualFold (in_ContentEncoding i) "identity")
  then omit "content_encoding" out
  else if Len (in_Body i) =? 0 then with_state "empty" out
  else if (ct !=s "application/json") && negb (HasSuffix ct "+json") then omit "content_type" out
  else match envelope i with
       | None => omit "invalid_json_envelope" out
       | Some object =>
           let '(safe, omitted) := safeErrorFields object (in_Secrets i) 0 in
           let out := with_omitted omitted out in
           match safe with
           | [] => omit "no_error_fields" out
           | _ =>
               let out := with_diag (clipDiagnostic (code_of safe) 256) (clipDiagnostic (message_of safe) 1024) out in
               match MarshalIndent safe with
               | None => omit "encoding_error" out
               | Some body =>
                   let limit := if (in_MaxBodyBytes i <=? 0) || (DefaultHTTPBodyBytes <? in_MaxBodyBytes i)
                                then DefaultHTTPBodyBytes else in_MaxBodyBytes i in
                   let out := with_body (clipDiagnostic body limit) (with_state "captured" out) in
                   if limit <? Len body then with_state "truncated" out else out
               end
           end
       end.

(** What the sanitised map may hold: allow-listed keys only, texts that went
    through redaction and clipping, the status number, and one nested error. *)
Fixpoint sanitised (levels : nat) (secrets : list string) (m : list (string * diag)) : Prop :=
  match levels with
  | O => m = []
  | S n =>
      Forall (fun e => In (fst e) allowed /\
        match snd e with
        | DText t => exists value, t = clean secrets value
        | DNumber _ => fst e = "status"%string
        | DObject m' => fst e = "error"%string /\ sanitised n secrets m'
        end) m
  end.

Lemma safe_fields_sanitised n : forall object secrets, sanitised n secrets (fst (safe_fields n object secrets)).
Proof.
  induction n as [|n IH]; intros object secrets; [done|]. cbn [safe_fields].
  match goal with |- context [fold_left ?st allowed ?a0] => set (step := st); set (acc := a0) end.
  assert (forall keys a, incl keys allowed -> sanitised (S n) secrets (fst a) ->
    sanitised (S n) secrets (fst (fold_left step keys a))) as Hfold.
  { induction keys as [|key keys IHk]; intros [out om] Hincl Ha; [done|]. cbn [fold_left].
    apply IHk; [intros k Hk; apply Hincl; by right|]. pose proof (Hincl key ltac:(by left)) as Hkey.
    unfold step. destruct (lookup_key object key) as [raw|]; [|done]. destruct (as_string raw) as [value|].
    - apply Forall_app. split; [done|]. constructor; [|constructor]. split; [done|]. by eexists.
    - destruct (String.eqb_spec key "error") as [->|].
      + destruct (as_object raw) as [nested|]; [|done]. specialize (IH nested secrets).
        destruct (safe_fields n nested secrets) as [[|f fs] b]; [done|].
        apply Forall_app. split; [done|]. constructor; [|constructor]. split; [done|]. split; [done|exact IH].
      + destruct (String.eqb_spec key "status") as [->|]; [|done]. destruct (as_int raw) as [z|]; [|done].
        apply Forall_app. split; [done|]. constructor; [|constructor]. done. }
  specialize (Hfold allowed acc (incl_refl _) (Forall_nil_2 _)). by destruct (fold_left step allowed acc).
Qed.

End Capture.

(** ** Clipping *)

Lemma prefix_of_length n s : (String.length (prefix_of n s) <= n)%nat.
Proof. unfold prefix_of. revert n; induction s as [|c s IH]; intros [|n]; simpl; try lia. specialize (IH n). lia. Qed.

Lemma prefix_of_prefix n s : String.prefix (prefix_of n s) s = true.
Proof.
  unfold prefix_of. revert n; induction s as [|c s IH]; intros [|n]; simpl; try done.
  destruct (ascii_dec c c); [apply IH|done].
Qed.

Lemma prefix_is_prefix_of p s : String.prefix p s = true -> p = prefix_of (String.length p) s.
Proof.
  unfold prefix_of. revert s; induction p as [|c p IH]; intros s; simpl; [by destruct s|].
  destruct s as [|d s]; [done|]. cbn [String.prefix]. destruct (ascii_dec c d) as [->|]; [|done].
  intros Hp. simpl. f_equal. by apply IH.
Qed.

Lemma prefix_of_mono k n s : (k <= n)%nat -> (String.length (prefix_of k s) <= String.length (prefix_of n s))%nat.
Proof.
  unfold prefix_of. revert k n; induction s as [|c s IH]; intros [|k] [|n]; simpl; try lia.
  intros Hk. specialize (IH k n). lia.
Qed.

Lemma trim_valid_spec n s :
  ValidString (trim_valid n s) = true /\ String.prefix (trim_valid n s) s = true /\
  (String.length (trim_valid n s) <= n)%nat /\
  forall p, String.prefix p s = true -> ValidString p = true -> (String.length p <= n)%nat ->
    (String.length p <= String.length (trim_valid n s))%nat.
Proof.
  induction n as [|n (IH1 & IH2 & IH3 & IH4)]; cbn [trim_valid].
  - assert (prefix_of 0 s = "")%string as -> by (by destruct s). split; [done|]. split; [by destruct s|].
    split; [done|]. intros p _ _ Hp. done.
  - destruct (ValidString (prefix_of (S n) s)) eqn:E.
    + split; [done|]. split; [apply prefix_of_prefix|]. split; [apply prefix_of_length|].
      intros p Hp _ Hl. rewrite (prefix_is_prefix_of _ _ Hp) at 1. by apply prefix_of_mono.
    + split; [done|]. split; [done|]. split; [lia|]. intros p Hp Hv Hl. apply IH4; try done.
      destruct (decide (String.length p = S n)) as [El|]; [|lia].
      rewrite (prefix_is_prefix_of _ _ Hp), El in Hv. congruence.
Qed.

Lemma clip_length value limit : (0 <= limit -> Len (clipDiagnostic value limit) <= limit)%Z.
Proof.
  unfold clipDiagnostic, Len. intros Hl. destruct (Z.leb_spec (Z.of_nat (String.length value)) limit); [done|].
  destruct (trim_valid_spec (Z.to_nat limit) value) as (_ & _ & ? & _). lia.
Qed.

(** Clipping is exact: a text within the limit is kept; otherwise the
    result is a prefix within the limit that ends on a character boundary, and
    no longer valid prefix fits. *)
Theorem clipDiagnostic_longest value limit :
  (0 <= limit)%Z ->
  let r := clipDiagnostic value limit in
  (Len r <= limit)%Z /\ String.prefix r value = true /\
  (if (Len value <=? limit)%Z then r = value
   else ValidString r = true /\
     forall p, String.prefix p value = true -> ValidString p = true -> (Len p <= limit)%Z -> (Len p <= Len r)%Z).
Proof.
  intros Hl r. split; [by apply clip_length|]. unfold r, clipDiagnostic.
  destruct (trim_valid_spec (Z.to_nat limit) value) as (H1 & H2 & H3 & H4).
  destruct (Len value <=? limit)%Z; (split; [|]); try done.
  - clear. induction value as [|c v IH]; simpl; [done|]. by destruct (ascii_dec c c).
  - split; [done|]. unfold Len. intros p Hp Hv Hle. specialize (H4 p Hp Hv). lia.
Qed.

Lemma clipDiagnostic_longest_witness :
  let euro := String (ascii_of_N 226) (String (ascii_of_N 130) (String (ascii_of_N 172) "")) in
  let text := ("ab" ++ euro ++ "cd")%string in
  clipDiagnostic text 4 = "ab"%string /\ ValidString "ab" = true.
Proof.
  intros euro text. split; [reflexivity|].
  pose proof (clipDiagnostic_longest text 4 ltac:(lia)) as (_ & _ & H). exact (proj1 H).
Defined.

(** ** What capture lets out *)

Ltac bounded out :=
  unfold out; cbn [ContentType Code Message Body State with_state with_body with_diag with_omitted omit] in *;
  repeat split; auto; try done; try (change (Len "") with 0 in *; unfold DefaultHTTPBodyBytes; simpl; lia).

(** A captured response is bounded and sanitised: each text is within its
    limit; the body is empty or the clipped encoding of a map that holds only
    allow-listed keys, at most five levels deep, with redacted and clipped
    texts, so no other field of the response body is kept. *)
Theorem capture_sanitised {low : Lowering} ParseMediaType Unmarshal Marshal MarshalIndent i :
  let r := CaptureHTTPResponse ParseMediaType Unmarshal Marshal MarshalIndent i in
  Len (ContentType r) <= 128 /\ Len (Code r) <= 256 /\ Len (Message r) <= 1024 /\
  Len (Body r) <= DefaultHTTPBodyBytes /\ (0 < in_MaxBodyBytes i -> Len (Body r) <= in_MaxBodyBytes i) /\
  (Body r = ""%string \/
   exists safe body limit, sanitised 5 (in_Secrets i) safe /\ MarshalIndent safe = Some body /\
     Body r = clipDiagnostic body limit /\ State r = if limit <? Len body then "truncated"%string else "captured"%string).
Proof.
  intros r. unfold r, CaptureHTTPResponse. destruct (ParseMediaType _) as [ct ok].
  assert (Len (if ok then clipDiagnostic ct 128 else ""%string) <= 128) as Hct
    by (destruct ok; [by apply clip_length|done]).
  set (out := MkResponse _ _ _ _ _ _ _ _ _ _ _ _ _ _).
  repeat match goal with
         | |- context [if ?b then _ _ out else _] => destruct b; [by bounded out|]
         end.
  destruct (envelope Unmarshal Marshal i) as [object|]; [|bounded out].
  pose proof (safe_fields_sanitised 5 object (in_Secrets i)) as Hsafe.
  unfold safeErrorFields. change (5 - 0)%nat with 5%nat.
  destruct (safe_fields 5 object (in_Secrets i)) as [[|f fs] om]; [bounded out|].
  set (safe := f :: fs) in *. cbn [fst] in Hsafe.
  pose proof (clip_length (code_of safe) 256 ltac:(lia)) as Hc.
  pose proof (clip_length (message_of safe) 1024 ltac:(lia)) as Hm.
  destruct (MarshalIndent safe) as [body|] eqn:Hb; [|bounded out].
  set (limit := if (in_MaxBodyBytes i <=? 0) || (DefaultHTTPBodyBytes <? in_MaxBodyBytes i)
                then DefaultHTTPBodyBytes else in_MaxBodyBytes i).
  assert (0 < limit <= DefaultHTTPBodyBytes /\ (0 < in_MaxBodyBytes i -> limit <= in_MaxBodyBytes i)) as [Hl1 Hl2].
  { unfold limit. change DefaultHTTPBodyBytes with 4096.
    destruct ((in_MaxBodyBytes i <=? 0) || (4096 <? in_MaxBodyBytes i)) eqn:E; bprop; lia. }
  pose proof (clip_length body limit ltac:(lia)) as Hbl.
  destruct (limit <? Len body) eqn:Ht; cbn [ContentType Code Message Body State with_state with_body with_diag with_omitted out];
    (repeat split; try done; try lia); right; exists safe, body, limit; rewrite Ht; done.
Qed.

(** *** No credential and no address in what is kept *)

(** What must not be in a text that is kept: a secret of the request, or an
    e-mail address. *)
Definition forbidden (secrets : list string) (m : string) : Prop :=
  (In m secrets /\ hidable m = true) \/ address (Regex.to_text m).

Lemma clip_contains value limit m :
  Contains (clipDiagnostic value limit) m = true -> Contains value m = true.
Proof.
  unfold clipDiagnostic. destruct (_ <=? _); [done|].
  destruct (trim_valid_spec (Z.to_nat limit) value) as (_ & [rest Hr]%prefix_spec & _). rewrite !Contains_spec.
  intros (a & b & Hab). exists a, (b ++ rest)%string. rewrite Hr, Hab. by rewrite <- !append_assoc.
Qed.

Lemma clean_hides secrets value m : forbidden secrets m -> Contains (clean secrets value) m = false.
Proof.
  intros Hm. apply not_true_iff_false. intros Hc%clip_contains. revert Hc. apply not_true_iff_false.
  destruct Hm as [[Hin Hh]|Ha]; [by apply RedactText_hides_secret|by apply RedactText_hides_addresses].
Qed.

Lemma empty_hides secrets m : forbidden secrets m -> Contains "" m = false.
Proof.
  intros Hm. destruct m as [|c m]; [|done]. exfalso. destruct Hm as [[_ Hh]|(local & l0 & labels & Hl & _)]; [done|].
  by destruct local.
Qed.

Lemma diagnosticString_hides n secrets safe keys m :
  sanitised n secrets safe -> forbidden secrets m -> Contains (diagnosticString safe keys) m = false.
Proof.
  intros Hs Hm. destruct n as [|n]; [cbn in Hs; subst safe; induction keys; cbn; eauto using empty_hides|].
  assert (forall k t, lookup_key safe k = Some (DText t) -> Contains t m = false) as Hl.
  { cbn in Hs. induction Hs as [|[k' d] safe [_ Hd] _ IH]; [done|]. intros k t. cbn. destruct (k' ==s k); [|apply IH].
    intros [= ->]. cbn in Hd. destruct Hd as [value ->]. by apply clean_hides. }
  induction keys as [|k keys IH]; cbn; [by eapply empty_hides|].
  destruct (lookup_key safe k) as [[t| |]|] eqn:Hk; [|done..]. destruct (t ==s ""); [done|by eapply Hl].
Qed.

Lemma nested_sanitised n secrets safe k nested :
  sanitised n secrets safe -> lookup_key safe k = Some (DObject nested) -> sanitised (pred n) secrets nested.
Proof.
  destruct n as [|n]; [by intros ->|]. cbn. induction 1 as [|[k' d] safe [_ Hd] _ IH]; [done|]. cbn.
  destruct (k' ==s k); [|done]. intros [= ->]. cbn in Hd. by destruct Hd.
Qed.

(** [code_of] and [message_of]: a text of the map or, when that is empty, one of
    the nested error. *)
Lemma choice_hides n secrets safe keys keys' m :
  sanitised n secrets safe -> forbidden secrets m ->
  Contains (let c := diagnosticString safe keys in
            match lookup_key safe "error" with
            | Some (DObject nested) => if c ==s "" then diagnosticString nested keys' else c
            | _ => c
            end) m = false.
Proof.
  intros Hs Hm. cbv zeta. pose proof (diagnosticString_hides _ _ _ keys _ Hs Hm) as Hc.
  destruct (lookup_key safe "error") as [[| |nested]|] eqn:Hk; try done.
  destruct (_ ==s ""); [|done]. eapply diagnosticString_hides; [by eapply nested_sanitised|done].
Qed.

(** The texts of a map, at any depth. *)
Inductive text_in (t : string) : list (string * diag) -> Prop :=
| text_here k m : In (k, DText t) m -> text_in t m
| text_nested k m m' : In (k, DObject m') m -> text_in t m' -> text_in t m.

Lemma text_hides n secrets safe t m :
  sanitised n secrets safe -> text_in t safe -> forbidden secrets m -> Contains t m = false.
Proof.
  intros Hs Ht Hm. revert n Hs. induction Ht as [k safe Hin|k safe safe' Hin _ IH]; intros [|n] Hs; cbn in Hs; try by subst safe.
  - apply Forall_forall with (x := (k, DText t)) in Hs as [_ [value ->]]; [|by apply list_elem_of_In]. by apply clean_hides.
  - apply Forall_forall with (x := (k, DObject safe')) in Hs as [_ [_ Hs]]; [|by apply list_elem_of_In]. by apply (IH n).
Qed.

Lemma clip_hides value limit m : Contains value m = false -> Contains (clipDiagnostic value limit) m = false.
Proof. rewrite <- !not_true_iff_false. intros Hv Hc%clip_contains. done. Qed.

(** C11. Nothing that is kept of a response reveals a credential or a person: the
    code, the message and every text of the map that is encoded as the body
    contain none of the secrets named by the caller (of at least eight token
    characters) and no e-mail address, whatever the response, its media type
    and the JSON coder are. *)
Theorem capture_hides_credentials {low : Lowering} ParseMediaType Unmarshal Marshal MarshalIndent i m :
  forbidden (in_Secrets i) m ->
  let r := CaptureHTTPResponse ParseMediaType Unmarshal Marshal MarshalIndent i in
  Contains (Code r) m = false /\ Contains (Message r) m = false /\
  (Body r = ""%string \/
   exists safe body limit, MarshalIndent safe = Some body /\ Body r = clipDiagnostic body limit /\
     forall t, text_in t safe -> Contains t m = false).
Proof.
  intros Hm r. unfold r, CaptureHTTPResponse. pose proof (empty_hides _ _ Hm) as He.
  destruct (ParseMediaType _) as [ct ok].
  repeat match goal with |- context [if ?b then _ _ (MkResponse _ _ _ _ _ _ _ _ _ _ _ _ _ _) else _] =>
    destruct b; [split; [exact He|split; [exact He|by left]]|] end.
  destruct (envelope Unmarshal Marshal i) as [object|]; [|split; [exact He|split; [exact He|by left]]].
  pose proof (safe_fields_sanitised 5 object (in_Secrets i)) as Hsafe.
  unfold safeErrorFields. change (5 - 0)%nat with 5%nat.
  destruct (safe_fields 5 object (in_Secrets i)) as [[|f fs] om]; [split; [exact He|split; [exact He|by left]]|].
  set (safe := f :: fs) in *. cbn [fst] in Hsafe.
  assert (Contains (clipDiagnostic (code_of safe) 256) m = false) as Hcode
    by (apply clip_hides; exact (choice_hides _ _ _ _ _ _ Hsafe Hm)).
  assert (Contains (clipDiagnostic (message_of safe) 1024) m = false) as Hmsg
    by (apply clip_hides; exact (choice_hides _ _ _ _ _ _ Hsafe Hm)).
  destruct (MarshalIndent safe) as [body|] eqn:Hb; [|split; [exact Hcode|split; [exact Hmsg|by left]]].
  destruct (_ <? Len body); (split; [exact Hcode|split; [exact Hmsg|right]]); exists safe, body; eexists; (split; [exact Hb|]); (split; [reflexivity|]);
    intros t Ht; by eapply text_hides.
Qed.

(** ** The metadata budget *)

Inductive mval := MAny (v : json) | MResponse (r : HTTPResponse) | MFlag.

Definition kept (k : string) : bool :=
  existsb (String.eqb k) ["http_status"; "audit_mode"; "http_response"; "query_omitted"]%string.

Definition over_budget (r : HTTPResponse) : HTTPResponse :=
  omit "metadata_budget" (with_state "omitted" (with_body "" r)).

Section Metadata.
Variable Marshal : gmap string mval -> option string.

Definition encode (meta : gmap string mval) : option string :=
  match Marshal meta with
  | Some raw => if MaxMetadataBytes <? Len raw then None else Some raw
  | None => None
  end.

(** The maps the code tries, in order. *)
Definition attempts (base : gmap string mval) (response : option HTTPResponse) : list (gmap string mval) :=
  let with_response (r : HTTPResponse -> HTTPResponse) :=
    match response with Some x => <["http_response" := MResponse (r x)]> base | None => base end in
  let m1 := with_response (fun r => r) in
  let m2 := with_response over_budget in
  let m3 := <["query_omitted" := MFlag]> (delete "query" m2) in
  let m4 := filter (fun e => kept (fst e) = true) m3 in
  [m1; m2; m3; m4].

Fixpoint first_fit (l : list (gmap string mval)) : option string :=
  match l with
  | [] => None
  | m :: l' => match encode m with Some raw => Some raw | None => first_fit l' end
  end.

Definition EncodeHTTPMetadata (base : gmap string mval) (response : option HTTPResponse) : option string :=
  first_fit (attempts base response).

Lemma first_fit_some l raw :
  first_fit l = Some raw -> exists m, In m l /\ Marshal m = Some raw /\ Len raw <= MaxMetadataBytes.
Proof.
  induction l as [|m l IH]; simpl; [done|]. unfold encode. destruct (Marshal m) as [x|] eqn:E; [|].
  - destruct (MaxMetadataBytes <? Len x) eqn:Hl; bprop.
    + intros Hf. destruct (IH Hf) as (m' & ? & ? & ?). eauto.
    + intros [= <-]. eauto.
  - intros Hf. destruct (IH Hf) as (m' & ? & ? & ?). eauto.
Qed.

Lemma kept_lookup (m : gmap string mval) k v :
  m !! k = Some v -> kept k = true -> filter (fun e => kept (fst e) = true) m !! k = Some v.
Proof. intros Hm Hk. by apply map_lookup_filter_Some. Qed.

(** Diagnostics never break the ingest contract: what is returned fits in
    16 KiB and encodes a map in which every entry is one the caller gave, the
    response (complete, or without its body and marked so) or the omission
    flag; the status and mode the caller recorded are always in it. *)
Theorem metadata_fits base response raw :
  EncodeHTTPMetadata base response = Some raw ->
  Len raw <= MaxMetadataBytes /\
  exists m, Marshal m = Some raw /\
    (forall k v, m !! k = Some v ->
       base !! k = Some v \/ (k = "query_omitted"%string /\ v = MFlag) \/
       (k = "http_response"%string /\ exists r, response = Some r /\ (v = MResponse r \/ v = MResponse (over_budget r)))) /\
    (forall k v, (k = "http_status" \/ k = "audit_mode")%string -> base !! k = Some v -> m !! k = Some v) /\
    (forall r, response = Some r -> is_Some (m !! "http_response"%string)).
Proof.
  intros Hf. apply first_fit_some in Hf as (m & Hin & Hm & Hl). split; [done|]. exists m. split; [done|].
  assert (forall f, let m0 := match response with Some x => <["http_response"%string := MResponse (f x)]> base | None => base end in
    (forall k v, m0 !! k = Some v -> base !! k = Some v \/
       (k = "http_response"%string /\ exists r, response = Some r /\ v = MResponse (f r))) /\
    (forall k v, k <> "http_response"%string -> base !! k = Some v -> m0 !! k = Some v) /\
    (forall r, response = Some r -> is_Some (m0 !! "http_response"%string))) as Hresp.
  { intros f. destruct response as [x|]; cbn; [|by repeat split; auto]. repeat split.
    - intros k v. rewrite lookup_insert_Some. intros [[<- <-]|[_ ?]]; eauto.
    - intros k v Hk Hv. by rewrite lookup_insert_ne.
    - intros r _. rewrite lookup_insert_eq. eauto. }
  destruct (Hresp (fun r => r)) as (Ha & Hb & Hc). destruct (Hresp over_budget) as (Ha' & Hb' & Hc').
  set (m1 := match response with Some x => <["http_response"%string := MResponse x]> base | None => base end) in *.
  set (m2 := match response with Some x => <["http_response"%string := MResponse (over_budget x)]> base | None => base end) in *.
  set (m3 := <["query_omitted"%string := MFlag]> (delete "query"%string m2)) in *.
  assert (forall k v, m3 !! k = Some v -> (k = "query_omitted"%string /\ v = MFlag) \/ m2 !! k = Some v) as H3.
  { intros k v. unfold m3. rewrite lookup_insert_Some, lookup_delete_Some. naive_solver. }
  assert (forall k, k <> "query_omitted"%string -> k <> "query"%string -> m3 !! k = m2 !! k) as H3'.
  { intros k H1 H2. unfold m3. by rewrite lookup_insert_ne, lookup_delete_ne. }
  assert (m = m1 \/ (forall k v, m !! k = Some v -> (k = "query_omitted"%string /\ v = MFlag) \/ m2 !! k = Some v) /\
    (forall k, (k = "http_status" \/ k = "audit_mode" \/ k = "http_response")%string -> m !! k = m2 !! k)) as [->|[Hs Hk]].
  { destruct Hin as [<-|[<-|[<-|[<-|[]]]]]; [by left|right; by auto|right|right]; fold m2 m3; split.
    - exact H3.
    - intros k Hk. apply H3'; naive_solver.
    - intros k v Hv. apply map_lookup_filter_Some in Hv as [Hv _]. by apply H3.
    - intros k Hk. rewrite <- (H3' k) by naive_solver. fold m3. destruct (m3 !! k) as [v|] eqn:E.
      + apply kept_lookup; [done|]. by destruct Hk as [->|[->| ->]].
      + apply map_lookup_filter_None. by left. }
  - repeat split; [|intros k v Hk; apply Hb; naive_solver|done].
    intros k v Hv. destruct (Ha k v Hv) as [?|(? & r & ? & ?)]; [by left|right; right]. eauto 6.
  - repeat split.
    + intros k v Hv. destruct (Hs k v Hv) as [?|Hv2]; [by auto|].
      destruct (Ha' k v Hv2) as [?|(? & r & ? & ?)]; [by left|right; right]. eauto 6.
    + intros k v Hx Hv. rewrite Hk by naive_solver. apply Hb'; [naive_solver|done].
    + intros r Hr. rewrite Hk by auto. eauto.
Qed.

End Metadata.

Lemma metadata_fits_witness :
  let small (m : gmap string mval) := match m !! "query"%string with None => Some "ok"%string | Some _ => None end in
  let base : gmap string mval := <["query"%string := MAny (JString "q")]> (<["http_status"%string := MAny (JNumber "500")]> ∅) in
  EncodeHTTPMetadata small base None = Some "ok"%string /\ Len "ok" <= MaxMetadataBytes.
Proof.
  intros small base. split; [vm_compute; reflexivity|].
  refine (proj1 (metadata_fits small base None "ok" _)). vm_compute. reflexivity.
Defined.

Definition leaky : HTTPResponseInput :=
  MkInput 502 "application/json" "" "body" 4 true 0 ["opaque-credential"]%string (MkConfig [] [] "").

Definition leaky_json : json :=
  JObject [("code", JString "bad opaque-credential"); ("message", JString "ask ann@example.com")]%string.

#[local] Instance ascii_lowering : Lowering := ToLower.

Lemma capture_hides_credentials_witness :
  let r := CaptureHTTPResponse (fun ct => (ct, true)) (fun _ => Some leaky_json) (fun _ => Some "x"%string)
             (fun _ => Some "out"%string) leaky in
  (Code r, Message r) = ("bad [REDACTED]", "ask [REDACTED]")%string /\ Contains (Code r) "opaque-credential" = false.
Proof.
  intros r. split; [vm_compute; reflexivity|].
  refine (proj1 (capture_hides_credentials (fun ct => (ct, true)) (fun _ => Some leaky_json) (fun _ => Some "x"%string)
    (fun _ => Some "out"%string) leaky "opaque-credential" _)).
  left. split; [by left|vm_compute; reflexivity].
Defined.
