(* ===== verification/TokenMint.v ===== *)
(** * Token minting (src/tokenmint)

    profile.go, descriptor.go, client.go and minter.go.  Floating-point values
    (the haircut, the rate, [expires_in]) are binary64 numbers of [SpecFloat];
    a conversion to int64 that is out of range yields the least int64, as on
    amd64.  URL parsing, JSON coding, number parsing and the HTTP exchange are
    arguments, and so is the answer of the rate limiter.

    [mintState] objects are shared by pointer: an operation in flight keeps
    the object it found although [Sweep] may have unlinked it, so the states
    live in a store and the map holds addresses. *)
From S2P Require Import Prelude GoStrings Sha256 JsonRedact.
From Stdlib Require Import SpecFloat.
Local Open Scope string_scope.
Local Open Scope Z_scope.

(** ** float64 *)
Module Float64.
Definition t : Set := spec_float.
Definition of_Z (z : Z) : t := binary_normalize 53 1024 z 0 false.
Definition mul (a b : t) : t := SFmul 53 1024 a b.
(** [a <= b] is false when one is NaN. *)
Definition leb (a b : t) : bool := SFleb a b.
Definition ltb (a b : t) : bool := SFltb a b.
Definition zero : t := S754_zero false.
Definition one : t := of_Z 1.
(** 0.9 *)
Definition nine_tenths : t := S754_finite false 8106479329266893 (-53).

(** Conversion to int64: truncation, the least int64 when out of range. *)
Definition trunc (x : t) : Z :=
  match x with
  | S754_zero _ => 0
  | S754_finite s m e =>
      let a := if 0 <=? e then Z.shiftl (Zpos m) e else Z.shiftr (Zpos m) (- e) in
      let z := if s then - a else a in
      if in_int64 z then z else minInt64
  | _ => minInt64
  end.
End Float64.

(** ** Profiles *)

Record Profile := MkProfile {
  TokenURL : string; BodyStyle : string; StaticParams : gmap string string;
  ClientIDParam : string; ClientSecretParam : string;
  AccessTokenPath : string; ExpiresInPath : string; TokenTypePath : string; ExpectedTokenType : string;
  DefaultExpiresIn : Z; ExpiresInHaircut : Float64.t; RefreshMargin : Z; MinRefreshInterval : Z;
  ErrorBackoffBase : Z; ErrorBackoffMax : Z; AuthErrorBackoff : Z; IdleTTL : Z; Timeout : Z;
  MaxResponseBytes : Z; MaxMintsPerMinute : Float64.t; SecretRefScopeSegments : Z }.

Record Config := MkConfig {
  AllowedHosts : list string; AllowPrivate : bool; Profiles : gmap string Profile; allowedHosts : gset string }.

Definition or_text (s d : string) : string := if s ==s "" then d else s.
Definition or_positive (z d : Z) : Z := if z <=? 0 then d else z.
Definition or_float (x d : Float64.t) : Float64.t := if Float64.leb x Float64.zero then d else x.

Definition profile_defaults (p : Profile) : Profile :=
  MkProfile (TokenURL p) (or_text (BodyStyle p) "json") (StaticParams p)
    (or_text (ClientIDParam p) "client_id") (or_text (ClientSecretParam p) "client_secret")
    (or_text (AccessTokenPath p) "access_token") (or_text (ExpiresInPath p) "expires_in")
    (or_text (TokenTypePath p) "token_type") (ExpectedTokenType p)
    (or_positive (DefaultExpiresIn p) (15 * Minute)) (or_float (ExpiresInHaircut p) Float64.nine_tenths)
    (or_positive (RefreshMargin p) (5 * Minute)) (or_positive (MinRefreshInterval p) Minute)
    (or_positive (ErrorBackoffBase p) (30 * Second)) (or_positive (ErrorBackoffMax p) (5 * Minute))
    (or_positive (AuthErrorBackoff p) (15 * Minute)) (or_positive (IdleTTL p) (90 * Minute))
    (or_positive (Timeout p) (8 * Second)) (or_positive (MaxResponseBytes p) (Z.shiftl 64 10))
    (or_float (MaxMintsPerMinute p) (Float64.of_Z 30)) (or_positive (SecretRefScopeSegments p) 3).

Definition applyDefaults (c : Config) : Config :=
  MkConfig (AllowedHosts c) (AllowPrivate c) (profile_defaults <$> Profiles c) (allowedHosts c).

Inductive ConfigErr :=
| NoProfiles | EmptyName | BadURL | NoHost | NotHTTPS | HostNotAllowed | BadBodyStyle | BadHaircut
| BadTimeout | BadMaxResponse | BadScope | BadMargin.

(** What the code reads of a parsed URL. *)
Record URL := MkURL { Scheme : string; Host : string; Hostname : string }.

Definition normal_host (h : string) : string := ToLower (TrimSpace h).
Definition HostAllowed (c : Config) (host : string) : bool := bool_decide (normal_host host ∈ allowedHosts c).

Section Validate.
Variable url_Parse : string -> option URL.

Definition validateProfile (c : Config) (name : string) (p : Profile) : result ConfigErr unit :=
  if TrimSpace name ==s "" then Err EmptyName
  else match url_Parse (TokenURL p) with
       | None => Err BadURL
       | Some u =>
           if Host u ==s "" then Err NoHost
           else if (Scheme u !=s "https") && negb (AllowPrivate c) then Err NotHTTPS
           else if negb (HostAllowed c (Hostname u)) then Err HostNotAllowed
           else if negb ((BodyStyle p ==s "json") || (BodyStyle p ==s "form")) then Err BadBodyStyle
           else if Float64.leb (ExpiresInHaircut p) Float64.zero || Float64.ltb Float64.one (ExpiresInHaircut p)
           then Err BadHaircut
           else if Timeout p <=? 0 then Err BadTimeout
           else if MaxResponseBytes p <=? 0 then Err BadMaxResponse
           else if SecretRefScopeSegments p <? 1 then Err BadScope
           else if DefaultExpiresIn p <=? RefreshMargin p then Err BadMargin
           else Ok tt
       end.

(** [Validate] returns the completed configuration. *)
Definition Validate (c : Config) : result ConfigErr Config :=
  if decide (Profiles c = ∅) then Err NoProfiles
  else
    let c := applyDefaults c in
    let hosts := List.filter (fun h => h !=s "") (map normal_host (AllowedHosts c)) in
    let c := MkConfig (AllowedHosts c) (AllowPrivate c) (Profiles c) (list_to_set hosts) in
    let? _ := first_err (fun e => validateProfile c (fst e) (snd e)) (map_to_list (Profiles c)) in
    Ok c.

End Validate.

(** [Profile] and [ProfileRef]. *)
Definition ProfileOf (c : Config) (name : string) : option Profile := Profiles c !! name.
Definition MaxTimeout (c : Config) : Z :=
  map_fold (fun _ p m => if m <? Timeout p then Timeout p else m) 0 (Profiles c).

(** ** Descriptors *)

Definition KindOAuth2ClientCredentials : string := "oauth2_client_credentials".

Record Descriptor := MkDescriptor { Kind : string; GrantProfile : string; ClientIDRef : string; ClientSecretRef : string }.

Inductive DescriptorErr := NilDescriptor | UnknownKind | NoGrantProfile | NoClientIDRef | NoClientSecretRef | SameRefs.

Definition ValidateDescriptor (d : option Descriptor) : result DescriptorErr unit :=
  match d with
  | None => Err NilDescriptor
  | Some d =>
      if Kind d !=s KindOAuth2ClientCredentials then Err UnknownKind
      else if TrimSpace (GrantProfile d) ==s "" then Err NoGrantProfile
      else if TrimSpace (ClientIDRef d) ==s "" then Err NoClientIDRef
      else if TrimSpace (ClientSecretRef d) ==s "" then Err NoClientSecretRef
      else if ClientIDRef d ==s ClientSecretRef d then Err SameRefs
      else Ok tt
  end.

(** ** One grant *)

Record grantResponse := MkGrant { AccessToken : string; TokenType : string; ExpiresIn : Z }.

Inductive MintErr :=
| UnknownProfile | Throttled | Backoff (cause : option MintErr)
| InvalidClient | Upstream | UpstreamStatus (status : Z) (retryAfter : Z)
| MalformedResponse | HostRefused | BadTokenURL | BadRequest.

Definition is_invalid_client (e : MintErr) : bool := match e with InvalidClient => true | _ => false end.

Record request := MkRequest { req_url : string; req_type : string; req_body : string }.
Record response := MkResponse { StatusCode : Z; RetryAfter : string; RespBody : option string }.

Definition isCredentialErrorCode (code : string) : bool :=
  existsb (String.eqb (ToLower code)) ["invalid_client"; "unauthorized_client"; "invalid_grant"; "access_denied"].

Fixpoint lookup_field (m : list (string * json)) (k : string) : option json :=
  match m with [] => None | (k', v) :: m' => if k' ==s k then Some v else lookup_field m' k end.

(** The walk of [lookupPath] along the segments. *)
Fixpoint walk_path (cur : json) (segs : list string) : option json :=
  match segs with
  | [] => Some cur
  | seg :: rest =>
      match cur with
      | JObject m => match lookup_field m seg with Some v => walk_path v rest | None => None end
      | _ => None
      end
  end.
Definition lookupPath (doc : json) (path : string) : option json :=
  if path ==s "" then None else walk_path doc (Split "." path).
Definition lookupString (doc : json) (path : string) : string :=
  match lookupPath doc path with Some (JString s) => s | _ => "" end.

(** The [error] member of a failed response, decoded into a struct: member
    names match case-insensitively, null leaves the field as it is. *)
Definition probe_error (doc : json) : option string :=
  match doc with
  | JNull => Some ""
  | JObject m =>
      fold_left (fun acc e =>
        match acc with
        | None => None
        | Some s => if EqualFold (fst e) "error" then
                      match snd e with JString s' => Some s' | JNull => Some s | _ => None end
                    else Some s
        end) m (Some "")
  | _ => None
  end.

Section Grant.
Variable url_Parse : string -> option URL.
Variable Unmarshal : string -> option json.
Variable ParseFloat : string -> option Float64.t.
(** [form.Encode] and [json.Marshal] of the parameters. *)
Variable form_Encode : gmap string string -> string.
Variable json_Marshal : gmap string string -> option string.
(** [time.Until] of an HTTP date. *)
Variable until_date : string -> option Z.

Definition extractErrorCode (body : string) : string :=
  match Unmarshal body ≫= probe_error with
  | Some e => if e ==s "" then "unspecified" else String.substring 0 64 e
  | None => "unspecified"
  end.

Definition parseRetryAfter (v : string) : Z :=
  if v ==s "" then 0
  else
    let by_date := match until_date v with Some d => if 0 <? d then d else 0 | None => 0 end in
    match ParseInt (TrimSpace v) with
    | Some secs => if 0 <? secs then wrap64 (secs * Second) else by_date
    | None => by_date
    end.

Definition classifyFailure (resp : response) (body : string) : MintErr :=
  let retryAfter := parseRetryAfter (RetryAfter resp) in
  let code := extractErrorCode body in
  if (StatusCode resp =? 401) || (StatusCode resp =? 403) || ((StatusCode resp =? 400) && isCredentialErrorCode code)
  then InvalidClient
  else UpstreamStatus (StatusCode resp) retryAfter.

Definition lookupNumber (doc : json) (path : string) : option Float64.t :=
  match lookupPath doc path with
  | Some (JNumber l) => ParseFloat l
  | Some (JString s) => ParseFloat s
  | _ => None
  end.

Definition parseGrantResponse (p : Profile) (body : string) : result MintErr grantResponse :=
  match Unmarshal body with
  | Some (JObject _ as doc) | Some (JNull as doc) =>
      let token := lookupString doc (AccessTokenPath p) in
      if token ==s "" then Err MalformedResponse
      else
        let tokenType := lookupString doc (TokenTypePath p) in
        if (ExpectedTokenType p !=s "") && (tokenType !=s "") && negb (EqualFold tokenType (ExpectedTokenType p))
        then Err MalformedResponse
        else match lookupNumber doc (ExpiresInPath p) with
             | Some secs =>
                 if Float64.leb secs Float64.zero then Err MalformedResponse
                 else Ok (MkGrant token tokenType (wrap64 (Float64.trunc secs * Second)))
             | None => Ok (MkGrant token tokenType (DefaultExpiresIn p))
             end
  | _ => Err MalformedResponse
  end.

Definition buildGrantRequest (p : Profile) (clientID clientSecret : string) : result MintErr request :=
  let params := <[ClientSecretParam p := clientSecret]> (<[ClientIDParam p := clientID]> (StaticParams p)) in
  if BodyStyle p ==s "form" then
    Ok (MkRequest (TokenURL p) "application/x-www-form-urlencoded" (form_Encode params))
  else if BodyStyle p ==s "json" then
    match json_Marshal params with
    | Some body => Ok (MkRequest (TokenURL p) "application/json" body)
    | None => Err BadRequest
    end
  else Err BadRequest.

(** What the exchange yields: no response, or one whose body may fail to be read. *)
Definition doGrant (exchange : request -> option response) (c : Config) (p : Profile) (clientID clientSecret : string)
  : result MintErr grantResponse * option request :=
  match url_Parse (TokenURL p) with
  | None => (Err BadTokenURL, None)
  | Some u =>
      if negb (HostAllowed c (Hostname u)) then (Err HostRefused, None)
      else match buildGrantRequest p clientID clientSecret with
           | Err e => (Err e, None)
           | Ok req =>
               (match exchange req with
                | None => Err Upstream
                | Some resp =>
                    match RespBody resp with
                    | None => Err Upstream
                    | Some full =>
                        let body := String.substring 0 (Z.to_nat (wrap64 (MaxResponseBytes p + 1))) full in
                        if MaxResponseBytes p <? Z.of_nat (String.length body) then Err MalformedResponse
                        else if (StatusCode resp <? 200) || (299 <? StatusCode resp)
                        then Err (classifyFailure resp body)
                        else parseGrantResponse p body
                    end
                end, Some req)
           end
  end.

End Grant.

(** ** The minter *)

Record Result := MkResult { r_AccessToken : string; r_TokenType : string; RefreshAfter : Z; HardExpiry : Z }.

Definition Fresh (r : Result) (now : Z) : bool := negb (IsZero (RefreshAfter r)) && Before now (RefreshAfter r).
Definition Usable (r : Result) (now : Z) : bool := negb (IsZero (HardExpiry r)) && Before now (HardExpiry r).

Record mintState := MkState {
  profileName : string; result_ : Result; hasResult : bool;
  lastMintAt : Z; failCount : Z; lastErr : option MintErr; nextAttemptAt : Z }.

Definition no_result : Result := MkResult "" "" 0 0.
Definition new_state (profile : string) : mintState := MkState profile no_result false 0 0 None 0.

(** The map of states, the store of the objects it points to and the next address. *)
Record Minter := MkMinter { state : gmap string nat; store : gmap nat mintState; next_addr : nat }.

Definition empty_minter : Minter := MkMinter ∅ ∅ 0%nat.

Inductive NewErr := ConfigRequired | ConfigNoProfiles.

(** [None] is a nil configuration. *)
Definition New (cfg : option Config) : result NewErr Minter :=
  match cfg with
  | None => Err ConfigRequired
  | Some c => if Nat.eqb (size (Profiles c)) 0 then Err ConfigNoProfiles else Ok empty_minter
  end.

Definition credentialKey (profile clientID : string) : string :=
  Sha256.hex (Sha256.sum256 (profile ++ String Ascii.zero clientID)).

Definition stateFor (key profile : string) (m : Minter) : nat * Minter :=
  match state m !! key with
  | Some a => (a, m)
  | None =>
      (next_addr m, MkMinter (<[key := next_addr m]> (state m)) (<[next_addr m := new_state profile]> (store m))
                      (S (next_addr m)))
  end.

Definition deref (m : Minter) (a : nat) : mintState := default (new_state "") (store m !! a).

(** [time.Duration(float64(d) * h)]. *)
Definition scale (d : Z) (h : Float64.t) : Z := Float64.trunc (Float64.mul (Float64.of_Z d) h).

Definition resultFrom (now : Z) (p : Profile) (resp : grantResponse) : Result :=
  let lifetime := scale (ExpiresIn resp) (ExpiresInHaircut p) in
  let lifetime := if lifetime <=? 0 then ExpiresIn resp else lifetime in
  let margin := if lifetime <=? RefreshMargin p then Z.quot lifetime 2 else RefreshMargin p in
  let hard := now + lifetime in
  MkResult (AccessToken resp) (TokenType resp) (hard - margin) hard.

Definition clampDuration (d lo hi : Z) : Z :=
  if d <? lo then lo else if (0 <? hi) && (hi <? d) then hi else d.

Fixpoint doubling (n : nat) (d max : Z) : Z :=
  match n with
  | O => d
  | S n' => if d <? max then doubling n' (wrap64 (d * 2)) max else d
  end.

(** [rnd] feeds [rand.Int64N]. *)
Definition backoffFor (p : Profile) (err : MintErr) (fails : Z) (rnd : Z) : Z :=
  match err with
  | InvalidClient => AuthErrorBackoff p
  | _ =>
      let retry := match err with UpstreamStatus _ r => r | _ => 0 end in
      if 0 <? retry then clampDuration retry (ErrorBackoffBase p) (ErrorBackoffMax p)
      else
        let d := doubling (Z.to_nat (fails - 1)) (ErrorBackoffBase p) (ErrorBackoffMax p) in
        let d := clampDuration d (ErrorBackoffBase p) (ErrorBackoffMax p) in
        let half := Z.quot d 2 in
        half + rnd mod (half + 1)
  end.

(** What [mintOne] decides before the request: serve, refuse, or go ahead with
    the state object and the token to fall back on.  [gate_at] is the section
    that reads the state object, with the answer of the limiter; [mint_begin]
    puts the lookup of the object before it. *)
Inductive gate := Serve (r : Result) | Refuse (e : MintErr) | Proceed (a : nat) (fallback : option Result).

Definition gate_at (a : nat) (p : Profile) (now : Z) (allow : bool) (m : Minter) : gate :=
  let st := deref m a in
  let cached := result_ st in
  let fresh := hasResult st && Fresh cached now in
  let fallback := if hasResult st && Usable cached now then Some cached else None in
  let gateErr :=
    if Before now (nextAttemptAt st) then Some (Backoff (lastErr st))
    else if negb (IsZero (lastMintAt st)) && (Sub now (lastMintAt st) <? MinRefreshInterval p) then Some Throttled
    else None in
  if fresh then Serve cached
  else match gateErr with
       | Some e => match fallback with Some r => Serve r | None => Refuse e end
       | None =>
           if allow then Proceed a fallback
           else match fallback with Some r => Serve r | None => Refuse Throttled end
       end.

Definition mint_begin (key profile : string) (p : Profile) (now : Z) (allow : bool) (m : Minter) : gate * Minter :=
  let '(a, m) := stateFor key profile m in (gate_at a p now allow m, m).

(** The part after the answer; [now] is still the instant of the start. *)
Definition mint_commit (a : nat) (p : Profile) (now : Z) (fallback : option Result)
    (answer : result MintErr grantResponse) (rnd : Z) (m : Minter) : result MintErr Result * Minter :=
  let st := deref m a in
  match answer with
  | Err e =>
      let fails := failCount st + 1 in
      let st' := MkState (profileName st) (result_ st) (hasResult st) now fails (Some e)
                   (now + backoffFor p e fails rnd) in
      (match fallback with Some r => Ok r | None => Err e end, MkMinter (state m) (<[a := st']> (store m)) (next_addr m))
  | Ok resp =>
      let r := resultFrom now p resp in
      let st' := MkState (profileName st) r true now 0 None 0 in
      (Ok r, MkMinter (state m) (<[a := st']> (store m)) (next_addr m))
  end.

(** [mintOne] run without interference, with the request it made. *)
Definition mintOne (c : Config) (grant : result MintErr grantResponse * option request)
    (key profile : string) (p : Profile) (now : Z) (allow : bool) (rnd : Z) (m : Minter)
  : (result MintErr Result * option request) * Minter :=
  match mint_begin key profile p now allow m with
  | (Serve r, m) => ((Ok r, None), m)
  | (Refuse e, m) => ((Err e, None), m)
  | (Proceed a fallback, m) =>
      let '(res, m) := mint_commit a p now fallback (fst grant) rnd m in ((res, snd grant), m)
  end.

Definition Sweep_drops (c : Config) (now : Z) (m : Minter) (a : nat) : bool :=
  let st := deref m a in
  match ProfileOf c (profileName st) with
  | None => true
  | Some p =>
      if IsZero (lastMintAt st) || (Sub now (lastMintAt st) <? IdleTTL p) then false
      else if hasResult st && Usable (result_ st) now then false
      else true
  end.

Definition Sweep (c : Config) (now : Z) (m : Minter) : Z * Minter :=
  let keep := filter (fun e => Sweep_drops c now m (snd e) = false) (state m) in
  (Z.of_nat (size (state m) - size keep), MkMinter keep (store m) (next_addr m)).

Definition Entries (m : Minter) : Z := Z.of_nat (size (state m)).

(** ** One call

    [Mint] without interference; [MintRace] has the calls that overlap. *)
Section Mint.
Variable url_Parse : string -> option URL.
Variable Unmarshal : string -> option json.
Variable ParseFloat : string -> option Float64.t.
Variable form_Encode : gmap string string -> string.
Variable json_Marshal : gmap string string -> option string.
Variable until_date : string -> option Z.

Abbreviation grant := (doGrant url_Parse Unmarshal ParseFloat form_Encode json_Marshal until_date).

Definition Mint (c : Config) (exchange : request -> option response) (name clientID clientSecret : string)
    (now : Z) (allow : bool) (rnd : Z) (m : Minter) : (result MintErr Result * option request) * Minter :=
  match ProfileOf c name with
  | None => ((Err UnknownProfile, None), m)
  | Some p => mintOne c (grant exchange c p clientID clientSecret) (credentialKey name clientID) name p now allow rnd m
  end.

(** ** Lemmas *)

Lemma Sub_le t u x : u <= t -> x <= Sub t u -> x <= t - u.
Proof. unfold Sub, minInt64, maxInt64. lia. Qed.

Lemma resultFrom_ok now p resp :
  0 <= RefreshMargin p ->
  let r := resultFrom now p resp in RefreshAfter r <= HardExpiry r \/ RefreshAfter r <= now.
Proof.
  intros Hm. unfold resultFrom. cbn. set (l := if _ <=? 0 then _ else _).
  destruct (Z.leb_spec l (RefreshMargin p)); [|left; lia].
  destruct (Z_le_gt_dec 0 l); [left; pose proof (Z.quot_pos l 2); lia|right].
  assert (l <= Z.quot l 2) by (rewrite <- (Z.opp_involutive l), Z.quot_opp_l by lia;
    pose proof (Z.quot_le_upper_bound (- l) 2 (- l)); lia). lia.
Qed.

Lemma deref_insert m a st : deref (MkMinter (state m) (<[a := st]> (store m)) (next_addr m)) a = st.
Proof. unfold deref. cbn. by rewrite lookup_insert_eq. Qed.

(** What the gate knows when it lets a request through. *)
Lemma gate_proceed a p now allow m a' fb :
  gate_at a p now allow m = Proceed a' fb ->
  a' = a /\ allow = true /\
  (lastMintAt (deref m a) = 0 \/ MinRefreshInterval p <= Sub now (lastMintAt (deref m a))) /\
  nextAttemptAt (deref m a) <= now /\
  fb = (if hasResult (deref m a) && Usable (result_ (deref m a)) now then Some (result_ (deref m a)) else None).
Proof.
  unfold gate_at. intros Hg.
  destruct (hasResult _ && Fresh _ _); [done|]. unfold Before in Hg.
  destruct (now <? nextAttemptAt (deref m a)) eqn:E1; [by repeat case_match|].
  destruct (negb (IsZero _) && _) eqn:E2; [by repeat case_match|].
  destruct allow; [|by repeat case_match]. injection Hg as -> <-. unfold IsZero in E2. bprop.
  repeat split; try done. apply andb_false_iff in E2 as [E2|E2]; bprop; [left|right]; lia.
Qed.

(** What it serves without one: the stored token, fresh or still usable. *)
Lemma gate_serve a p now allow m r :
  gate_at a p now allow m = Serve r ->
  hasResult (deref m a) = true /\ r = result_ (deref m a) /\ (now < RefreshAfter r \/ now < HardExpiry r).
Proof.
  unfold gate_at, Fresh, Usable, Before. intros Hg.
  destruct (hasResult (deref m a)) eqn:Hh; cbn in Hg; [|by repeat (case_match; simplify_eq/=)].
  destruct (_ && (now <? RefreshAfter _)) eqn:Ef; [injection Hg as <-; bprop; naive_solver|].
  destruct (_ && (now <? HardExpiry _)) eqn:Eu; [|by repeat (case_match; simplify_eq/=)].
  assert (r = result_ (deref m a)) as -> by (repeat (case_match; simplify_eq/=; try done)).
  bprop. naive_solver.
Qed.

Lemma usable_before r now : Usable r now = true -> now < HardExpiry r.
Proof. unfold Usable, Before. intros H. bprop. tauto. Qed.

Lemma doubling_ge n d max base :
  0 < base <= d -> max < 2 ^ 62 -> base <= doubling n d max.
Proof.
  revert d; induction n as [|n IH]; intros d Hd Hmax; simpl; [lia|].
  destruct (Z.ltb_spec d max); [|lia]. apply IH; [|done]. rewrite wrap64_id; [lia|]. unfold int64_range. lia.
Qed.

Lemma jitter_bounds d rnd : 0 < d -> Z.quot d 2 <= Z.quot d 2 + rnd mod (Z.quot d 2 + 1) <= d.
Proof.
  intros Hd. rewrite Z.quot_div_nonneg by lia. pose proof (Z.mod_pos_bound rnd (d / 2 + 1)).
  pose proof (Z.div_pos d 2). pose proof (Z.mul_div_le d 2). lia.
Qed.

(** Failures are backed off: rejected credentials wait exactly the
    configured time; any other failure waits at least half of the smaller of
    base and maximum and at most the larger; and until then no attempt for
    that credential goes out, under whatever profile and limiter. *)
Theorem backoff_respected p e rnd key a fb now m :
  state m !! key = Some a -> 0 < ErrorBackoffBase p -> 0 < ErrorBackoffMax p < 2 ^ 62 ->
  let b := backoffFor p e (failCount (deref m a) + 1) rnd in
  (if is_invalid_client e then b = AuthErrorBackoff p
   else Z.quot (Z.min (ErrorBackoffBase p) (ErrorBackoffMax p)) 2 <= b <= Z.max (ErrorBackoffBase p) (ErrorBackoffMax p)) /\
  forall profile p' now' allow a' fb', now' < now + b ->
    fst (mint_begin key profile p' now' allow (snd (mint_commit a p now fb (Err e) rnd m))) <> Proceed a' fb'.
Proof.
  intros Hk Hb Hm b. split.
  - unfold b, backoffFor.
    pose proof (doubling_ge (Z.to_nat (failCount (deref m a) + 1 - 1)) _ _ _ (conj Hb (Z.le_refl _)) (proj2 Hm)) as Hd.
    set (d := doubling _ _ _) in *. set (base := ErrorBackoffBase p) in *. set (max := ErrorBackoffMax p) in *.
    assert (Z.min base max <= clampDuration d base max <= Z.max base max) as Hc.
    { unfold clampDuration. destruct (Z.ltb_spec d base); [lia|]. destruct ((0 <? max) && (max <? d)) eqn:E; [lia|].
      apply andb_false_iff in E as [E|E]; bprop; lia. }
    pose proof (jitter_bounds (clampDuration d base max) rnd ltac:(lia)) as Hj.
    pose proof (Z.quot_le_mono (Z.min base max) (clampDuration d base max) 2 ltac:(lia) ltac:(lia)) as Hq.
    assert (forall r, Z.quot (Z.min base max) 2 <= clampDuration r base max <= Z.max base max) as Hr.
    { intros r. pose proof (Z.quot_le_upper_bound (Z.min base max) 2 (Z.min base max) ltac:(lia) ltac:(lia)).
      unfold clampDuration. destruct (Z.ltb_spec r base); [lia|]. destruct ((0 <? max) && (max <? r)) eqn:E; [lia|].
      apply andb_false_iff in E as [E|E]; bprop; lia. }
    destruct e; cbn [is_invalid_client]; try done; cbn; try lia. destruct (0 <? retryAfter); [apply Hr|lia].
  - intros profile p' now' allow a' fb' Hlt. unfold mint_commit. cbn [snd].
    unfold mint_begin, stateFor, gate_at. cbn [state]. rewrite Hk. rewrite deref_insert. cbn. fold b.
    unfold Before. rewrite (proj2 (Z.ltb_lt _ _) Hlt). by repeat case_match.
Qed.

(** C5. A credential only goes where the operator said: the one request a
    call of [Mint] may issue targets the token URL of the named profile, its
    host is on the configuration's allow-list and its scheme is https unless
    private endpoints were enabled. *)
Theorem credential_destination c0 c exchange name clientID secret now allow rnd m req :
  Validate url_Parse c0 = Ok c ->
  snd (fst (Mint c exchange name clientID secret now allow rnd m)) = Some req ->
  exists p u, ProfileOf c name = Some p /\ req_url req = TokenURL p /\ url_Parse (req_url req) = Some u /\
    (exists h, In h (AllowedHosts c0) /\ normal_host h = normal_host (Hostname u) /\ normal_host h <> "") /\
    (Scheme u = "https" \/ AllowPrivate c0 = true).
Proof.
  unfold Validate. destruct (decide (Profiles c0 = ∅)); [done|]. set (c1 := MkConfig _ _ _ _).
  destruct (first_err _ _) as [[]|] eqn:Hv; [|done]. intros [= <-]. apply first_err_ok in Hv.
  unfold Mint. destruct (ProfileOf c1 name) as [p|] eqn:Hp; [|done]. intros Hreq.
  assert (snd (grant exchange c1 p clientID secret) = Some req) as Hg.
  { unfold mintOne in Hreq. destruct (mint_begin _ _ _ _ _ _) as [[r|e|a fb] m']; [done|done|].
    by destruct (mint_commit a p now fb _ rnd m'). }
  unfold doGrant in Hg. destruct (url_Parse (TokenURL p)) as [u|] eqn:Hu; [|done].
  destruct (HostAllowed c1 (Hostname u)) eqn:Hh; [|done]. cbn in Hg.
  assert (req_url req = TokenURL p) as Hurl.
  { unfold buildGrantRequest in Hg. destruct (BodyStyle p ==s "form"); [by injection Hg as <-|].
    destruct (BodyStyle p ==s "json"); [|done]. destruct (json_Marshal _); [by injection Hg as <-|done]. }
  exists p, u. rewrite Hurl. do 3 (split; [done|]). split.
  - unfold HostAllowed in Hh. apply bool_decide_eq_true in Hh. cbn in Hh. apply elem_of_list_to_set, list_elem_of_In in Hh.
    apply filter_In in Hh as [Hh Hne]. apply in_map_iff in Hh as (h & Hn & Hin). exists h. bprop. rewrite Hn. done.
  - rewrite Forall_forall in Hv. specialize (Hv (name, p)). cbn [fst snd] in Hv. unfold validateProfile in Hv.
    rewrite Hu in Hv. destruct (String.eqb_spec (Scheme u) "https") as [|Hs]; [by left|right].
    destruct (AllowPrivate c0) eqn:Ha; [done|]. cbn [AllowPrivate c1 applyDefaults] in Hv. rewrite Ha in Hv. cbn in Hv.
    assert ((name, p) ∈ map_to_list (Profiles c1)) as Hin by (by apply elem_of_map_to_list).
    specialize (Hv Hin). destruct (TrimSpace name ==s ""); [done|]. by destruct (Host u ==s "").
Qed.

End Mint.

(** ** Witnesses *)

Module Demo.

Definition raw_profile : Profile :=
  MkProfile "https://auth.example/token" "" ∅ "" "" "" "" "" "" 0 Float64.zero 0 0 0 0 0 0 0 0 Float64.zero 0.
Definition raw_cfg : Config := MkConfig ["Auth.Example "] false {["p" := raw_profile]} ∅.
Definition cfg : Config :=
  MkConfig ["Auth.Example "] false {["p" := profile_defaults raw_profile]} {["auth.example"]}.

Definition parse_url (_ : string) : option URL := Some (MkURL "https" "auth.example" "auth.example").
Definition doc (expires : string) : json := JObject [("access_token", JString "tok"); ("expires_in", JNumber expires)].
Definition unmarshal (s : string) : option json := Some (doc s).
Definition half : Float64.t := S754_finite false 4503599627370496 (-53).
Definition parse_float (s : string) : option Float64.t :=
  if s ==s "0.5" then Some half else Float64.of_Z <$> ParseInt s.

(** The endpoint answers with a lifetime in seconds, or not at all. *)
Definition answers (secs : string) (_ : request) : option response := Some (MkResponse 200 "" (Some secs)).
Definition silent (_ : request) : option response := None.

Abbreviation DMint := (Mint parse_url unmarshal parse_float (fun _ => "form") (fun _ => Some "body") (fun _ => None)).
Definition one_state : Minter := MkMinter {["k" := 0%nat]} {[0%nat := new_state "p"]} 1.

Lemma backoff_respected_witness :
  backoffFor (profile_defaults raw_profile) Upstream 1 7 = 15 * Second + 7 /\
  fst (mint_begin "k" "p" (profile_defaults raw_profile) (20 * Second) true
         (snd (mint_commit 0 (profile_defaults raw_profile) (10 * Second) None (Err Upstream) 7 one_state)))
    <> Proceed 0 None.
Proof.
  split; [vm_compute; reflexivity|].
  pose proof (backoff_respected (profile_defaults raw_profile) Upstream 7 "k" 0 None (10 * Second) one_state eq_refl) as H.
  apply H; vm_compute; try reflexivity. split; reflexivity.
Defined.

Lemma credential_destination_witness :
  exists req, snd (fst (DMint cfg (answers "1800") "p" "id" "s" (10 * Second) true 0 empty_minter)) = Some req /\
    exists p u, ProfileOf cfg "p" = Some p /\ req_url req = TokenURL p /\ parse_url (req_url req) = Some u /\
      (exists h, In h (AllowedHosts raw_cfg) /\ normal_host h = normal_host (Hostname u) /\ normal_host h <> "") /\
      (Scheme u = "https" \/ AllowPrivate raw_cfg = true).
Proof.
  eexists. split; [vm_compute; reflexivity|].
  refine (credential_destination parse_url unmarshal parse_float (fun _ => "form") (fun _ => Some "body") (fun _ => None)
            raw_cfg cfg (answers "1800") "p" "id" "s" (10 * Second) true 0 empty_minter _ _ _); vm_compute; reflexivity.
Defined.

(** ** Behaviours at odds with the documentation *)

(** The cache key leaves the secret out: a caller with another secret for the
    same client ID is served the cached token. *)
Theorem other_secret_served :
  let m := snd (DMint cfg (answers "1800") "p" "id" "right" (10 * Second) true 0 empty_minter) in
  exists r, fst (DMint cfg silent "p" "id" "wrong" (20 * Second) true 0 m) = (Ok r, None).
Proof. eexists. vm_compute. reflexivity. Qed.

(** Lifetimes that pass the positivity check but not the conversion: half a
    second becomes none, ten thousand million seconds overflow. *)
Theorem bad_lifetimes_accepted :
  (exists r, parseGrantResponse unmarshal parse_float (profile_defaults raw_profile) "0.5" = Ok r /\ ExpiresIn r = 0) /\
  (exists r, parseGrantResponse unmarshal parse_float (profile_defaults raw_profile) "10000000000" = Ok r /\ ExpiresIn r < 0).
Proof. split; eexists; (split; [vm_compute; reflexivity|reflexivity]). Qed.

End Demo.
