(* ===== verification/MintRace.v ===== *)
(** * Overlapping calls of the minter (src/tokenmint/minter.go)

    [Mint] collapses the calls for one credential into a flight
    (golang.org/x/sync/singleflight, with its documented behaviour: at most one
    execution per key, callers that arrive meanwhile wait for its result and
    share it).  A flight runs [mintOne], whose critical sections are its steps:
    read the clock, look up the state object, read the gate, and, after the
    exchange with the token endpoint, write the outcome.  Time passes, other
    credentials are minted and [Sweep] runs between any two of them, and a
    caller may get its result some time after the flight has ended.

    Ghost state: the attempts to contact the endpoint, the grants received, and
    whether a sweep dropped the state of a credential with a flight. *)
From S2P Require Import Prelude GoStrings JsonRedact TokenMint.
Local Open Scope string_scope.
Local Open Scope Z_scope.

(** Where a flight is in [mintOne]; [now] is the instant it read. *)
Inductive phase :=
| FCalled
| FClocked (now : Z)
| FState (now : Z) (a : nat)
| FAsking (now : Z) (a : nat) (fallback : option Result).

Record Flight := MkFlight {
  f_profile : string; f_client : string; f_secret : string; f_phase : phase; f_callers : list nat }.

(** The result of a flight, with its key and the instant it read. *)
Record Outcome := MkOutcome { o_key : string; o_now : Z; o_result : result MintErr Result }.

Record Attempt := MkAttempt { at_key : string; at_now : Z; at_sent : Z }.
Record Grant := MkGranted { g_key : string; g_profile : Profile; g_now : Z; g_resp : grantResponse }.
Record Return := MkReturn { rt_caller : nat; rt_time : Z; rt_outcome : Outcome }.

Record Sys := MkSys {
  minter : Minter; clock : Z; flights : gmap string Flight;
  ready : list (nat * Outcome);
  returned : list Return;
  attempts : list Attempt;
  granted : list Grant;
  dropped_busy : bool }.

Definition init (t0 : Z) : Sys := MkSys empty_minter t0 ∅ [] [] [] [] false.

Inductive step :=
| Tick (d : Z)
| Call (caller : nat) (name clientID clientSecret : string)
| ReadClock (key : string)
| GetState (key : string)
| Gate (key : string) (allow : bool)
| Answer (key : string) (exchange : request -> option response) (rnd : Z)
| Deliver (n : nat)
| SweepAt (ts : Z).

Section Race.
Variable url_Parse : string -> option URL.
Variable Unmarshal : string -> option json.
Variable ParseFloat : string -> option Float64.t.
Variable form_Encode : gmap string string -> string.
Variable json_Marshal : gmap string string -> option string.
Variable until_date : string -> option Z.

Abbreviation grant := (doGrant url_Parse Unmarshal ParseFloat form_Encode json_Marshal until_date).
Variable c : Config.

Definition set_minter (m : Minter) (s : Sys) : Sys :=
  MkSys m (clock s) (flights s) (ready s) (returned s) (attempts s) (granted s) (dropped_busy s).
Definition set_flight (key : string) (f : Flight) (s : Sys) : Sys :=
  MkSys (minter s) (clock s) (<[key := f]> (flights s)) (ready s) (returned s) (attempts s) (granted s) (dropped_busy s).
Definition move (ph : phase) (f : Flight) : Flight :=
  MkFlight (f_profile f) (f_client f) (f_secret f) ph (f_callers f).

(** The function of the flight returns: the key is free again and the result is
    ready for everyone who waits. *)
Definition finish (key : string) (f : Flight) (now : Z) (r : result MintErr Result) (s : Sys) : Sys :=
  MkSys (minter s) (clock s) (delete key (flights s))
    (map (fun n => (n, MkOutcome key now r)) (f_callers f) ++ ready s)
    (returned s) (attempts s) (granted s) (dropped_busy s).

(** [Mint] up to [sf.Do]: an unknown profile fails, a running flight is joined,
    otherwise one starts. *)
Definition call (caller : nat) (name clientID clientSecret : string) (s : Sys) : Sys :=
  let key := credentialKey name clientID in
  match ProfileOf c name with
  | None =>
      MkSys (minter s) (clock s) (flights s) (ready s)
        (MkReturn caller (clock s) (MkOutcome key (clock s) (Err UnknownProfile)) :: returned s)
        (attempts s) (granted s) (dropped_busy s)
  | Some _ =>
      match flights s !! key with
      | Some f => set_flight key (MkFlight (f_profile f) (f_client f) (f_secret f) (f_phase f) (caller :: f_callers f)) s
      | None => set_flight key (MkFlight name clientID clientSecret FCalled [caller]) s
      end
  end.

(** The gate lets a request through: the attempt starts. *)
Definition send (key : string) (f : Flight) (now : Z) (a : nat) (fb : option Result) (s : Sys) : Sys :=
  MkSys (minter s) (clock s) (<[key := move (FAsking now a fb) f]> (flights s)) (ready s) (returned s)
    (MkAttempt key now (clock s) :: attempts s) (granted s) (dropped_busy s).

Definition pass_gate (key : string) (f : Flight) (p : Profile) (now : Z) (a : nat) (allow : bool) (s : Sys) : Sys :=
  match gate_at a p now allow (minter s) with
  | Serve r => finish key f now (Ok r) s
  | Refuse e => finish key f now (Err e) s
  | Proceed a fb => send key f now a fb s
  end.

(** The exchange is over: the outcome is written and the flight ends. *)
Definition commit (key : string) (f : Flight) (p : Profile) (now : Z) (a : nat) (fb : option Result)
    (answer : result MintErr grantResponse) (rnd : Z) (s : Sys) : Sys :=
  let '(r, m) := mint_commit a p now fb answer rnd (minter s) in
  let gs := match answer with Ok resp => MkGranted key p now resp :: granted s | Err _ => granted s end in
  finish key f now r
    (MkSys m (clock s) (flights s) (ready s) (returned s) (attempts s) gs (dropped_busy s)).

(** Whether a sweep at [ts] drops the state of a key that has a flight. *)
Definition drops_busy (ts : Z) (s : Sys) : bool :=
  existsb (fun k => match state (minter s) !! k with Some a => Sweep_drops c ts (minter s) a | None => false end)
    (map fst (map_to_list (flights s))).

(** [Sweep] with the instant it read before it took the lock. *)
Definition sweep (ts : Z) (s : Sys) : Sys :=
  MkSys (snd (Sweep c ts (minter s))) (clock s) (flights s) (ready s) (returned s) (attempts s) (granted s)
    (dropped_busy s || drops_busy ts s).

Definition deliver (n : nat) (s : Sys) : option Sys :=
  match ready s !! n with
  | Some (caller, o) =>
      Some (MkSys (minter s) (clock s) (flights s) (delete n (ready s))
              (MkReturn caller (clock s) o :: returned s) (attempts s) (granted s) (dropped_busy s))
  | None => None
  end.

(** One step; [None] when the flight is not at that point. *)
Definition exec (st : step) (s : Sys) : option Sys :=
  match st with
  | Tick d =>
      if d <? 0 then None
      else Some (MkSys (minter s) (clock s + d) (flights s) (ready s) (returned s) (attempts s) (granted s) (dropped_busy s))
  | Call caller name clientID clientSecret => Some (call caller name clientID clientSecret s)
  | ReadClock key =>
      match flights s !! key with
      | Some f => match f_phase f with FCalled => Some (set_flight key (move (FClocked (clock s)) f) s) | _ => None end
      | None => None
      end
  | GetState key =>
      match flights s !! key with
      | Some f =>
          match f_phase f with
          | FClocked now =>
              let '(a, m) := stateFor key (f_profile f) (minter s) in
              Some (set_flight key (move (FState now a) f) (set_minter m s))
          | _ => None
          end
      | None => None
      end
  | Gate key allow =>
      match flights s !! key with
      | Some f =>
          match f_phase f, ProfileOf c (f_profile f) with
          | FState now a, Some p => Some (pass_gate key f p now a allow s)
          | _, _ => None
          end
      | None => None
      end
  | Answer key exchange rnd =>
      match flights s !! key with
      | Some f =>
          match f_phase f, ProfileOf c (f_profile f) with
          | FAsking now a fb, Some p =>
              Some (commit key f p now a fb (fst (grant exchange c p (f_client f) (f_secret f))) rnd s)
          | _, _ => None
          end
      | None => None
      end
  | Deliver n => deliver n s
  | SweepAt ts => if clock s <? ts then None else Some (sweep ts s)
  end.

Fixpoint run (steps : list step) (s : Sys) : option Sys :=
  match steps with
  | [] => Some s
  | st :: steps' => match exec st s with Some s' => run steps' s' | None => None end
  end.

(** ** Invariants *)

Definition flight_addr (f : Flight) : option nat :=
  match f_phase f with FState _ a | FAsking _ a _ => Some a | _ => None end.
Definition flight_now (f : Flight) : option Z :=
  match f_phase f with FCalled => None | FClocked now | FState now _ | FAsking now _ _ => Some now end.

(** A state object belongs to a key that maps to it or whose flight holds it. *)
Definition owns (s : Sys) (k : string) (a : nat) : Prop :=
  state (minter s) !! k = Some a \/ exists f, flights s !! k = Some f /\ flight_addr f = Some a.

(** The token of a grant that the endpoint gave for the key. *)
Definition token_of (gs : list Grant) (k : string) (r : Result) : Prop :=
  exists g, In g gs /\ g_key g = k /\ r = resultFrom (g_now g) (g_profile g) (g_resp g).

Definition st_ok (t : Z) (gs : list Grant) (k : string) (st : mintState) : Prop :=
  lastMintAt st <= t /\ is_Some (ProfileOf c (profileName st)) /\
  (hasResult st = true -> token_of gs k (result_ st) /\
     (RefreshAfter (result_ st) <= HardExpiry (result_ st) \/ RefreshAfter (result_ st) <= lastMintAt st)).

Definition fl_ok (t : Z) (m : Minter) (gs : list Grant) (k : string) (f : Flight) : Prop :=
  is_Some (ProfileOf c (f_profile f)) /\
  match f_phase f with
  | FCalled => True
  | FClocked now => 0 < now <= t /\ forall a, state m !! k = Some a -> lastMintAt (deref m a) <= now
  | FState now a => 0 < now <= t /\ lastMintAt (deref m a) <= now
  | FAsking now a fb => 0 < now <= t /\ lastMintAt (deref m a) <= now /\
      forall r, fb = Some r -> token_of gs k r /\ now < HardExpiry r
  end.

(** What a result may be: the token this flight was granted, or a token of an
    earlier grant for the key that had not expired when the flight read the clock. *)
Definition out_ok (gs : list Grant) (o : Outcome) : Prop :=
  forall r, o_result o = Ok r ->
  exists g, In g gs /\ g_key g = o_key o /\ r = resultFrom (g_now g) (g_profile g) (g_resp g) /\
    (g_now g = o_now o \/ o_now o < HardExpiry r).

Record Good (s : Sys) : Prop := {
  g_pos : 0 < clock s;
  g_dom : forall k a, owns s k a -> (a < next_addr (minter s))%nat /\ is_Some (store (minter s) !! a);
  g_inj : forall k k' a, owns s k a -> owns s k' a -> k = k';
  g_st : forall k a, owns s k a -> st_ok (clock s) (granted s) k (deref (minter s) a);
  g_fl : forall k f, flights s !! k = Some f -> fl_ok (clock s) (minter s) (granted s) k f;
  g_ready : Forall (fun x => out_ok (granted s) (snd x) /\ o_now (snd x) <= clock s) (ready s);
  g_ret : Forall (fun x => out_ok (granted s) (rt_outcome x) /\ o_now (rt_outcome x) <= rt_time x <= clock s) (returned s) }.

Definition margins (c : Config) : Prop := forall name p, ProfileOf c name = Some p -> 0 <= RefreshMargin p.

Lemma token_of_incl gs gs' k r : incl gs gs' -> token_of gs k r -> token_of gs' k r.
Proof. intros Hi (g & Hg & H). exists g. auto. Qed.
Lemma st_ok_mono t t' gs gs' k st : t <= t' -> incl gs gs' -> st_ok t gs k st -> st_ok t' gs' k st.
Proof. intros Ht Hi (? & ? & H). split_and!; [lia|done|]. intros Hh. destruct (H Hh). eauto using token_of_incl. Qed.
Lemma fl_ok_mono t t' m gs gs' k f : t <= t' -> incl gs gs' -> fl_ok t m gs k f -> fl_ok t' m gs' k f.
Proof.
  intros Ht Hi [Hp H]. split; [done|]. destruct (f_phase f); [done|split; [lia|naive_solver]..|].
  destruct H as (? & ? & H). split_and!; [lia..|]. intros r Hr. destruct (H r Hr). eauto using token_of_incl.
Qed.
Lemma out_ok_incl gs gs' o : incl gs gs' -> out_ok gs o -> out_ok gs' o.
Proof. intros Hi H r Hr. destruct (H r Hr) as (g & ? & ?). exists g. auto. Qed.

(** Results already there stay valid as time passes and grants arrive. *)
Lemma results_mono t t' gs gs' rd rt :
  t <= t' -> incl gs gs' ->
  Forall (fun x : nat * Outcome => out_ok gs (snd x) /\ o_now (snd x) <= t) rd ->
  Forall (fun x => out_ok gs (rt_outcome x) /\ o_now (rt_outcome x) <= rt_time x <= t) rt ->
  Forall (fun x : nat * Outcome => out_ok gs' (snd x) /\ o_now (snd x) <= t') rd /\
  Forall (fun x => out_ok gs' (rt_outcome x) /\ o_now (rt_outcome x) <= rt_time x <= t') rt.
Proof.
  intros Ht Hi H1 H2. split; [eapply Forall_impl; [exact H1|]|eapply Forall_impl; [exact H2|]];
    cbn; intros x [? ?]; (split; [eauto using out_ok_incl|lia]).
Qed.

(** Steps that leave the store alone and hand out no new object. *)
Lemma good_sub s s' :
  Good s -> clock s = clock s' -> store (minter s) = store (minter s') -> next_addr (minter s) = next_addr (minter s') ->
  granted s = granted s' -> (forall k a, owns s' k a -> owns s k a) ->
  (forall k f, flights s' !! k = Some f -> fl_ok (clock s) (minter s') (granted s) k f) ->
  Forall (fun x => out_ok (granted s) (snd x) /\ o_now (snd x) <= clock s) (ready s') ->
  Forall (fun x => out_ok (granted s) (rt_outcome x) /\ o_now (rt_outcome x) <= rt_time x <= clock s) (returned s') ->
  Good s'.
Proof.
  intros [h1 h2 h3 h4 h5 h6 h7] Ht Hst Hn Hg Ho Hf Hr1 Hr2.
  split; rewrite <- ?Ht, <- ?Hst, <- ?Hn, <- ?Hg; eauto.
  intros k a Hk. unfold deref. rewrite <- Hst. by apply h4, Ho.
Qed.

Lemma good_set_flight key f s :
  Good s -> (forall a, flight_addr f = Some a -> owns s key a) ->
  fl_ok (clock s) (minter s) (granted s) key f -> Good (set_flight key f s).
Proof.
  intros HG Ha Hf. eapply good_sub; [exact HG|done..| | |apply HG|apply HG]; unfold owns; cbn.
  - intros k a [?|(f' & Hl & Hf')]; [by left|]. apply lookup_insert_Some in Hl as [[<- <-]|[_ Hl]]; [by apply Ha|].
    right. eauto.
  - intros k f'. rewrite lookup_insert_Some. intros [[<- <-]|[_ Hl]]; [done|by apply HG].
Qed.

Lemma good_finish key f now r s :
  Good s -> out_ok (granted s) (MkOutcome key now r) -> now <= clock s -> Good (finish key f now r s).
Proof.
  intros HG Ho Hn. eapply good_sub; [exact HG|done..| | | |apply HG]; unfold owns; cbn.
  - intros k a [?|(f' & Hl & Hf')]; [by left|]. apply lookup_delete_Some in Hl as [_ Hl]. right. eauto.
  - intros k f'. rewrite lookup_delete_Some. intros [_ Hl]. by apply HG.
  - apply Forall_app. split; [|apply HG]. apply Forall_forall. intros [n o] Hin.
    apply list_elem_of_fmap in Hin as (? & [= -> ->] & _). done.
Qed.

Lemma good_stateFor key name a m s :
  Good s -> is_Some (ProfileOf c name) -> stateFor key name (minter s) = (a, m) ->
  Good (set_minter m s) /\ state m !! key = Some a /\
  (forall k b, owns s k b -> deref m b = deref (minter s) b) /\ (forall k, k <> key -> state m !! k = state (minter s) !! k) /\
  (state (minter s) !! key = Some a \/ (state (minter s) !! key = None /\ deref m a = new_state name)).
Proof.
  intros HG Hp. unfold stateFor. destruct (state (minter s) !! key) as [a0|] eqn:Hk.
  { intros [= <- <-]. split; [by destruct s|]. by split_and!; [..|left]. }
  intros [= <- <-]. cbn. destruct HG as [h1 h2 h3 h4 h5 h6 h7].
  assert (forall k b, owns s k b -> b <> next_addr (minter s)) as Hne by (intros k b Hb; destruct (h2 k b Hb); lia).
  assert (forall k b, owns s k b ->
    deref (MkMinter (<[key := next_addr (minter s)]> (state (minter s)))
            (<[next_addr (minter s) := new_state name]> (store (minter s))) (S (next_addr (minter s)))) b
    = deref (minter s) b) as Hde.
  { intros k b Hb. unfold deref. cbn. rewrite lookup_insert_ne; [done|]. symmetry. by eapply Hne. }
  assert (deref (MkMinter (<[key := next_addr (minter s)]> (state (minter s)))
            (<[next_addr (minter s) := new_state name]> (store (minter s))) (S (next_addr (minter s)))) (next_addr (minter s))
    = new_state name) as Hnew by (unfold deref; cbn; by rewrite lookup_insert_eq).
  split_and!; [|by rewrite lookup_insert_eq|exact Hde|intros; by rewrite lookup_insert_ne|by right].
  set (m' := MkMinter _ _ _) in *. set (s' := set_minter m' s).
  assert (forall k b, owns s' k b -> (k = key /\ b = next_addr (minter s)) \/ owns s k b) as Ho.
  { unfold owns, s'. cbn. intros k b [Hl|Hl]; [|by right; right].
    apply lookup_insert_Some in Hl as [[<- <-]|[_ Hl]]; [by left|by right; left]. }
  split; cbn; try done.
  - intros k b [[-> ->]|Hb]%Ho; [split; [lia|]; rewrite lookup_insert_eq; eauto|].
    destruct (h2 k b Hb). split; [lia|]. rewrite lookup_insert_ne; [done|]. symmetry. by eapply Hne.
  - intros k k' b [[-> ->]|Hb]%Ho [[-> ?]|Hb']%Ho; try done.
    + by destruct (Hne _ _ Hb').
    + subst b. by destruct (Hne _ _ Hb).
    + by eapply h3.
  - intros k b [[-> ->]|Hb]%Ho; [|rewrite (Hde k) by done; by apply h4].
    rewrite Hnew. split_and!; cbn; [lia|done..].
  - intros k f Hf. destruct (h5 k f Hf) as [Hpf H]. split; [done|].
    assert (forall b, flight_addr f = Some b -> deref m' b = deref (minter s) b) as Hd.
    { intros b Hb. apply (Hde k). right. eauto. }
    unfold flight_addr in Hd. destruct (f_phase f) as [|now|now b|now b fb]; [done| |by rewrite Hd|by rewrite Hd].
    destruct H as [? H]. split; [done|]. intros b Hb. cbn in Hb.
    apply lookup_insert_Some in Hb as [[<- <-]|[_ Hb]]; [rewrite Hnew; cbn; lia|].
    rewrite (Hde k); [by apply H|by left].
Qed.

(** The write at the end of a flight, into the object the flight holds. *)
Lemma good_write key a st' now gs s :
  Good s -> owns s key a -> incl (granted s) gs -> st_ok (clock s) gs key st' -> lastMintAt st' = now ->
  (forall f n, flights s !! key = Some f -> flight_now f = Some n -> now <= n) ->
  Good (MkSys (MkMinter (state (minter s)) (<[a := st']> (store (minter s))) (next_addr (minter s)))
          (clock s) (flights s) (ready s) (returned s) (attempts s) gs (dropped_busy s)).
Proof.
  intros HG Ha Hi Hst Hl Hn. pose proof HG as [h1 h2 h3 h4 h5 h6 h7].
  set (m' := MkMinter _ _ _).
  assert (deref m' a = st') as Hda by apply deref_insert.
  assert (forall k b, owns s k b -> k <> key -> deref m' b = deref (minter s) b) as Hdb.
  { intros k b Hb Hk. unfold deref, m'. cbn. rewrite lookup_insert_ne; [done|]. intros ->. eauto. }
  split; cbn; try done.
  - intros k b Hb. destruct (h2 k b Hb) as [? ?]. split; [done|].
    destruct (decide (a = b)) as [->|]; [rewrite lookup_insert_eq; eauto|by rewrite lookup_insert_ne].
  - intros k b Hb. destruct (decide (k = key)) as [->|Hk].
    + destruct (decide (b = a)) as [->|Hba]; [by rewrite Hda|].
      replace (deref m' b) with (deref (minter s) b); [|unfold deref, m'; cbn; by rewrite lookup_insert_ne].
      eapply st_ok_mono; [done|exact Hi|by apply h4].
    + rewrite (Hdb k) by done. eapply st_ok_mono; [done|exact Hi|by apply h4].
  - intros k f Hf. specialize (h5 k f Hf). eapply fl_ok_mono in h5; [|reflexivity|exact Hi].
    destruct h5 as [Hpf H]. split; [done|].
    assert (forall b now', owns s k b -> flight_now f = Some now' -> lastMintAt (deref (minter s) b) <= now' ->
              lastMintAt (deref m' b) <= now') as Hle.
    { intros b now' Hb Hn' Hb'. destruct (decide (k = key)) as [->|]; [|by rewrite (Hdb k)].
      destruct (decide (b = a)) as [->|Hba]; [rewrite Hda, Hl; by eapply Hn|].
      unfold deref, m' in *. cbn. by rewrite lookup_insert_ne. }
    unfold flight_now in Hle.
    assert (forall b, flight_addr f = Some b -> owns s k b) as Ho by (intros b ?; right; eauto).
    unfold flight_addr in Ho. destruct (f_phase f) as [|now'|now' b|now' b fb]; [done|..].
    + destruct H as [? H]. split; [done|]. intros b Hb. apply Hle; [by left|done|by apply H].
    + destruct H. split; [done|]. apply Hle; auto.
    + destruct H as (? & ? & ?). split_and!; [lia..| |done]. apply Hle; auto.
  - by eapply results_mono.
  - by eapply results_mono.
Qed.

Lemma good_call caller name clientID secret s : Good s -> Good (call caller name clientID secret s).
Proof.
  intros HG. unfold call. destruct (ProfileOf c name) as [p|] eqn:Hp.
  - destruct (flights s !! credentialKey name clientID) as [f|] eqn:Hf; apply good_set_flight; try done.
    + intros a Ha. right. by exists f.
    + by apply HG in Hf.
  - eapply good_sub; [exact HG|done..|apply HG|apply HG|]. cbn. constructor; [|apply HG]. cbn. split; [done|lia].
Qed.

Lemma pass_gate_good key f p now a allow s :
  Good s -> flights s !! key = Some f -> f_phase f = FState now a ->
  Good (pass_gate key f p now a allow s).
Proof.
  intros HG Hf Hph. pose proof (g_fl _ HG _ _ Hf) as [Hpf H]. rewrite Hph in H. destruct H as [Hnow Hl].
  assert (owns s key a) as Ho by (right; exists f; unfold flight_addr; by rewrite Hph).
  destruct (g_st _ HG _ _ Ho) as (Hlt & _ & Hres).
  assert (forall r, hasResult (deref (minter s) a) = true -> r = result_ (deref (minter s) a) ->
            now < RefreshAfter r \/ now < HardExpiry r -> token_of (granted s) key r /\ now < HardExpiry r) as Htok.
  { intros r Hh -> Hlt'. destruct (Hres Hh) as [? ?]. split; [done|]. destruct Hlt'; lia. }
  unfold pass_gate. destruct (gate_at a p now allow (minter s)) as [r|e|a' fb] eqn:Hg.
  - apply gate_serve in Hg as (Hh & Hr & Hlt'). destruct (Htok r Hh Hr Hlt') as [(g & ? & ? & ?) ?].
    apply good_finish; [done| |lia]. intros r' [= <-]. exists g. auto.
  - apply good_finish; [done|done|lia].
  - apply gate_proceed in Hg as (-> & _ & _ & _ & Hfb).
    enough (Good (set_flight key (move (FAsking now a fb) f) s)) as [? ? ? ? ? ? ?] by by split.
    apply good_set_flight; [done| |].
    + by intros b [= <-].
    + split; [done|]. cbn. split_and!; [lia..|]. intros r ->.
      destruct (hasResult (deref (minter s) a)) eqn:Hh; cbn in Hfb; [|done].
      destruct (Usable _ now) eqn:Hu; [|done]. injection Hfb as ->. apply usable_before in Hu. auto.
Qed.

Lemma commit_good key f p now a fb answer rnd s :
  margins c -> Good s -> flights s !! key = Some f -> f_phase f = FAsking now a fb ->
  ProfileOf c (f_profile f) = Some p ->
  Good (commit key f p now a fb answer rnd s).
Proof.
  intros Hm HG Hf Hph Hp. pose proof (g_fl _ HG _ _ Hf) as [_ H]. rewrite Hph in H. destruct H as (Hnow & Hl & Hfb).
  assert (owns s key a) as Ho by (right; exists f; unfold flight_addr; by rewrite Hph).
  destruct (g_st _ HG _ _ Ho) as (_ & Hprof & Hres).
  assert (forall f0 n, flights s !! key = Some f0 -> flight_now f0 = Some n -> now <= n) as Hown.
  { intros f0 n Hf0. rewrite Hf in Hf0. injection Hf0 as <-. unfold flight_now. rewrite Hph. intros [= <-]. lia. }
  unfold commit, mint_commit. destruct answer as [resp|e]; apply good_finish; cbn [granted clock]; [| |lia| | |lia].
  - eapply good_write; [done..|by apply incl_tl, incl_refl| |reflexivity|exact Hown].
    split_and!; cbn; [lia|done|]. intros _. split; [|by apply resultFrom_ok, (Hm _ _ Hp)].
    exists (MkGranted key p now resp). cbn. auto.
  - intros r [= <-]. exists (MkGranted key p now resp). cbn. auto.
  - eapply good_write; [done..|apply incl_refl| |reflexivity|exact Hown].
    split_and!; cbn; [lia|done|]. intros Hh. destruct (Hres Hh) as [? [?|?]]; (split; [done|]); [by left|right; lia].
  - intros r. cbn. destruct fb as [r0|]; [|done]. intros [= <-].
    destruct (Hfb r0 eq_refl) as [(g & ? & ? & ?) ?]. exists g. auto.
Qed.

Lemma sweep_good ts s : Good s -> Good (sweep ts s).
Proof.
  intros HG. eapply good_sub; [exact HG|done..| | |apply HG|apply HG]; unfold owns; cbn.
  - intros k a [Hk|Hk]; [|by right]. apply map_lookup_filter_Some in Hk as [Hk _]. by left.
  - intros k f Hf. destruct (g_fl _ HG _ _ Hf) as [? H]. split; [done|].
    destruct (f_phase f); try done. destruct H as [? H]. split; [done|]. cbn. intros a Hk.
    apply map_lookup_filter_Some in Hk as [Hk _]. by apply (H a).
Qed.

Lemma exec_good st s s' : margins c -> Good s -> exec st s = Some s' -> Good s' /\ clock s <= clock s'.
Proof.
  intros Hm HG. pose proof HG as [h1 h2 h3 h4 h5 h6 h7].
  destruct st as [d|caller name clientID secret|key|key|key allow|key exchange rnd|n|ts]; cbn [exec].
  - destruct (Z.ltb_spec d 0); [done|]. intros [= <-]. split; [|cbn; lia]. split; cbn; try done; [lia|..].
    + intros k a Hk. eapply st_ok_mono; [|apply incl_refl|by apply h4]. lia.
    + intros k f Hf. eapply fl_ok_mono; [|apply incl_refl|by apply h5]. lia.
    + eapply results_mono; [|apply incl_refl|done..]. lia.
    + eapply results_mono; [|apply incl_refl|done..]. lia.
  - intros [= <-]. split; [by apply good_call|]. unfold call. by repeat case_match.
  - destruct (flights s !! key) as [f|] eqn:Hf; [|done]. destruct (f_phase f) eqn:Hph; try done.
    intros [= <-]. split; [|done]. apply good_set_flight; [done..|]. destruct (h5 _ _ Hf) as [? _].
    split; [done|]. cbn. split; [lia|]. intros a Ha. by apply (h4 key a (or_introl Ha)).
  - destruct (flights s !! key) as [f|] eqn:Hf; [|done]. destruct (f_phase f) as [|now| |] eqn:Hph; try done.
    destruct (h5 _ _ Hf) as [Hp H]. rewrite Hph in H. destruct H as [Hnow Hl].
    destruct (stateFor key (f_profile f) (minter s)) as [a m] eqn:Hs. intros [= <-]. split; [|done].
    destruct (good_stateFor _ _ _ _ _ HG Hp Hs) as (HG' & Hk & Hd & _ & Hnew).
    apply good_set_flight; [done|by intros b [= <-]; left|]. split; [done|]. cbn. split; [lia|].
    destruct Hnew as [Ho|[_ ->]]; [|cbn; lia]. rewrite (Hd key) by by left. by apply Hl.
  - destruct (flights s !! key) as [f|] eqn:Hf; [|done]. destruct (f_phase f) as [| |now a|] eqn:Hph; try done.
    destruct (ProfileOf c (f_profile f)) as [p|]; [|done]. intros [= <-]. split; [by apply pass_gate_good|].
    unfold pass_gate. by destruct (gate_at _ _ _ _ _).
  - destruct (flights s !! key) as [f|] eqn:Hf; [|done]. destruct (f_phase f) as [| | |now a fb] eqn:Hph; try done.
    destruct (ProfileOf c (f_profile f)) as [p|] eqn:Hp; [|done]. intros [= <-]. split; [by apply commit_good|].
    unfold commit, mint_commit. by destruct (fst _).
  - unfold deliver. destruct (ready s !! n) as [[caller o]|] eqn:Hn; [|done]. intros [= <-]. split; [|done].
    eapply good_sub; [exact HG|done..| |]; cbn.
    + by apply Forall_delete.
    + constructor; [|done]. cbn. rewrite Forall_lookup in h6. destruct (h6 _ _ Hn). split; [done|]. cbn in *. lia.
  - destruct (Z.ltb_spec (clock s) ts); [done|]. intros [= <-]. split; [by apply sweep_good|done].
Qed.


Lemma init_good t0 : 0 < t0 -> Good (init t0).
Proof.
  intros Ht.
  assert (forall k a, ~ owns (init t0) k a) as Ho by (intros k a [H|(f & H & _)]; done).
  split; cbn; try done; intros; by exfalso; eapply Ho.
Qed.

(** ** Attempts stay apart *)

(** The profiles' refresh floors and idle times, all at least [floor]. *)
Definition floors (floor : Z) : Prop :=
  forall name p, ProfileOf c name = Some p -> floor <= MinRefreshInterval p /\ floor <= IdleTTL p.

(** What is left of an attempt: its flight still waits for the answer, or the
    key's state remembers it, or it is long enough ago for the next flight. *)
Definition settled (floor : Z) (s : Sys) (x : Attempt) : Prop :=
  (exists f a fb, flights s !! at_key x = Some f /\ f_phase f = FAsking (at_now x) a fb) \/
  (exists a, state (minter s) !! at_key x = Some a /\ at_now x <= lastMintAt (deref (minter s) a)) \/
  (floor <= clock s - at_now x /\
   forall f now, flights s !! at_key x = Some f -> flight_now f = Some now -> floor <= now - at_now x).

Record Apart (floor : Z) (s : Sys) : Prop := {
  a_link : forall k f a, flights s !! k = Some f -> flight_addr f = Some a -> state (minter s) !! k = Some a;
  a_hist : forall x, In x (attempts s) -> settled floor s x;
  a_times : forall x, In x (attempts s) -> 0 < at_now x <= at_sent x;
  a_pairs : ForallOrdPairs (fun x y => at_key x = at_key y -> floor <= at_now x - at_now y) (attempts s) }.

(** A flight that moves from one point to the next with the instant it read,
    or reads it now. *)
Lemma apart_move floor key f f' s :
  flights s !! key = Some f \/ (flights s !! key = None /\ flight_now f' = None) ->
  (forall x, In x (attempts s) -> at_key x = key -> forall now, flight_now f' = Some now ->
     (flights s !! key = Some f /\ flight_now f = Some now) \/ (flight_now f = None /\ now = clock s)) ->
  (forall now a fb, flights s !! key = Some f -> f_phase f = FAsking now a fb -> f_phase f' = FAsking now a fb) ->
  (forall a, flight_addr f' = Some a -> state (minter s) !! key = Some a) ->
  Apart floor s -> Apart floor (set_flight key f' s).
Proof.
  intros Hf Hnow Hask Hlink [h1 h2 h3 h4]. split; cbn; try done.
  - intros k g a Hg Ha. apply lookup_insert_Some in Hg as [[<- <-]|[_ Hg]]; eauto.
  - intros x Hx. unfold settled. cbn. destruct (decide (at_key x = key)) as [Hk|Hk].
    2:{ rewrite lookup_insert_ne by done. by apply h2. }
    rewrite Hk, lookup_insert_eq. specialize (h2 x Hx). unfold settled in h2. rewrite Hk in h2.
    destruct h2 as [(g & a & fb & Hg & Hph)|[?|[Hc Hw]]]; [left|by right; left|right; right].
    + destruct Hf as [Hf|[Hf _]]; rewrite Hf in Hg; [|done]. injection Hg as <-. eauto 6.
    + split; [done|]. intros g now [= <-] Hn. destruct (Hnow x Hx Hk now Hn) as [[Hf' ?]|[_ ->]]; [by eapply Hw|done].
Qed.

Lemma apart_finish floor key f now r s :
  (forall x, In x (attempts s) -> at_key x = key ->
     (exists a, state (minter s) !! key = Some a /\ at_now x <= lastMintAt (deref (minter s) a)) \/
     floor <= clock s - at_now x) ->
  Apart floor s -> Apart floor (finish key f now r s).
Proof.
  intros Hx [h1 h2 h3 h4]. split; cbn; try done.
  - intros k g a Hg. apply lookup_delete_Some in Hg as [_ Hg]. eauto.
  - intros x Hin. unfold settled. cbn. destruct (decide (at_key x = key)) as [Hk|Hk].
    2:{ rewrite lookup_delete_ne by done. by apply h2. }
    rewrite Hk, lookup_delete_eq. destruct (Hx x Hin Hk) as [?|?]; [by right; left|by right; right].
Qed.

Lemma apart_sweep floor ts s :
  floors floor -> ts <= clock s -> Good s -> drops_busy ts s = false -> Apart floor s -> Apart floor (sweep ts s).
Proof.
  intros Hf Hts HG Hb [h1 h2 h3 h4].
  assert (forall k f a, flights s !! k = Some f -> state (minter s) !! k = Some a ->
            state (snd (Sweep c ts (minter s))) !! k = Some a) as Hkeep.
  { intros k f a Hk Ha. cbn. apply map_lookup_filter_Some. split; [done|]. cbn.
    apply not_true_iff_false. intros Hd. apply not_true_iff_false in Hb. apply Hb. unfold drops_busy.
    apply existsb_exists. exists k. split; [|by rewrite Ha].
    apply in_map_iff. exists (k, f). split; [done|]. by apply list_elem_of_In, elem_of_map_to_list. }
  split; cbn [flights sweep attempts]; try done; [intros; eapply Hkeep; eauto|].
  intros x Hx. destruct (h2 x Hx) as [?|[(a & Ha & Hle)|?]]; [by left| |by right; right].
  destruct (flights s !! at_key x) as [f|] eqn:Hfl.
  { right; left. exists a. split; [by eapply Hkeep|done]. }
  destruct (Sweep_drops c ts (minter s) a) eqn:Hd.
  2:{ right; left. exists a. split; [cbn; by apply map_lookup_filter_Some|done]. }
  right; right. cbn. rewrite Hfl. split; [|done].
  destruct (g_st _ HG _ _ (or_introl Ha)) as (Hl & [p Hp] & _). unfold Sweep_drops in Hd. rewrite Hp in Hd.
  destruct (Hf _ _ Hp) as [_ Hi].
  destruct (IsZero _ || _) eqn:E; [done|]. bprop. destruct E as [_ E].
  destruct (Z.le_gt_cases (lastMintAt (deref (minter s) a)) ts) as [Hle'|Hgt].
  - pose proof (Sub_le _ _ _ Hle' E). lia.
  - unfold Sub, minInt64, maxInt64 in E. lia.
Qed.

(** A flight before its request: older attempts are remembered by the key's
    state or far enough from the instant the flight read. *)
Lemma settled_before floor key f now s x :
  Apart floor s -> flights s !! key = Some f -> flight_now f = Some now ->
  (forall n a fb, f_phase f <> FAsking n a fb) -> In x (attempts s) -> at_key x = key ->
  (exists a, state (minter s) !! key = Some a /\ at_now x <= lastMintAt (deref (minter s) a)) \/ 
  (floor <= now - at_now x /\ floor <= clock s - at_now x).
Proof.
  intros HA Hf Hn Hph Hx Hk. destruct (a_hist _ _ HA x Hx) as [(g & a & fb & Hg & Hp)|[H|[? H]]]; rewrite Hk in *.
  - rewrite Hf in Hg. injection Hg as <-. by destruct (Hph _ _ _ Hp).
  - by left.
  - right. split; [by eapply H|done].
Qed.

Lemma apart_stateFor floor key name a m s :
  Good s -> is_Some (ProfileOf c name) -> stateFor key name (minter s) = (a, m) ->
  Apart floor s -> Apart floor (set_minter m s).
Proof.
  intros HG Hp Hs [h1 h2 h3 h4].
  destruct (good_stateFor _ _ _ _ _ HG Hp Hs) as (_ & Hk & Hd & Hother & Hnew).
  assert (forall k b, state (minter s) !! k = Some b -> state m !! k = Some b) as Hkeep.
  { intros k b Hb. destruct (decide (k = key)) as [->|]; [|by rewrite Hother].
    destruct Hnew as [Ho|[Ho _]]; congruence. }
  split; cbn; eauto. intros x Hx. destruct (h2 x Hx) as [?|[(b & Hb & Hle)|?]]; [by left|right; left|by right; right].
  exists b. cbn. split; [by apply Hkeep|]. rewrite (Hd (at_key x)); [done|by left].
Qed.

Lemma pass_gate_apart floor key f p now a allow s :
  floors floor -> Good s -> flights s !! key = Some f -> f_phase f = FState now a ->
  ProfileOf c (f_profile f) = Some p -> Apart floor s -> Apart floor (pass_gate key f p now a allow s).
Proof.
  intros Hfl HG Hf Hph Hp HA. pose proof HA as [h1 h2 h3 h4].
  pose proof (g_fl _ HG _ _ Hf) as [_ Hok]. rewrite Hph in Hok. destruct Hok as [Hnow Hl].
  assert (flight_now f = Some now) as Hn by (unfold flight_now; by rewrite Hph).
  assert (flight_addr f = Some a) as Ha by (unfold flight_addr; by rewrite Hph).
  assert (forall n b fb, f_phase f <> FAsking n b fb) as Hask by (intros ???; by rewrite Hph).
  unfold pass_gate. destruct (gate_at a p now allow (minter s)) as [r|e|a' fb] eqn:Hg.
  1,2: apply apart_finish; [|done]; intros x Hx Hk;
    destruct (settled_before _ _ _ _ _ _ HA Hf Hn Hask Hx Hk) as [?|[_ ?]]; auto.
  apply gate_proceed in Hg as (-> & _ & Hgate & _ & _).
  assert (Apart floor (set_flight key (move (FAsking now a fb) f) s)) as [m1 m2 m3 m4].
  { eapply apart_move; [by left|..]; try done.
    - intros x _ _ n Hn'. left. split; [done|]. by rewrite Hn, <- Hn'.
    - by intros ? ? ? _ ?%Hask.
    - intros b [= <-]. by eapply h1. }
  split; cbn; try done.
  - intros x [<-|Hx]; [left|by apply m2]. cbn. rewrite lookup_insert_eq. eauto 6.
  - intros x [<-|Hx]; [cbn; lia|by apply m3].
  - constructor; [|done]. apply List.Forall_forall. intros x Hx Hk. cbn in *.
    destruct (settled_before _ _ _ _ _ _ HA Hf Hn Hask Hx (eq_sym Hk)) as [(b & Hb & Hle)|[? _]]; [|done].
    rewrite (h1 _ _ _ Hf Ha) in Hb. injection Hb as <-. specialize (h3 x Hx).
    destruct (Hfl _ _ Hp) as [Hmin _]. destruct Hgate as [?|Hgate]; [lia|].
    pose proof (Sub_le _ _ _ Hl Hgate). lia.
Qed.

Lemma commit_apart floor key f p now a fb answer rnd s :
  Good s -> flights s !! key = Some f -> f_phase f = FAsking now a fb -> Apart floor s ->
  Apart floor (commit key f p now a fb answer rnd s).
Proof.
  intros HG Hf Hph HA. pose proof HA as [h1 h2 h3 h4].
  pose proof (g_fl _ HG _ _ Hf) as [_ Hok]. rewrite Hph in Hok. destruct Hok as (Hnow & Hl & _).
  assert (state (minter s) !! key = Some a) as Hk by (eapply h1; [done|]; unfold flight_addr; by rewrite Hph).
  set (st' := match answer with
    | Ok resp => MkState (profileName (deref (minter s) a)) (resultFrom now p resp) true now 0 None 0
    | Err e => MkState (profileName (deref (minter s) a)) (result_ (deref (minter s) a)) (hasResult (deref (minter s) a))
        now (failCount (deref (minter s) a) + 1) (Some e)
        (now + backoffFor p e (failCount (deref (minter s) a) + 1) rnd) end).
  set (m' := MkMinter (state (minter s)) (<[a := st']> (store (minter s))) (next_addr (minter s))).
  assert (lastMintAt (deref m' a) = now) as Hda.
  { unfold m'. rewrite deref_insert. by destruct answer. }
  assert (forall k b, owns s k b -> k <> key -> deref m' b = deref (minter s) b) as Hdb.
  { intros k b Hb Hne. unfold deref, m'. cbn. rewrite lookup_insert_ne; [done|]. intros ->.
    apply Hne. eapply (g_inj _ HG); [exact Hb|by left]. }
  assert (exists r gs, commit key f p now a fb answer rnd s = finish key f now r
    (MkSys m' (clock s) (flights s) (ready s) (returned s) (attempts s) gs (dropped_busy s))) as (r & gs & ->).
  { unfold commit, mint_commit, m', st'. destruct answer; eauto. }
  apply apart_finish; cbn.
  - intros x Hx Hxk.
    destruct (h2 x Hx) as [(g & b & fb' & Hg & Hp)|[(b & Hb & Hle)|[? _]]]; [left; exists a..|by right];
      rewrite Hxk in *; (split; [done|]); rewrite Hda.
    + rewrite Hf in Hg. injection Hg as <-. rewrite Hph in Hp. injection Hp as <- _ _. lia.
    + rewrite Hk in Hb. injection Hb as <-. lia.
  - split; cbn; try done. intros x Hx. destruct (decide (at_key x = key)) as [Hxk|Hxk].
    + destruct (h2 x Hx) as [?|[(b & Hb & Hle)|?]]; [by left|right; left|by right; right].
      exists b. cbn. split; [done|]. rewrite Hxk, Hk in Hb. injection Hb as <-. rewrite Hda. lia.
    + destruct (h2 x Hx) as [?|[(b & Hb & Hle)|?]]; [by left|right; left|by right; right].
      exists b. cbn. split; [done|]. rewrite (Hdb (at_key x)); [done|by left|done].
Qed.

Lemma exec_busy st s s' : exec st s = Some s' -> dropped_busy s' = false -> dropped_busy s = false.
Proof.
  destruct st as [d|caller name clientID secret|key|key|key allow|key exchange rnd|n|ts];
    cbn [exec]; unfold call, pass_gate, commit, mint_commit, deliver, send, finish, sweep; intros;
    case_go; try done. all: by apply orb_false_iff in H0 as [? _].
Qed.

Lemma exec_apart floor st s s' :
  floors floor -> Good s -> Apart floor s -> exec st s = Some s' -> dropped_busy s' = false -> Apart floor s'.
Proof.
  intros Hfl HG HA. pose proof HA as [h1 h2 h3 h4].
  destruct st as [d|caller name clientID secret|key|key|key allow|key exchange rnd|n|ts]; cbn [exec].
  - destruct (Z.ltb_spec d 0); [done|]. intros [= <-] _. split; cbn; try done.
    intros x Hx. destruct (h2 x Hx) as [?|[?|[? ?]]]; [by left|by right; left|right; right]. split; [cbn; lia|done].
  - intros [= <-] _. unfold call. destruct (ProfileOf c name); [|by split].
    destruct (flights s !! credentialKey name clientID) as [f|] eqn:Hf.
    + eapply (apart_move _ _ f); [by left|..]; try done; [by left|]. intros a Ha. by eapply h1.
    + eapply (apart_move _ _ (MkFlight name clientID secret FCalled [caller])); [by right|..]; try done.
  - destruct (flights s !! key) as [f|] eqn:Hf; [|done]. destruct (f_phase f) eqn:Hph; try done. intros [= <-] _.
    eapply (apart_move _ _ f); [by left|..]; try done; [|by intros ? ? ? _; rewrite Hph].
    intros x _ _ now [= <-]. right. unfold flight_now. by rewrite Hph.
  - destruct (flights s !! key) as [f|] eqn:Hf; [|done]. destruct (f_phase f) as [|now| |] eqn:Hph; try done.
    destruct (g_fl _ HG _ _ Hf) as [Hp _].
    destruct (stateFor key (f_profile f) (minter s)) as [a m] eqn:Hs. intros [= <-] _.
    destruct (good_stateFor _ _ _ _ _ HG Hp Hs) as (_ & Hk & _).
    eapply (apart_move _ _ f); [by left|..]; cbn; [| |by intros b [= <-]|by eapply apart_stateFor].
    + intros x _ _ n [= <-]. left. unfold flight_now. by rewrite Hph.
    + by intros ? ? ? _; rewrite Hph.
  - destruct (flights s !! key) as [f|] eqn:Hf; [|done]. destruct (f_phase f) as [| |now a|] eqn:Hph; try done.
    destruct (ProfileOf c (f_profile f)) as [p|] eqn:Hp; [|done]. intros [= <-] _. by eapply pass_gate_apart.
  - destruct (flights s !! key) as [f|] eqn:Hf; [|done]. destruct (f_phase f) as [| | |now a fb] eqn:Hph; try done.
    destruct (ProfileOf c (f_profile f)) as [p|] eqn:Hp; [|done]. intros [= <-] _. by eapply commit_apart.
  - unfold deliver. destruct (ready s !! n) as [[caller o]|]; [|done]. intros [= <-] _. by split.
  - destruct (Z.ltb_spec (clock s) ts); [done|]. intros [= <-] Hb. apply orb_false_iff in Hb as [_ Hb].
    by apply apart_sweep.
Qed.

Lemma run_apart floor steps s s' :
  margins c -> floors floor -> Good s -> (dropped_busy s = false -> Apart floor s) -> run steps s = Some s' ->
  dropped_busy s' = false -> Apart floor s'.
Proof.
  intros Hm Hfl. revert s. induction steps as [|st steps IH]; intros s HG HA; cbn [run]; [by intros [= <-]|].
  destruct (exec st s) as [s1|] eqn:E; [|done]. apply IH; [by eapply exec_good|].
  intros Hb. eapply exec_apart; eauto. by eapply HA, exec_busy.
Qed.


(** C19. Upstream quota is protected: in every run, whatever callers ask for, the
    endpoint answers and however flights overlap, two attempts for one credential
    key are at least the floor apart, by the instants their flights read; the
    requests themselves are that far apart less the delay between that reading
    and the earlier request.  The floor is at most every profile's refresh
    interval and at most every profile's idle time, and no sweep has dropped the
    state of a credential that had a flight. *)
Theorem mint_floor floor t0 steps s :
  margins c -> floors floor -> 0 < t0 -> run steps (init t0) = Some s -> dropped_busy s = false ->
  ForallOrdPairs (fun x y => at_key x = at_key y ->
    floor <= at_now x - at_now y /\ floor - (at_sent y - at_now y) <= at_sent x - at_sent y) (attempts s).
Proof.
  intros Hm Hf Ht Hr Hb. eapply run_apart in Hr; [|done|done|by apply init_good| |done].
  2:{ intros _. split; cbn; try done. constructor. }
  destruct Hr as [_ _ h3 h4]. revert h3. induction h4 as [|x l Hx _ IH]; intros h3; constructor.
  - rewrite List.Forall_forall in Hx |- *. intros y Hy Hk. specialize (Hx y Hy Hk).
    pose proof (h3 x (or_introl eq_refl)). lia.
  - apply IH. intros y Hy. apply h3. by right.
Qed.

End Race.

(** ** Witnesses *)
Module Demo.
Import TokenMint.Demo.

Abbreviation drun := (run parse_url unmarshal parse_float (fun _ => "form") (fun _ => Some "body") (fun _ => None) cfg).
Definition key : string := Eval vm_compute in credentialKey "p" "id".

Lemma cfg_floors : floors cfg Minute.
Proof.
  intros name p Hp. unfold ProfileOf, cfg in Hp. cbn [Profiles] in Hp.
  apply lookup_singleton_Some in Hp as [_ <-]. vm_compute. repeat split; discriminate.
Qed.
Lemma cfg_margins : margins cfg.
Proof.
  intros name p Hp. unfold ProfileOf, cfg in Hp. cbn [Profiles] in Hp.
  apply lookup_singleton_Some in Hp as [_ <-]. vm_compute. discriminate.
Qed.

(** One call from its start to the answer of the endpoint, which takes [d]. *)
Definition flight (caller : nat) (d : Z) (exchange : request -> option response) : list step :=
  [ Call caller "p" "id" "s"; ReadClock key; GetState key; Gate key true; Tick d; Answer key exchange 0; Deliver 0 ].

(** A failed attempt, one suppressed by the backoff, a successful one with a
    second caller that joins it. *)
Definition steps : list step :=
  flight 1 (2 * Second) silent ++
  [ Call 2 "p" "id" "s"; ReadClock key; GetState key; Gate key true; Deliver 0; Tick (100 * Second);
    Call 3 "p" "id" "s"; ReadClock key; GetState key; Gate key true; Tick Second; Call 4 "p" "id" "other";
    Answer key (answers "1800") 0; SweepAt Second; Deliver 0; Tick Second; Deliver 0 ].

Lemma mint_floor_witness :
  exists s, drun steps (init Second) = Some s /\ length (attempts s) = 2%nat /\
    ForallOrdPairs (fun x y => at_key x = at_key y ->
      Minute <= at_now x - at_now y /\ Minute - (at_sent y - at_now y) <= at_sent x - at_sent y) (attempts s).
Proof.
  eexists. split; [vm_compute; reflexivity|]. split; [reflexivity|].
  refine (mint_floor parse_url unmarshal parse_float (fun _ => "form") (fun _ => Some "body") (fun _ => None)
            cfg Minute Second steps _ cfg_margins cfg_floors _ _ _); vm_compute; reflexivity.
Defined.


(** ** Behaviours at odds with the documentation *)

(** A token is handed out after its hard expiry: the flight reads the clock one
    second before the expiry, the exchange fails after five seconds, and the
    stored token is served as still good. *)
Definition late_steps : list step :=
  flight 1 0 (answers "1800") ++ [Tick (1620 * Second - Second)] ++ flight 2 (5 * Second) silent.

Theorem expired_token_served :
  exists s x r, drun late_steps (init Second) = Some s /\ returned s !! 0%nat = Some x /\ rt_caller x = 2%nat /\
    o_result (rt_outcome x) = Ok r /\ HardExpiry r + 4 * Second = rt_time x.
Proof. do 3 eexists. vm_compute. repeat split. Qed.

(** A state swept while its flight is under way takes the result with it: the
    next call contacts the endpoint one second after the last attempt. *)
Definition swept_steps : list step :=
  flight 1 0 silent ++
  [ Tick (100 * Minute); Call 2 "p" "id" "s"; ReadClock key; GetState key; Gate key true; SweepAt (100 * Minute);
    Answer key (answers "1800") 0; Tick Second; Call 3 "p" "id" "s"; ReadClock key; GetState key; Gate key true ].

Theorem sweep_in_flight_breaks_floor :
  exists s x y rest, drun swept_steps (init Second) = Some s /\ dropped_busy s = true /\
    attempts s = x :: y :: rest /\ at_key x = at_key y /\ at_now x - at_now y = Second.
Proof. do 4 eexists. vm_compute. repeat split. Qed.

End Demo.
