(* ===== verification/StsClient.v ===== *)
(** * Service-to-service authentication (src/stsclient)

    client.go, retry_transport.go and the configuration block of service.go.
    Signing, HTTP exchanges and the clock are the environment's: each
    operation takes what they yield. *)
From S2P Require Import Prelude GoStrings.
Local Open Scope string_scope.
Local Open Scope Z_scope.

(** ** client.go *)

Definition tokenRefreshBuffer : Z := 30 * Second.

Definition refreshWindowForExpiresIn (expiresIn : Z) : Z :=
  let ttl := wrap64 (expiresIn * Second) in
  if tokenRefreshBuffer <? ttl then ttl - tokenRefreshBuffer
  else if 0 <? ttl then Z.quot ttl 2
  else 0.

Record Config := MkConfig {
  STSEndpoint : string; Audience : string; ServiceName : string; AssertionAudience : string;
  HasKeyPair : bool; AssertionTTL : Z }.

Record TokenSource := MkTokenSource { cfg : Config; token : string; expiry : Z; assertTTL : Z }.

Inductive StsErr :=
| NilConfig | MissingEndpoint | MissingAudience | MissingServiceName | MissingAssertionAudience | MissingKeyPair
| SignFailed | BuildFailed | RequestFailed | ReadFailed | StatusError (status : Z) | DecodeFailed | EmptyToken.

Definition New (c : option Config) : result StsErr TokenSource :=
  match c with
  | None => Err NilConfig
  | Some c =>
      if STSEndpoint c ==s "" then Err MissingEndpoint
      else if Audience c ==s "" then Err MissingAudience
      else if ServiceName c ==s "" then Err MissingServiceName
      else if AssertionAudience c ==s "" then Err MissingAssertionAudience
      else if negb (HasKeyPair c) then Err MissingKeyPair
      else
        let ttl := if AssertionTTL c =? 0 then 4 * Minute else AssertionTTL c in
        Ok (MkTokenSource c "" 0 ttl)
  end.

(** The claims of the assertion. *)
Record claims := MkClaims {
  iss : string; aud : string; sub : string; iat : Z; nbf : Z; exp : Z; jti : string }.

(** [t.Unix()] for an instant whose epoch offset is [unix0] nanoseconds. *)
Definition unix_seconds (unix0 t : Z) : Z := (t - unix0) / Second.

Definition assertion_claims (ts : TokenSource) (unix0 now : Z) (id : string) : claims :=
  MkClaims (ServiceName (cfg ts)) (AssertionAudience (cfg ts)) (ServiceName (cfg ts))
    (unix_seconds unix0 now) (unix_seconds unix0 now) (unix_seconds unix0 (now + assertTTL ts)) id.

Record tokenResponse := MkTokenResponse { AccessToken : string; TokenType : string; ExpiresIn : Z }.

(** What the exchange yields: how far it got. *)
Inductive exchange :=
| XSign                                   (* the assertion could not be signed *)
| XBuild                                  (* the request could not be built *)
| XRequest                                (* the request failed *)
| XRead                                   (* the body could not be read *)
| XResponse (status : Z) (tr : option tokenResponse).

(** [Token], under the mutex: [now] at the check, [later] after the exchange. *)
Definition Token (now later : Z) (x : exchange) (ts : TokenSource) : result StsErr string * TokenSource :=
  if (token ts !=s "") && Before now (expiry ts) then (Ok (token ts), ts)
  else match x with
       | XSign => (Err SignFailed, ts)
       | XBuild => (Err BuildFailed, ts)
       | XRequest => (Err RequestFailed, ts)
       | XRead => (Err ReadFailed, ts)
       | XResponse status tr =>
           if negb (status =? 200) then (Err (StatusError status), ts)
           else match tr with
                | None => (Err DecodeFailed, ts)
                | Some tr =>
                    if AccessToken tr ==s "" then (Err EmptyToken, ts)
                    else
                      let refresh := refreshWindowForExpiresIn (ExpiresIn tr) in
                      (Ok (AccessToken tr), MkTokenSource (cfg ts) (AccessToken tr) (later + refresh) (assertTTL ts))
                end
       end.

Definition HeaderCsarAuthorization : string := "X-Csar-Authorization".

(** [bearerTransport.RoundTrip]: the header of the clone that is sent on. *)
Definition bearer_header (tok : result StsErr string) (header : gmap string string) : result StsErr (gmap string string) :=
  let? t := tok in Ok (<[HeaderCsarAuthorization := "Bearer " ++ t]> header).

(** ** retry_transport.go *)

Definition routerRetryMaxRetries : nat := 2.
Definition routerRetryBaseDelay : Z := 100 * Millisecond.
Definition routerRetryMaxDelay : Z := Second.
Definition routerRetryBudgetCap : Z := 20.
Definition routerRetryRefill : Z := Second.

Record retryBudget := MkBudget { tokens : Z; last : Z }.
Definition new_budget (now : Z) : retryBudget := MkBudget routerRetryBudgetCap now.

Definition take (now : Z) (b : retryBudget) : bool * retryBudget :=
  let elapsed := Sub now (last b) in
  let b := if routerRetryRefill <=? elapsed
           then MkBudget (Z.min routerRetryBudgetCap (tokens b + Z.quot elapsed routerRetryRefill)) now
           else b in
  if tokens b <=? 0 then (false, b) else (true, MkBudget (tokens b - 1) (last b)).

(** What [isRetryableRequest] reads of a request. *)
Record Request := MkRequest { Method : string; IdempotencyKey : string; HasBody : bool; HasGetBody : bool }.

Definition isRetryableRequest (r : Request) : bool :=
  if existsb (String.eqb (Method r)) ["GET"; "HEAD"; "OPTIONS"; "TRACE"] then true
  else if existsb (String.eqb (Method r)) ["POST"; "PUT"; "PATCH"; "DELETE"]
  then (IdempotencyKey r !=s "") && (negb (HasBody r) || HasGetBody r)
  else false.

(** A network error: whether it is a timeout, and its text. *)
Record NetError := MkNetError { IsTimeout : bool; Text : string }.

Definition isRetryableNetworkError (e : NetError) : bool :=
  if IsTimeout e then true
  else
    let msg := ToLower (Text e) in
    Contains msg "connection reset" || Contains msg "connection refused" || Contains msg "broken pipe" ||
    Contains msg "unexpected eof".

Definition outcome : Type := result NetError Z.   (* the status of a response *)

Definition shouldRetryResponse (o : outcome) : bool :=
  match o with
  | Err e => isRetryableNetworkError e
  | Ok status => (status =? 502) || (status =? 503) || (status =? 504)
  end.

(** [rnd] feeds [rand.Int64N]. *)
Definition fullJitterDelay (attempt : nat) (rnd : Z) : Z :=
  let maxDelay := Z.shiftl routerRetryBaseDelay (Z.of_nat attempt) in
  let maxDelay := if routerRetryMaxDelay <? maxDelay then routerRetryMaxDelay else maxDelay in
  rnd mod (maxDelay + 1).

Inductive Final := Answer (o : outcome) | BodyFailed | Cancelled | Exhausted.

(** What each attempt meets: whether [GetBody] works, the exchange, the
    instant at which the budget is asked, and whether the pause is completed. *)
Record Env := MkEnv { body_ok : bool; served : outcome; asked_at : Z; slept : bool }.

(** The loop from attempt [attempt] with [left] turns to go, and the number of
    calls of the base transport it makes. *)
Fixpoint attempts (left attempt : nat) (r : Request) (env : nat -> Env) (b : retryBudget) : Final * nat * retryBudget :=
  match left with
  | O => (Exhausted, 0%nat, b)
  | S left' =>
      let e := env attempt in
      if negb (Nat.eqb attempt 0) && HasGetBody r && negb (body_ok e) then (BodyFailed, 0%nat, b)
      else if negb (shouldRetryResponse (served e)) then (Answer (served e), 1%nat, b)
      else if Nat.eqb attempt routerRetryMaxRetries then (Answer (served e), 1%nat, b)
      else
        let '(ok, b) := take (asked_at e) b in
        if negb ok then (Answer (served e), 1%nat, b)
        else if negb (slept e) then (Cancelled, 1%nat, b)
        else let '(f, n, b) := attempts left' (S attempt) r env b in (f, S n, b)
  end.

Definition RoundTrip (r : Request) (env : nat -> Env) (b : retryBudget) : Final * nat * retryBudget :=
  if negb (isRetryableRequest r) then (Answer (served (env 0%nat)), 1%nat, b)
  else attempts (S routerRetryMaxRetries) 0 r env b.

(** ** service.go *)

Record ServiceAuthConfig := MkServiceAuth {
  RouterBaseURL : string; sa_STSEndpoint : string; sa_Audience : string; sa_ServiceName : string;
  sa_AssertionAudience : string; RouterTimeout : Z; PrivateKeyFile : string; PublicKeyFile : string }.

Definition requiredFields (c : ServiceAuthConfig) : list (string * string) :=
  [("router_base_url", RouterBaseURL c); ("sts_endpoint", sa_STSEndpoint c); ("audience", sa_Audience c);
   ("service_name", sa_ServiceName c); ("assertion_audience", sa_AssertionAudience c);
   ("jwt.private_key_file", PrivateKeyFile c); ("jwt.public_key_file", PublicKeyFile c)].

(** The names of the missing fields when the block is partly filled. *)
Definition Validate (c : ServiceAuthConfig) : result (list string) unit :=
  let filled := List.filter (fun f => snd f !=s "") (requiredFields c) in
  let missing := List.filter (fun f => snd f ==s "") (requiredFields c) in
  match filled, missing with
  | [], _ => Ok tt
  | _, [] => Ok tt
  | _, _ => Err (map fst missing)
  end.

Definition IsConfigured (c : ServiceAuthConfig) : bool := sa_STSEndpoint c !=s "".

(** ** Lemmas *)

(** The service block is all or nothing. *)
Lemma service_auth_ok a :
  Validate a = Ok tt <->
  Forall (fun f => snd f = "") (requiredFields a) \/ Forall (fun f => snd f <> "") (requiredFields a).
Proof.
  assert (Forall (fun f => snd f = "") (requiredFields a) <-> List.filter (fun f => snd f !=s "") (requiredFields a) = []) as ->.
  { rewrite filter_nil. apply Forall_proper; [|done]. intros f. by rewrite negb_false_iff, String.eqb_eq. }
  assert (Forall (fun f => snd f <> "") (requiredFields a) <-> List.filter (fun f => snd f ==s "") (requiredFields a) = []) as ->.
  { rewrite filter_nil. apply Forall_proper; [|done]. intros f. by rewrite String.eqb_neq. }
  unfold Validate. destruct (List.filter (fun f => snd f !=s "") _); [tauto|].
  destruct (List.filter _ _); [tauto|]. split; [done|]. by intros [|].
Qed.

(** With the block all or nothing, IsConfigured means that all of it is there. *)
Lemma outbox_ok {E} (e : E) b backend a :
  Validate a = Ok tt ->
  (if b && ((backend !=s "postgres") || negb (IsConfigured a)) then Err e else Ok tt) = Ok tt <->
  (b = true -> backend = "postgres" /\ Forall (fun f => snd f <> "") (requiredFields a)).
Proof.
  rewrite service_auth_ok. intros Ha. unfold IsConfigured. destruct b; [|done]. cbn [andb].
  destruct (eqb_cases backend "postgres") as [[-> ->]|[-> ?]]; cbn [negb orb]; [|split; [done|intros Ho; by destruct (Ho eq_refl)]].
  destruct (eqb_cases (sa_STSEndpoint a) "") as [[-> He]|[-> He]]; cbn [negb]; split; try done; intros Ho.
  - destruct (Ho eq_refl) as [_ Hf]. by apply Forall_cons in Hf as [_ [? _]%Forall_cons].
  - destruct Ha as [Ha|Ha]; [|done]. by apply Forall_cons in Ha as [_ [? _]%Forall_cons].
Qed.

Lemma refresh_bounds e :
  0 <= e -> e * Second < 2 ^ 63 ->
  0 <= refreshWindowForExpiresIn e <= e * Second /\ (0 < e -> refreshWindowForExpiresIn e < e * Second) /\
  (30 < e -> refreshWindowForExpiresIn e = e * Second - 30 * Second).
Proof.
  intros He Hr. unfold refreshWindowForExpiresIn, tokenRefreshBuffer, Second in *.
  rewrite wrap64_id by (unfold int64_range; lia).
  destruct (Z.ltb_spec (30 * 1000000000) (e * 1000000000)); [lia|]. destruct (Z.ltb_spec 0 (e * 1000000000)); [|lia].
  rewrite Z.quot_div_nonneg by lia. pose proof (Z.div_lt (e * 1000000000) 2). pose proof (Z.div_pos (e * 1000000000) 2). lia.
Qed.

(** ** Runs of a token source *)

(** One call: its instants and what the exchange would yield. *)
Record call := MkCall { at_ : Z; done_at : Z; got : exchange }.

Record TSys := MkTSys { source : TokenSource; tclock : Z; issued : list (string * (Z * Z)) }.

Definition cached (now : Z) (ts : TokenSource) : bool := (token ts !=s "") && Before now (expiry ts).

(** What a call adds to the ghost history: the token obtained, when, and for how many seconds. *)
Definition obtained (c : call) (ts : TokenSource) : list (string * (Z * Z)) :=
  if cached (at_ c) ts then []
  else match got c with
       | XResponse 200 (Some tr) =>
           if AccessToken tr ==s "" then [] else [(AccessToken tr, (done_at c, ExpiresIn tr))]
       | _ => []
       end.

Definition texec (c : call) (s : TSys) : option (result StsErr string * TSys) :=
  if (at_ c <? tclock s) || (done_at c <? at_ c) then None
  else
    let '(res, ts) := Token (at_ c) (done_at c) (got c) (source s) in
    Some (res, MkTSys ts (done_at c) (obtained c (source s) ++ issued s)).

Fixpoint trun (cs : list call) (s : TSys) : option TSys :=
  match cs with
  | [] => Some s
  | c :: cs' => match texec c s with Some (_, s') => trun cs' s' | None => None end
  end.

(** The cached token was issued, and its cache lifetime is the refresh window. *)
Definition TInv (s : TSys) : Prop :=
  token (source s) <> "" ->
  exists t e, In (token (source s), (t, e)) (issued s) /\ t <= tclock s /\
    expiry (source s) = t + refreshWindowForExpiresIn e.

Lemma Token_cases now later x ts :
  let '(res, ts') := Token now later x ts in
  (cached now ts = true /\ res = Ok (token ts) /\ ts' = ts) \/
  (cached now ts = false /\
   ((exists e, res = Err e /\ ts' = ts) \/
    exists tr, x = XResponse 200 (Some tr) /\ AccessToken tr <> "" /\ res = Ok (AccessToken tr) /\
      ts' = MkTokenSource (cfg ts) (AccessToken tr) (later + refreshWindowForExpiresIn (ExpiresIn tr)) (assertTTL ts))).
Proof.
  unfold Token, cached. destruct (_ && _); [by left|].
  destruct x as [| | | |status tr]; try (right; split; [done|]; left; by eexists).
  destruct (Z.eqb_spec status 200) as [->|]; cbn; [|right; split; [done|]; left; by eexists].
  destruct tr as [tr|]; [|right; split; [done|]; left; by eexists].
  destruct (String.eqb_spec (AccessToken tr) ""); right; (split; [done|]); [left; by eexists|right; by exists tr].
Qed.

Lemma texec_inv c s res s' :
  TInv s -> texec c s = Some (res, s') ->
  TInv s' /\ forall tok, res = Ok tok ->
    exists t e, In (tok, (t, e)) (issued s') /\
      (t = done_at c \/ (t <= at_ c /\ at_ c < t + refreshWindowForExpiresIn e)).
Proof.
  intros HI. unfold texec. destruct (Z.ltb_spec (at_ c) (tclock s)); [done|].
  destruct (Z.ltb_spec (done_at c) (at_ c)); [done|]. cbn [orb].
  pose proof (Token_cases (at_ c) (done_at c) (got c) (source s)) as Hc.
  destruct (Token _ _ _ _) as [r ts]. intros [= -> <-]. unfold obtained.
  destruct Hc as [(Hca & -> & ->)|[Hca [(e & -> & ->)|(tr & Hx & Hne & -> & ->)]]]; rewrite Hca.
  - unfold cached, Before in Hca. bprop. destruct Hca as [Hne Hlt].
    destruct (HI Hne) as (t & e & Hin & Ht & He). split; [exists t, e; cbn; repeat split; try done; lia|].
    intros tok [= <-]. exists t, e. split; [done|]. right. rewrite <- He. lia.
  - split; [|done]. intros Hne. destruct (HI Hne) as (t & e0 & Hin & Ht & He). exists t, e0. cbn.
    split; [apply in_or_app; by right|]. split; [lia|done].
  - rewrite Hx, (proj2 (String.eqb_neq _ _) Hne). split.
    + intros _. exists (done_at c), (ExpiresIn tr). cbn. split; [by left|]. split; [lia|done].
    + intros tok [= <-]. exists (done_at c), (ExpiresIn tr). split; [by left|by left].
Qed.

Lemma trun_inv cs s s' : TInv s -> trun cs s = Some s' -> TInv s'.
Proof.
  revert s; induction cs as [|c cs IH]; simpl; intros s HI; [by intros [= <-]|].
  destruct (texec c s) as [[res s1]|] eqn:E; [|done]. apply IH. by destruct (texec_inv _ _ _ _ HI E).
Qed.

(** A token that [Token] returns was just obtained, or it is one obtained
    earlier that is not past its nominal lifetime: with a sane [expires_in] it
    has time left, 30 seconds of it when the lifetime exceeds that. *)
Theorem token_still_valid c0 ts0 t0 cs s c res s' tok :
  New c0 = Ok ts0 -> trun cs (MkTSys ts0 t0 []) = Some s -> texec c s = Some (res, s') -> res = Ok tok ->
  exists t e, In (tok, (t, e)) (issued s') /\
    (t = done_at c \/
     (t <= at_ c /\
      (0 <= e -> e * Second < 2 ^ 63 -> at_ c < t + e * Second /\ (30 < e -> at_ c < t + e * Second - 30 * Second)))).
Proof.
  intros Hn Hr He Hres. assert (TInv s) as HI.
  { apply (trun_inv _ _ _) in Hr; [done|]. intros Hne. exfalso. apply Hne. unfold New in Hn. by case_go. }
  destruct (texec_inv _ _ _ _ HI He) as [_ Hok]. destruct (Hok _ Hres) as (t & e & Hin & Ht).
  exists t, e. split; [done|]. destruct Ht as [?|[? Hlt]]; [by left|right]. split; [done|].
  intros H0 Hmax. destruct (refresh_bounds e H0 Hmax) as (Hb & _ & Hl). split; [lia|]. intros H30. rewrite Hl in Hlt by done. lia.
Qed.

Definition demo_cfg : Config := MkConfig "https://authn/sts/token" "aud" "svc:x" "https://authn" true 0.
Definition demo_call (t : Z) : call := MkCall (t * Second) (t * Second) (XResponse 200 (Some (MkTokenResponse "tok" "Bearer" 300))).

Lemma token_still_valid_witness :
  exists ts s s', New (Some demo_cfg) = Ok ts /\ trun [demo_call 10] (MkTSys ts 0 []) = Some s /\
    texec (demo_call 200) s = Some (Ok "tok", s') /\
    exists t e, In ("tok", (t, e)) (issued s') /\
      (t = done_at (demo_call 200) \/
       (t <= at_ (demo_call 200) /\
        (0 <= e -> e * Second < 2 ^ 63 -> at_ (demo_call 200) < t + e * Second /\
          (30 < e -> at_ (demo_call 200) < t + e * Second - 30 * Second)))).
Proof.
  do 3 eexists. split; [vm_compute; reflexivity|]. split; [vm_compute; reflexivity|]. split; [vm_compute; reflexivity|].
  refine (token_still_valid (Some demo_cfg) _ 0 [demo_call 10] _ (demo_call 200) (Ok "tok") _ "tok" _ _ _ _);
    vm_compute; reflexivity.
Defined.

(** ** Retries *)

(** The instants at which a budget is asked, in order, and how many retries it grants. *)
Fixpoint granted (times : list Z) (b : retryBudget) : nat :=
  match times with
  | [] => 0%nat
  | t :: times' => let '(ok, b') := take t b in ((if ok then 1 else 0) + granted times' b')%nat
  end.

Fixpoint ordered (t0 : Z) (times : list Z) : Prop :=
  match times with [] => True | t :: times' => t0 <= t /\ ordered t times' end.

Definition final_time (t0 : Z) (times : list Z) : Z := List.last times t0.

Lemma take_spec now b :
  last b <= now -> tokens b <= routerRetryBudgetCap ->
  let '(ok, b') := take now b in
  last b <= last b' <= now /\ tokens b' <= routerRetryBudgetCap /\
  (if ok then 1 else 0) + tokens b' <= tokens b + (last b' - last b) / Second.
Proof.
  intros Hl Ht. unfold take. set (el := Sub now (last b)).
  assert (el <= now - last b) as Hel by (unfold el, Sub, minInt64, maxInt64; lia).
  destruct (Z.leb_spec routerRetryRefill el) as [Hge|Hlt]; cbn [tokens last].
  - unfold routerRetryRefill in *. assert (0 < Second) by done.
    rewrite Z.quot_div_nonneg by lia. pose proof (Z.div_le_mono el (now - last b) Second ltac:(lia) Hel).
    destruct (Z.leb_spec (Z.min routerRetryBudgetCap (tokens b + el / Second)) 0); cbn [tokens last]; lia.
  - destruct (Z.leb_spec (tokens b) 0); cbn [tokens last]; replace (last b - last b) with 0 by lia;
      change (0 / Second) with 0; lia.
Qed.

Lemma take_nonneg now b : 0 <= tokens b -> 0 <= tokens (snd (take now b)).
Proof.
  intros H0. unfold take. destruct (Z.leb_spec routerRetryRefill (Sub now (last b))) as [Hge|Hlt]; cbn [tokens last].
  - pose proof (Z.quot_pos (Sub now (last b)) routerRetryRefill ltac:(unfold routerRetryRefill, Second in *; lia) ltac:(done)).
    unfold routerRetryBudgetCap. destruct (Z.leb_spec (Z.min 20 (tokens b + Z.quot (Sub now (last b)) routerRetryRefill)) 0);
      cbn [tokens snd]; lia.
  - destruct (Z.leb_spec (tokens b) 0); cbn [tokens snd]; lia.
Qed.

Lemma div_superadditive a b c : 0 < c -> a / c + b / c <= (a + b) / c.
Proof.
  intros Hc. apply Z.div_le_lower_bound; [done|]. pose proof (Z.mul_div_le a c Hc). pose proof (Z.mul_div_le b c Hc). lia.
Qed.

Lemma last_cons_default {A} (l : list A) x d : List.last (x :: l) d = List.last l x.
Proof. revert x d; induction l as [|y l IH]; intros x d; [done|]. change (List.last (y :: l) d = List.last (y :: l) x). by rewrite !IH. Qed.

Lemma granted_bound times b t :
  last b <= t -> tokens b <= routerRetryBudgetCap -> 0 <= tokens b -> ordered t times ->
  Z.of_nat (granted times b) <= tokens b + (final_time t times - last b) / Second.
Proof.
  unfold final_time. revert b t; induction times as [|u times IH]; intros b t Hl Ht H0 Hord.
  - simpl. pose proof (Z.div_pos (t - last b) Second ltac:(lia) ltac:(done)). lia.
  - destruct Hord as [Htu Hord]. cbn [granted]. pose proof (take_spec u b ltac:(lia) Ht) as Hts.
    pose proof (take_nonneg u b H0) as H0'.
    destruct (take u b) as [ok b']. destruct Hts as (Hlb & Htb & Hsum). cbn in H0'.
    specialize (IH b' u ltac:(lia) Htb H0' Hord).
    replace (List.last (u :: times) t) with (List.last times u) by (symmetry; apply last_cons_default).
    pose proof (div_superadditive (last b' - last b) (List.last times u - last b') Second ltac:(done)) as Hd.
    replace (last b' - last b + (List.last times u - last b')) with (List.last times u - last b) in Hd by lia.
    destruct ok; lia.
Qed.

(** Retries cannot storm the router: from a fresh transport, the retries
    granted by any instant are at most 20 plus one per elapsed second. *)
Theorem retry_budget_bound t0 times :
  ordered t0 times ->
  Z.of_nat (granted times (new_budget t0)) <= routerRetryBudgetCap + (final_time t0 times - t0) / Second.
Proof. intros Ho. by apply (granted_bound times (new_budget t0) t0). Qed.

Lemma retry_budget_bound_witness :
  granted (replicate 25 (5 * Second)) (new_budget 0) = 20%nat /\
  Z.of_nat (granted (replicate 25 (5 * Second)) (new_budget 0)) <= 20 + (final_time 0 (replicate 25 (5 * Second)) - 0) / Second.
Proof.
  split; [vm_compute; reflexivity|]. apply (retry_budget_bound 0). repeat split; vm_compute; discriminate.
Defined.

Lemma attempts_calls left : forall attempt r env b,
  (attempt + left = S routerRetryMaxRetries)%nat ->
  let '(f, n, b') := attempts left attempt r env b in
  (n <= left)%nat /\
  match f with
  | Answer o => (1 <= n)%nat /\ o = served (env (attempt + n - 1)%nat) /\
      (forall i, (attempt <= i < attempt + n - 1)%nat -> shouldRetryResponse (served (env i)) = true) /\
      (shouldRetryResponse o = false \/ n = left \/ exists b0, fst (take (asked_at (env (attempt + n - 1)%nat)) b0) = false)
  | Exhausted => left = 0%nat
  | _ => True
  end.
Proof.
  induction left as [|left IH]; intros attempt r env b Hsum; [done|]. cbn [attempts].
  destruct (negb (Nat.eqb attempt 0) && HasGetBody r && negb (body_ok (env attempt))); [split; [lia|done]|].
  assert (forall i, (attempt <= i < attempt + 1 - 1)%nat -> shouldRetryResponse (served (env i)) = true) as Hnone by lia.
  destruct (shouldRetryResponse (served (env attempt))) eqn:Hs; cbn [negb].
  2:{ split; [lia|]. replace (attempt + 1 - 1)%nat with attempt in * by lia. auto. }
  destruct (Nat.eqb_spec attempt routerRetryMaxRetries) as [E|Hne].
  { split; [lia|]. replace (attempt + 1 - 1)%nat with attempt in * by lia. repeat split; auto. right; left. lia. }
  destruct (take (asked_at (env attempt)) b) as [ok b1] eqn:Htk. destruct ok; cbn [negb].
  2:{ split; [lia|]. replace (attempt + 1 - 1)%nat with attempt in * by lia. repeat split; auto. right; right.
      exists b. by rewrite Htk. }
  destruct (slept (env attempt)); cbn [negb]; [|split; [lia|done]].
  specialize (IH (S attempt) r env b1 ltac:(lia)). destruct (attempts left (S attempt) r env b1) as [[f n] b2].
  destruct IH as [Hn Hf]. split; [lia|]. destruct f as [o| | |]; [|done|done|unfold routerRetryMaxRetries in *; lia].
  destruct Hf as (H1 & -> & H3 & H4). replace (S attempt + n - 1)%nat with (attempt + S n - 1)%nat in * by lia.
  split; [lia|]. split; [done|]. split.
  - intros i Hi. destruct (decide (i = attempt)) as [->|]; [done|]. apply H3. lia.
  - destruct H4 as [?|[?|?]]; auto.
Qed.

(** The retry loop: it makes between one and three calls (a failed
    rewinding of the body or a cancelled pause may end it early), a request
    that is not idempotent is sent exactly once, an answer handed back is that
    of the last call, all earlier ones having been retryable, and it is not
    retryable itself unless the attempts or the budget ran out; the loop never
    falls off its end. *)
Theorem RoundTrip_bounded r env b f n b' :
  RoundTrip r env b = (f, n, b') ->
  (n <= 3)%nat /\ f <> Exhausted /\
  (isRetryableRequest r = false -> n = 1%nat /\ b' = b /\ f = Answer (served (env 0%nat))) /\
  (forall o, f = Answer o -> (1 <= n)%nat /\ o = served (env (n - 1)%nat) /\
     (forall i, (i < n - 1)%nat -> shouldRetryResponse (served (env i)) = true) /\
     (isRetryableRequest r = true ->
      shouldRetryResponse o = false \/ n = 3%nat \/ exists b0, fst (take (asked_at (env (n - 1)%nat)) b0) = false)).
Proof.
  unfold RoundTrip. destruct (isRetryableRequest r) eqn:Hr; cbn [negb].
  - pose proof (attempts_calls (S routerRetryMaxRetries) 0 r env b eq_refl) as Ha. intros Hx. rewrite Hx in Ha.
    destruct Ha as [Hn Hf]. split; [exact Hn|]. split; [by intros ->|]. split; [done|].
    intros o ->. destruct Hf as (H1 & H2 & H3 & H4). cbn [Nat.add] in *. repeat split; auto. intros i Hi. apply H3. lia.
  - intros [= <- <- <-]. split; [lia|]. split; [done|]. split; [done|]. intros o [= <-].
    split; [lia|]. split; [done|]. split; [lia|done].
Qed.

Definition flaky (i : nat) : Env := MkEnv true (if Nat.ltb i 2 then Ok 503 else Ok 200) 0 true.

Lemma RoundTrip_bounded_witness :
  exists b', RoundTrip (MkRequest "GET" "" false false) flaky (new_budget 0) = (Answer (Ok 200), 3%nat, b') /\ (3 <= 3)%nat.
Proof.
  eexists. split; [vm_compute; reflexivity|].
  refine (proj1 (RoundTrip_bounded (MkRequest "GET" "" false false) flaky (new_budget 0) (Answer (Ok 200)) 3 _ _)).
  vm_compute. reflexivity.
Defined.

(** The configuration block is all or nothing. *)
Lemma Validate_all_or_nothing c :
  Validate c = Ok tt <->
  Forall (fun f => snd f = "") (requiredFields c) \/ Forall (fun f => snd f <> "") (requiredFields c).
Proof.
  unfold Validate.
  assert (forall l, List.filter (fun f : string * string => snd f !=s "") l = [] <-> Forall (fun f => snd f = "") l) as H1.
  { induction l as [|[k v] l IH]; simpl; [done|]. rewrite Forall_cons, <- IH. simpl.
    destruct (String.eqb_spec v ""); simpl; [tauto|]. split; [done|tauto]. }
  assert (forall l, List.filter (fun f : string * string => snd f ==s "") l = [] <-> Forall (fun f => snd f <> "") l) as H2.
  { induction l as [|[k v] l IH]; simpl; [done|]. rewrite Forall_cons, <- IH. simpl.
    destruct (String.eqb_spec v ""); simpl; [split; [done|tauto]|tauto]. }
  rewrite <- H1, <- H2.
  destruct (List.filter (fun f => snd f !=s "") (requiredFields c)); [tauto|].
  destruct (List.filter (fun f => snd f ==s "") (requiredFields c)); [tauto|].
  split; [done|intros [?|?]; done].
Qed.
