(* ===== verification/NetGuard.v ===== *)
(** * Outbound requests (src/httpx/clientx, the dialer of src/tokenmint)

    ssrf.go with the parts of package net it uses, the dial guard of
    tokenmint/client.go, and the request wrapper of clientx.go.  An address is
    the list of its bytes, 4 or 16 of them. *)
From S2P Require Import Prelude GoStrings JsonRedact.
Local Open Scope string_scope.
Local Open Scope Z_scope.

(** ** net.IP *)

Definition IP : Type := list Z.
Definition byte_ok (b : Z) : Prop := 0 <= b < 256.

Definition v4_prefix : list Z := [0; 0; 0; 0; 0; 0; 0; 0; 0; 0; 255; 255].

(** [To4]: a 4-byte address, or the last bytes of a mapped one. *)
Definition To4 (ip : IP) : option IP :=
  if Nat.eqb (length ip) 4 then Some ip
  else if Nat.eqb (length ip) 16 && bool_decide (take 12 ip = v4_prefix) then Some (drop 12 ip)
  else None.

Definition IP_Equal (a b : IP) : bool :=
  if Nat.eqb (length a) (length b) then bool_decide (a = b)
  else if Nat.eqb (length a) 4 && Nat.eqb (length b) 16 then
    bool_decide (take 12 b = v4_prefix) && bool_decide (a = drop 12 b)
  else if Nat.eqb (length a) 16 && Nat.eqb (length b) 4 then
    bool_decide (take 12 a = v4_prefix) && bool_decide (drop 12 a = b)
  else false.

Definition v6_loopback : IP := [0; 0; 0; 0; 0; 0; 0; 0; 0; 0; 0; 0; 0; 0; 0; 1].

Definition IsLoopback (ip : IP) : bool :=
  match To4 ip with
  | Some (b :: _) => b =? 127
  | Some [] => false
  | None => IP_Equal ip v6_loopback
  end.

Record IPNet := MkNet { net_ip : IP; net_mask : list Z }.

Fixpoint masked_eq (a m x : list Z) : bool :=
  match a, m, x with
  | a0 :: a', m0 :: m', x0 :: x' => (Z.land a0 m0 =? Z.land x0 m0) && masked_eq a' m' x'
  | _, _, _ => true
  end.

Definition Contains (n : IPNet) (ip : IP) : bool :=
  let x := default ip (To4 ip) in
  if negb (Nat.eqb (length x) (length (net_ip n))) then false else masked_eq (net_ip n) (net_mask n) x.

(** ** ssrf.go *)

Inductive InternalIPClass := ClassMetadata | ClassLoopback | ClassLinkLocal | ClassPrivate.
Record InternalIPClasses := MkClasses { Private : bool; Loopback : bool; LinkLocal : bool; Metadata : bool }.
Definition AllInternalIPClasses : InternalIPClasses := MkClasses true true true true.

Definition private10 := MkNet [10; 0; 0; 0] [255; 0; 0; 0].
Definition private172 := MkNet [172; 16; 0; 0] [255; 240; 0; 0].
Definition private192 := MkNet [192; 168; 0; 0] [255; 255; 0; 0].
Definition linkLocal4 := MkNet [169; 254; 0; 0] [255; 255; 0; 0].
Definition linkLocal6 := MkNet (254 :: 128 :: replicate 14 0) (255 :: 192 :: replicate 14 0).
Definition metadataAddr : IP := (v4_prefix ++ [169; 254; 169; 254])%list.

Definition first_byte (ip : IP) : Z := match ip with b :: _ => b | [] => 0 end.

(** [None] is nil: the address may be dialled. *)
Definition CheckInternalIP (ip : IP) (classes : InternalIPClasses) : option InternalIPClass :=
  if Metadata classes && IP_Equal ip metadataAddr then Some ClassMetadata
  else if Loopback classes && IsLoopback ip then Some ClassLoopback
  else if LinkLocal classes && (Contains linkLocal4 ip || Contains linkLocal6 ip) then Some ClassLinkLocal
  else if Private classes && (Contains private10 ip || Contains private172 ip || Contains private192 ip)
  then Some ClassPrivate
  else if Private classes && (Nat.eqb (length ip) 16 && (Z.land (first_byte ip) 254 =? 252)) then Some ClassPrivate
  else None.

(** ** The dial guard of tokenmint *)

Inductive DialErr := BadAddress | ResolveFailed | NoAddresses | RefusedInternal (c : InternalIPClass).
Inductive target := ByName (addr : string) | ByIP (ip : IP) (port : string).

(** [split] is [net.SplitHostPort], [resolve] the resolver. *)
Definition dial (split : string -> option (string * string)) (resolve : string -> option (list IP))
    (allowPrivate : bool) (addr : string) : result DialErr target :=
  match split addr with
  | None => Err BadAddress
  | Some (host, port) =>
      if allowPrivate then Ok (ByName addr)
      else match resolve host with
           | None => Err ResolveFailed
           | Some [] => Err NoAddresses
           | Some ((ip0 :: _) as ips) =>
               let? _ := first_err (fun ip => match CheckInternalIP ip AllInternalIPClasses with
                                              | Some c => Err (RefusedInternal c) | None => Ok tt end) ips in
               Ok (ByIP ip0 port)
           end
  end.

(** ** Classification, address by address *)

Lemma forall_byte (f : Z -> bool) : forallb (fun i => f (Z.of_nat i)) (seq 0 256) = true -> forall b, byte_ok b -> f b = true.
Proof.
  rewrite forallb_forall. intros Hall b [Hb1 Hb2]. specialize (Hall (Z.to_nat b)).
  rewrite Z2Nat.id in Hall by done. apply Hall, in_seq. lia.
Qed.

Definition eqb_bool (a b : bool) : bool := Bool.eqb a b.

Lemma mask8 b : byte_ok b -> Z.land b 255 = b.
Proof. intros Hb. apply Z.eqb_eq. revert b Hb. apply forall_byte. vm_compute. reflexivity. Qed.
Lemma mask0 b : Z.land b 0 = 0.
Proof. apply Z.land_0_r. Qed.

Lemma mask4_172 b : byte_ok b -> (16 =? Z.land b 240) = ((16 <=? b) && (b <? 32)).
Proof. intros Hb. apply eqb_prop. revert b Hb. apply (forall_byte (fun b => eqb_bool _ _)). vm_compute. reflexivity. Qed.
Lemma mask2_fe80 b : byte_ok b -> (128 =? Z.land b 192) = ((128 <=? b) && (b <? 192)).
Proof. intros Hb. apply eqb_prop. revert b Hb. apply (forall_byte (fun b => eqb_bool _ _)). vm_compute. reflexivity. Qed.
Lemma mask7_fc b : byte_ok b -> (Z.land b 254 =? 252) = ((252 <=? b) && (b <? 254)).
Proof. intros Hb. apply eqb_prop. revert b Hb. apply (forall_byte (fun b => eqb_bool _ _)). vm_compute. reflexivity. Qed.

(** The internal addresses, in the ranges the documentation names. *)
Definition internal4 (a b : Z) : bool :=
  (a =? 127) || (a =? 10) || ((a =? 172) && (16 <=? b) && (b <? 32)) || ((a =? 192) && (b =? 168)) ||
  ((a =? 169) && (b =? 254)).
Definition internal6 (ip : IP) : bool :=
  match ip with
  | a :: b :: _ => bool_decide (ip = v6_loopback) || ((a =? 254) && (128 <=? b) && (b <? 192)) || ((252 <=? a) && (a <? 254))
  | _ => false
  end.

Definition mapped (a b c d : Z) : IP := (v4_prefix ++ [a; b; c; d])%list.

Definition rejected (o : option InternalIPClass) : bool := match o with Some _ => true | None => false end.

Lemma To4_mapped a b c d : To4 (mapped a b c d) = Some [a; b; c; d].
Proof. unfold To4, mapped. cbn [length app v4_prefix Nat.eqb andb take drop]. by rewrite bool_decide_true. Qed.

Lemma Contains_To4 n ip x : To4 ip = Some x -> To4 x = Some x -> Contains n ip = Contains n x.
Proof. intros H1 H2. unfold Contains. by rewrite H1, H2. Qed.

Lemma Equal_mapped a b c d x : length x = 16%nat -> IP_Equal (mapped a b c d) x = IP_Equal [a; b; c; d] x.
Proof.
  intros Hx. unfold IP_Equal. rewrite Hx. cbn [length app v4_prefix mapped Nat.eqb andb].
  rewrite <- bool_decide_and. apply bool_decide_ext. split.
  - intros <-. done.
  - intros [H1 H2]. rewrite <- (take_drop 12 x), H1, <- H2. done.
Qed.

(** An IPv4 address and its IPv6-mapped form are classified alike. *)
Lemma Check_mapped a b c d classes : CheckInternalIP (mapped a b c d) classes = CheckInternalIP [a; b; c; d] classes.
Proof.
  unfold CheckInternalIP. rewrite Equal_mapped by done.
  rewrite !(Contains_To4 _ (mapped a b c d) [a; b; c; d]) by (done || apply To4_mapped).
  unfold IsLoopback. rewrite To4_mapped. cbn [To4 length Nat.eqb]. done.
Qed.

Lemma Check4 a b c d :
  byte_ok a -> byte_ok b -> rejected (CheckInternalIP [a; b; c; d] AllInternalIPClasses) = internal4 a b.
Proof.
  intros Ha Hb. unfold CheckInternalIP, AllInternalIPClasses, internal4. cbn [Private Loopback LinkLocal Metadata andb].
  assert (IP_Equal [a; b; c; d] metadataAddr = true -> a = 169 /\ b = 254) as Hmeta.
  { unfold IP_Equal, metadataAddr. cbn. rewrite andb_true_iff, !bool_decide_eq_true. by intros [_ [= -> -> _ _]]. }
  unfold Contains, IsLoopback. cbn [To4 length Nat.eqb default negb net_ip net_mask private10 private172 private192
    linkLocal4 linkLocal6 masked_eq replicate from_option]. unfold id. cbn [length Nat.eqb negb masked_eq].
  rewrite ?mask0, ?mask8 by done.
  change (Z.land 172 255) with 172. change (Z.land 16 240) with 16. change (Z.land 10 255) with 10.
  change (Z.land 192 255) with 192. change (Z.land 168 255) with 168. change (Z.land 169 255) with 169.
  change (Z.land 254 255) with 254. rewrite mask4_172 by done.
  rewrite (Z.eqb_sym 10 a), (Z.eqb_sym 172 a), (Z.eqb_sym 192 a), (Z.eqb_sym 168 b), (Z.eqb_sym 169 a), (Z.eqb_sym 254 b).
  destruct (IP_Equal [a; b; c; d] metadataAddr).
  - destruct (Hmeta eq_refl) as [-> ->]. reflexivity.
  - destruct (a =? 127), (a =? 10), (a =? 172), (a =? 192), (a =? 169), (b =? 168), (b =? 254), (16 <=? b), (b <? 32); reflexivity.
Qed.

Lemma masked_zero n l : masked_eq (replicate n 0) (replicate n 0) l = true.
Proof. revert l; induction n as [|n IH]; intros [|x l]; simpl; try done. rewrite mask0, IH. done. Qed.

Lemma Check6 a b l :
  length (a :: b :: l) = 16%nat -> byte_ok a -> byte_ok b -> To4 (a :: b :: l) = None ->
  rejected (CheckInternalIP (a :: b :: l) AllInternalIPClasses) = internal6 (a :: b :: l).
Proof.
  intros Hlen Ha Hb H4. unfold CheckInternalIP, AllInternalIPClasses, internal6. cbn [Private Loopback LinkLocal Metadata andb].
  assert (IP_Equal (a :: b :: l) metadataAddr = false) as ->.
  { unfold IP_Equal. rewrite Hlen. change (Nat.eqb 16 (length metadataAddr)) with true. apply bool_decide_eq_false.
    intros E. by rewrite E in H4. }
  unfold IsLoopback, Contains. rewrite H4. cbn [default from_option].
  assert (IP_Equal (a :: b :: l) v6_loopback = bool_decide (a :: b :: l = v6_loopback)) as ->
    by (unfold IP_Equal; by rewrite Hlen).
  rewrite Hlen. change (length (net_ip linkLocal4)) with 4%nat. change (length (net_ip linkLocal6)) with 16%nat.
  change (length (net_ip private10)) with 4%nat. change (length (net_ip private172)) with 4%nat.
  change (length (net_ip private192)) with 4%nat. cbn [Nat.eqb negb orb first_byte andb].
  cbn [net_ip net_mask linkLocal6 masked_eq]. rewrite masked_zero, andb_true_r.
  rewrite (mask8 a) by done. change (Z.land 254 255) with 254. change (Z.land 128 192) with 128.
  rewrite mask2_fe80, mask7_fc by done. rewrite (Z.eqb_sym 254 a).
  destruct (bool_decide _), (a =? 254), (128 <=? b), (b <? 192), (252 <=? a), (a <? 254); reflexivity.
Qed.

(** The guard rejects exactly the documented ranges: of IPv4, in plain or
    IPv6-mapped form, loopback, RFC 1918 and link-local (with it the metadata
    address); of other IPv6 addresses, the loopback, fe80::/10 and fc00::/7. *)
Theorem CheckInternalIP_exact :
  (forall a b c d, byte_ok a -> byte_ok b ->
     rejected (CheckInternalIP [a; b; c; d] AllInternalIPClasses) = internal4 a b /\
     rejected (CheckInternalIP (mapped a b c d) AllInternalIPClasses) = internal4 a b) /\
  (forall a b l, length (a :: b :: l) = 16%nat -> byte_ok a -> byte_ok b -> To4 (a :: b :: l) = None ->
     rejected (CheckInternalIP (a :: b :: l) AllInternalIPClasses) = internal6 (a :: b :: l)).
Proof.
  split; [|exact Check6]. intros a b c d Ha Hb. rewrite Check_mapped. split; by apply Check4.
Qed.

Lemma CheckInternalIP_exact_witness :
  rejected (CheckInternalIP [10; 1; 2; 3] AllInternalIPClasses) = true /\
  rejected (CheckInternalIP (mapped 93 184 216 34) AllInternalIPClasses) = false.
Proof.
  assert (forall z, (0 <=? z) && (z <? 256) = true -> byte_ok z) as Hb by (unfold byte_ok; intros z Hz; bprop; lia).
  split.
  - refine (proj1 (proj1 CheckInternalIP_exact 10 1 2 3 _ _)); apply Hb; reflexivity.
  - refine (proj2 (proj1 CheckInternalIP_exact 93 184 216 34 _ _)); apply Hb; reflexivity.
Defined.

(** An address as the resolver delivers it: 4 or 16 bytes. *)
Definition ip_ok (ip : IP) : Prop := (length ip = 4%nat \/ length ip = 16%nat) /\ Forall byte_ok ip.

(** The internal addresses: of IPv4, in plain or IPv6-mapped form, 127.0.0.0/8,
    10.0.0.0/8, 172.16.0.0/12, 192.168.0.0/16 and 169.254.0.0/16 (with the
    metadata address); ::1, fe80::/10 and fc00::/7.  The unspecified address is
    not among them. *)
Definition internal_addr (ip : IP) : Prop :=
  (exists a b c d,
     (ip = [a; b; c; d] \/ ip = [0; 0; 0; 0; 0; 0; 0; 0; 0; 0; 255; 255; a; b; c; d]) /\
     (a = 127 \/ a = 10 \/ (a = 172 /\ 16 <= b <= 31) \/ (a = 192 /\ b = 168) \/ (a = 169 /\ b = 254))) \/
  ip = [0; 0; 0; 0; 0; 0; 0; 0; 0; 0; 0; 0; 0; 0; 0; 1] \/
  (exists b rest, ip = 254 :: b :: rest /\ length rest = 14%nat /\ 128 <= b <= 191) \/
  (exists a rest, ip = a :: rest /\ length rest = 15%nat /\ 252 <= a <= 253).

Lemma internal4_iff a b :
  internal4 a b = true <->
  a = 127 \/ a = 10 \/ (a = 172 /\ 16 <= b <= 31) \/ (a = 192 /\ b = 168) \/ (a = 169 /\ b = 254).
Proof.
  unfold internal4. rewrite !orb_true_iff, !andb_true_iff, !Z.eqb_eq, !Z.leb_le, !Z.ltb_lt. lia.
Qed.

Lemma internal_addr_v4 a b c d : internal_addr [a; b; c; d] <-> internal4 a b = true.
Proof.
  rewrite internal4_iff. split.
  - intros [(? & ? & ? & ? & [[= <- <- <- <-]|?] & ?)|[?|[(? & r & E & Hr & _)|(? & r & E & Hr & _)]]]; try done;
      apply (f_equal length) in E; simpl in E; lia.
  - intros H. left. exists a, b, c, d. auto.
Qed.

Lemma internal_addr_mapped a b c d : internal_addr (mapped a b c d) <-> internal4 a b = true.
Proof.
  rewrite internal4_iff. split.
  - intros [(? & ? & ? & ? & [?|[= <- <- <- <-]] & ?)|[?|[(? & ? & ? & _)|(? & ? & Hip & _ & Hr)]]]; try done.
    injection Hip as <- _. lia.
  - intros H. left. exists a, b, c, d. auto.
Qed.

Lemma internal_addr_v6 a b l :
  length (a :: b :: l) = 16%nat -> To4 (a :: b :: l) = None -> internal_addr (a :: b :: l) <-> internal6 (a :: b :: l) = true.
Proof.
  intros Hlen H4. unfold internal6.
  rewrite !orb_true_iff, bool_decide_eq_true, !andb_true_iff, !Z.eqb_eq, !Z.leb_le, !Z.ltb_lt. split.
  - intros [(x & y & z & u & [E|E] & _)|[E|[(x & r & [= -> -> ->] & _ & ?)|(x & r & [= -> <-] & _ & ?)]]].
    + by rewrite E in Hlen.
    + rewrite E in H4. change (To4 (mapped x y z u) = None) in H4. by rewrite To4_mapped in H4.
    + by left; left.
    + left; right. lia.
    + right. lia.
  - simpl in Hlen. intros [[E|?]|?].
    + right; left. exact E.
    + right; right; left. exists b, l. split; [f_equal; lia|]. lia.
    + right; right; right. exists a, (b :: l). simpl. split; [done|]. lia.
Qed.

(** The guard passes exactly the addresses that are not internal. *)
Lemma guard_exact ip : ip_ok ip -> CheckInternalIP ip AllInternalIPClasses = None <-> ~ internal_addr ip.
Proof.
  intros [Hlen Hb].
  assert (rejected (CheckInternalIP ip AllInternalIPClasses) = true <-> internal_addr ip) as H.
  { destruct Hlen as [Hlen|Hlen].
    - destruct ip as [|a [|b [|c [|d [|]]]]]; try done. rewrite !Forall_cons in Hb. destruct Hb as (Ha & Hb & _).
      rewrite internal_addr_v4, Check4 by done. done.
    - destruct ip as [|a [|b l]]; try done. rewrite !Forall_cons in Hb. destruct Hb as (Ha & Hb' & Hl).
      destruct (To4 (a :: b :: l)) as [x|] eqn:H4; [|by rewrite Check6, internal_addr_v6].
      unfold To4 in H4. rewrite Hlen in H4. cbn [Nat.eqb andb] in H4. case_bool_decide as Hp; [|done].
      assert (exists c d e f, a :: b :: l = mapped c d e f) as (c & d & e & f & E).
      { rewrite <- (take_drop 12 (a :: b :: l)), Hp.
        assert (length (drop 12 (a :: b :: l)) = 4%nat) as Hd by (by rewrite length_drop, Hlen).
        destruct (drop 12 (a :: b :: l)) as [|c [|d [|e [|f [|]]]]]; try done. by exists c, d, e, f. }
      assert (byte_ok c /\ byte_ok d) as [Hc Hd].
      { assert (Forall byte_ok (a :: b :: l)) as Hall by (rewrite !Forall_cons; done). rewrite E in Hall.
        unfold mapped in Hall. apply Forall_app in Hall as [_ Hall]. rewrite !Forall_cons in Hall. tauto. }
      rewrite E, internal_addr_mapped, Check_mapped, Check4 by done. done. }
  rewrite <- H. by destruct (CheckInternalIP ip AllInternalIPClasses).
Qed.

(** C20. Unless private endpoints were enabled, a credential is not sent to a
    loopback, private or link-local address: the dialer
    connects exactly when the name resolves
    and none of its addresses is internal, in the ranges of [internal_addr], and
    then by address, to the first one, so a rebinding name server gains nothing.
    The unspecified address 0.0.0.0 is not in those ranges and is dialled. *)
Theorem dial_never_internal split resolve addr t :
  (forall host ips, resolve host = Some ips -> Forall ip_ok ips) ->
  dial split resolve false addr = Ok t <->
  exists host port ip ips, split addr = Some (host, port) /\ resolve host = Some (ip :: ips) /\ t = ByIP ip port /\
    Forall (fun i => ~ internal_addr i) (ip :: ips).
Proof.
  intros Hok. unfold dial. split.
  - destruct (split addr) as [[host port]|]; [|done]. destruct (resolve host) as [[|ip ips]|] eqn:Hr; try done.
    destruct (first_err _ _) as [[]|e] eqn:Hf; [|done]. intros [= <-]. exists host, port, ip, ips. repeat split; try done.
    apply first_err_ok in Hf. specialize (Hok _ _ Hr). rewrite Forall_forall in Hok, Hf |- *.
    intros i Hi. apply guard_exact; [by apply Hok|]. specialize (Hf i Hi). by destruct (CheckInternalIP i _).
  - intros (host & port & ip & ips & -> & Hr & -> & Hn). rewrite Hr. specialize (Hok _ _ Hr).
    rewrite (proj2 (first_err_ok _ _)); [done|]. rewrite Forall_forall in Hok, Hn |- *.
    intros i Hi. by rewrite (proj2 (guard_exact i (Hok i Hi)) (Hn i Hi)).
Qed.

Lemma dial_never_internal_witness :
  let split (s : string) := Some (s, "443") in
  let resolve (h : string) := Some [[93; 184; 216; 34]] in
  dial split resolve false "auth.example" = Ok (ByIP [93; 184; 216; 34] "443") <->
  exists host port ip ips, split "auth.example" = Some (host, port) /\ resolve host = Some (ip :: ips) /\
    ByIP [93; 184; 216; 34] "443" = ByIP ip port /\ Forall (fun i => ~ internal_addr i) (ip :: ips).
Proof.
  intros split resolve. refine (dial_never_internal split resolve "auth.example" (ByIP [93; 184; 216; 34] "443") _).
  intros host ips [= <-]. repeat constructor; unfold byte_ok; lia.
Defined.

(** The guard passes the public address and refuses the metadata service. *)
Example guard_runs :
  dial (fun s => Some (s, "443")) (fun _ => Some [[93; 184; 216; 34]]) false "a" = Ok (ByIP [93; 184; 216; 34] "443") /\
  dial (fun s => Some (s, "443")) (fun _ => Some [[93; 184; 216; 34]; [169; 254; 169; 254]]) false "a" = Err (RefusedInternal ClassMetadata).
Proof. vm_compute. done. Qed.

(** The unspecified address, which reaches the local host, passes the guard. *)
Lemma unspecified_passes : CheckInternalIP [0; 0; 0; 0] AllInternalIPClasses = None.
Proof. reflexivity. Qed.

(** ** clientx.go *)
Module ClientX.

Definition defaultMaxResponseBytes : Z := Z.shiftl 1 20.
Definition logBodyCap : Z := Z.shiftl 4 10.

(** The client and the logger of [Options] are the [Do] argument and the log
    records below. *)
Record Options := MkOptions { Timeout : Z; MaxResponseBytes : Z; SuccessStatuses : list Z }.

(** A context: its deadline and the request id of its gateway identity. *)
Record Ctx := MkCtx { deadline : option Z; RequestID : option string }.

Definition WithTimeout (now : Z) (ctx : Ctx) (d : Z) : Ctx :=
  MkCtx (Some (match deadline ctx with Some t => Z.min t (now + d) | None => now + d end)) (RequestID ctx).

(** An error value: its text and whether it is [context.DeadlineExceeded]. *)
Inductive Cause := ErrResponseTooLarge | Wrapped (text : string) (exceeded : bool).

Definition Cause_text (c : Cause) : string :=
  match c with
  | ErrResponseTooLarge => "clientx: response exceeds MaxResponseBytes"
  | Wrapped t _ => t
  end.

Definition Cause_exceeded (c : Cause) : bool :=
  match c with ErrResponseTooLarge => false | Wrapped _ d => d end.

Record Error := MkError { Status : Z; Method : string; Path : string; Body : option string; Origin : string; Err : option Cause }.

Definition Error_Error (e : option Error) : string :=
  match e with
  | None => "<nil>"
  | Some e =>
      if negb (Status e =? 0) then "clientx: " +:+ Method e +:+ " " +:+ Path e +:+ ": status " +:+ FormatInt (Status e)
      else match Err e with Some c => Cause_text c | None => "clientx: error" end
  end.

Definition Unwrap (e : option Error) : option Cause := e ≫= Err.

Definition isSuccess (status : Z) (allow : list Z) : bool :=
  match allow with
  | [] => (200 <=? status) && (status <? 300)
  | _ => existsb (fun s => s =? status) allow
  end.

Definition capBody (raw : string) : string * bool :=
  if Len raw <=? logBodyCap then (raw, false) else (String.substring 0 (Z.to_nat logBodyCap) raw, true).

Definition envelope_codes : list string :=
  ["route_not_found"; "access_denied"; "auth_failed"; "throttled"; "circuit_open"; "backpressure"; "upstream_error";
   "no_healthy_upstream"; "tenant_not_found"; "response_too_large"; "security_error"].

Inductive Attr := AInt (z : Z) | AString (s : string) | ABool (b : bool).
Record LogRecord := MkLog { log_msg : string; log_attrs : list (string * Attr) }.

Record Request := MkReq { req_method : string; req_path : string; req_ctx : Ctx }.

Definition request_id_attr (ctx : Ctx) : list (string * Attr) :=
  match RequestID ctx with
  | Some id => if id !=s "" then [("request_id", AString id)] else []
  | None => []
  end.

Definition logNonSuccess (ctx : Ctx) (req : Request) (status : Z) (truncated : bool) (origin : string) : LogRecord :=
  MkLog "clientx: non-success response"
    ([("status", AInt status); ("method", AString (req_method req)); ("path", AString (req_path req));
      ("origin", AString origin); ("body_truncated", ABool truncated)] ++ request_id_attr ctx).

Definition logOversize (ctx : Ctx) (req : Request) (status : Z) (origin : string) : LogRecord :=
  MkLog "clientx: response too large"
    ([("status", AInt status); ("method", AString (req_method req)); ("path", AString (req_path req));
      ("origin", AString origin); ("err", AString (Cause_text ErrResponseTooLarge))] ++ request_id_attr ctx).

(** A response: status, X-CSAR-Status, and the body or the reader's error. *)
Record Response := MkResp { status : Z; csar_status : string; full_body : result (string * bool) string }.

Section Exec.
(** [json.Unmarshal] into the envelope struct: its code. *)
Variable envelope_code : string -> option string.
(** [client.Do], given the context of the request it is handed. *)
Variable Do : Ctx -> result (string * bool) Response.
Variable now : Z.

Definition hasCSARErrorEnvelope (body : string) : bool :=
  if body ==s "" then false
  else match envelope_code body with
       | None => false
       | Some c => existsb (String.eqb (ToLower (TrimSpace c))) envelope_codes
       end.

(** [csar_status] is the value of the X-CSAR-Status header. *)
Definition classifyResponseOrigin (body csar_status : string) : string :=
  if (TrimSpace csar_status !=s "") || hasCSARErrorEnvelope body then "csar" else "upstream_or_gateway".

Definition classifyTransportOrigin (err : option Cause) : string :=
  let message := match err with Some c => ToLower (Cause_text c) | None => "" end in
  let exceeded := match err with Some c => Cause_exceeded c | None => false end in
  if GoStrings.Contains message "stsclient:" || GoStrings.Contains message "/sts/token" then "csar_authn_sts"
  else if GoStrings.Contains message "x509:" || GoStrings.Contains message "tls" then "tls_transport"
  else if GoStrings.Contains message "lookup " || GoStrings.Contains message "dial tcp" then "network_transport"
  else if exceeded || GoStrings.Contains message "context deadline exceeded" || GoStrings.Contains message "timeout"
  then "timeout"
  else "http_client".

Definition ErrorOrigin (e : option Error) : string :=
  match e with
  | None => "unknown"
  | Some e =>
      if Origin e !=s "" then Origin e
      else if negb (Status e =? 0) then classifyResponseOrigin (default "" (Body e)) ""
      else classifyTransportOrigin (Err e)
  end.

(** The context the request is sent with. *)
Definition send_ctx (ctx : Ctx) (req : Request) (opts : Options) : Ctx :=
  if 0 <? Timeout opts then
    match deadline (req_ctx req) with
    | None => WithTimeout now ctx (Timeout opts)
    | Some _ => req_ctx req
    end
  else req_ctx req.

Definition exec (ctx : Ctx) (req : Request) (opts : Options) : result Error (string * Z) * list LogRecord :=
  let maxBytes := if MaxResponseBytes opts <=? 0 then defaultMaxResponseBytes else MaxResponseBytes opts in
  match Do (send_ctx ctx req opts) with
  | Prelude.Err (t, d) =>
      let cause := Wrapped ("clientx: request failed: " +:+ t) d in
      (Prelude.Err (MkError 0 (req_method req) (req_path req) None (classifyTransportOrigin (Some cause)) (Some cause)), [])
  | Ok resp =>
      match full_body resp with
      | Prelude.Err (t, d) =>
          (Prelude.Err (MkError (status resp) (req_method req) (req_path req) None
             (classifyResponseOrigin "" (csar_status resp)) (Some (Wrapped ("clientx: read body: " +:+ t) d))), [])
      | Ok full =>
          let raw := String.substring 0 (Z.to_nat (wrap64 (maxBytes + 1))) full in
          if maxBytes <? Len raw then
            let origin := classifyResponseOrigin "" (csar_status resp) in
            (Prelude.Err (MkError (status resp) (req_method req) (req_path req) None origin (Some ErrResponseTooLarge)),
             [logOversize ctx req (status resp) origin])
          else if negb (isSuccess (status resp) (SuccessStatuses opts)) then
            let '(capped, truncated) := capBody raw in
            let origin := classifyResponseOrigin capped (csar_status resp) in
            (Prelude.Err (MkError (status resp) (req_method req) (req_path req) (Some capped) origin None),
             [logNonSuccess ctx req (status resp) truncated origin])
          else (Ok (raw, status resp), [])
      end
  end.

Definition DoJSON {T} (decode : string -> result string T) (ctx : Ctx) (req : Request) (opts : Options)
  : result Error T * list LogRecord :=
  match exec ctx req opts with
  | (Prelude.Err e, logs) => (Prelude.Err e, logs)
  | (Ok (raw, st), logs) =>
      (match decode raw with
       | Ok v => Ok v
       | Prelude.Err t =>
           Prelude.Err (MkError st (req_method req) (req_path req) (Some (fst (capBody raw))) "client_decode"
                          (Some (Wrapped ("clientx: decode body: " +:+ t) false)))
       end, logs)
  end.

Definition DoJSONEmpty (ctx : Ctx) (req : Request) (opts : Options) : option Error * list LogRecord :=
  match exec ctx req opts with
  | (Prelude.Err e, logs) => (Some e, logs)
  | (Ok _, logs) => (None, logs)
  end.

Lemma substring_length n s :
  (String.length (String.substring 0 n s) = Nat.min n (String.length s))%nat /\
  (String.length s <= n -> String.substring 0 n s = s)%nat.
Proof.
  revert n; induction s as [|c s IH]; intros [|n]; cbn; try (split; [lia|]; done).
  - split; [lia|]. intros; lia.
  - destruct (IH n) as [H1 H2]. split; [lia|]. intros Hn. rewrite H2 by lia. done.
Qed.

(** Reading one byte past the limit tells exactly whether it is exceeded. *)
Lemma limited_read mb full :
  0 < mb ->
  let raw := String.substring 0 (Z.to_nat (mb + 1)) full in
  (mb < Len raw <-> mb < Len full) /\ (Len full <= mb -> raw = full).
Proof.
  intros Hmb raw. destruct (substring_length (Z.to_nat (mb + 1)) full) as [Hl Hid]. unfold Len, raw in *. rewrite Hl.
  split; [lia|]. intros. apply Hid. lia.
Qed.

Lemma capBody_length raw : Len (fst (capBody raw)) <= logBodyCap.
Proof.
  unfold capBody. destruct (Z.leb_spec (Len raw) logBodyCap); [done|]. cbn [fst].
  pose proof (proj1 (substring_length (Z.to_nat logBodyCap) raw)). assert (0 <= logBodyCap) by done. unfold Len in *. lia.
Qed.

Lemma classifyResponseOrigin_nonempty b c : classifyResponseOrigin b c <> "".
Proof. unfold classifyResponseOrigin. by case_match. Qed.

Lemma classifyTransportOrigin_nonempty c : classifyTransportOrigin c <> "".
Proof. unfold classifyTransportOrigin. by repeat case_match. Qed.

Hint Resolve classifyResponseOrigin_nonempty classifyTransportOrigin_nonempty capBody_length : core.

Definition limit (opts : Options) : Z :=
  if MaxResponseBytes opts <=? 0 then defaultMaxResponseBytes else MaxResponseBytes opts.

Lemma limit_positive opts : 0 < limit opts.
Proof. unfold limit. destruct (Z.leb_spec (MaxResponseBytes opts) 0); [done|lia]. Qed.

(** The response came, and its body is over the limit. *)
Definition oversize (opts : Options) (sent : result (string * bool) Response) : Prop :=
  exists resp full, sent = Ok resp /\ full_body resp = Ok full /\ limit opts < Len full.

(** What a returned error carries. *)
Definition error_ok (opts : Options) (sent : result (string * bool) Response) (e : Error) : Prop :=
  Origin e <> "" /\ (forall b, Body e = Some b -> Len b <= logBodyCap) /\
  (Err e = Some ErrResponseTooLarge <-> oversize opts sent) /\
  (Err e = Some ErrResponseTooLarge -> Body e = None).

Lemma error_other opts sent e :
  Origin e <> "" -> (forall b, Body e = Some b -> Len b <= logBodyCap) ->
  Err e <> Some ErrResponseTooLarge -> ~ oversize opts sent -> error_ok opts sent e.
Proof. unfold error_ok. tauto. Qed.

Lemma not_oversize opts resp full :
  full_body resp = Ok full -> Len full <= limit opts -> ~ oversize opts (Ok resp).
Proof. intros Hf Hle (r & f & [= <-] & Hf' & Hlt). rewrite Hf in Hf'. injection Hf' as <-. lia. Qed.

Lemma exec_spec ctx req opts :
  MaxResponseBytes opts < maxInt64 ->
  let sent := Do (send_ctx ctx req opts) in
  match fst (exec ctx req opts) with
  | Ok (raw, st) => exists resp, sent = Ok resp /\ full_body resp = Ok raw /\ Len raw <= limit opts /\
      st = status resp /\ isSuccess st (SuccessStatuses opts) = true
  | Prelude.Err e => error_ok opts sent e
  end.
Proof.
  intros Hmax. unfold exec. fold (limit opts). pose proof (limit_positive opts) as Hpos.
  assert (limit opts < maxInt64) by (unfold limit; case_match; done).
  rewrite wrap64_id by (unfold int64_range, maxInt64, minInt64 in *; lia).
  destruct (Do _) as [resp|[t d]].
  2:{ apply error_other; cbn [Origin Body Err]; auto; [done..|]. by intros (? & ? & ? & _). }
  destruct (full_body resp) as [full|[t d]] eqn:Hf.
  2:{ apply error_other; cbn [Origin Body Err]; auto; [done..|]. intros (r & f & [= <-] & Hf' & _). congruence. }
  destruct (limited_read (limit opts) full Hpos) as [Hiff Hid]. cbn zeta in *.
  set (raw := String.substring 0 _ full) in *.
  destruct (Z.ltb_spec (limit opts) (Len raw)) as [Hbig|Hsmall].
  { apply Hiff in Hbig. repeat split; cbn [Origin Body Err]; auto; [done|]. intros _. by exists resp, full. }
  assert (Len full <= limit opts) as Hle by lia. rewrite (Hid Hle).
  destruct (isSuccess _ _) eqn:Hs; cbn [negb fst]; [by exists resp|].
  pose proof (capBody_length full) as Hcap. destruct (capBody full) as [capped tr].
  apply error_other; cbn [Origin Body Err]; [auto|by intros b [= <-]|done|by eapply not_oversize].
Qed.

(** What the client hands back: on success the decoded complete body,
    within the limit and with an accepted status; on failure an error that
    names its origin, carries at most 4 KiB of the body, and is
    ErrResponseTooLarge exactly when the body exceeds the limit, then with no
    body at all. *)
Theorem DoJSON_contract {T} (decode : string -> result string T) ctx req opts :
  MaxResponseBytes opts < maxInt64 ->
  let sent := Do (send_ctx ctx req opts) in
  match fst (DoJSON decode ctx req opts) with
  | Ok v => exists resp full, sent = Ok resp /\ full_body resp = Ok full /\ Len full <= limit opts /\
      decode full = Ok v /\ isSuccess (status resp) (SuccessStatuses opts) = true
  | Prelude.Err e => error_ok opts sent e
  end.
Proof.
  intros Hmax sent. pose proof (exec_spec ctx req opts Hmax) as He. unfold DoJSON.
  destruct (exec ctx req opts) as [[[raw st]|e] logs]; cbn [fst] in *; [|done].
  destruct He as (resp & Hs & Hb & Hl & -> & Hok). destruct (decode raw) as [v|t] eqn:Hd; [by exists resp, raw|].
  unfold sent. rewrite Hs. apply error_other; cbn [Origin Body Err]; [done|by intros b [= <-]|done|by eapply not_oversize].
Qed.

End Exec.

Lemma DoJSON_contract_witness :
  let Do := fun _ : Ctx => @Ok (string * bool) Response (MkResp 503 "" (Ok "{}")) in
  let req := MkReq "GET" "/x" (MkCtx None None) in
  error_ok (MkOptions 5 0 []) (Do (send_ctx 0 (MkCtx None None) req (MkOptions 5 0 [])))
    (MkError 503 "GET" "/x" (Some "{}") "upstream_or_gateway" None).
Proof.
  exact (DoJSON_contract (fun _ => None) (fun _ => Ok (MkResp 503 "" (Ok "{}"))) 0 (fun s => Ok s)
           (MkCtx None None) (MkReq "GET" "/x" (MkCtx None None)) (MkOptions 5 0 []) ltac:(reflexivity)).
Defined.

(** The caller's context has no effect on a request that has its own deadline. *)
Lemma ctx_ignored now ctx ctx' req opts t :
  deadline (req_ctx req) = Some t -> send_ctx now ctx req opts = send_ctx now ctx' req opts.
Proof. intros Ht. unfold send_ctx. by rewrite Ht. Qed.

End ClientX.
