(* ===== verification/GatewayCtx.v ===== *)
(** * Request identity and query parameters (src/gatewayctx, src/httpx)

    The identity headers the gateway asserts to a backend, their removal from
    client requests, their parsing and the middlewares; then the helpers that
    read query parameters.  A header map is a finite map from stored keys to
    their values; [Get] and [Del] canonicalise the key they are given. *)
From S2P Require Import Prelude GoStrings.
Local Open Scope string_scope.
Local Open Scope Z_scope.

(** ** Comma-separated lists *)

Definition nonempty (s : string) : bool := s !=s "".

(** A nil and an empty slice are both [[]]. *)
Definition splitCSV (s : string) : list string :=
  if s ==s "" then [] else List.filter nonempty (map TrimSpace (Split "," s)).

Fixpoint join (sep : string) (l : list string) : string :=
  match l with
  | [] => ""
  | [x] => x
  | x :: l' => x +:+ sep +:+ join sep l'
  end.

(** An entry that survives splitting and trimming. *)
Definition clean (v : string) : Prop :=
  v <> "" /\ TrimSpace v = v /\ all_bytes (fun c => negb (Ascii.eqb c ",")) v = true.

Lemma Split_single sep a : all_bytes (fun c => negb (Ascii.eqb c sep)) a = true -> Split sep a = [a].
Proof.
  induction a as [|c a IH]; simpl; [done|]. rewrite andb_true_iff, negb_true_iff. intros [-> Ha]. by rewrite IH.
Qed.

Lemma Split_cons sep a b :
  all_bytes (fun c => negb (Ascii.eqb c sep)) a = true -> Split sep (a +:+ String sep b) = a :: Split sep b.
Proof.
  induction a as [|c a IH]; simpl; [by rewrite Ascii.eqb_refl|].
  rewrite andb_true_iff, negb_true_iff. intros [-> Ha]. by rewrite IH.
Qed.

Lemma Split_join l : Forall clean l -> l <> [] -> Split "," (join "," l) = l.
Proof.
  induction 1 as [|x l (Hne & Ht & Hc) Hl IH]; [done|]. intros _. destruct l as [|y l]; [by apply Split_single|].
  change (join "," (x :: y :: l)) with (x +:+ String "," (join "," (y :: l))). rewrite Split_cons by done. by rewrite IH.
Qed.

Lemma filter_clean l : Forall clean l -> List.filter nonempty (map TrimSpace l) = l.
Proof.
  induction 1 as [|x l (Hne & Ht & _) Hl IH]; [done|]. cbn [map List.filter]. rewrite Ht, IH. unfold nonempty.
  destruct (String.eqb_spec x ""); done.
Qed.

Lemma splitCSV_join_clean l : Forall clean l -> splitCSV (join "," l) = l.
Proof.
  intros Hl. unfold splitCSV. destruct (String.eqb_spec (join "," l) "") as [He|_].
  - destruct l as [|x [|y l]]; [done| |]; inversion Hl as [|? ? (Hne & _) _]; simplify_eq/=; by destruct x.
  - destruct l as [|x l]; [done|]. by rewrite Split_join, filter_clean.
Qed.

(** ** gatewayctx.go *)
Module Gateway.

Definition HeaderRequestID := "X-Request-ID".
Definition HeaderSubject := "X-Gateway-Subject".
Definition HeaderTenant := "X-Gateway-Tenant".
Definition HeaderRoles := "X-Gateway-Roles".
Definition HeaderScopes := "X-Gateway-Scopes".
Definition HeaderAuthzResult := "X-Gateway-Authz-Result".
Definition HeaderAuthzScope := "X-Gateway-Authz-Scope".
Definition HeaderAuthzPolicy := "X-Gateway-Authz-Policy".
Definition HeaderCredentialID := "X-Gateway-Credential-ID".

Definition TrustedHeaders : list string :=
  [HeaderSubject; HeaderTenant; HeaderRoles; HeaderScopes; HeaderAuthzResult; HeaderAuthzScope; HeaderAuthzPolicy;
   HeaderCredentialID].

(** [http.Header]. *)
Abbreviation Header := (gmap string (list string)).
Definition Get (h : Header) (name : string) : string :=
  match h !! CanonicalHeaderKey name with Some (v :: _) => v | _ => "" end.
Definition Del (h : Header) (name : string) : Header := delete (CanonicalHeaderKey name) h.
Definition Set_ (h : Header) (name value : string) : Header := <[CanonicalHeaderKey name := [value]]> h.

Definition StripTrusted (h : Header) : Header := fold_left Del TrustedHeaders h.

Record Identity := MkIdentity {
  RequestID : string; Subject : string; Tenant : string; Roles : list string; Scopes : list string;
  AuthzResult : string; AuthzScopes : list string; AuthzPolicy : string; CredentialID : string }.

Definition IsPlatformActor (id : Identity) : bool := existsb (fun scope => scope ==s "platform") (AuthzScopes id).

Inductive SubjectErr := EmptySubject | BadUUID.
(** [parse] is the UUID library's. *)
Definition SubjectUUID {U} (parse : string -> option U) (id : Identity) : result SubjectErr U :=
  if Subject id ==s "" then Err EmptySubject
  else match parse (Subject id) with Some u => Ok u | None => Err BadUUID end.

Definition FromRequest (h : Header) : Identity :=
  MkIdentity (Get h HeaderRequestID) (Get h HeaderSubject) (Get h HeaderTenant) (splitCSV (Get h HeaderRoles))
    (splitCSV (Get h HeaderScopes)) (Get h HeaderAuthzResult) (splitCSV (Get h HeaderAuthzScope))
    (Get h HeaderAuthzPolicy) (Get h HeaderCredentialID).

(** A request: its headers and the identity its context carries. *)
Record Request := MkReq { headers : Header; ctx : option Identity }.
Definition FromContext (r : Request) : option Identity := ctx r.
Definition NewContext (r : Request) (id : Identity) : Request := MkReq (headers r) (Some id).

(** What a handler's turn comes to: a status written, or the next handler run. *)
Inductive outcome := Rejected (status : Z) (body : string) | Next (r : Request).

Definition Middleware (r : Request) : outcome := Next (NewContext r (FromRequest (headers r))).

(** [verify] returns nil ([None]) or an error, here its text. *)
Definition TrustedMiddleware (verify : Request -> option string) (r : Request) : outcome :=
  match verify r with
  | Some err => Rejected 403 ("untrusted request: " +:+ err)
  | None => Next (NewContext r (FromRequest (headers r)))
  end.

Lemma strip_lookup names h k :
  fold_left Del names h !! k = if existsb (fun n => CanonicalHeaderKey n ==s k) names then None else h !! k.
Proof.
  revert h; induction names as [|n ns IH]; intros h; cbn [fold_left existsb]; [done|]. rewrite IH. unfold Del.
  destruct (String.eqb_spec (CanonicalHeaderKey n) k) as [<-|Hne]; cbn [orb]; case_match; try done.
  - apply lookup_delete_eq.
  - by apply lookup_delete_ne.
Qed.

(** Decides membership in a list of constants. *)
Ltac trusted := apply list_elem_of_In; unfold TrustedHeaders; cbn [In]; tauto.

Lemma Get_stripped h name : name ∈ TrustedHeaders -> Get (StripTrusted h) name = "".
Proof.
  intros Hin. unfold Get, StripTrusted. rewrite strip_lookup.
  assert (existsb (fun n => CanonicalHeaderKey n ==s CanonicalHeaderKey name) TrustedHeaders = true) as ->; [|done].
  apply existsb_exists. exists name. split; [by apply list_elem_of_In|apply String.eqb_refl].
Qed.

(** C30. A client cannot assert an identity: whatever spelling of the headers
    it used, after StripTrusted the parsed identity has no subject, tenant,
    roles, scopes, decision, policy or credential, is not a platform actor,
    and every header that is not a trusted one is as the client sent it. *)
Theorem StripTrusted_no_identity h :
  FromRequest (StripTrusted h) = MkIdentity (Get h HeaderRequestID) "" "" [] [] "" [] "" "" /\
  IsPlatformActor (FromRequest (StripTrusted h)) = false /\
  (forall name, CanonicalHeaderKey name ∉ map CanonicalHeaderKey TrustedHeaders ->
     StripTrusted h !! CanonicalHeaderKey name = h !! CanonicalHeaderKey name).
Proof.
  assert (forall name, CanonicalHeaderKey name ∉ map CanonicalHeaderKey TrustedHeaders ->
     StripTrusted h !! CanonicalHeaderKey name = h !! CanonicalHeaderKey name) as Hkeep.
  { intros name Hn. unfold StripTrusted. rewrite strip_lookup. case_match eqn:Hex; [|done]. exfalso. apply Hn.
    apply existsb_exists in Hex as (n & Hin & He). apply String.eqb_eq in He. rewrite <- He.
    apply list_elem_of_In, in_map, Hin. }
  assert (FromRequest (StripTrusted h) = MkIdentity (Get h HeaderRequestID) "" "" [] [] "" [] "" "") as Hid.
  { unfold FromRequest. rewrite (Get_stripped h HeaderSubject), (Get_stripped h HeaderTenant), (Get_stripped h HeaderRoles),
      (Get_stripped h HeaderScopes), (Get_stripped h HeaderAuthzResult), (Get_stripped h HeaderAuthzScope),
      (Get_stripped h HeaderAuthzPolicy), (Get_stripped h HeaderCredentialID) by trusted. f_equal.
    unfold Get. rewrite Hkeep; [done|]. vm_compute. intros Hin. apply list_elem_of_In in Hin.
    repeat destruct Hin as [[=]|Hin]. done. }
  split; [done|]. split; [by rewrite Hid|done].
Qed.

(** The trusted middleware runs the handler exactly on the requests the
    trust function accepts, always with the identity of the headers in the
    context, and answers 403 to the others. *)
Theorem TrustedMiddleware_gate verify r :
  match TrustedMiddleware verify r with
  | Next r' => verify r = None /\ headers r' = headers r /\ FromContext r' = Some (FromRequest (headers r))
  | Rejected st _ => st = 403 /\ verify r <> None
  end.
Proof. unfold TrustedMiddleware. by destruct (verify r) eqn:Hv. Qed.

(** The lists the gateway writes: joined with commas under a header name. *)
Definition inject (h : Header) (name : string) (l : list string) : Header := Set_ h name (join "," l).

Lemma Get_Set h n v : Get (Set_ h n v) n = v.
Proof. unfold Get, Set_. by rewrite lookup_insert_eq. Qed.

(** The authorisation scopes reach the backend as the gateway wrote them,
    on top of anything the client sent, and the caller is a platform actor
    exactly when the scopes contain [platform]. *)
Theorem authz_scopes_roundtrip h scopes :
  Forall clean scopes ->
  let id := FromRequest (inject (StripTrusted h) HeaderAuthzScope scopes) in
  AuthzScopes id = scopes /\ (IsPlatformActor id = true <-> "platform" ∈ scopes) /\ Subject id = "".
Proof.
  intros Hc id. assert (AuthzScopes id = scopes) as Hs.
  { unfold id, FromRequest, inject. cbn [AuthzScopes]. rewrite Get_Set. by apply splitCSV_join_clean. }
  split; [done|]. split.
  - unfold IsPlatformActor. rewrite Hs, existsb_exists. setoid_rewrite String.eqb_eq. rewrite list_elem_of_In.
    naive_solver.
  - unfold id, FromRequest, inject, Set_. cbn [Subject]. unfold Get.
    rewrite lookup_insert_ne by done. fold (Get (StripTrusted h) HeaderSubject). apply Get_stripped. trusted.
Qed.

Lemma authz_scopes_roundtrip_witness :
  let id := FromRequest (inject (StripTrusted (<["X-Gateway-Subject" := ["root"]]> ∅)) HeaderAuthzScope ["platform"; "tenant"]) in
  AuthzScopes id = ["platform"; "tenant"] /\
  (IsPlatformActor id = true <-> "platform" ∈ ["platform"; "tenant"]) /\ Subject id = "".
Proof.
  refine (authz_scopes_roundtrip _ ["platform"; "tenant"] _).
  repeat constructor; unfold clean; (repeat split; [discriminate|vm_compute; reflexivity..]).
Defined.

End Gateway.

(** ** query.go, pagination.go and cookie.go *)
Module Query.

(** [strconv.ParseBool]. *)
Definition ParseBool (s : string) : option bool :=
  if existsb (String.eqb s) ["1"; "t"; "T"; "true"; "TRUE"; "True"] then Some true
  else if existsb (String.eqb s) ["0"; "f"; "F"; "false"; "FALSE"; "False"] then Some false
  else None.

(** [Ok None] is (nil, nil); the error is strconv's. *)
Definition OptionalBool (raw : string) : result unit (option bool) :=
  let raw := TrimSpace raw in
  if raw ==s "" then Ok None
  else match ParseBool raw with Some b => Ok (Some b) | None => Err tt end.

Definition Truthy (raw : string) : bool :=
  match ParseBool (TrimSpace raw) with Some b => b | None => false end.

Definition Values (raw : list string) : list string :=
  flat_map (fun item => flat_map (fun part => let v := TrimSpace part in if v !=s "" then [v] else []) (Split "," item)) raw.

Inductive ListErr := NotANumber | NotPositive.
Fixpoint ParseInt64List (raw : list string) : result ListErr (list Z) :=
  match raw with
  | [] => Ok []
  | item :: rest =>
      match ParseInt item with
      | None => Err NotANumber
      | Some parsed =>
          if parsed <=? 0 then Err NotPositive
          else let? out := ParseInt64List rest in Ok (parsed :: out)
      end
  end.

(** [query] is [r.URL.Query().Get]; the flag says that the error is not nil. *)
Definition ParseLimit (query : string -> string) (def max : Z) : Z * bool :=
  let raw := TrimSpace (query "limit") in
  if raw ==s "" then (def, false)
  else match ParseInt raw with
       | None => (def, false)
       | Some parsed =>
           if parsed <=? 0 then (def, false) else if max <? parsed then (max, true) else (parsed, false)
       end.

Record Pagination := MkPage { Limit : Z; Offset : Z }.

Definition positive (v : string) : option Z :=
  if v !=s "" then match ParseInt v with Some n => if 0 <? n then Some n else None | None => None end else None.

Definition ParsePagination (query : string -> string) (defaultLimit maxLimit : Z) : Pagination :=
  let l := default defaultLimit (positive (query "limit")) in
  let l := if maxLimit <? l then maxLimit else l in
  MkPage l (default 0 (positive (query "offset"))).

Inductive SameSite := SameSiteLaxMode | SameSiteStrictMode | SameSiteNoneMode.
Definition ParseSameSite (s : string) : SameSite :=
  let l := ToLower s in
  if l ==s "strict" then SameSiteStrictMode else if l ==s "none" then SameSiteNoneMode else SameSiteLaxMode.

Lemma positive_range v n : positive v = Some n -> 0 < n <= maxInt64.
Proof.
  unfold positive. intros H. repeat case_match; simplify_eq. bprop.
  pose proof (ParseInt_range v n ltac:(done)) as [_ ?]. unfold maxInt64. lia.
Qed.

(** Whatever the client sends, a page is within bounds: given a default of
    at least 1 and a maximum of at least 1 the limit is in [1, maxLimit], the
    offset is a non-negative int; a valid limit below the maximum is honoured,
    and without one the limit is the smaller of default and maximum. *)
Theorem ParsePagination_bounds query defaultLimit maxLimit :
  1 <= defaultLimit -> 1 <= maxLimit ->
  let p := ParsePagination query defaultLimit maxLimit in
  1 <= Limit p <= maxLimit /\ 0 <= Offset p <= maxInt64 /\
  (forall n, ParseInt (query "limit") = Some n -> 1 <= n <= maxLimit -> query "limit" <> "" -> Limit p = n) /\
  (query "limit" = "" -> Limit p = Z.min defaultLimit maxLimit).
Proof.
  intros Hd Hm p. unfold p, ParsePagination. cbn [Limit Offset].
  split; [|split; [|split]].
  - destruct (positive (query "limit")) as [n|] eqn:Hp; cbn [default from_option];
      [apply positive_range in Hp|]; unfold id; case_match eqn:Hlt; bprop; lia.
  - destruct (positive (query "offset")) as [n|] eqn:Hp; cbn [default from_option]; [apply positive_range in Hp|];
      unfold id, maxInt64 in *; lia.
  - intros n Hn Hr Hne. unfold positive. rewrite Hn. destruct (String.eqb_spec (query "limit") ""); [done|]. cbn [negb].
    rewrite (proj2 (Z.ltb_lt 0 n)) by lia. cbn [default from_option]. unfold id. rewrite (proj2 (Z.ltb_ge _ _)) by lia. done.
  - intros ->. cbn [positive String.eqb negb default from_option]. unfold id. case_match eqn:Hlt; bprop; lia.
Qed.

Lemma ParsePagination_bounds_witness :
  let p := ParsePagination (fun k => if k ==s "limit" then "500" else "-3") 20 100 in
  1 <= Limit p <= 100 /\ 0 <= Offset p <= maxInt64 /\
  (forall n, ParseInt "500" = Some n -> 1 <= n <= 100 -> "500" <> "" -> Limit p = n) /\
  ("500" = "" -> Limit p = Z.min 20 100).
Proof.
  refine (ParsePagination_bounds (fun k => if k ==s "limit" then "500" else "-3") 20 100 _ _); vm_compute; discriminate.
Defined.

(** A default limit below 1 is not clamped. *)
Lemma ParsePagination_default_unclamped : Limit (ParsePagination (fun _ => "") 0 100) = 0.
Proof. reflexivity. Qed.

(** The values of a repeated parameter are those of the comma lists in order. *)
Lemma Values_csv raw : Values raw = flat_map splitCSV raw.
Proof.
  unfold Values. induction raw as [|item raw IH]; cbn [flat_map]; [done|]. rewrite IH. f_equal. unfold splitCSV, nonempty.
  destruct (String.eqb_spec item "") as [->|_]; [reflexivity|].
  induction (Split "," item) as [|p ps IHp]; cbn [flat_map map List.filter]; [done|]. rewrite IHp. by case_match.
Qed.

Lemma ParseInt64List_spec raw out :
  ParseInt64List raw = Ok out <-> Forall2 (fun s z => ParseInt s = Some z /\ 0 < z) raw out.
Proof.
  revert out; induction raw as [|s raw IH]; intros out; cbn [ParseInt64List].
  - split; [by intros [= <-]|by inversion 1].
  - split.
    + intros H. destruct (ParseInt s) as [z|] eqn:Hz; [|done]. destruct (Z.leb_spec z 0); [done|].
      destruct (ParseInt64List raw) as [l|] eqn:Hl; [|done]. injection H as <-. constructor; [done|]. by apply IH.
    + intros H. inversion H as [|? z ? l [Hz Hp] Hl]; simplify_eq. rewrite Hz, (proj2 (Z.leb_gt z 0)) by done.
      apply IH in Hl. by rewrite Hl.
Qed.

(** Reading a list parameter gives the clean values the client joined with
    commas, over any number of repeats, and parsing them as identifiers
    succeeds exactly on positive int64 numerals, value by value and in order. *)
Theorem list_parameter_exact lists out :
  Forall (Forall clean) lists ->
  Values (map (join ",") lists) = concat lists /\
  (ParseInt64List (Values (map (join ",") lists)) = Ok out <->
     Forall2 (fun s z => ParseInt s = Some z /\ 0 < z) (concat lists) out).
Proof.
  intros Hl. assert (Values (map (join ",") lists) = concat lists) as Hv.
  { rewrite Values_csv. induction Hl as [|l ls Hc Hls IH]; cbn [map flat_map concat]; [done|].
    by rewrite IH, splitCSV_join_clean. }
  split; [done|]. rewrite Hv. apply ParseInt64List_spec.
Qed.

Lemma list_parameter_exact_witness :
  Values ["7,12"; "3"] = ["7"; "12"; "3"] /\
  (ParseInt64List (Values ["7,12"; "3"]) = Ok [7; 12; 3] <->
     Forall2 (fun s z => ParseInt s = Some z /\ 0 < z) ["7"; "12"; "3"] [7; 12; 3]).
Proof.
  refine (list_parameter_exact [["7"; "12"]; ["3"]] [7; 12; 3] _).
  repeat constructor; unfold clean; (repeat split; [discriminate|vm_compute; reflexivity..]).
Defined.

End Query.
