(* ===== verification/RouteTokens.v ===== *)
(** * Route-token profiles (src/authnconfig/route_tokens.go)

    The profile record with its YAML decoding, the defaults, and the
    validation with the grammar of claim sources.  Go iterates over a map in
    any order: the order is the argument [iter], and what is accepted does not
    depend on it.  Durations are nanoseconds. *)
From S2P Require Import Prelude GoStrings Secret GatewayCtx.
Local Open Scope string_scope.
Local Open Scope Z_scope.

Definition RouteTokenMissingFailClosed := "fail_closed".
Definition RouteTokenMissingOmit := "omit".
Definition RouteTokenClaimString := "string".
Definition RouteTokenClaimInt := "int".
Definition RouteTokenClaimBool := "bool".

Definition minute : Z := 60 * 1000000000.
Definition defaultRouteTokenTTL : Z := 5 * minute.
Definition defaultRouteTokenMaxTTL : Z := 60 * minute.
Definition defaultRouteTokenLeeway : Z := 30 * 1000000000.

Record ClaimSource := MkSource { Source : string; As : string; Required : option bool }.

(** [V] is the type of the static claim values, which are only carried. *)
Record RouteTokenConfig (V : Type) := MkProfile {
  Enabled : bool; Algorithm : string; Secret_ : Secret.t; TTL : Z; MaxTTL : Z; Leeway : Z; Issuer : string;
  Audience : list string; OnMissingClaim : string; StaticClaims : gmap string V; Claims : gmap string ClaimSource }.
Arguments MkProfile {V} _ _ _ _ _ _ _ _ _ _ _.
Arguments Enabled {V} _.
Arguments Algorithm {V} _.
Arguments Secret_ {V} _.
Arguments TTL {V} _.
Arguments MaxTTL {V} _.
Arguments Leeway {V} _.
Arguments Issuer {V} _.
Arguments Audience {V} _.
Arguments OnMissingClaim {V} _.
Arguments StaticClaims {V} _.
Arguments Claims {V} _.

(** ** Decoding *)

(** A YAML node as far as the code looks at it; [Absent] has kind 0. *)
Inductive Node := Absent | Scalar (value : string) | Sequence (l : list Node) | OtherNode.

Inductive YamlErr := DecodeFailed | BadAudience.

(** [decode] is [value.Decode] into the alias struct. *)
Definition ClaimSource_UnmarshalYAML (decode : Node -> result YamlErr ClaimSource) (c : ClaimSource) (value : Node)
  : result YamlErr ClaimSource :=
  match value with
  | Scalar v => Ok (MkSource v (As c) (Required c))
  | _ => decode value
  end.

(** [raw] is the decoded struct with the node of its audience; [decode_list] is
    [Decode] into a list of strings. *)
Definition RouteTokenConfig_UnmarshalYAML {V} (decode : Node -> result YamlErr (RouteTokenConfig V * Node))
    (decode_list : Node -> result YamlErr (list string)) (value : Node) : result YamlErr (RouteTokenConfig V) :=
  let? rn := decode value in
  let '(raw, audience) := rn in
  let set a := MkProfile (Enabled raw) (Algorithm raw) (Secret_ raw) (TTL raw) (MaxTTL raw) (Leeway raw) (Issuer raw) a
                 (OnMissingClaim raw) (StaticClaims raw) (Claims raw) in
  match audience with
  | Absent => Ok (set [])
  | Scalar v => Ok (set (if v !=s "" then [v] else []))
  | Sequence _ => let? aud := decode_list audience in Ok (set aud)
  | OtherNode => Err BadAudience
  end.

(** ** Defaults *)

Definition default_source (s : ClaimSource) : ClaimSource :=
  if As s ==s "" then MkSource (Source s) RouteTokenClaimString (Required s) else s.

Definition default_profile {V} (p : RouteTokenConfig V) : RouteTokenConfig V :=
  MkProfile (Enabled p)
    (if Algorithm p ==s "" then "HS256" else Algorithm p)
    (Secret_ p)
    (if TTL p =? 0 then defaultRouteTokenTTL else TTL p)
    (if MaxTTL p =? 0 then defaultRouteTokenMaxTTL else MaxTTL p)
    (if Leeway p =? 0 then defaultRouteTokenLeeway else Leeway p)
    (Issuer p) (Audience p)
    (if OnMissingClaim p ==s "" then RouteTokenMissingFailClosed else OnMissingClaim p)
    (StaticClaims p) (default_source <$> Claims p).

Definition applyRouteTokenDefaults {V} (profiles : gmap string (RouteTokenConfig V)) : gmap string (RouteTokenConfig V) :=
  default_profile <$> profiles.

(** ** Validation *)

Inductive SourceErr := SourceRequired | BadAs | UnknownSource (source : string).

Definition one_of (s : string) (l : list string) : bool := existsb (String.eqb s) l.

Definition validateRouteTokenClaimSource (source : ClaimSource) : result SourceErr unit :=
  if Source source ==s "" then Err SourceRequired
  else if negb (one_of (As source) [RouteTokenClaimString; RouteTokenClaimInt; RouteTokenClaimBool]) then Err BadAs
  else
    let unknown := Err (UnknownSource (Source source)) in
    match Split "." (Source source) with
    | [p0; p1] =>
        if p0 ==s "user" then if one_of p1 ["id"; "email"; "phone"; "display_name"] then Ok tt else unknown
        else if (p0 ==s "session") && (p1 ==s "id") then Ok tt
        else unknown
    | p0 :: p1 :: p2 :: rest =>
        if (p0 ==s "oauth") && (p1 !=s "") then
          if one_of p2 ["provider_user_id"; "email"] then match rest with [] => Ok tt | _ => unknown end
          else if p2 ==s "metadata" then
            match rest with [p3] => if p3 !=s "" then Ok tt else unknown | _ => unknown end
          else unknown
        else unknown
    | _ => unknown
    end.

Inductive ProfileErr :=
| EmptyProfileName | BadAlgorithm (name alg : string) | SecretRequired (name : string) | BadTTL (name : string)
| BadMaxTTL (name : string) | TTLExceedsMax (name : string) | BadLeeway (name : string) | BadOnMissing (name : string)
| EmptyClaimName (name : string) | BadClaim (name claim : string) (e : SourceErr).

Section Validate.
(** The order in which a map is ranged over. *)
Context (iter : forall A, gmap string A -> list (string * A)).

Definition validate_claim (name : string) (c : string * ClaimSource) : result ProfileErr unit :=
  if TrimSpace (fst c) ==s "" then Err (EmptyClaimName name)
  else match validateRouteTokenClaimSource (snd c) with
       | Ok _ => Ok tt
       | Err e => Err (BadClaim name (fst c) e)
       end.

Definition validate_profile {V} (np : string * RouteTokenConfig V) : result ProfileErr unit :=
  let '(name, profile) := np in
  if TrimSpace name ==s "" then Err EmptyProfileName
  else if negb (Enabled profile) then Ok tt
  else if Algorithm profile !=s "HS256" then Err (BadAlgorithm name (Algorithm profile))
  else if Secret.IsEmpty (Secret_ profile) then Err (SecretRequired name)
  else if TTL profile <=? 0 then Err (BadTTL name)
  else if MaxTTL profile <=? 0 then Err (BadMaxTTL name)
  else if MaxTTL profile <? TTL profile then Err (TTLExceedsMax name)
  else if Leeway profile <? 0 then Err (BadLeeway name)
  else if negb (one_of (OnMissingClaim profile) [RouteTokenMissingFailClosed; RouteTokenMissingOmit])
  then Err (BadOnMissing name)
  else first_err (validate_claim name) (iter _ (Claims profile)).

Definition validateRouteTokens {V} (profiles : gmap string (RouteTokenConfig V)) : result ProfileErr unit :=
  first_err validate_profile (iter _ profiles).

End Validate.

(** ** The grammar of claim sources *)

(** A path segment: not empty and without a dot. *)
Definition segment (s : string) : Prop := s <> "" /\ all_bytes (fun c => negb (Ascii.eqb c ".")) s = true.

Inductive claim_path : string -> Prop :=
| path_user f : f ∈ ["id"; "email"; "phone"; "display_name"] -> claim_path ("user." +:+ f)
| path_session : claim_path "session.id"
| path_oauth p f : segment p -> f ∈ ["provider_user_id"; "email"] -> claim_path ("oauth." +:+ p +:+ "." +:+ f)
| path_metadata p k : segment p -> segment k -> claim_path ("oauth." +:+ p +:+ ".metadata." +:+ k).

Lemma Split_dot a b :
  all_bytes (fun c => negb (Ascii.eqb c ".")) a = true -> Split "." (a +:+ String "." b) = a :: Split "." b.
Proof. apply Split_cons. Qed.

(** What splitting returns can be joined back, and its parts have no dot. *)
Lemma Split_inv s :
  join "." (Split "." s) = s /\ Forall (fun p => all_bytes (fun c => negb (Ascii.eqb c ".")) p = true) (Split "." s).
Proof.
  induction s as [|c s [IH1 IH2]]; cbn [Split]; [by repeat constructor|].
  destruct (Split "." s) as [|w ws] eqn:Hs; [by destruct (Split_nonempty "." s)|].
  apply Forall_cons in IH2 as [Hw Hws]. destruct (Ascii.eqb_spec c ".") as [->|Hne].
  - split; [by rewrite <- IH1|]. by repeat constructor.
  - split.
    + rewrite <- IH1. by destruct ws.
    + constructor; [|done]. cbn [all_bytes]. rewrite Hw. destruct (Ascii.eqb_spec c "."); done.
Qed.

Lemma one_of_spec s l : one_of s l = true <-> s ∈ l.
Proof.
  unfold one_of. rewrite existsb_exists, list_elem_of_In. split; [|by exists s; rewrite String.eqb_refl].
  by intros (x & Hx & ->%String.eqb_eq).
Qed.

Lemma claim_path_split s :
  claim_path s <->
  (exists f, Split "." s = ["user"; f] /\ f ∈ ["id"; "email"; "phone"; "display_name"]) \/
  Split "." s = ["session"; "id"] \/
  (exists p f, Split "." s = ["oauth"; p; f] /\ p <> "" /\ f ∈ ["provider_user_id"; "email"]) \/
  (exists p k, Split "." s = ["oauth"; p; "metadata"; k] /\ p <> "" /\ k <> "").
Proof.
  destruct (Split_inv s) as [Hj Hd]. split.
  - intros [f Hf| |p f [Hp Hpd] Hf|p k [Hp Hpd] [Hk Hkd]].
    + left. exists f. split; [|done]. set_unfold in Hf. by destruct_or? Hf; subst.
    + by right; left.
    + right; right; left. exists p, f. split; [|done].
      change ("oauth." +:+ p +:+ "." +:+ f) with ("oauth" +:+ String "." (p +:+ String "." f)).
      rewrite !Split_dot by done. set_unfold in Hf. by destruct_or? Hf; subst.
    + do 3 right. exists p, k. split; [|done].
      change ("oauth." +:+ p +:+ ".metadata." +:+ k)
        with ("oauth" +:+ String "." (p +:+ String "." ("metadata" +:+ String "." k))).
      rewrite !Split_dot by done. by rewrite Split_single.
  - intros [(f & Hs & Hf)|[Hs|[(p & f & Hs & Hp & Hf)|(p & k & Hs & Hp & Hk)]]]; rewrite Hs in Hj, Hd; subst s.
    + by apply (path_user f).
    + apply path_session.
    + rewrite !Forall_cons in Hd. apply (path_oauth p f); [split; tauto|done].
    + rewrite !Forall_cons in Hd. apply (path_metadata p k); split; tauto.
Qed.

(** Neither side holds: the code refuses and no form of a path fits. *)
Ltac refute_path :=
  split; [done|]; intros [_ [(? & ? & ?)|[?|[(? & ? & ? & ? & ?)|(? & ? & ? & ? & ?)]]]]; simplify_eq/=; congruence.

Lemma validate_source_spec c :
  validateRouteTokenClaimSource c = Ok tt <->
  As c ∈ [RouteTokenClaimString; RouteTokenClaimInt; RouteTokenClaimBool] /\ claim_path (Source c).
Proof.
  rewrite claim_path_split, <- one_of_spec. unfold validateRouteTokenClaimSource.
  destruct (String.eqb_spec (Source c) "") as [He|_]; [rewrite He; refute_path|].
  destruct (one_of (As c) _) eqn:Ha; cbn [negb]; [|by split; [|intros [? _]]].
  setoid_rewrite <- one_of_spec. destruct (Split "." (Source c)) as [|p0 [|p1 [|p2 rest]]]; [refute_path..| |].
  - destruct (String.eqb_spec p0 "user") as [->|Hu].
    + destruct (one_of p1 _) eqn:Hp; [|refute_path]. split; [|done]. intros _. split; [done|]. left. by exists p1.
    + destruct (String.eqb_spec p0 "session") as [->|], (String.eqb_spec p1 "id") as [->|]; cbn [andb]; try refute_path.
      tauto.
  - destruct (String.eqb_spec p0 "oauth") as [->|], (String.eqb_spec p1 "") as [->|]; cbn [andb negb]; try refute_path.
    destruct (one_of p2 _) eqn:Hp2.
    + destruct rest as [|p3 rest]; [|refute_path]. split; [|done]. intros _. split; [done|]. right; right; left. eauto.
    + destruct (String.eqb_spec p2 "metadata") as [->|]; [|refute_path].
      destruct rest as [|p3 [|p4 rest]]; [refute_path| |refute_path].
      destruct (String.eqb_spec p3 "") as [->|]; cbn [negb]; [refute_path|].
      split; [|done]. intros _. split; [done|]. do 3 right. eauto.
Qed.

(** ** What a loaded configuration guarantees *)

(** A profile the service may sign tokens with. *)
Definition profile_ok {V} (p : RouteTokenConfig V) : Prop :=
  Algorithm p = "HS256" /\ Secret.Plaintext (Secret_ p) <> "" /\ 0 < TTL p <= MaxTTL p /\ 0 <= Leeway p /\
  (OnMissingClaim p = RouteTokenMissingFailClosed \/ OnMissingClaim p = RouteTokenMissingOmit) /\
  map_Forall (fun claim s => TrimSpace claim <> "" /\
    As s ∈ [RouteTokenClaimString; RouteTokenClaimInt; RouteTokenClaimBool] /\ claim_path (Source s)) (Claims p).

Section Accepted.
Context (iter : forall A, gmap string A -> list (string * A)).
Hypothesis iter_perm : forall A (m : gmap string A), iter A m ≡ₚ map_to_list m.

Lemma first_err_iter {E A} (f : string * A -> result E unit) (m : gmap string A) :
  first_err f (iter A m) = Ok tt <-> map_Forall (fun k v => f (k, v) = Ok tt) m.
Proof. rewrite first_err_ok, iter_perm, map_Forall_to_list. apply Forall_iff. by intros []. Qed.

Lemma validate_claim_spec name claim s :
  validate_claim name (claim, s) = Ok tt <->
  TrimSpace claim <> "" /\ As s ∈ [RouteTokenClaimString; RouteTokenClaimInt; RouteTokenClaimBool] /\ claim_path (Source s).
Proof.
  rewrite <- validate_source_spec. unfold validate_claim. cbn [fst snd].
  destruct (String.eqb_spec (TrimSpace claim) ""); [naive_solver|].
  destruct (validateRouteTokenClaimSource s) as [[]|]; naive_solver.
Qed.

Lemma validate_profile_spec {V} name (p : RouteTokenConfig V) :
  validate_profile iter (name, p) = Ok tt <-> TrimSpace name <> "" /\ (Enabled p = true -> profile_ok p).
Proof.
  unfold validate_profile, profile_ok, Secret.IsEmpty, Secret.Plaintext.
  destruct (String.eqb_spec (TrimSpace name) ""); [naive_solver|].
  destruct (Enabled p); cbn [negb]; [|naive_solver].
  destruct (String.eqb_spec (Algorithm p) "HS256"); cbn [negb]; [|naive_solver].
  destruct (String.eqb_spec (Secret.value (Secret_ p)) ""); [naive_solver|].
  destruct (Z.leb_spec (TTL p) 0); [naive_solver lia|].
  destruct (Z.leb_spec (MaxTTL p) 0); [naive_solver lia|].
  destruct (Z.ltb_spec (MaxTTL p) (TTL p)); [naive_solver lia|].
  destruct (Z.ltb_spec (Leeway p) 0); [naive_solver lia|].
  destruct (one_of (OnMissingClaim p) _) eqn:Ho; cbn [negb].
  - apply one_of_spec in Ho. assert (OnMissingClaim p = RouteTokenMissingFailClosed \/ OnMissingClaim p = RouteTokenMissingOmit)
      by (set_unfold in Ho; tauto).
    rewrite first_err_iter. unfold map_Forall. setoid_rewrite validate_claim_spec. intuition lia.
  - split; [done|]. intros [_ Hok]. destruct (Hok eq_refl) as (_ & _ & _ & _ & Hm & _).
    unfold one_of in Ho. cbn [existsb] in Ho. destruct Hm as [Hm|Hm]; rewrite Hm in Ho; done.
Qed.

Lemma validateRouteTokens_ok {V} (profiles : gmap string (RouteTokenConfig V)) :
  validateRouteTokens iter profiles = Ok tt <->
  map_Forall (fun name p => TrimSpace name <> "" /\ (Enabled p = true -> profile_ok p)) profiles.
Proof. unfold validateRouteTokens. rewrite first_err_iter. unfold map_Forall. by setoid_rewrite validate_profile_spec. Qed.

(** Loading accepts a set of route-token profiles exactly when every name
    is non-blank and every enabled profile, once the defaults are filled in,
    is usable: HS256 with a secret, a positive TTL within the maximum, a
    missing-claim policy, and named claims whose sources are in the grammar;
    so the verdict does not depend on the order maps are ranged over. *)
Theorem route_tokens_accepted {V} (profiles : gmap string (RouteTokenConfig V)) :
  validateRouteTokens iter (applyRouteTokenDefaults profiles) = Ok tt <->
  map_Forall (fun name p => TrimSpace name <> "" /\ (Enabled p = true -> profile_ok (default_profile p))) profiles.
Proof.
  unfold applyRouteTokenDefaults. by rewrite validateRouteTokens_ok, map_Forall_fmap.
Qed.

End Accepted.

Definition demo_profiles : gmap string (RouteTokenConfig Z) :=
  {["orders" := MkProfile true "" (Secret.NewSecret "k") 0 0 0 "" [] "" ∅
      {["sub" := MkSource "oauth.tg.metadata.chat" "" None]}]}.

Lemma route_tokens_accepted_witness :
  validateRouteTokens (fun A => map_to_list) (applyRouteTokenDefaults demo_profiles) = Ok tt <->
  map_Forall (fun name p => TrimSpace name <> "" /\ (Enabled p = true -> profile_ok (default_profile p))) demo_profiles.
Proof. refine (route_tokens_accepted (fun A => map_to_list) _ demo_profiles). intros A m. reflexivity. Defined.

Example demo_accepted : validateRouteTokens (fun A => map_to_list) (applyRouteTokenDefaults demo_profiles) = Ok tt.
Proof. vm_compute. reflexivity. Qed.

(** Filling in the defaults again changes nothing. *)
Lemma default_profile_idempotent {V} (p : RouteTokenConfig V) : default_profile (default_profile p) = default_profile p.
Proof.
  destruct p as [en alg sec ttl mx lw iss aud om st cl]. unfold default_profile.
  cbn [Enabled Algorithm Secret_ TTL MaxTTL Leeway Issuer Audience OnMissingClaim StaticClaims Claims]. f_equal.
  - destruct (String.eqb_spec alg ""); [done|]. by destruct (String.eqb_spec alg "").
  - destruct (Z.eqb_spec ttl 0); [done|]. by destruct (Z.eqb_spec ttl 0).
  - destruct (Z.eqb_spec mx 0); [done|]. by destruct (Z.eqb_spec mx 0).
  - destruct (Z.eqb_spec lw 0); [done|]. by destruct (Z.eqb_spec lw 0).
  - destruct (String.eqb_spec om ""); [done|]. by destruct (String.eqb_spec om "").
  - rewrite <- map_fmap_compose. apply map_fmap_ext. intros k [s a r] _. unfold compose, default_source. cbn [As].
    destruct (String.eqb_spec a "") as [->|]; [done|]. cbn [As]. by destruct (String.eqb_spec a "").
Qed.
