(* ===== verification/Health.v ===== *)
(** * Liveness and readiness probes (src/health)

    The readiness checker with its concurrent checks, the TCP self-check and
    the parts of [net] and [time] they use.  How a dependency check behaves is
    a [run]: what it does and when its result is visible.  The results arrive
    on the channel in any order, so an execution of [Check] is given by that
    order. *)
From S2P Require Import Prelude GoStrings.
Local Open Scope string_scope.
Local Open Scope Z_scope.

(** ** [time.Duration.String] *)
Module Time.

(** The last [prec] decimal digits of [v]. *)
Fixpoint last_digits (prec : nat) (v : Z) (acc : string) : string :=
  match prec with
  | O => acc
  | S p => last_digits p (v / 10) (String (ascii_of_N (48 + Z.to_N (v mod 10))) acc)
  end.

Definition fmtFrac (v : Z) (prec : nat) : string :=
  let d := TrimRightByte "0" (last_digits prec v "") in
  FormatInt (v / 10 ^ Z.of_nat prec) +:+ (if d ==s "" then "" else "." +:+ d).

Definition duration_string (d : Z) : string :=
  let u := Z.abs d in
  (if d <? 0 then "-" else "") +:+
  if u =? 0 then "0s"
  else if u <? 1000 then FormatInt u +:+ "ns"
  else if u <? 1000000 then fmtFrac u 3 +:+ bytes [194; 181]%N +:+ "s"
  else if u <? 1000000000 then fmtFrac u 6 +:+ "ms"
  else
    let secs := u / 1000000000 in
    let mins := secs / 60 in
    (if 0 <? mins / 60 then FormatInt (mins / 60) +:+ "h" else "") +:+
    (if 0 <? mins then FormatInt (mins mod 60) +:+ "m" else "") +:+
    fmtFrac (secs mod 60 * 1000000000 + u mod 1000000000) 9 +:+ "s".

Example five_seconds : duration_string 5000000000 = "5s".
Proof. reflexivity. Qed.
Example ninety_minutes : duration_string 5400000000000 = "1h30m0s".
Proof. reflexivity. Qed.
Example fraction : duration_string 1500000 = "1.5ms".
Proof. reflexivity. Qed.

End Time.

(** ** health.go *)

Definition defaultCheckTimeout : Z := 5000000000.

Record CheckStatus := MkStatus { Status : string; Detail : string }.

(** The behaviour of a [CheckFunc]: it returns or panics once [took] has
    passed, or hangs. *)
Inductive run := Returns (took : Z) (s : CheckStatus) | Panics (took : Z) (v : string) | Hangs.

Record ReadinessChecker := MkChecker {
  checks : gmap string run; version : string; details : bool; checkTimeout : Z }.

Inductive Option_ := WithCheckTimeout (d : Z).
Definition apply_option (rc : ReadinessChecker) (o : Option_) : ReadinessChecker :=
  match o with WithCheckTimeout d => MkChecker (checks rc) (version rc) (details rc) d end.

Definition NewReadinessChecker (version : string) (includeDetails : bool) (opts : list Option_) : ReadinessChecker :=
  fold_left apply_option opts (MkChecker ∅ version includeDetails defaultCheckTimeout).

Definition Register (rc : ReadinessChecker) (name : string) (check : run) : ReadinessChecker :=
  MkChecker (<[name := check]> (checks rc)) (version rc) (details rc) (checkTimeout rc).

(** What [runCheck] finds on the [done] channel, and when. *)
Definition done_value (f : run) : option (Z * CheckStatus) :=
  match f with
  | Returns t s => Some (t, s)
  | Panics t v => Some (t, MkStatus "fail" ("panic: " +:+ v))
  | Hangs => None
  end.

(** The status and the time it is there; [timer_first] is the choice of
    [select] when both channels are ready. *)
Definition runCheck (f : run) (timeout : Z) (timer_first : bool) : CheckStatus * Z :=
  let timed_out := (MkStatus "fail" ("check timed out after " +:+ Time.duration_string timeout), Z.max 0 timeout) in
  match done_value f with
  | Some (t, s) =>
      if t <? Z.max 0 timeout then (s, t)
      else if (t =? Z.max 0 timeout) && negb timer_first then (s, t) else timed_out
  | None => timed_out
  end.

Record ReadinessStatus := MkReadiness { RStatus : string; RVersion : string; Checks : option (gmap string CheckStatus) }.

(** The loop over the channel: the map and the two flags. *)
Definition receive (acc : gmap string CheckStatus * bool * bool) (r : string * CheckStatus)
  : gmap string CheckStatus * bool * bool :=
  let '(m, hasFail, hasDegraded) := acc in
  (<[fst r := snd r]> m,
   if Status (snd r) ==s "fail" then true else hasFail,
   if Status (snd r) ==s "fail" then hasDegraded else if Status (snd r) ==s "degraded" then true else hasDegraded).

Definition collect (rc : ReadinessChecker) (arrivals : list (string * CheckStatus)) : ReadinessStatus :=
  let '(m, hasFail, hasDegraded) := fold_left receive arrivals (∅, false, false) in
  MkReadiness (if hasFail then "not_ready" else if hasDegraded then "degraded" else "ready") (version rc)
    (if details rc then Some m else None).

Section Check.
(** The choice of each [select]. *)
Variable timer_first : string -> bool.

Definition results (rc : ReadinessChecker) : gmap string (CheckStatus * Z) :=
  map_imap (fun n f => Some (runCheck f (checkTimeout rc) (timer_first n))) (checks rc).

(** [Check] may return [rs]: the results arrived in some order. *)
Definition Check_ (rc : ReadinessChecker) (rs : ReadinessStatus) : Prop :=
  exists arrivals, arrivals ≡ₚ map_to_list (fst <$> results rc) /\ rs = collect rc arrivals.

(** Once the slowest result is there. *)
Definition Check_time (rc : ReadinessChecker) : Z :=
  foldr (fun r t => Z.max (snd (snd r)) t) 0 (map_to_list (results rc)).

End Check.

(** The readiness handler: the status code and the body. *)
Definition ready_Handler (rs : ReadinessStatus) : Z * ReadinessStatus :=
  ((if RStatus rs ==s "not_ready" then 503 else 200), rs).

(** ** tcpcheck.go *)

Definition has_byte (c : ascii) (s : string) : bool := negb (all_bytes (fun x => negb (Ascii.eqb x c)) s).

(** [net.SplitHostPort], with the text of its errors. *)
Definition SplitHostPort (hostport : string) : result string (string * string) :=
  let fail why := Err ("address " +:+ hostport +:+ ": " +:+ why) in
  let missingPort := fail "missing port in address" in
  let tooMany := fail "too many colons in address" in
  if negb (has_byte ":" hostport) then missingPort
  else match hostport with
       | String "[" rest =>
           match SplitN2 "]" rest with
           | None => fail "missing ']' in address"
           | Some (host, String ":" port) =>
               if has_byte ":" port then tooMany
               else if has_byte "[" host || has_byte "[" port then fail "unexpected '[' in address"
               else if has_byte "]" port then fail "unexpected ']' in address"
               else Ok (host, port)
           | Some (_, _) => missingPort
           end
       | _ =>
           match SplitN2 ":" hostport with
           | None => missingPort
           | Some (host, port) =>
               if has_byte ":" port then tooMany
               else if has_byte "[" hostport then fail "unexpected '[' in address"
               else if has_byte "]" hostport then fail "unexpected ']' in address"
               else Ok (host, port)
           end
       end.

Definition JoinHostPort (host port : string) : string :=
  if has_byte ":" host then "[" +:+ host +:+ "]:" +:+ port else host +:+ ":" +:+ port.

Definition probeAddrFromListenAddr (listenAddr : string) : result string string :=
  let? hp := SplitHostPort listenAddr in
  let host := if (fst hp ==s "") || (fst hp ==s "0.0.0.0") then "127.0.0.1"
              else if fst hp ==s "::" then "::1" else fst hp in
  Ok (JoinHostPort host (snd hp)).

Definition defaultTCPDialTimeout : Z := 1000000000.

(** [dial] connects within the timeout, or fails with an error's text. *)
Definition TCPDialCheck (dial : Z -> string -> option string) (listenAddr : string) (timeout : Z) : CheckStatus :=
  match probeAddrFromListenAddr listenAddr with
  | Err e => MkStatus "fail" ("invalid listen addr: " +:+ e)
  | Ok probeAddr =>
      let dialTimeout := if timeout <=? 0 then defaultTCPDialTimeout else timeout in
      match dial dialTimeout probeAddr with
      | Some e => MkStatus "fail" e
      | None => MkStatus "ok" ""
      end
  end.

(** ** The readiness checker *)

Definition some_status (v : string) (m : gmap string CheckStatus) : bool :=
  existsb (fun p => Status (snd p) ==s v) (map_to_list m).

Definition aggregate (m : gmap string CheckStatus) : string :=
  if some_status "fail" m then "not_ready" else if some_status "degraded" m then "degraded" else "ready".

Lemma fold_receive l m f d :
  fold_left receive l (m, f, d) =
  (fold_left (fun m r => <[fst r := snd r]> m) l m,
   f || existsb (fun p => Status (snd p) ==s "fail") l,
   d || existsb (fun p => Status (snd p) ==s "degraded") l).
Proof.
  revert m f d; induction l as [|[n s] l IH]; intros m f d; cbn [fold_left existsb]; [by rewrite !orb_false_r|].
  unfold receive at 2. cbn [fst snd]. rewrite IH. destruct (String.eqb_spec (Status s) "fail") as [->|_]; [by destruct f|].
  cbn [orb]. by destruct (Status s ==s "degraded"), d.
Qed.

Lemma fold_insert (l : list (string * CheckStatus)) (m0 : gmap string CheckStatus) :
  NoDup l.*1 -> fold_left (fun m r => <[fst r := snd r]> m) l m0 = list_to_map l ∪ m0.
Proof.
  revert m0; induction l as [|[k v] l IH]; intros m0; cbn [fold_left fst snd fmap list_fmap list_to_map foldr].
  - by rewrite map_empty_union.
  - intros [Hk Hnd]%NoDup_cons. rewrite IH by done.
    rewrite <- insert_union_r by (by apply not_elem_of_list_to_map_1). apply insert_union_l.
Qed.

Lemma fold_insert_perm (l : list (string * CheckStatus)) (m : gmap string CheckStatus) :
  l ≡ₚ map_to_list m -> fold_left (fun m r => <[fst r := snd r]> m) l ∅ = m.
Proof.
  intros Hp. rewrite fold_insert by (rewrite Hp; apply NoDup_fst_map_to_list). rewrite map_union_empty.
  symmetry. by apply list_to_map_flip.
Qed.

Lemma existsb_perm {A} (f : A -> bool) l l' : l ≡ₚ l' -> existsb f l = existsb f l'.
Proof.
  intros Hp. apply eq_iff_eq_true. rewrite !existsb_exists. setoid_rewrite <- list_elem_of_In. by setoid_rewrite Hp.
Qed.

(** The outcome of a readiness check does not depend on the order in which
    the concurrent checks finish: it is [not_ready] if one failed, else
    [degraded] if one is degraded, else [ready], lists every registered check
    exactly once when details are on, and the probe answers 503 exactly when
    a check failed, timed out or panicked. *)
Theorem Check_order_independent timer_first rc rs :
  Check_ timer_first rc rs ->
  let m := fst <$> results timer_first rc in
  RStatus rs = aggregate m /\ RVersion rs = version rc /\
  Checks rs = (if details rc then Some m else None) /\ dom m = dom (checks rc) /\
  (fst (ready_Handler rs) = 503 <-> exists n s, m !! n = Some s /\ Status s = "fail").
Proof.
  intros (l & Hp & ->) m. fold m in Hp. unfold collect. rewrite fold_receive, (fold_insert_perm l m Hp).
  cbn [orb]. rewrite !(existsb_perm _ _ _ Hp). fold (some_status "fail" m) (some_status "degraded" m). fold (aggregate m).
  cbn [RStatus RVersion Checks]. split; [done|]. split; [done|]. split; [done|]. split.
  - unfold m, results. rewrite dom_fmap_L. apply dom_imap_L. intros i. rewrite elem_of_dom. split; [intros [f Hf]; eauto|].
    by intros (f & Hf & _).
  - unfold ready_Handler. cbn [fst RStatus]. unfold aggregate, some_status.
    destruct (existsb (fun p => Status (snd p) ==s "fail") (map_to_list m)) eqn:He.
    + split; [|done]. intros _. apply existsb_exists in He as ([n s] & Hin & Hs). apply String.eqb_eq in Hs.
      apply list_elem_of_In, elem_of_map_to_list in Hin. by exists n, s.
    + split; [repeat case_match; done|]. intros (n & s & Hl & Hs). exfalso. apply not_true_iff_false in He. apply He.
      apply existsb_exists. exists (n, s). split; [by apply list_elem_of_In, elem_of_map_to_list|]. cbn. by rewrite Hs.
Qed.

Definition demo : ReadinessChecker :=
  Register (Register (NewReadinessChecker "v1" true []) "db" (Returns 3 (MkStatus "ok" ""))) "mq" Hangs.

Lemma Check_order_independent_witness :
  let rs := collect demo (map_to_list (fst <$> results (fun _ => true) demo)) in
  RStatus rs = "not_ready" /\ fst (ready_Handler rs) = 503.
Proof.
  destruct (Check_order_independent (fun _ => true) demo
    (collect demo (map_to_list (fst <$> results (fun _ => true) demo)))) as (H1 & _ & _ & _ & H2).
  - by exists (map_to_list (fst <$> results (fun _ => true) demo)).
  - split; [rewrite H1; vm_compute; reflexivity|]. apply H2. exists "mq", (MkStatus "fail" "check timed out after 5s").
    split; vm_compute; reflexivity.
Defined.

Lemma runCheck_time f timeout b : snd (runCheck f timeout b) <= Z.max 0 timeout.
Proof. unfold runCheck. repeat case_match; bprop; cbn; lia. Qed.

Lemma runCheck_hang f timeout b :
  (forall t s, done_value f = Some (t, s) -> Z.max 0 timeout < t) ->
  Status (fst (runCheck f timeout b)) = "fail".
Proof.
  unfold runCheck. intros H. destruct (done_value f) as [[t s]|]; [|done]. specialize (H t s eq_refl).
  rewrite (proj2 (Z.ltb_ge _ _)), (proj2 (Z.eqb_neq _ _)) by lia. done.
Qed.

(** A readiness check always comes back: within the per-check timeout, with
    however many checks that hang; a check still running then and a check
    that panics are reported as failed, and one that returned in time with
    what it said. *)
Theorem Check_bounded timer_first rc :
  Check_time timer_first rc <= Z.max 0 (checkTimeout rc) /\
  (exists rs, Check_ timer_first rc rs) /\
  (forall n f, checks rc !! n = Some f ->
     exists s, (fst <$> results timer_first rc) !! n = Some s /\
       match f with
       | Returns t s0 => (t < Z.max 0 (checkTimeout rc) -> s = s0) /\ (Z.max 0 (checkTimeout rc) < t -> Status s = "fail")
       | Panics _ _ | Hangs => Status s = "fail"
       end).
Proof.
  split; [|split].
  - unfold Check_time. assert (Forall (fun r => snd (snd r) <= Z.max 0 (checkTimeout rc)) (map_to_list (results timer_first rc))) as Hall.
    { apply Forall_forall. intros [n r] Hin%elem_of_map_to_list. unfold results in Hin. rewrite map_lookup_imap in Hin.
      destruct (checks rc !! n) as [f|]; [|done]. injection Hin as <-. apply runCheck_time. }
    induction Hall as [|r l Hr Hl IH]; cbn [foldr]; lia.
  - eexists _, _. split; [reflexivity|done].
  - intros n f Hf. exists (fst (runCheck f (checkTimeout rc) (timer_first n))). split.
    { unfold results. by rewrite lookup_fmap, map_lookup_imap, Hf. }
    destruct f as [t s|t v|]; [split| |].
    + intros Hlt. unfold runCheck. cbn [done_value]. by rewrite (proj2 (Z.ltb_lt _ _)) by done.
    + intros Hgt. apply runCheck_hang. by intros ? ? [= -> ->].
    + unfold runCheck. cbn [done_value]. by repeat case_match.
    + by apply runCheck_hang.
Qed.

(** ** Probing one's own listener *)

Lemma has_byte_app c a b : has_byte c (a +:+ b) = has_byte c a || has_byte c b.
Proof.
  unfold has_byte. induction a as [|x a IH]; [done|]. change (String x a +:+ b) with (String x (a +:+ b)).
  cbn [all_bytes]. rewrite !negb_andb, IH. by rewrite orb_assoc.
Qed.

Lemma has_byte_cons c x s : has_byte c (String x s) = Ascii.eqb x c || has_byte c s.
Proof. unfold has_byte. cbn [all_bytes]. by rewrite negb_andb, negb_involutive. Qed.

Lemma has_byte_all c s : has_byte c s = false -> all_bytes (fun x => negb (Ascii.eqb x c)) s = true.
Proof. unfold has_byte. apply negb_false_iff. Qed.

(** A host and a port that an address can carry. *)
Definition addr_ok (host port : string) : Prop :=
  has_byte "[" host = false /\ has_byte "]" host = false /\
  has_byte "[" port = false /\ has_byte "]" port = false /\ has_byte ":" port = false.

(** Without a bracket at the front, the first colon divides the address. *)
Lemma Split_plain s :
  has_byte "[" s = false ->
  SplitHostPort s =
    let fail why := Err ("address " +:+ s +:+ ": " +:+ why) in
    match SplitN2 ":" s with
    | Some (host, port) =>
        if negb (has_byte ":" s) then fail "missing port in address"
        else if has_byte ":" port then fail "too many colons in address"
        else if has_byte "]" s then fail "unexpected ']' in address"
        else Ok (host, port)
    | None => fail "missing port in address"
    end.
Proof.
  intros Hb. unfold SplitHostPort. destruct s as [|c s]; [done|].
  assert (c <> "["%char) as Hc by (intros ->; done).
  destruct (SplitN2 ":" (String c s)) as [[host port]|]; rewrite ?Hb; repeat case_match; simplify_eq; done.
Qed.

Lemma Split_Join host port : addr_ok host port -> SplitHostPort (JoinHostPort host port) = Ok (host, port).
Proof.
  intros (Hh1 & Hh2 & Hp1 & Hp2 & Hp3). unfold JoinHostPort. destruct (has_byte ":" host) eqn:Hc.
  - change ("[" +:+ host +:+ "]:" +:+ port) with (String "[" (host +:+ String "]" (String ":" port))).
    unfold SplitHostPort. rewrite has_byte_cons, has_byte_app, Hc. change (Ascii.eqb "[" ":") with false. cbn [orb negb].
    rewrite SplitN2_app by (by apply has_byte_all). by rewrite Hp3, Hh1, Hp1, Hp2.
  - change (host +:+ ":" +:+ port) with (host +:+ String ":" port).
    rewrite Split_plain by (rewrite has_byte_app, has_byte_cons, Hh1, Hp1; done).
    rewrite SplitN2_app by (by apply has_byte_all). rewrite !has_byte_app, !has_byte_cons, Hh2, Hp2, Hc, Hp3. done.
Qed.

(** A service probes its own listener through loopback: for a wildcard
    listen address, in the form [:port] or [0.0.0.0:port], the self-check dials
    127.0.0.1 on that port, for [[::]:port] it dials [[::1]:port], and for any
    other host the address itself; the check is ok exactly when that
    connection succeeds. *)
Theorem TCPDialCheck_target dial host port timeout :
  addr_ok host port ->
  let target := JoinHostPort (if (host ==s "") || (host ==s "0.0.0.0") then "127.0.0.1"
                              else if host ==s "::" then "::1" else host) port in
  let t := if timeout <=? 0 then defaultTCPDialTimeout else timeout in
  0 < t /\
  (Status (TCPDialCheck dial (JoinHostPort host port) timeout) = "ok" <-> dial t target = None).
Proof.
  intros Hok target t. split.
  { unfold t. destruct (Z.leb_spec timeout 0); [done|lia]. }
  unfold TCPDialCheck, probeAddrFromListenAddr. rewrite (Split_Join host port Hok). cbn [fst snd]. fold target t.
  by destruct (dial t target).
Qed.

Lemma TCPDialCheck_target_witness :
  let dial (t : Z) (a : string) := if a ==s "127.0.0.1:8080" then None else Some "refused" in
  0 < defaultTCPDialTimeout /\
  (Status (TCPDialCheck dial (JoinHostPort "" "8080") 0) = "ok" <-> dial defaultTCPDialTimeout "127.0.0.1:8080" = None).
Proof.
  intros dial. refine (TCPDialCheck_target dial "" "8080" 0 _). repeat split; vm_compute; reflexivity.
Defined.
