(* ===== verification/Jwt.v ===== *)
(** * JSON web tokens (src/jwtx)

    verify.go, kid.go, jwk.go and jwk_remote.go: verification of compact
    tokens, key identifiers, JSON web keys and the cached remote key set.  The
    primitives of package crypto and the JSON decoder are arguments; base64,
    big integers, instants and SHA-256 are modelled. *)
From S2P Require Import Prelude GoStrings Sha256 TokenMint AuditList GatewayCtx.
Local Open Scope string_scope.
Local Open Scope Z_scope.

(** ** Standard library *)
Module Std.

Definition unixToInternal : Z := 62135596800.

(** A [time.Time]: seconds since year 1 as an int64, and nanoseconds. *)
Record Time := MkTime { ext : Z; nsec : Z }.

Definition Unix (sec : Z) : Time := MkTime (wrap64 (sec + unixToInternal)) 0.

(** [addSec] saturates. *)
Definition addSec (e d : Z) : Z :=
  let sum := wrap64 (e + d) in
  if Bool.eqb (e <? sum) (0 <? d) then sum else if 0 <? d then maxInt64 else - maxInt64.

Definition Add (t : Time) (d : Z) : Time :=
  let dsec := Z.quot d Second in
  let n := nsec t + Z.rem d Second in
  if Second <=? n then MkTime (addSec (ext t) (dsec + 1)) (n - Second)
  else if n <? 0 then MkTime (addSec (ext t) (dsec - 1)) (n + Second)
  else MkTime (addSec (ext t) dsec) n.

Definition After (t u : Time) : bool := (ext u <? ext t) || ((ext t =? ext u) && (nsec u <? nsec t)).
Definition Before (t u : Time) : bool := After u t.

(** Nanoseconds since the Unix epoch. *)
Definition ns (t : Time) : Z := (ext t - unixToInternal) * Second + nsec t.
Definition time_ok (t : Time) : Prop := 0 <= nsec t < Second.

Lemma After_ns t u : time_ok t -> time_ok u -> After t u = true <-> ns u < ns t.
Proof. unfold time_ok, After, ns, Second in *. intros. bprop. nia. Qed.

Lemma addSec_small e d : int64_range (e + d) -> addSec e d = e + d.
Proof.
  intros Hr. unfold addSec. rewrite wrap64_id by done.
  destruct (Z.ltb_spec e (e + d)), (Z.ltb_spec 0 d); cbn [Bool.eqb]; lia.
Qed.

(** Adding a duration to an instant within 2^61 seconds of the epoch. *)
Lemma Add_ns t d :
  time_ok t -> int64_range d -> - 2 ^ 62 <= ext t < 2 ^ 62 -> ns (Add t d) = ns t + d /\ time_ok (Add t d).
Proof.
  intros Ht Hd He. pose proof (Z.quot_rem' d Second) as Hq.
  assert (Z.abs (Z.rem d Second) < Second) as Hr by (apply Z.rem_bound_abs; done).
  assert (Z.abs (Z.quot d Second) <= 2 ^ 40) as Hb.
  { rewrite <- Z.quot_abs by done. rewrite Z.quot_div_nonneg by (try done; lia). change (Z.abs Second) with Second.
    unfold int64_range in Hd. assert (Z.abs d < 2 ^ 63 + 1) by lia.
    assert (Z.abs d / Second < 2 ^ 40); [|lia]. apply Z.div_lt_upper_bound; [done|]. 
    assert (2 ^ 63 + 1 <= Second * 2 ^ 40) by (vm_compute; discriminate). lia. }
  unfold Add, time_ok, ns in *.
  assert (forall k, Z.abs k <= 2 ^ 40 + 1 -> addSec (ext t) k = ext t + k) as Ha.
  { intros k Hk. apply addSec_small. unfold int64_range. lia. }
  destruct (Z.leb_spec Second (nsec t + Z.rem d Second)); cbn [ext nsec]; [rewrite Ha by lia; lia|].
  destruct (Z.ltb_spec (nsec t + Z.rem d Second) 0); cbn [ext nsec]; rewrite Ha by lia; lia.
Qed.

Lemma Unix_ns sec : int64_range (sec + unixToInternal) -> ns (Unix sec) = sec * Second /\ time_ok (Unix sec).
Proof. intros Hr. unfold ns, Unix, time_ok. cbn [ext nsec]. rewrite wrap64_id by done. unfold Second. lia. Qed.

(** ** [base64.URLEncoding] *)

(** The text without line breaks, cut at the first padding character. *)
Fixpoint cut_padding (s : string) : string * string :=
  match s with
  | "" => ("", "")
  | String c s' => if Ascii.eqb c "=" then ("", s) else let '(d, p) := cut_padding s' in (String c d, p)
  end.

Fixpoint drop_newlines (s : string) : string :=
  match s with
  | "" => ""
  | String c s' => if Base64.newline c then drop_newlines s' else String c (drop_newlines s')
  end.

Definition DecodePadded (s : string) : option string :=
  let '(data, pad) := cut_padding (drop_newlines s) in
  let want := match (String.length data mod 4)%nat with 0%nat => Some "" | 2%nat => Some "==" | 3%nat => Some "=" | _ => None end in
  match want with
  | Some w => if pad ==s w then Base64.DecodeString data else None
  | None => None
  end.

(** ** [big.Int] *)

Fixpoint bytes_be (fuel : nat) (n : N) (acc : string) : string :=
  match fuel with
  | O => acc
  | S f => if (n =? 0)%N then acc else bytes_be f (n / 256) (String (ascii_of_N (n mod 256)) acc)
  end.
Definition Bytes (n : N) : string := bytes_be (N.to_nat (N.size n)) n "".

Fixpoint SetBytes (s : string) (acc : N) : N :=
  match s with "" => acc | String c s' => SetBytes s' (acc * 256 + code c)%N end.

Lemma SetBytes_be fuel n acc : (n < 256 ^ N.of_nat fuel)%N -> SetBytes (bytes_be fuel n acc) 0 = SetBytes acc n.
Proof.
  revert n acc; induction fuel as [|f IH]; intros n acc Hn; cbn [bytes_be].
  - assert (n = 0%N) as -> by (cbn in Hn; lia). done.
  - destruct (N.eqb_spec n 0) as [->|Hne]; [done|]. rewrite IH.
    + cbn [SetBytes]. f_equal. unfold code. rewrite N_ascii_embedding by (apply N.mod_lt; lia).
      pose proof (N.div_mod n 256). lia.
    + apply N.Div0.div_lt_upper_bound. rewrite Nat2N.inj_succ, N.pow_succ_r' in Hn. lia.
Qed.

Lemma SetBytes_Bytes n : SetBytes (Bytes n) 0 = n.
Proof.
  unfold Bytes. rewrite SetBytes_be; [done|].
  pose proof (N.size_gt n) as Hs. rewrite N2Nat.id.
  assert (2 ^ N.size n <= 256 ^ N.size n)%N; [|lia]. apply N.pow_le_mono_l. lia.
Qed.

End Std.
Import Std.

Definition base64URLDecode (s : string) : option string :=
  DecodePadded (match (String.length s mod 4)%nat with 2%nat => s +:+ "==" | 3%nat => s +:+ "=" | _ => s end).

Lemma SplitN2_inv sep s a b : SplitN2 sep s = Some (a, b) -> s = a +:+ String sep b.
Proof.
  revert a; induction s as [|c s IH]; intros a; cbn [SplitN2]; [done|].
  destruct (Ascii.eqb_spec c sep) as [->|]; [by intros [= <- <-]|].
  destruct (SplitN2 sep s) as [[a' b']|]; [|done]. intros [= <- <-]. by rewrite (IH a').
Qed.

Lemma substring_all s : String.substring 0 (String.length s) s = s.
Proof. induction s as [|c s IH]; [done|]. cbn. by rewrite IH. Qed.

Lemma substring_halves k m s :
  String.length s = (k + m)%nat ->
  s = String.substring 0 k s +:+ String.substring k m s /\
  String.length (String.substring 0 k s) = k /\ String.length (String.substring k m s) = m.
Proof.
  revert s; induction k as [|k IH]; intros s Hs.
  - cbn in Hs. rewrite <- Hs, substring_all. by destruct s.
  - destruct s as [|c s]; [done|]. injection Hs as Hs. destruct (IH s Hs) as (H1 & H2 & H3).
    cbn [String.substring String.length]. split; [|split; congruence].
    change (String c s = String c (String.substring 0 k s +:+ String.substring k m s)). by rewrite <- H1.
Qed.

(** ** verify.go *)

Inductive Curve := P256 | P384 | P521.
Definition BitSize (c : Curve) : Z := match c with P256 => 256 | P384 => 384 | P521 => 521 end.

Inductive PublicKey :=
| RSAKey (N : N) (E : Z) | ECKey (curve : Curve) (X Y : N) | EdKey (key : string) | OtherKey.

Inductive Hash := SHA256 | SHA384 | SHA512.

Definition algToHash (alg : string) : option Hash :=
  if (alg ==s "RS256") || (alg ==s "ES256") then Some SHA256
  else if (alg ==s "RS384") || (alg ==s "ES384") then Some SHA384
  else if (alg ==s "RS512") || (alg ==s "ES512") then Some SHA512
  else None.

(** A decoded JSON value as the code looks at it. *)
Inductive value := VString (s : string) | VFloat (f : Float64.t) | VNumber (text : string) | VList (l : list value) | VOther.
Abbreviation object := (gmap string value).

Record VerifyConfig := MkVerify {
  AllowedAlgorithms : list string; RequiredIssuer : string; RequiredAudience : string; ClockSkew : Z }.

Record VerifiedToken := MkToken { Header : object; Claims : object }.

Inductive SigErr := KeyTypeMismatch | UnsupportedHash | BadSignatureLength | SignatureInvalid | UnsupportedAlgorithm.
Inductive VerifyErr (E : Type) :=
| MalformedToken | HeaderEncoding | HeaderJSON | AlgNone | AlgNotAllowed (alg : string) | KeyLookup (e : E)
| SignatureEncoding | Signature (e : SigErr) | PayloadEncoding | ClaimsJSON | Expired | NotYetValid
| IssuerMismatch (got : string) | AudienceMismatch.
Arguments MalformedToken {E}. Arguments HeaderEncoding {E}. Arguments HeaderJSON {E}. Arguments AlgNone {E}.
Arguments AlgNotAllowed {E} _. Arguments KeyLookup {E} _. Arguments SignatureEncoding {E}. Arguments Signature {E} _.
Arguments PayloadEncoding {E}. Arguments ClaimsJSON {E}. Arguments Expired {E}. Arguments NotYetValid {E}.
Arguments IssuerMismatch {E} _. Arguments AudienceMismatch {E}.

(** The type assertion [x.(string)] with its result ignored. *)
Definition as_string (v : option value) : string := match v with Some (VString s) => s | _ => "" end.

Definition numericClaim (claims : object) (key : string) : option Z :=
  match claims !! key with
  | Some (VFloat f) => Some (Float64.trunc f)
  | Some (VNumber t) => ParseInt t
  | _ => None
  end.

Definition audienceContains (aud : option value) (target : string) : bool :=
  match aud with
  | Some (VString s) => s ==s target
  | Some (VList l) => existsb (fun a => match a with VString s => s ==s target | _ => false end) l
  | _ => false
  end.

Section Verify.
(** [json.Unmarshal] into a map, and the primitives of package crypto. *)
Variable Unmarshal : string -> option object.
Variable digest : Hash -> string -> string.
Variable rsa_verify : N -> Z -> Hash -> string -> string -> bool.
Variable ecdsa_verify : Curve -> N -> N -> string -> N -> N -> bool.
Variable ed25519_verify : string -> string -> string -> bool.

Definition verifyRSA (alg : string) (pub : PublicKey) (signingInput signature : string) : result SigErr unit :=
  match pub with
  | RSAKey n e =>
      match algToHash alg with
      | None => Err UnsupportedHash
      | Some h => if rsa_verify n e h (digest h signingInput) signature then Ok tt else Err SignatureInvalid
      end
  | _ => Err KeyTypeMismatch
  end.

Definition verifyECDSA (alg : string) (pub : PublicKey) (signingInput signature : string) : result SigErr unit :=
  match pub with
  | ECKey c x y =>
      match algToHash alg with
      | None => Err UnsupportedHash
      | Some h =>
          let keySize := Z.quot (BitSize c + 7) 8 in
          if negb (Len signature =? 2 * keySize) then Err BadSignatureLength
          else
            let r := SetBytes (String.substring 0 (Z.to_nat keySize) signature) 0 in
            let s := SetBytes (String.substring (Z.to_nat keySize) (Z.to_nat keySize) signature) 0 in
            if ecdsa_verify c x y (digest h signingInput) r s then Ok tt else Err SignatureInvalid
      end
  | _ => Err KeyTypeMismatch
  end.

Definition verifyEdDSA (pub : PublicKey) (signingInput signature : string) : result SigErr unit :=
  match pub with
  | EdKey k => if ed25519_verify k signingInput signature then Ok tt else Err SignatureInvalid
  | _ => Err KeyTypeMismatch
  end.

Definition verifySig (alg : string) (pub : PublicKey) (signingInput signature : string) : result SigErr unit :=
  if HasPrefix alg "RS" then verifyRSA alg pub signingInput signature
  else if HasPrefix alg "ES" then verifyECDSA alg pub signingInput signature
  else if alg ==s "EdDSA" then verifyEdDSA pub signingInput signature
  else Err UnsupportedAlgorithm.

Context {E : Type}.

Definition check_times (claims : object) (now : Time) (skew : Z) : result (VerifyErr E) unit :=
  let? _ := match numericClaim claims "exp" with
            | Some exp => if After now (Add (Unix exp) skew) then Err Expired else Ok tt
            | None => Ok tt
            end in
  match numericClaim claims "nbf" with
  | Some nbf => if Before now (Add (Unix nbf) (wrap64 (- skew))) then Err NotYetValid else Ok tt
  | None => Ok tt
  end.

Definition check_parties (claims : object) (cfg : VerifyConfig) : result (VerifyErr E) unit :=
  let iss := as_string (claims !! "iss") in
  if (RequiredIssuer cfg !=s "") && (iss !=s RequiredIssuer cfg) then Err (IssuerMismatch iss)
  else if (RequiredAudience cfg !=s "") && negb (audienceContains (claims !! "aud") (RequiredAudience cfg))
  then Err AudienceMismatch else Ok tt.

(** [strings.SplitN(token, ".", 3)]. *)
Definition split3 (token : string) : option (string * string * string) :=
  '(p0, rest) ← SplitN2 "." token;
  '(p1, p2) ← SplitN2 "." rest;
  Some (p0, p1, p2).

Definition or_err {A} (o : option A) (e : VerifyErr E) : result (VerifyErr E) A :=
  match o with Some a => Ok a | None => Err e end.

Definition Verify (tokenString : string) (keyFunc : string -> string -> result E PublicKey) (cfg : option VerifyConfig)
    (now : Time) : result (VerifyErr E) VerifiedToken :=
  let cfg := default (MkVerify [] "" "" 0) cfg in
  let? parts := or_err (split3 tokenString) MalformedToken in
  let '(p0, p1, p2) := parts in
  let? headerBytes := or_err (base64URLDecode p0) HeaderEncoding in
  let? header := or_err (Unmarshal headerBytes) HeaderJSON in
  let alg := as_string (header !! "alg") in
  let kid := as_string (header !! "kid") in
  if EqualFold alg "none" then Err AlgNone
  else if negb (match AllowedAlgorithms cfg with [] => true | l => existsb (fun a => a ==s alg) l end)
  then Err (AlgNotAllowed alg)
  else
    let? pub := match keyFunc kid alg with Ok k => Ok k | Err e => Err (KeyLookup e) end in
    let? signature := or_err (base64URLDecode p2) SignatureEncoding in
    let? _ := match verifySig alg pub (p0 +:+ "." +:+ p1) signature with Ok _ => Ok tt | Err e => Err (Signature e) end in
    let? claimBytes := or_err (base64URLDecode p1) PayloadEncoding in
    let? claims := or_err (Unmarshal claimBytes) ClaimsJSON in
    let? _ := check_times claims now (ClockSkew cfg) in
    let? _ := check_parties claims cfg in
    Ok (MkToken header claims).

Definition VerifyWithKey (tokenString : string) (pub : PublicKey) (cfg : option VerifyConfig) (now : Time)
  : result (VerifyErr E) VerifiedToken := Verify tokenString (fun _ _ => Ok pub) cfg now.

Definition VerifyWithKeyRaw (signingInput signature : string) (pub : PublicKey) (alg : string) : result SigErr unit :=
  verifySig alg pub signingInput signature.

(** *** What an accepted signature is *)

(** The algorithm's family, hash and kind of key agree, and the primitive
    accepts the signature of the input. *)
Inductive good_signature (input sig : string) : string -> PublicKey -> Prop :=
| good_rsa alg h n e :
    (alg, h) ∈ [("RS256", SHA256); ("RS384", SHA384); ("RS512", SHA512)] ->
    rsa_verify n e h (digest h input) sig = true -> good_signature input sig alg (RSAKey n e)
| good_ec alg h c x y r s :
    (alg, h) ∈ [("ES256", SHA256); ("ES384", SHA384); ("ES512", SHA512)] ->
    sig = r +:+ s -> Len r = (BitSize c + 7) / 8 -> Len s = (BitSize c + 7) / 8 ->
    ecdsa_verify c x y (digest h input) (SetBytes r 0) (SetBytes s 0) = true ->
    good_signature input sig alg (ECKey c x y)
| good_ed k : ed25519_verify k input sig = true -> good_signature input sig "EdDSA" (EdKey k).

Lemma algToHash_family alg h pre :
  algToHash alg = Some h -> HasPrefix alg pre = true -> pre = "RS" \/ pre = "ES" ->
  (alg, h) ∈ [(pre +:+ "256", SHA256); (pre +:+ "384", SHA384); (pre +:+ "512", SHA512)].
Proof.
  unfold algToHash. intros Ha Hp Hpre.
  destruct (String.eqb_spec alg "RS256") as [->|_]; [destruct Hpre as [-> | ->]; [|done]; injection Ha as <-; left|].
  destruct (String.eqb_spec alg "ES256") as [->|_]; [destruct Hpre as [-> | ->]; [done|]; injection Ha as <-; left|].
  destruct (String.eqb_spec alg "RS384") as [->|_]; [destruct Hpre as [-> | ->]; [|done]; injection Ha as <-; right; left|].
  destruct (String.eqb_spec alg "ES384") as [->|_]; [destruct Hpre as [-> | ->]; [done|]; injection Ha as <-; right; left|].
  destruct (String.eqb_spec alg "RS512") as [->|_]; [destruct Hpre as [-> | ->]; [|done]; injection Ha as <-; do 2 right; left|].
  destruct (String.eqb_spec alg "ES512") as [->|_]; [destruct Hpre as [-> | ->]; [done|]; injection Ha as <-; do 2 right; left|].
  done.
Qed.

(** The dispatch accepts nothing but a good signature: no algorithm is applied
    to another family's key. *)
Lemma verifySig_sound alg pub input sig : verifySig alg pub input sig = Ok tt -> good_signature input sig alg pub.
Proof.
  unfold verifySig. destruct (HasPrefix alg "RS") eqn:Hrs.
  { unfold verifyRSA. destruct pub; try done. destruct (algToHash alg) as [h|] eqn:Hh; [|done].
    destruct (rsa_verify _ _ _ _ _) eqn:Hv; [|done]. intros _. apply (good_rsa _ _ alg h); [|done].
    apply (algToHash_family alg h "RS"); auto. }
  destruct (HasPrefix alg "ES") eqn:Hes.
  { unfold verifyECDSA. destruct pub as [|c x y| |]; try done. destruct (algToHash alg) as [h|] eqn:Hh; [|done].
    destruct (Z.eqb_spec (Len sig) (2 * Z.quot (BitSize c + 7) 8)) as [Hl|]; [|done]. cbn [negb].
    destruct (ecdsa_verify _ _ _ _ _ _) eqn:Hv; [|done]. intros _.
    assert (Z.quot (BitSize c + 7) 8 = (BitSize c + 7) / 8) as Hq by (by destruct c).
    assert (0 <= (BitSize c + 7) / 8) as Hpos by (by destruct c). rewrite Hq in *.
    destruct (substring_halves (Z.to_nat ((BitSize c + 7) / 8)) (Z.to_nat ((BitSize c + 7) / 8)) sig) as (H1 & H2 & H3).
    { unfold Len in Hl. lia. }
    eapply (good_ec _ _ alg h c x y); [apply (algToHash_family alg h "ES"); auto|exact H1|unfold Len; lia|unfold Len; lia|done]. }
  destruct (String.eqb_spec alg "EdDSA") as [->|]; [|done]. unfold verifyEdDSA. destruct pub; try done.
  destruct (ed25519_verify _ _ _) eqn:Hv; [|done]. intros _. by apply good_ed.
Qed.

(** An instant that the arithmetic of package time represents exactly. *)
Definition sane (sec : Z) : Prop := - 2 ^ 61 <= sec < 2 ^ 61.

Lemma deadline_ns sec d : sane sec -> int64_range d ->
  ns (Add (Unix sec) d) = sec * Second + d /\ time_ok (Add (Unix sec) d).
Proof.
  unfold sane. intros Hs Hd. assert (int64_range (sec + unixToInternal)) as Hr by (unfold int64_range, unixToInternal; lia).
  destruct (Unix_ns sec Hr) as [Hn Hok]. rewrite <- Hn. apply Add_ns; [done..|].
  unfold Unix. cbn [ext]. rewrite wrap64_id by done. unfold unixToInternal. lia.
Qed.

(** A claim's value states a number of seconds: a number, whose fraction is
    dropped, or the text of a decimal integer.  Nothing else does. *)
Inductive states : value -> Z -> Prop :=
| states_float f : states (VFloat f) (Float64.trunc f)
| states_number t sec : ParseInt t = Some sec -> states (VNumber t) sec.

Lemma states_numeric claims key v sec :
  claims !! key = Some v -> states v sec -> numericClaim claims key = Some sec.
Proof. unfold numericClaim. intros ->. by destruct 1. Qed.

(** The audience claim names [a]: it is that text or a list that has it. *)
Definition names_audience (aud : option value) (a : string) : Prop :=
  aud = Some (VString a) \/ exists l, aud = Some (VList l) /\ VString a ∈ l.

Lemma audience_named aud a : audienceContains aud a = true -> names_audience aud a.
Proof.
  destruct aud as [[s| | |l|]|]; cbn; try done.
  - intros ->%String.eqb_eq. by left.
  - intros (x & Hx & Ht)%existsb_exists. right. exists l. split; [done|].
    destruct x; try done. apply String.eqb_eq in Ht as ->. by apply list_elem_of_In.
Qed.

Lemma check_times_sound claims now skew :
  time_ok now -> 0 <= skew <= maxInt64 -> check_times claims now skew = Ok tt ->
  (forall v exp, claims !! "exp" = Some v -> states v exp -> sane exp -> ns now <= exp * Second + skew) /\
  (forall v nbf, claims !! "nbf" = Some v -> states v nbf -> sane nbf -> nbf * Second - skew <= ns now).
Proof.
  intros Hnow Hskew. enough (check_times claims now skew = Ok tt ->
    (forall exp, numericClaim claims "exp" = Some exp -> sane exp -> ns now <= exp * Second + skew) /\
    (forall nbf, numericClaim claims "nbf" = Some nbf -> sane nbf -> nbf * Second - skew <= ns now))
    as H by (intros [H1 H2]%H; split; intros; [eapply H1|eapply H2]; eauto using states_numeric).
  assert (int64_range skew) as Hr by (unfold int64_range, maxInt64 in *; lia).
  assert (int64_range (- skew)) as Hr' by (unfold int64_range, maxInt64 in *; lia).
  unfold check_times, Before. rewrite (wrap64_id (- skew)) by done. intros Hc. split.
  - intros exp He Hs. rewrite He in Hc. destruct (deadline_ns exp skew Hs Hr) as [Hn Hok].
    destruct (After now _) eqn:Ha; [done|]. apply not_true_iff_false in Ha. rewrite After_ns, Hn in Ha by done. lia.
  - intros nbf He Hs. rewrite He in Hc. destruct (deadline_ns nbf (- skew) Hs Hr') as [Hn Hok].
    case_match; [|done]. destruct (After _ now) eqn:Ha; [done|]. apply not_true_iff_false in Ha.
    rewrite After_ns, Hn in Ha by done. lia.
Qed.

Lemma check_parties_sound claims cfg :
  check_parties claims cfg = Ok tt ->
  (RequiredIssuer cfg <> "" -> claims !! "iss" = Some (VString (RequiredIssuer cfg))) /\
  (RequiredAudience cfg <> "" -> names_audience (claims !! "aud") (RequiredAudience cfg)).
Proof.
  intros H. enough ((RequiredIssuer cfg <> "" -> claims !! "iss" = Some (VString (RequiredIssuer cfg))) /\
    (RequiredAudience cfg <> "" -> audienceContains (claims !! "aud") (RequiredAudience cfg) = true))
    as [? ?] by (split; auto using audience_named).
  revert H. unfold check_parties. destruct (String.eqb_spec (RequiredIssuer cfg) "") as [Hi|Hi]; cbn [negb andb].
  - destruct (String.eqb_spec (RequiredAudience cfg) "") as [Ha|Ha]; cbn [negb andb]; [done|].
    destruct (audienceContains _ _); [done|]. done.
  - destruct (String.eqb_spec (as_string (claims !! "iss")) (RequiredIssuer cfg)) as [He|]; cbn [negb]; [|done].
    intros Hc. split.
    + intros _. unfold as_string in He. destruct (claims !! "iss") as [[]|]; try (by rewrite <- He in Hi). by rewrite He.
    + intros Ha. destruct (String.eqb_spec (RequiredAudience cfg) ""); [done|]. cbn [negb andb] in Hc.
      by destruct (audienceContains _ _).
Qed.

Lemma split3_inv token p0 p1 p2 : split3 token = Some (p0, p1, p2) -> token = p0 +:+ "." +:+ p1 +:+ "." +:+ p2.
Proof.
  unfold split3. intros H. apply bind_Some in H as ([a r] & H1%SplitN2_inv & H).
  apply bind_Some in H as ([b c] & H2%SplitN2_inv & [= <- <- <-]). by subst.
Qed.

(** What acceptance of a token means. *)
Definition accepted (token : string) (keyFunc : string -> string -> result E PublicKey) (cfg : VerifyConfig) (now : Time)
    (tok : VerifiedToken) : Prop :=
  let alg := as_string (Header tok !! "alg") in
  exists p0 p1 p2 hb cb sig pub,
    token = p0 +:+ "." +:+ p1 +:+ "." +:+ p2 /\
    base64URLDecode p0 = Some hb /\ Unmarshal hb = Some (Header tok) /\
    base64URLDecode p1 = Some cb /\ Unmarshal cb = Some (Claims tok) /\ base64URLDecode p2 = Some sig /\
    (AllowedAlgorithms cfg = [] \/ alg ∈ AllowedAlgorithms cfg) /\
    keyFunc (as_string (Header tok !! "kid")) alg = Ok pub /\ good_signature (p0 +:+ "." +:+ p1) sig alg pub /\
    (forall v exp, Claims tok !! "exp" = Some v -> states v exp -> sane exp -> ns now <= exp * Second + ClockSkew cfg) /\
    (forall v nbf, Claims tok !! "nbf" = Some v -> states v nbf -> sane nbf -> nbf * Second - ClockSkew cfg <= ns now) /\
    (RequiredIssuer cfg <> "" -> Claims tok !! "iss" = Some (VString (RequiredIssuer cfg))) /\
    (RequiredAudience cfg <> "" -> names_audience (Claims tok !! "aud") (RequiredAudience cfg)).

(** An accepted token, check by check. *)
Lemma Verify_accepted token keyFunc cfg now tok :
  time_ok now -> 0 <= ClockSkew cfg <= maxInt64 -> Verify token keyFunc (Some cfg) now = Ok tok ->
  accepted token keyFunc cfg now tok.
Proof.
  intros Hnow Hskew. unfold Verify, or_err. cbn [default from_option]. unfold id.
  destruct (split3 token) as [[[p0 p1] p2]|] eqn:Hs; [|done]. destruct (base64URLDecode p0) as [hb|] eqn:Hp0; [|done].
  destruct (Unmarshal hb) as [header|] eqn:Hh; [|done]. destruct (EqualFold _ "none"); [done|].
  set (allowed := match AllowedAlgorithms cfg with [] => true | _ => _ end). destruct allowed eqn:Hal; cbn [negb]; [|done].
  destruct (keyFunc _ _) as [pub|] eqn:Hk; [|done]. destruct (base64URLDecode p2) as [sig|] eqn:Hp2; [|done].
  destruct (verifySig _ _ _ _) as [[]|] eqn:Hv; [|done]. destruct (base64URLDecode p1) as [cb|] eqn:Hp1; [|done].
  destruct (Unmarshal cb) as [claims|] eqn:Hc; [|done].
  destruct (check_times _ _ _) as [[]|] eqn:Ht; [|done]. destruct (check_parties _ _) as [[]|] eqn:Hp; [|done].
  intros [= <-]. unfold accepted. cbn [Header Claims]. exists p0, p1, p2, hb, cb, sig, pub.
  apply split3_inv in Hs. apply verifySig_sound in Hv. apply check_times_sound in Ht as [Ht1 Ht2]; [|done..].
  apply check_parties_sound in Hp as [Hp3 Hp4]. repeat (split; [done|]). split; [|done].
  unfold allowed in Hal. destruct (AllowedAlgorithms cfg) as [|a l]; [by left|right].
  apply existsb_exists in Hal as (x & Hx & He%String.eqb_eq). subst x. by apply list_elem_of_In.
Qed.

(** C7. A token that Verify accepts is authentic: its three parts decode; the
    algorithm is one of the seven supported and, if a list is configured, on
    it; the key resolved for its kid and algorithm is of that algorithm's
    kind and its signature over exactly the first two parts is valid; issuer
    and audience are the required ones.  With a skew of at least zero, an exp
    or nbf claim that states a number of seconds (below 2^61 in size) is not
    passed, or is reached, up to the skew; a claim that is absent, of another
    type or out of that range is not checked. *)
Theorem Verify_sound token keyFunc cfg now tok :
  time_ok now -> 0 <= ClockSkew cfg <= maxInt64 -> Verify token keyFunc (Some cfg) now = Ok tok ->
  accepted token keyFunc cfg now tok.
Proof. apply Verify_accepted. Qed.

End Verify.

(** A token with a string for exp is never expired. *)
Lemma text_exp_ignored claims t now skew :
  claims !! "exp" = Some (VString t) -> claims !! "nbf" = None ->
  @check_times unit claims now skew = Ok tt.
Proof. intros H1 H2. unfold check_times, numericClaim. by rewrite H1, H2. Qed.

(** A token that says it becomes valid in 10^30 seconds is valid at once: the
    conversion to int64 leaves its range. *)
Example huge_nbf_ignored :
  check_times (E := unit) (<["nbf" := VFloat (Float64.of_Z (10 ^ 30))]> ∅) (MkTime (1000 + unixToInternal) 0) 0 = Ok tt.
Proof. vm_compute. reflexivity. Qed.

Module Demo.
Definition unmarshal (s : string) : option object :=
  if s ==s "H" then Some (<["alg" := VString "EdDSA"]> (<["kid" := VString "k1"]> ∅))
  else if s ==s "C" then Some (<["exp" := VFloat (Float64.of_Z 1000)]> (<["aud" := VList [VString "orders"]]> ∅))
  else None.
Definition ed (k m s : string) : bool := (k ==s "key") && (m ==s "SA.Qw") && (s ==s "S").
Definition cfg : VerifyConfig := MkVerify ["EdDSA"] "" "orders" Second.
Definition keys (kid alg : string) : result unit PublicKey := if kid ==s "k1" then Ok (EdKey "key") else Err tt.
Definition at_ (sec : Z) : Time := MkTime (sec + unixToInternal) 5.
Definition verify := Verify (E := unit) unmarshal (fun _ s => s) (fun _ _ _ _ _ => false) (fun _ _ _ _ _ _ => false) ed.

Definition token : VerifiedToken :=
  Eval vm_compute in match verify "SA.Qw.Uw" keys (Some cfg) (at_ 1000) with Ok t => t | Err _ => MkToken ∅ ∅ end.

Example expired : verify "SA.Qw.Uw" keys (Some cfg) (at_ 1001) = Err Expired.
Proof. vm_compute. reflexivity. Qed.

Lemma Verify_sound_witness :
  accepted unmarshal (fun _ s => s) (fun _ _ _ _ _ => false) (fun _ _ _ _ _ _ => false) ed "SA.Qw.Uw" keys cfg (at_ 1000) token.
Proof.
  refine (Verify_sound unmarshal (fun _ s => s) (fun _ _ _ _ _ => false) (fun _ _ _ _ _ _ => false) ed "SA.Qw.Uw" keys cfg
            (at_ 1000) token _ _ _).
  - split; vm_compute; [discriminate|reflexivity].
  - split; vm_compute; discriminate.
  - vm_compute. reflexivity.
Defined.

End Demo.

(** ** kid.go and jwk.go *)

Definition ComputeKID (pubDER : string) : string := Sha256.hex (take 8 (Sha256.sum256 pubDER)).

Record JWK := MkJWK {
  Kty : string; Kid : string; Use : string; Alg : string; k_N : string; k_E : string; Crv : string; k_X : string; k_Y : string }.

Inductive JWKErr := UnsupportedKeyType | DecodeField | UnsupportedCurve | BadKeyLength | MarshalKey.

Definition NewJWKFromPublicKey (pub : PublicKey) (kid : string) : result JWKErr JWK :=
  match pub with
  | EdKey key => Ok (MkJWK "OKP" kid "sig" "EdDSA" "" "" "Ed25519" (Base64.EncodeToString key) "")
  | RSAKey n e =>
      Ok (MkJWK "RSA" kid "sig" "RS256" (Base64.EncodeToString (Bytes n)) (Base64.EncodeToString (Bytes (Z.abs_N e))) "" "" "")
  | _ => Err UnsupportedKeyType
  end.

(** The exponent, byte by byte in an int. *)
Fixpoint exponent (s : string) (e : Z) : Z :=
  match s with
  | "" => e
  | String b s' => exponent s' (wrap64 (wrap64 (Z.shiftl e 8) + Z.of_N (code b)))
  end.

Definition field (s : string) : result JWKErr string :=
  match base64URLDecode s with Some b => Ok b | None => Err DecodeField end.

Definition jwkToRSAPublicKey (jwk : JWK) : result JWKErr PublicKey :=
  let? nBytes := field (k_N jwk) in
  let? eBytes := field (k_E jwk) in
  Ok (RSAKey (SetBytes nBytes 0) (exponent eBytes 0)).

Definition ecCurve (crv : string) : result JWKErr Curve :=
  if crv ==s "P-256" then Ok P256 else if crv ==s "P-384" then Ok P384 else if crv ==s "P-521" then Ok P521
  else Err UnsupportedCurve.

Definition jwkToECPublicKey (jwk : JWK) : result JWKErr PublicKey :=
  let? curve := ecCurve (Crv jwk) in
  let? xBytes := field (k_X jwk) in
  let? yBytes := field (k_Y jwk) in
  Ok (ECKey curve (SetBytes xBytes 0) (SetBytes yBytes 0)).

Definition jwkToEdPublicKey (jwk : JWK) : result JWKErr PublicKey :=
  if Crv jwk !=s "Ed25519" then Err UnsupportedCurve
  else
    let? xBytes := field (k_X jwk) in
    if negb (Len xBytes =? 32) then Err BadKeyLength else Ok (EdKey xBytes).

Definition JWKToPublicKey (jwk : JWK) : result JWKErr PublicKey :=
  if Kty jwk ==s "RSA" then jwkToRSAPublicKey jwk
  else if Kty jwk ==s "EC" then jwkToECPublicKey jwk
  else if Kty jwk ==s "OKP" then jwkToEdPublicKey jwk
  else Err UnsupportedKeyType.

(** [marshal] is [x509.MarshalPKIXPublicKey]. *)
Definition ComputeKIDFromPublicKey (marshal : PublicKey -> option string) (pub : PublicKey) : result JWKErr string :=
  match marshal pub with Some der => Ok (ComputeKID der) | None => Err MarshalKey end.

Fixpoint NewJWKS (marshal : PublicKey -> option string) (keys : list PublicKey) : result JWKErr (list JWK) :=
  match keys with
  | [] => Ok []
  | pub :: rest =>
      let? kid := ComputeKIDFromPublicKey marshal pub in
      let? jwk := NewJWKFromPublicKey pub kid in
      let? jwks := NewJWKS marshal rest in
      Ok (jwk :: jwks)
  end.

(** *** Round trips *)

(** A byte that base64 text can have. *)
Definition plain (c : ascii) : Prop := Base64.newline c = false /\ c <> "="%char.

Lemma sextet_plain v : (v < 64)%N -> plain (Base64.sextet v).
Proof.
  intros Hv. destruct (Base64.value_sextet v Hv) as [Hval Hn]. split; [done|]. intros E. by rewrite E in Hval.
Qed.

Lemma cut_plain l pad :
  Forall plain l -> pad ∈ [""; "="; "=="] ->
  cut_padding (drop_newlines (String.string_of_list_ascii l +:+ pad)) = (String.string_of_list_ascii l, pad).
Proof.
  intros Hl Hp. induction Hl as [|c l [Hn He] _ IH].
  - set_unfold in Hp. by destruct_or? Hp; subst.
  - change (String.string_of_list_ascii (c :: l) +:+ pad) with (String c (String.string_of_list_ascii l +:+ pad)).
    cbn [drop_newlines]. rewrite Hn. cbn [cut_padding]. rewrite IH. destruct (Ascii.eqb_spec c "="); done.
Qed.

Lemma append_empty s : s +:+ "" = s.
Proof. induction s as [|c s IH]; [done|]. change (String c s +:+ "") with (String c (s +:+ "")). by rewrite IH. Qed.

Lemma length_string_of_list l : String.length (String.string_of_list_ascii l) = length l.
Proof. induction l as [|c l IH]; [done|]. cbn. by rewrite IH. Qed.

Lemma sextets_mod s : (length (Base64.sextets s) mod 4 <> 1)%nat.
Proof.
  induction s as [|a|a b|a b c s IH] using Base64.string_ind3; try done. cbn [Base64.sextets].
  rewrite length_app. cbn [length]. rewrite Nat.add_comm. change 4%nat with (1 * 4)%nat at 1. by rewrite Nat.Div0.mod_add.
Qed.

(** Unpadded base64url text decodes to what was encoded. *)
Lemma base64URLDecode_Encode s : base64URLDecode (Base64.EncodeToString s) = Some s.
Proof.
  pose proof (Base64.Decode_Encode s) as Hd. unfold base64URLDecode, Base64.EncodeToString in *.
  pose proof (sextets_mod s) as Hm. set (l := map Base64.sextet (Base64.sextets s)) in *.
  assert (Forall plain l) as Hl.
  { apply Forall_map. eapply Forall_impl; [apply Base64.sextets_small|]. intros v. apply sextet_plain. }
  assert (length (Base64.sextets s) = length l) as Hlen by (unfold l; by rewrite length_map). rewrite Hlen in Hm.
  assert (forall pad, pad ∈ [""; "="; "=="] ->
    match (length l mod 4)%nat with 0%nat => Some "" | 2%nat => Some "==" | 3%nat => Some "=" | _ => None end = Some pad ->
    DecodePadded (String.string_of_list_ascii l +:+ pad) = Some s) as Hpad.
  { intros pad Hin Hw. unfold DecodePadded. rewrite cut_plain by done. rewrite length_string_of_list, Hw, String.eqb_refl. exact Hd. }
  rewrite length_string_of_list. pose proof (Nat.mod_upper_bound (length l) 4 ltac:(done)) as Hub.
  destruct (length l mod 4)%nat as [|[|[|[|k]]]]; [|done| | |lia].
  - rewrite <- (Hpad "") by (done || set_solver). by rewrite append_empty.
  - apply Hpad; [set_solver|done].
  - apply Hpad; [set_solver|done].
Qed.

Lemma exponent_SetBytes s acc :
  (SetBytes s acc < 2 ^ 63)%N -> exponent s (Z.of_N acc) = Z.of_N (SetBytes s acc).
Proof.
  revert acc; induction s as [|c s IH]; intros acc Hb; [done|]. cbn [exponent SetBytes] in *.
  assert (forall s a, (a <= SetBytes s a)%N) as Hmono.
  { clear. induction s as [|c s IH]; intros a; cbn [SetBytes]; [lia|]. specialize (IH (a * 256 + code c)%N). lia. }
  specialize (Hmono s (acc * 256 + code c)%N). rewrite Z.shiftl_mul_pow2 by done.
  rewrite (wrap64_id (Z.of_N acc * 2 ^ 8)) by (unfold int64_range; lia).
  rewrite wrap64_id by (unfold int64_range; lia). rewrite <- IH by done. f_equal. lia.
Qed.

Definition signing_key (pub : PublicKey) : Prop :=
  match pub with
  | RSAKey _ e => 0 <= e < 2 ^ 63
  | EdKey k => Len k = 32
  | _ => False
  end.

(** A published key comes back: the JSON web key made from an RSA or
    Ed25519 public key converts to the same key, for a modulus of any size
    and any int exponent, and the kid stays with it. *)
Theorem JWK_roundtrip pub kid :
  signing_key pub -> exists jwk, NewJWKFromPublicKey pub kid = Ok jwk /\ Kid jwk = kid /\ JWKToPublicKey jwk = Ok pub.
Proof.
  destruct pub as [n e| |k|]; cbn [signing_key]; intros H; try done; eexists; (split; [reflexivity|]); (split; [done|]).
  - unfold JWKToPublicKey, jwkToRSAPublicKey, field. cbn [Kty k_N k_E]. rewrite !base64URLDecode_Encode. change ("RSA" ==s "RSA") with true.
    rewrite SetBytes_Bytes. repeat f_equal. change 0 with (Z.of_N 0). rewrite exponent_SetBytes; rewrite SetBytes_Bytes; lia.
  - unfold JWKToPublicKey, jwkToEdPublicKey, field. cbn [Kty Crv k_X]. rewrite base64URLDecode_Encode.
    rewrite (proj2 (Z.eqb_eq _ _) H). done.
Qed.

Lemma JWK_roundtrip_witness :
  exists jwk, NewJWKFromPublicKey (RSAKey 3233 65537) "k" = Ok jwk /\ Kid jwk = "k" /\ JWKToPublicKey jwk = Ok (RSAKey 3233 65537).
Proof. refine (JWK_roundtrip (RSAKey 3233 65537) "k" _). split; vm_compute; [discriminate|reflexivity]. Defined.

(** ** jwk_remote.go

    Calls one after another; instants are nanoseconds. *)
Module Remote.

Inductive RemoteErr := FetchFailed | BadStatus (status : Z) | BadBody | NoMatchingKey | BadKey (e : JWKErr).

(** What the endpoint answers: the decoded keys unless decoding fails. *)
Inductive Answer := NetworkError | Reply (status : Z) (keys : option (list JWK)).

(** One run of [getJWKS]: the clock, the answer if one is asked for, and the
    clock when it is stored. *)
Record Turn := MkTurn { t_now : Z; t_answer : Answer; t_done : Z }.

Definition Cache := option (list JWK * Z).

Definition defaultTTL : Z := 5 * Minute.

(** The request, and the cache after it. *)
Definition fetch (t : Turn) (cache : Cache) : result RemoteErr (list JWK) * Cache :=
  match t_answer t with
  | NetworkError => (Err FetchFailed, cache)
  | Reply status keys =>
      if negb (status =? 200) then (Err (BadStatus status), cache)
      else match keys with
           | None => (Err BadBody, cache)
           | Some ks => (Ok ks, Some (ks, t_done t))
           end
  end.

(** The result, the cache, and whether the endpoint was asked. *)
Definition getJWKS (ttl : Z) (t : Turn) (cache : Cache) : result RemoteErr (list JWK) * Cache * bool :=
  match cache with
  | Some (ks, fetchedAt) => if Sub (t_now t) fetchedAt <? ttl then (Ok ks, cache, false) else (fetch t cache, true)
  | None => (fetch t cache, true)
  end.

Definition matches (kid alg : string) (k : JWK) : bool :=
  negb ((kid !=s "") && (Kid k !=s kid)) && negb ((Alg k !=s "") && (Alg k !=s alg)) &&
  negb ((Use k !=s "") && (Use k !=s "sig")).

Definition matchKey (keys : list JWK) (kid alg : string) : option JWK := List.find (matches kid alg) keys.

(** The result, the cache and the number of requests. *)
Definition findKey (ttl : Z) (t1 t2 : Turn) (cache : Cache) (kid alg : string) : result RemoteErr JWK * Cache * nat :=
  let '(r1, cache1, f1) := getJWKS ttl t1 cache in
  match r1 with
  | Err e => (Err e, cache1, Nat.b2n f1)
  | Ok keys =>
      match matchKey keys kid alg with
      | Some key => (Ok key, cache1, Nat.b2n f1)
      | None =>
          let '(r2, cache2, f2) := getJWKS ttl t2 None in
          (match r2 with
           | Err e => Err e
           | Ok keys => match matchKey keys kid alg with Some key => Ok key | None => Err NoMatchingKey end
           end, cache2, (Nat.b2n f1 + Nat.b2n f2)%nat)
      end
  end.

Definition KeyFunc (ttl : Z) (t1 t2 : Turn) (cache : Cache) (kid alg : string) : result RemoteErr PublicKey * Cache * nat :=
  let '(r, cache', n) := findKey ttl t1 t2 cache kid alg in
  (match r with
   | Err e => Err e
   | Ok jwk => match JWKToPublicKey jwk with Ok p => Ok p | Err e => Err (BadKey e) end
   end, cache', n).

(** *** Construction *)

(** The client that fetches: the resolver's own, or one that was given. *)
Inductive HTTPClient {C : Type} := OwnClient (timeout : Z) | GivenClient (c : C).
Arguments HTTPClient : clear implicits.

Record RemoteJWKS {C : Type} := MkRemote { r_url : string; r_client : HTTPClient C; r_ttl : Z }.
Arguments RemoteJWKS : clear implicits.

Definition RemoteJWKSOption (C : Type) := RemoteJWKS C -> RemoteJWKS C.

Definition WithCacheTTL {C} (ttl : Z) : RemoteJWKSOption C := fun r => MkRemote _ (r_url r) (r_client r) ttl.
Definition WithHTTPClient {C} (client : C) : RemoteJWKSOption C := fun r => MkRemote _ (r_url r) (GivenClient client) (r_ttl r).
(** Logging has no effect here. *)
Definition WithLogger {C} : RemoteJWKSOption C := fun r => r.

Definition NewRemoteJWKS {C} (jwksURL : string) (opts : list (RemoteJWKSOption C)) : RemoteJWKS C :=
  fold_left (fun r o => o r) opts (MkRemote _ jwksURL (OwnClient (10 * Second)) defaultTTL).

(** *** Where keys come from *)

(** The key sets the endpoint delivered, with the instant each was stored. *)
Definition delivered (t : Turn) : list (list JWK * Z) :=
  match t_answer t with
  | Reply status (Some ks) => if status =? 200 then [(ks, t_done t)] else []
  | _ => []
  end.

Record Call := MkCall { c_kid : string; c_alg : string; c_t1 : Turn; c_t2 : Turn }.

Fixpoint run (ttl : Z) (calls : list Call) (cache : Cache) : Cache :=
  match calls with
  | [] => cache
  | c :: cs => run ttl cs (snd (fst (KeyFunc ttl (c_t1 c) (c_t2 c) cache (c_kid c) (c_alg c))))
  end.

Definition history (calls : list Call) : list (list JWK * Z) :=
  flat_map (fun c => (delivered (c_t1 c) ++ delivered (c_t2 c))%list) calls.

Lemma fetch_cases t cache r cache' :
  fetch t cache = (r, cache') ->
  match r with
  | Ok ks => exists at_, cache' = Some (ks, at_) /\ (ks, at_) ∈ delivered t
  | Err _ => cache' = cache
  end.
Proof.
  unfold fetch, delivered. destruct (t_answer t) as [|st keys]; [by intros [= <- <-]|].
  destruct (st =? 200); cbn [negb]; [|by intros [= <- <-]]. destruct keys as [ks|]; [|by intros [= <- <-]].
  intros [= <- <-]. exists (t_done t). split; [done|]. by apply list_elem_of_singleton.
Qed.

Lemma getJWKS_cases ttl t cache r cache' f :
  getJWKS ttl t cache = (r, cache', f) ->
  match r with
  | Ok ks => exists at_, cache' = Some (ks, at_) /\
      ((ks, at_) ∈ delivered t \/ (cache = Some (ks, at_) /\ Sub (t_now t) at_ < ttl))
  | Err _ => cache' = cache
  end.
Proof.
  assert ((fetch t cache, true) = (r, cache', f) -> match r with
    | Ok ks => exists at_, cache' = Some (ks, at_) /\ ((ks, at_) ∈ delivered t \/ (cache = Some (ks, at_) /\ Sub (t_now t) at_ < ttl))
    | Err _ => cache' = cache end) as Hfetch.
  { intros [= Hf <-]. apply fetch_cases in Hf. destruct r as [ks|]; [|done]. destruct Hf as (at_ & -> & Hin). eauto. }
  unfold getJWKS. destruct cache as [[ks at_]|]; [|done].
  destruct (Z.ltb_spec (Sub (t_now t) at_) ttl); [|done]. intros [= <- <- <-]. eauto.
Qed.

Lemma matchKey_spec keys kid alg k :
  matchKey keys kid alg = Some k ->
  k ∈ keys /\ (kid = "" \/ Kid k = kid) /\ (Alg k = "" \/ Alg k = alg) /\ (Use k = "" \/ Use k = "sig").
Proof.
  intros [Hin Hm]%find_some. split; [by apply list_elem_of_In|]. unfold matches in Hm.
  rewrite !andb_true_iff, !negb_true_iff, !andb_false_iff, !negb_false_iff, !String.eqb_eq in Hm. tauto.
Qed.

(** Where a key set comes from: delivered in this call, or before it and
    still within its lifetime at the start. *)
Definition source_of (ttl : Z) (t1 t2 : Turn) (cache : Cache) (keys : list JWK) : Prop :=
  exists at_, (keys, at_) ∈ (delivered t1 ++ delivered t2)%list \/ (cache = Some (keys, at_) /\ Sub (t_now t1) at_ < ttl).

Lemma findKey_cases ttl t1 t2 cache kid alg r cache' n :
  findKey ttl t1 t2 cache kid alg = (r, cache', n) ->
  (n <= 2)%nat /\
  (forall keys at_, cache' = Some (keys, at_) -> cache = Some (keys, at_) \/ (keys, at_) ∈ (delivered t1 ++ delivered t2)%list) /\
  (forall k, r = Ok k -> exists keys, matchKey keys kid alg = Some k /\ source_of ttl t1 t2 cache keys).
Proof.
  unfold findKey, source_of. destruct (getJWKS ttl t1 cache) as [[r1 cache1] f1] eqn:H1. apply getJWKS_cases in H1.
  destruct r1 as [ks1|e1].
  2:{ subst cache1. intros [= <- <- <-]. split; [by destruct f1; cbn; lia|]. split; [auto|done]. }
  destruct H1 as (at1 & -> & Hs1). destruct (matchKey ks1 kid alg) as [k1|] eqn:Hm1.
  { intros [= <- <- <-]. split; [by destruct f1; cbn; lia|]. split.
    - intros keys at_ [= <- <-]. destruct Hs1 as [?|[-> _]]; [right; set_solver|auto].
    - intros k [= <-]. exists ks1. split; [done|]. exists at1. destruct Hs1 as [?|?]; [left; set_solver|auto]. }
  destruct (getJWKS ttl t2 None) as [[r2 cache2] f2] eqn:H2. apply getJWKS_cases in H2. intros [= <- <- <-].
  split; [by destruct f1, f2; cbn; lia|]. destruct r2 as [ks2|e2]; [|subst cache2; split; done].
  destruct H2 as (at2 & -> & [Hin|[? _]]); [|done]. split.
  - intros keys at_ [= <- <-]. right. set_solver.
  - intros k. destruct (matchKey ks2 kid alg) as [k2|] eqn:Hm2; [|done]. intros [= <-]. exists ks2. split; [done|].
    exists at2. left. set_solver.
Qed.

Lemma run_history ttl calls cache :
  match run ttl calls cache with
  | Some (keys, at_) => cache = Some (keys, at_) \/ (keys, at_) ∈ history calls
  | None => True
  end.
Proof.
  revert cache; induction calls as [|c cs IH]; intros cache; cbn [run]; [destruct cache as [[]|]; auto|].
  set (cache1 := snd (fst _)). specialize (IH cache1). destruct (run ttl cs cache1) as [[keys at_]|]; [|done].
  unfold history in *. cbn [flat_map]. rewrite !elem_of_app in *. destruct IH as [Hc|?]; [|tauto].
  unfold cache1, KeyFunc in Hc. destruct (findKey _ _ _ _ _ _) as [[r cache'] n] eqn:Hf. cbn in Hc.
  apply findKey_cases in Hf as (_ & Hk & _). specialize (Hk keys at_ Hc). rewrite elem_of_app in Hk. tauto.
Qed.

(** A key that verification uses was published: whatever calls came before,
    the resolved key is of a set the endpoint delivered, in this call or at an
    instant less than the cache lifetime ago; it fits the token's kid and
    algorithm and is for signatures; and a call makes at most two requests. *)
Theorem remote_key_provenance ttl calls t1 t2 kid alg pub cache' n :
  KeyFunc ttl t1 t2 (run ttl calls None) kid alg = (Ok pub, cache', n) ->
  (n <= 2)%nat /\
  exists keys at_ jwk, JWKToPublicKey jwk = Ok pub /\ jwk ∈ keys /\
    (kid = "" \/ Kid jwk = kid) /\ (Alg jwk = "" \/ Alg jwk = alg) /\ (Use jwk = "" \/ Use jwk = "sig") /\
    ((keys, at_) ∈ (delivered t1 ++ delivered t2)%list \/ ((keys, at_) ∈ history calls /\ Sub (t_now t1) at_ < ttl)).
Proof.
  unfold KeyFunc. destruct (findKey _ _ _ _ _ _) as [[r c'] m] eqn:Hf. apply findKey_cases in Hf as (Hn & _ & Hk).
  destruct r as [jwk|]; [|done]. destruct (JWKToPublicKey jwk) as [p|] eqn:Hp; [|done]. intros [= <- <- <-]. split; [done|].
  destruct (Hk jwk eq_refl) as (keys & Hm%matchKey_spec & at_ & Hs). exists keys, at_, jwk. split; [done|].
  destruct Hm as (? & ? & ? & ?). repeat (split; [done|]). destruct Hs as [?|[Hc ?]]; [auto|]. right. split; [|done].
  pose proof (run_history ttl calls None) as Hh. rewrite Hc in Hh. by destruct Hh.
Qed.

Definition k1 : JWK := MkJWK "OKP" "a" "sig" "EdDSA" "" "" "Ed25519" (Base64.EncodeToString "0123456789abcdef0123456789abcdef") "".
Definition good (t : Z) : Turn := MkTurn t (Reply 200 (Some [k1])) t.
Definition down (t : Z) : Turn := MkTurn t NetworkError t.
Definition warm : list Call := [MkCall "a" "EdDSA" (good 0) (down 0)].

Lemma remote_key_provenance_witness :
  (0 <= 2)%nat /\
  exists keys at_ jwk, JWKToPublicKey jwk = Ok (EdKey "0123456789abcdef0123456789abcdef") /\ jwk ∈ keys /\
    ("a" = "" \/ Kid jwk = "a") /\ (Alg jwk = "" \/ Alg jwk = "EdDSA") /\ (Use jwk = "" \/ Use jwk = "sig") /\
    ((keys, at_) ∈ (delivered (down 9) ++ delivered (down 9))%list \/
     ((keys, at_) ∈ history warm /\ Sub (t_now (down 9)) at_ < defaultTTL)).
Proof.
  refine (remote_key_provenance defaultTTL warm (down 9) (down 9) "a" "EdDSA" _ (Some ([k1], 0)) 0%nat _).
  vm_compute. reflexivity.
Defined.

(** A token with an unknown kid drops keys that are still fresh: if the
    endpoint is down, tokens that were accepted before no longer are. *)
Lemma unknown_kid_drops_cache :
  let ok := fst (fst (KeyFunc defaultTTL (down 9) (down 9) (run defaultTTL warm None) "a" "EdDSA")) in
  let attacked := run defaultTTL (warm ++ [MkCall "x" "EdDSA" (down 8) (down 8)])%list None in
  ok = Ok (EdKey "0123456789abcdef0123456789abcdef") /\
  fst (fst (KeyFunc defaultTTL (down 9) (down 9) attacked "a" "EdDSA")) = Err FetchFailed.
Proof. split; vm_compute; reflexivity. Qed.

End Remote.
