(* ===== verification/ConfigUtil.v ===== *)
(** * Shared configuration primitives (src/configutil)

    env.go with [os.Expand], the expansion of decoded values and of YAML
    nodes, the duration syntax with [time.ParseDuration], and the reusable
    sections.  The environment is a finite map; a name that is not in it is
    unset. *)
From S2P Require Import Prelude GoStrings TokenMint.
From stdpp Require Import pretty.
From Stdlib Require Import SpecFloat.
Local Open Scope string_scope.

(** ** [os.Expand] *)
Module OS.

Abbreviation Env := (gmap string string).
Definition Getenv (env : Env) (name : string) : string := default "" (env !! name).

Definition isShellSpecialVar (c : ascii) : bool :=
  is_digit c || existsb (Ascii.eqb c) ["*"; "#"; "$"; "@"; "!"; "?"; "-"]%char.

Definition isAlphaNum (c : ascii) : bool := Ascii.eqb c "_" || is_digit c || is_lower c || is_upper c.


Fixpoint span (f : ascii -> bool) (s : string) : string * string :=
  match s with
  | "" => ("", "")
  | String c s' => if f c then let '(a, b) := span f s' in (String c a, b) else ("", s)
  end.

(** What follows a dollar sign. *)
Inductive shell_name :=
| Name (name : string) (rest : string)  (** a variable *)
| NoName                                 (** no name: the dollar stays *)
| Eaten (rest : string).                 (** bad syntax, swallowed *)

(** The scan to the closing brace. *)
Definition brace_name (s : string) : shell_name :=
  match SplitN2 "}" s with
  | None => Eaten s
  | Some ("", rest) => Eaten rest
  | Some (name, rest) => Name name rest
  end.

Definition getShellName (s : string) : shell_name :=
  match s with
  | "" => NoName
  | String c s1 =>
      if Ascii.eqb c "{" then
        match s1 with
        | String v (String e s3) =>
            if isShellSpecialVar v && Ascii.eqb e "}" then Name (String v "") s3
            else brace_name s1
        | _ => brace_name s1
        end
      else if isShellSpecialVar c then Name (String c "") s1
      else match span isAlphaNum s with
           | ("", _) => NoName
           | (name, rest) => Name name rest
           end
  end.

(** Every turn consumes a byte: fuel for the length of the text. *)
Fixpoint expand (fuel : nat) (mapping : string -> string) (s : string) : string :=
  match fuel with
  | O => s
  | S n =>
      match s with
      | "" => ""
      | String c s' =>
          if Ascii.eqb c "$" && negb (s' ==s "") then
            match getShellName s' with
            | Name name rest => mapping name +:+ expand n mapping rest
            | NoName => String c (expand n mapping s')
            | Eaten rest => expand n mapping rest
            end
          else String c (expand n mapping s')
      end
  end.

Definition Expand (s : string) (mapping : string -> string) : string := expand (String.length s) mapping s.

Lemma span_spec f s : let '(a, b) := span f s in s = a +:+ b.
Proof.
  induction s as [|c s IH]; cbn [span]; [done|]. destruct (f c); [|done]. destruct (span f s) as [a b].
  by rewrite append_cons, <- IH.
Qed.

Lemma SplitN2_length sep s a b : SplitN2 sep s = Some (a, b) -> (String.length b < String.length s)%nat.
Proof.
  revert a; induction s as [|c s IH]; intros a; cbn [SplitN2]; [done|].
  destruct (Ascii.eqb c sep); [intros [= <- <-]; simpl; lia|].
  destruct (SplitN2 sep s) as [[a' b']|]; [|done]. intros [= <- <-]. specialize (IH _ eq_refl). simpl. lia.
Qed.

Lemma getShellName_length s :
  match getShellName s with
  | Name _ rest | Eaten rest => (String.length rest < String.length s)%nat
  | NoName => True
  end.
Proof.
  unfold getShellName. destruct s as [|c s1]; [done|].
  assert (match brace_name s1 with
          | Name _ rest | Eaten rest => (String.length rest < S (String.length s1))%nat | NoName => True end) as Hb.
  { unfold brace_name. destruct (SplitN2 "}" s1) as [[a b]|] eqn:Hs; [|simpl; lia].
    apply SplitN2_length in Hs. destruct a; lia. }
  destruct (Ascii.eqb c "{").
  - destruct s1 as [|v [|e s3]]; [exact Hb..|]. destruct (isShellSpecialVar v && Ascii.eqb e "}"); [simpl; lia|exact Hb].
  - destruct (isShellSpecialVar c); [simpl; lia|]. pose proof (span_spec isAlphaNum (String c s1)) as Hsp.
    destruct (span isAlphaNum (String c s1)) as [[|x a] b]; [done|].
    rewrite Hsp, length_append. simpl. lia.
Qed.

(** More fuel than the text is long makes no difference. *)
Lemma expand_fuel n m mapping s :
  (String.length s <= n)%nat -> (String.length s <= m)%nat -> expand n mapping s = expand m mapping s.
Proof.
  revert m s; induction n as [|n IH]; intros m s Hn Hm; [destruct s; [by destruct m|simpl in Hn; lia]|].
  destruct m as [|m]; [destruct s; [done|simpl in Hm; lia]|].
  destruct s as [|c s]; [done|]. cbn [expand]. simpl in Hn, Hm.
  destruct (Ascii.eqb c "$" && negb (s ==s "")); [|f_equal; apply IH; lia].
  pose proof (getShellName_length s) as Hl. destruct (getShellName s) as [name rest| |rest];
    [f_equal; apply IH; lia|f_equal; apply IH; lia|apply IH; lia].
Qed.

Lemma Expand_fuel n mapping s : (String.length s <= n)%nat -> expand n mapping s = Expand s mapping.
Proof. intros Hn. by apply expand_fuel. Qed.

Definition no_dollar (s : string) : bool := all_bytes (fun c => negb (Ascii.eqb c "$")) s.

Lemma Expand_cons c mapping s : Ascii.eqb c "$" = false -> Expand (String c s) mapping = String c (Expand s mapping).
Proof. intros Hc. unfold Expand. cbn [String.length expand]. by rewrite Hc. Qed.

Lemma Expand_lit mapping a s : no_dollar a = true -> Expand (a +:+ s) mapping = a +:+ Expand s mapping.
Proof.
  induction a as [|c a IH]; [done|]. unfold no_dollar. cbn [all_bytes]. intros [Hc Ha]%andb_true_iff.
  rewrite !append_cons, Expand_cons by (by apply negb_true_iff). f_equal. by apply IH.
Qed.

Lemma Expand_name mapping s name rest :
  getShellName s = Name name rest -> Expand (String "$" s) mapping = mapping name +:+ Expand rest mapping.
Proof.
  intros Hg. pose proof (getShellName_length s) as Hl. unfold Expand at 1. cbn [String.length expand].
  destruct s as [|c s]; [done|]. rewrite Hg in Hl |- *. cbn [Ascii.eqb andb negb].
  change (String c s ==s "") with false. cbn [negb andb Ascii.eqb]. simpl andb. cbv iota.
  f_equal. apply Expand_fuel. simpl in *. lia.
Qed.

End OS.
Import OS.

(** ** env.go *)

(** [strings.Index] for a separator; the text before and after it. *)
Fixpoint cut (sep s : string) : option (string * string) :=
  match GoStrings.strip_prefix sep s with
  | Some rest => Some ("", rest)
  | None => match s with
            | "" => None
            | String c s' => match cut sep s' with Some (a, b) => Some (String c a, b) | None => None end
            end
  end.

Definition env_mapping (env : Env) (key : string) : string :=
  match key with
  | "" => ""
  | String c _ =>
      if is_digit c then String "$" key
      else match cut ":-" key with
           | Some (name, fallback) => if Getenv env name !=s "" then Getenv env name else fallback
           | None =>
               match cut "-" key with
               | Some (name, fallback) => match env !! name with Some _ => Getenv env name | None => fallback end
               | None => Getenv env key
               end
           end
  end.

Definition SafeExpandEnv (env : Env) (s : string) : string := Expand s (env_mapping env).

(** A configuration value as its author means it: literal text, variables
    with and without a default, and back-references. *)
Inductive piece :=
| Lit (s : string)
| Var (name : string)
| VarOr (name fallback : string)    (** when unset or empty *)
| VarDash (name fallback : string)  (** when unset *)
| BackRef (d : ascii).

Definition print_piece (p : piece) : string :=
  match p with
  | Lit s => s
  | Var n => "${" +:+ n +:+ "}"
  | VarOr n d => "${" +:+ (n +:+ ":-" +:+ d) +:+ "}"
  | VarDash n d => "${" +:+ (n +:+ "-" +:+ d) +:+ "}"
  | BackRef d => "$" +:+ String d ""
  end.

Definition eval_piece (env : Env) (p : piece) : string :=
  match p with
  | Lit s => s
  | Var n => default "" (env !! n)
  | VarOr n d => match env !! n with Some v => if v ==s "" then d else v | None => d end
  | VarDash n d => default d (env !! n)
  | BackRef d => "$" +:+ String d ""
  end.

Definition render (f : piece -> string) (ps : list piece) : string := foldr (fun p s => f p +:+ s) "" ps.

(** A POSIX variable name. *)
Definition posix_name (n : string) : bool :=
  match n with "" => false | String c _ => negb (is_digit c) && all_bytes isAlphaNum n end.

Definition no_brace (s : string) : bool := all_bytes (fun c => negb (Ascii.eqb c "}")) s.

Definition piece_wf (p : piece) : bool :=
  match p with
  | Lit s => no_dollar s
  | Var n => posix_name n
  | VarOr n d => posix_name n && no_brace d
  | VarDash n d => posix_name n && no_brace d && negb (Contains d ":-")
  | BackRef d => is_digit d
  end.

(** A byte of a name is none of the bytes that are not. *)
Lemma isAlphaNum_not x c : isAlphaNum x = false -> isAlphaNum c = true -> negb (Ascii.eqb c x) = true.
Proof. intros Hx Hc. apply negb_true_iff, Ascii.eqb_neq. intros ->. congruence. Qed.

Lemma posix_name_all n : posix_name n = true -> all_bytes isAlphaNum n = true.
Proof. destruct n as [|c n]; [done|]. cbn [posix_name]. by intros [_ ?]%andb_true_iff. Qed.

Lemma posix_no_brace n : posix_name n = true -> no_brace n = true.
Proof.
  intros H%posix_name_all. revert H. apply all_bytes_impl. intros c. by apply isAlphaNum_not.
Qed.

(** A name between braces, with what may follow it there, is read whole. *)
Lemma getShellName_braced n d rest :
  posix_name n = true -> no_brace d = true ->
  getShellName (String "{" ((n +:+ d) +:+ String "}" rest)) = Name (n +:+ d) rest.
Proof.
  intros Hn Hd. pose proof (posix_no_brace _ Hn) as Hb.
  assert (no_brace (n +:+ d) = true) as Hnd by (unfold no_brace; rewrite all_bytes_app; by apply andb_true_iff).
  assert (brace_name ((n +:+ d) +:+ String "}" rest) = Name (n +:+ d) rest) as Hbn.
  { unfold brace_name. rewrite SplitN2_app by done. by destruct n. }
  destruct n as [|c n]; [done|]. rewrite !append_cons in *. cbn [getShellName Ascii.eqb].
  change (Ascii.eqb "{" "{") with true. cbv iota.
  rewrite Hbn. assert (isShellSpecialVar c = false) as Hs.
  { cbn [posix_name all_bytes] in Hn. apply andb_true_iff in Hn as [Hdg [Hc _]%andb_true_iff].
    unfold isShellSpecialVar. rewrite (proj1 (negb_true_iff _) Hdg). simpl existsb. cbn [orb].
    repeat (apply orb_false_iff; split); try done; apply negb_true_iff; by apply isAlphaNum_not. }
  rewrite Hs. by destruct ((n +:+ d) +:+ String "}" rest).
Qed.

(** Text without the separator's first byte is passed over. *)
Lemma cut_skip x sep n s :
  all_bytes (fun c => negb (Ascii.eqb c x)) n = true ->
  cut (String x sep) (n +:+ s) = prod_map (String.append n) id <$> cut (String x sep) s.
Proof.
  induction n as [|c n IH]; [intros _; change ("" +:+ s) with s; by destruct (cut _ s) as [[]|]|].
  cbn [all_bytes]. intros [Hc Hn]%andb_true_iff. rewrite append_cons. cbn [cut GoStrings.strip_prefix].
  rewrite Ascii.eqb_sym, (proj1 (negb_true_iff _) Hc), IH by done. by destruct (cut _ s) as [[]|].
Qed.

Lemma cut_here sep s : cut sep (sep +:+ s) = Some ("", s).
Proof. pose proof (strip_prefix_app sep s) as H. destruct (sep +:+ s) eqn:E; cbn [cut]; by rewrite H. Qed.

Lemma cut_none sep s : Contains s sep = false -> cut sep s = None.
Proof.
  induction s as [|c s IH]; cbn [Contains cut]; intros [Hp H]%orb_false_iff;
    (destruct (GoStrings.strip_prefix sep _) as [t|] eqn:Hs;
     [apply GoStrings.strip_prefix_Some in Hs; rewrite Hs in Hp; by rewrite GoStrings.prefix_app in Hp|]); [done|].
  by rewrite IH.
Qed.

Lemma posix_skip x n :
  isAlphaNum x = false -> posix_name n = true -> all_bytes (fun c => negb (Ascii.eqb c x)) n = true.
Proof. intros Hx Hn%posix_name_all. revert Hn. apply all_bytes_impl. intros c. by apply isAlphaNum_not. Qed.

Lemma mapping_var env n : posix_name n = true -> env_mapping env n = default "" (env !! n).
Proof.
  intros Hn. destruct n as [|c n]; [done|]. cbn [env_mapping].
  pose proof Hn as [Hd%negb_true_iff _]%andb_true_iff. rewrite Hd, <- (append_nil_r (String c n)).
  by rewrite !cut_skip by (by apply posix_skip).
Qed.

Lemma mapping_var_or env n d : posix_name n = true -> env_mapping env (n +:+ ":-" +:+ d) = eval_piece env (VarOr n d).
Proof.
  intros Hn. pose proof (cut_skip ":" "-" n (":-" +:+ d)) as Hk. destruct n as [|c n]; [done|].
  pose proof Hn as [Hd%negb_true_iff _]%andb_true_iff. rewrite append_cons in *. cbn [env_mapping].
  rewrite Hd, Hk by (by apply posix_skip). rewrite cut_here. cbn [prod_map fmap option_fmap option_map id].
  cbn [eval_piece]. unfold Getenv. rewrite append_nil_r. by destruct (env !! _) as [[]|].
Qed.

Lemma mapping_var_dash env n d :
  posix_name n = true -> Contains d ":-" = false -> env_mapping env (n +:+ "-" +:+ d) = eval_piece env (VarDash n d).
Proof.
  intros Hn Hc. pose proof (cut_skip ":" "-" n ("-" +:+ d)) as Hk. pose proof (cut_skip "-" "" n ("-" +:+ d)) as Hk2.
  destruct n as [|c n]; [done|].
  pose proof Hn as [Hd%negb_true_iff _]%andb_true_iff. rewrite append_cons in *. cbn [env_mapping].
  rewrite Hd, Hk by (by apply posix_skip). rewrite (cut_skip ":" "-" "-") by done.
  rewrite cut_none by done. cbn [fmap option_fmap option_map].
  rewrite Hk2 by (by apply posix_skip). rewrite cut_here. cbn [prod_map fmap option_fmap option_map id].
  cbn [eval_piece]. unfold Getenv. rewrite append_nil_r. by destruct (env !! _) as [[]|].
Qed.

Lemma print_braced k s : ("${" +:+ k +:+ "}") +:+ s = String "$" (String "{" (k +:+ String "}" s)).
Proof. change (("${" +:+ k +:+ "}") +:+ s) with (String "$" (String "{" ((k +:+ "}") +:+ s))). by rewrite append_assoc. Qed.

(** One piece at the head of the text. *)
Lemma expand_piece env p s :
  piece_wf p = true -> SafeExpandEnv env (print_piece p +:+ s) = eval_piece env p +:+ SafeExpandEnv env s.
Proof.
  unfold SafeExpandEnv. destruct p as [t|n|n d|n d|d]; cbn [piece_wf print_piece]; intros Hw; bprop; destruct_and?.
  - by apply Expand_lit.
  - pose proof (getShellName_braced n "" s Hw eq_refl) as Hg. rewrite append_nil_r in Hg.
    rewrite print_braced. erewrite Expand_name by exact Hg. by rewrite mapping_var.
  - rewrite print_braced. erewrite Expand_name by (by apply (getShellName_braced n (":-" +:+ d))).
    by rewrite mapping_var_or.
  - rewrite print_braced. erewrite Expand_name by (by apply (getShellName_braced n ("-" +:+ d))).
    by rewrite mapping_var_dash.
  - change (("$" +:+ String d "") +:+ s) with (String "$" (String d s)).
    rewrite (Expand_name _ (String d s) (String d "") s); [cbn [env_mapping eval_piece]; by rewrite Hw|].
    cbn [getShellName]. unfold isShellSpecialVar. destruct (Ascii.eqb d "{") eqn:Hb; [by apply Ascii.eqb_eq in Hb as ->|].
    by rewrite Hw.
Qed.

(** SafeExpandEnv of a value made of literal text, [${VAR}], [${VAR:-default}],
    [${VAR-default}] and back-references [$1] is what each part denotes: the
    default of [:-] replaces an unset or empty variable and that of [-] only an
    unset one, back-references survive, and the text of a variable or a default
    is not expanded again. *)
Theorem SafeExpandEnv_template env ps :
  forallb piece_wf ps = true ->
  SafeExpandEnv env (render print_piece ps) = render (eval_piece env) ps.
Proof.
  unfold render. induction ps as [|p ps IH]; [done|]. cbn [forallb foldr].
  intros [Hp Hps]%andb_true_iff. by rewrite expand_piece, IH.
Qed.

Lemma SafeExpandEnv_template_witness :
  SafeExpandEnv (<["HOST" := "db$X"]> (<["EMPTY" := ""]> ∅))
    "postgres://${HOST}:${PORT:-5432}/${EMPTY:-a}${EMPTY-b}$1" = "postgres://db$X:5432/a$1".
Proof.
  refine (SafeExpandEnv_template (<["HOST" := "db$X"]> (<["EMPTY" := ""]> ∅))
    [Lit "postgres://"; Var "HOST"; Lit ":"; VarOr "PORT" "5432"; Lit "/"; VarOr "EMPTY" "a"; VarDash "EMPTY" "b"; BackRef "1"] _).
  vm_compute. reflexivity.
Defined.

(** A braced back-reference loses its braces: followed by a digit it names
    another group. *)
Lemma braced_backref_changes env : SafeExpandEnv env "${1}0" = "$10" /\ SafeExpandEnv env "$10" = "$10".
Proof. split; reflexivity. Qed.

Example expand_default : SafeExpandEnv ∅ "a${X:-b}c" = "abc".
Proof. reflexivity. Qed.
