(* ===== verification/EnvExpand.v ===== *)
(** * Expansion of decoded values and of YAML nodes (src/configutil)

    [Struct] is ExpandEnvInStruct of env.go over the variables [reflect] shows
    it, [Yaml] is yaml_env.go over the nodes of a document.  Both update a
    shared store in place, and a pointer or an alias may lead to a place that is
    also reached otherwise.  [Walk] has what the two walks share: how often
    a place is visited is the number of paths to it. *)
From S2P Require Import Prelude GoStrings ConfigUtil.
Import OS.
Local Open Scope string_scope.

(** ** Walks over a store that update what they visit *)
Module Walk.

Lemma elem_of_concat_map {A B} (f : A -> list B) l x : x ∈ concat (map f l) <-> exists y, x ∈ f y /\ y ∈ l.
Proof.
  induction l as [|a l IH]; cbn; [split; [by intros ?%elem_of_nil|by intros (y & _ & ?%elem_of_nil)]|].
  rewrite elem_of_app, IH. split.
  - intros [Ha|(y & Hy & Hl)]; eexists; (split; [eassumption|set_solver]).
  - intros (y & Hy & [->|Hl]%elem_of_cons); [by left|right; by exists y].
Qed.

Section walk.

(** [act] is what a visit does to a place and [kids] where it goes on, each with
    the label of the edge. *)
Context {Place : Type} (act : Place -> Place) (kids : Place -> list (nat * nat)).
(** The edges of the store, as a relation. *)
Context (edge : Place -> nat -> nat -> Prop).
Context (kids_edge : forall x k c, (k, c) ∈ kids x <-> edge x k c).
Context (kids_labels : forall x, NoDup (kids x).*1).
Context (kids_act : forall x, kids (act x) = kids x).

Abbreviation Store := (gmap nat Place).

(** The paths of a store: the labels on the way from one place to another. *)
Inductive path (h : Store) : nat -> list nat -> nat -> Prop :=
| path_here i : path h i [] i
| path_step i x k c p j : h !! i = Some x -> edge x k c -> path h c p j -> path h i (k :: p) j.

(** A path ends where it starts or comes in by an edge. *)
Lemma path_last h i p j : path h i p j -> j = i \/ exists i' x k, h !! i' = Some x /\ edge x k j.
Proof.
  induction 1 as [i|i x k c p j Hx He Hp IH]; [by left|]. right. destruct IH as [->|IH]; [by exists i, x, k|done].
Qed.

(** No path leads back to where it started. *)
Definition ranked (r : nat -> nat) (h : Store) : Prop :=
  forall i x k c, h !! i = Some x -> edge x k c -> (r c < r i)%nat.

(** The paths of a length below [n] from [i], with the places they lead to. *)
Fixpoint paths (n : nat) (h : Store) (i : nat) : list (list nat * nat) :=
  match n with
  | O => []
  | S n => ([], i) :: match h !! i with
                      | None => []
                      | Some x => concat (map (fun '(k, c) => map (fun '(p, j) => (k :: p, j)) (paths n h c)) (kids x))
                      end
  end.

(** The paths to [j]. *)
Definition to (j : nat) (ps : list (list nat * nat)) : list (list nat) := (filter (fun q => q.2 = j) ps).*1.

Lemma to_app j ps qs : to j (ps ++ qs) = (to j ps ++ to j qs)%list.
Proof. unfold to. by rewrite filter_app, fmap_app. Qed.

Lemma elem_of_to j ps p : p ∈ to j ps <-> (p, j) ∈ ps.
Proof.
  unfold to. rewrite list_elem_of_fmap. split.
  - intros ([p' j'] & -> & Hq). apply list_elem_of_filter in Hq as [Hj Hq]. cbn in *. by subst.
  - intros Hp. exists (p, j). split; [done|]. by apply list_elem_of_filter.
Qed.

Lemma length_to_cons k j ps : length (to j (map (fun '(p, j) => (k :: p, j)) ps)) = length (to j ps).
Proof.
  unfold to. rewrite !length_fmap. induction ps as [|[p j'] ps IH]; [done|]. cbn [map].
  rewrite !filter_cons. cbn. by destruct (decide (j' = j)); cbn; rewrite IH.
Qed.

Lemma elem_of_paths r n h i p j : ranked r h -> (r i < n)%nat -> (p, j) ∈ paths n h i <-> path h i p j.
Proof.
  intros Hr. revert i p. induction n as [|n IH]; intros i p Hn; [lia|]. cbn [paths]. rewrite elem_of_cons. split.
  - intros [[= -> ->]|Hp]; [constructor|]. destruct (h !! i) as [x|] eqn:Hx; [|by apply elem_of_nil in Hp].
    apply elem_of_concat_map in Hp as ([k c] & Hl & Hk).
    apply list_elem_of_fmap in Hl as ([p' j'] & [= -> ->] & Hq). apply kids_edge in Hk.
    econstructor; [done..|]. apply IH; [|done]. specialize (Hr _ _ _ _ Hx Hk). lia.
  - inversion 1 as [i0|i0 x k c p0 j0 Hx He Hp]; subst; [by left|]. right. rewrite Hx.
    apply elem_of_concat_map. exists (k, c). split; [|by apply kids_edge].
    apply list_elem_of_fmap. exists (p0, j). split; [done|]. apply IH; [|done]. specialize (Hr _ _ _ _ Hx He). lia.
Qed.

Lemma NoDup_paths n h i : NoDup (paths n h i).
Proof.
  revert i; induction n as [|n IH]; intros i; cbn [paths]; [constructor|]. destruct (h !! i) as [x|]; [|repeat constructor; set_solver].
  constructor.
  - intros ([k c] & Hl & _)%elem_of_concat_map.
    by apply list_elem_of_fmap in Hl as ([p j] & ? & _).
  - specialize (kids_labels x). induction (kids x) as [|[k c] ks IHk]; cbn; [constructor|].
    cbn in kids_labels. apply NoDup_cons in kids_labels as [Hk Hks]. apply NoDup_app. split; [|split].
    + apply NoDup_fmap; [|apply IH]. intros [p j] [p' j'] [= -> ->]. done.
    + intros [p j] Hp%list_elem_of_fmap ([k' c'] & Hl & Hk')%elem_of_concat_map. destruct Hp as ([p1 j1] & [= -> ->] & _).
      apply list_elem_of_fmap in Hl as ([p2 j2] & [= -> _ _] & _).
      apply Hk. apply list_elem_of_fmap. by exists (k', c').
    + by apply IHk.
Qed.

Lemma NoDup_to n h i j : NoDup (to j (paths n h i)).
Proof.
  unfold to. apply NoDup_fmap_2_strong; [|apply NoDup_filter, NoDup_paths].
  intros [p a] [q b] Hp Hq. apply list_elem_of_filter in Hp as [Hp _], Hq as [Hq _]. cbn in *. congruence.
Qed.

(** *** What a walk leaves *)

(** The store after the places of [ps] have been visited. *)
Definition visited (h : Store) (ps : list (list nat * nat)) (h' : Store) : Prop :=
  forall j, h' !! j = Nat.iter (length (to j ps)) act <$> h !! j.

Lemma iter_kids k x : kids (Nat.iter k act x) = kids x.
Proof. induction k as [|k IH]; [done|]. simpl. by rewrite kids_act. Qed.

Lemma visited_nil h : visited h [] h.
Proof. intros j. simpl. by destruct (h !! j). Qed.

Lemma visited_app h ps h1 qs h2 : visited h ps h1 -> visited h1 qs h2 -> visited h (ps ++ qs)%list h2.
Proof.
  intros H1 H2 j. rewrite H2, H1, to_app, length_app, Nat.add_comm.
  destruct (h !! j); [|done]. simpl. by rewrite Nat.iter_add.
Qed.

Lemma visited_here h i x : h !! i = Some x -> visited h [([], i)] (<[i := act x]> h).
Proof.
  intros Hi j. unfold to. rewrite filter_cons. cbn. destruct (decide (i = j)) as [<-|Hne]; cbn.
  - by rewrite Hi, lookup_insert_eq.
  - rewrite lookup_insert_ne by done. by destruct (h !! j).
Qed.

Lemma visited_cons_label k h ps h' : visited h ps h' -> visited h (map (fun '(p, j) => (k :: p, j)) ps) h'.
Proof. intros H j. by rewrite length_to_cons. Qed.

Lemma visited_kids h ps h' i x' : visited h ps h' -> h' !! i = Some x' -> exists x, h !! i = Some x /\ kids x' = kids x.
Proof.
  intros H Hi. rewrite H in Hi. destruct (h !! i) as [x|]; [|done]. injection Hi as <-. exists x. by rewrite iter_kids.
Qed.

Lemma ranked_visited r h ps h' : visited h ps h' -> ranked r h -> ranked r h'.
Proof.
  intros He Hr i x' k c Hi Hc. destruct (visited_kids _ _ _ _ _ He Hi) as (x & Hx & Hk).
  apply kids_edge in Hc. rewrite Hk in Hc. apply kids_edge in Hc. eauto.
Qed.

Lemma paths_visited n h ps h' i : visited h ps h' -> paths n h' i = paths n h i.
Proof.
  intros H. revert i; induction n as [|n IH]; intros i; [done|]. cbn [paths]. f_equal. rewrite H.
  destruct (h !! i) as [x|]; [|done]. simpl. rewrite iter_kids. f_equal. apply map_ext. intros [k c]. by rewrite IH.
Qed.

(** A walk: each visit updates its place and goes on to the kids, in order. *)
Context (walk : nat -> Store -> nat -> option Store).
Context (walk_S : forall n h i, walk (S n) h i =
  match h !! i with
  | None => Some h
  | Some x => foldl (fun acc c => acc ≫= fun h' => walk n h' c) (Some (<[i := act x]> h)) (kids x).*2
  end).

Lemma walk_all r n h (cs : list (nat * nat)) :
  (forall h i, ranked r h -> (r i < n)%nat -> exists h', walk n h i = Some h' /\ visited h (paths n h i) h') ->
  ranked r h -> (forall k c, (k, c) ∈ cs -> (r c < n)%nat) ->
  exists h', foldl (fun acc c => acc ≫= fun h' => walk n h' c) (Some h) cs.*2 = Some h' /\
             visited h (concat (map (fun '(k, c) => map (fun '(p, j) => (k :: p, j)) (paths n h c)) cs)) h'.
Proof.
  intros IH. revert h. induction cs as [|[k c] cs IHcs]; intros h Hr Hc; [exists h; split; [done|apply visited_nil]|].
  cbn. destruct (IH h c Hr) as (h1 & -> & Hv); [apply (Hc k); set_solver|].
  destruct (IHcs h1) as (h2 & -> & Hv2); [by eapply ranked_visited|set_solver|].
  exists h2. split; [done|]. eapply visited_app; [by apply visited_cons_label|].
  erewrite map_ext in Hv2; [exact Hv2|]. intros [k' c']. by rewrite (paths_visited _ _ _ _ _ Hv).
Qed.

Lemma walk_visits r n h i :
  ranked r h -> (r i < n)%nat -> exists h', walk n h i = Some h' /\ visited h (paths n h i) h'.
Proof.
  revert h i; induction n as [|n IH]; intros h i Hr Hn; [lia|]. rewrite walk_S. cbn [paths].
  destruct (h !! i) as [x|] eqn:Hi.
  2: { exists h. split; [done|]. intros j. unfold to. rewrite filter_cons. cbn.
       destruct (decide (i = j)) as [<-|]; [by rewrite Hi|]. by destruct (h !! j). }
  pose proof (visited_here h i x Hi) as H1. set (h1 := <[i := act x]> h) in *.
  destruct (walk_all r n h1 (kids x) IH (ranked_visited _ _ _ _ H1 Hr)) as (h' & Hf & Hv).
  { intros k c Hc%kids_edge. specialize (Hr _ _ _ _ Hi Hc). lia. }
  exists h'. split; [done|]. change (([], i) :: ?l) with ([([], i)] ++ l)%list. eapply visited_app; [exact H1|].
  erewrite map_ext; [exact Hv|]. intros [k c]. by rewrite (paths_visited _ _ _ _ _ H1).
Qed.

(** Each place is updated once for every path to it. *)
Lemma walk_exact r h i :
  ranked r h ->
  exists h', walk (S (r i)) h i = Some h' /\
    forall j, exists ps, NoDup ps /\ (forall p, p ∈ ps <-> path h i p j) /\ h' !! j = Nat.iter (length ps) act <$> h !! j.
Proof.
  intros Hr. destruct (walk_visits r (S (r i)) h i Hr) as (h' & Hw & Hv); [lia|]. exists h'. split; [done|].
  intros j. exists (to j (paths (S (r i)) h i)). split; [apply NoDup_to|]. split; [|apply Hv].
  intros p. rewrite elem_of_to. apply (elem_of_paths r); [done|lia].
Qed.

End walk.

(** A place with one path to it is updated once, one without is left alone. *)
Lemma iter_paths {A P} (act : P -> P) (Q : A -> Prop) (ps : list A) (x : option P) :
  NoDup ps -> (forall p, p ∈ ps <-> Q p) ->
  ((forall p, ~ Q p) -> Nat.iter (length ps) act <$> x = x) /\
  (forall p, Q p -> (forall q, Q q -> q = p) -> Nat.iter (length ps) act <$> x = act <$> x).
Proof.
  intros Hn Hq. split.
  - intros H0. assert (ps = []) as -> by (destruct ps as [|p ps]; [done|]; destruct (H0 p); apply Hq; set_solver). by destruct x.
  - intros p Hp Hu. assert (ps = [p]) as ->; [|by destruct x]. apply Hq in Hp.
    destruct ps as [|a [|b ps]]; [by apply elem_of_nil in Hp| |].
    + f_equal. apply Hu, Hq. set_solver.
    + exfalso. assert (a = p) as -> by (apply Hu, Hq; set_solver). assert (b = p) as -> by (apply Hu, Hq; set_solver).
      apply NoDup_cons in Hn as [Hn _]. set_solver.
Qed.

(** *** Labels: positions in a list, of which some are on the way *)

Fixpoint some_at (k : nat) (l : list (option nat)) : list (nat * nat) :=
  match l with
  | [] => []
  | Some c :: l => (k, c) :: some_at (S k) l
  | None :: l => some_at (S k) l
  end.

Lemma elem_of_some_at_from k l i c : (i, c) ∈ some_at k l <-> exists d, i = (k + d)%nat /\ l !! d = Some (Some c).
Proof.
  revert k; induction l as [|[x|] l IH]; intros k; cbn.
  - split; [by intros ?%elem_of_nil|]. by intros (d & _ & ?).
  - rewrite elem_of_cons, IH. split.
    + intros [[= -> ->]|(d & -> & Hd)]; [exists 0%nat; split; [lia|done]|]. exists (S d). split; [lia|done].
    + intros ([|d] & -> & Hd); [injection Hd as ->; left; f_equal; lia|]. right. exists d. split; [lia|done].
  - rewrite IH. split.
    + intros (d & -> & Hd). exists (S d). split; [lia|done].
    + intros ([|d] & -> & Hd); [done|]. exists d. split; [lia|done].
Qed.

Lemma elem_of_some_at l i c : (i, c) ∈ some_at 0 l <-> l !! i = Some (Some c).
Proof. rewrite elem_of_some_at_from. split; [by intros (d & -> & ?)|]. intros. by exists i. Qed.

Lemma NoDup_some_at k l : NoDup (some_at k l).*1.
Proof.
  revert k; induction l as [|[x|] l IH]; intros k; cbn; [constructor| |auto]. constructor; [|apply IH].
  intros ([i c] & -> & Hi)%list_elem_of_fmap. apply elem_of_some_at_from in Hi as (d & Hd & _). cbn in Hd. lia.
Qed.

Lemma some_at_all k l : (some_at k (map Some l)).*2 = l.
Proof. revert k; induction l as [|c l IH]; intros k; [done|]. cbn. f_equal. apply IH. Qed.

End Walk.
Import Walk.

(** ** env.go: ExpandEnvInStruct *)
Module Struct.

(** A variable, with the addresses of the variables it consists of or leads to.
    [GSecret] is a struct whose pointer implements EnvExpandable (with its
    plaintext), [GText ty st] one whose pointer implements TextMarshaler and
    TextUnmarshaler, with its Go type and its state.  A slice lists its
    elements; a map leads to a map object, which other variables may share,
    with a variable of its own for each value.  The contents of an interface
    are never reached. *)
Inductive gvalue :=
| GString (s : string)
| GSecret (plain : string)
| GText (ty : nat) (st : string)
| GStruct (fields : list (bool * nat))      (** exported? *)
| GPtr (x : option nat)
| GMap (m : option nat)
| GEntries (entries : list (string * nat))
| GSlice (elems : list nat)
| GIface (x : nat)
| GOther (z : Z).

Abbreviation Store := (gmap nat gvalue).

Section expand.
Context (MarshalText : nat -> string -> option string).
(** The state after UnmarshalText; its error is discarded. *)
Context (UnmarshalText : nat -> string -> string -> string).
Context (env : Env).

Definition expand_text (ty : nat) (st : string) : string :=
  match MarshalText ty st with
  | None => st
  | Some text =>
      if text ==s "" then st
      else let expanded := SafeExpandEnv env text in
           if expanded !=s text then UnmarshalText ty st expanded else st
  end.

(** [addr] is [v.CanAddr()]; values behind unexported fields are never
    visited, so for a visited value it is also [v.CanSet()].  Pointees, slice
    elements and the copies made of map values are addressable; a field is
    when its struct is.  The copy of a map value is walked and stored back, which
    is the walk of the entry's own variable.  [None] when the recursion is
    deeper than the fuel. *)
Fixpoint ExpandEnvInStruct (fuel : nat) (addr : bool) (h : Store) (v : nat) : option Store :=
  match fuel with
  | O => None
  | S n =>
      let each := foldl (fun acc c => acc ≫= fun h' => ExpandEnvInStruct n true h' c) (Some h) in
      match h !! v with
      | Some (GPtr (Some x)) => ExpandEnvInStruct n true h x
      | Some (GSecret raw) => Some (if addr then <[v := GSecret (SafeExpandEnv env raw)]> h else h)
      | Some (GText ty st) => Some (if addr then <[v := GText ty (expand_text ty st)]> h else h)
      | Some (GStruct fs) => each (omap (fun '(exported, f) => if (exported : bool) && addr then Some f else None) fs)
      | Some (GString s) => Some (if addr then <[v := GString (SafeExpandEnv env s)]> h else h)
      | Some (GMap (Some m)) => ExpandEnvInStruct n true h m
      | Some (GEntries es) => each (map snd es)
      | Some (GSlice xs) => each xs
      | Some (GPtr None) | Some (GMap None) | Some (GIface _) | Some (GOther _) | None => Some h
      end
  end.

(** *** Where the walk may go *)

Inductive edge : gvalue -> nat -> nat -> Prop :=
| edge_pointee x : edge (GPtr (Some x)) 0 x
| edge_field fs k c : fs !! k = Some (true, c) -> edge (GStruct fs) k c
| edge_object m : edge (GMap (Some m)) 0 m
| edge_entry es k key c : es !! k = Some (key, c) -> edge (GEntries es) k c
| edge_element xs k c : xs !! k = Some c -> edge (GSlice xs) k c.

(** What a visit does to the text of a variable. *)
Definition expand_here (v : gvalue) : gvalue :=
  match v with
  | GString s => GString (SafeExpandEnv env s)
  | GSecret raw => GSecret (SafeExpandEnv env raw)
  | GText ty st => GText ty (expand_text ty st)
  | _ => v
  end.

Definition kids (v : gvalue) : list (nat * nat) :=
  match v with
  | GPtr (Some x) | GMap (Some x) => [(0%nat, x)]
  | GStruct fs => some_at 0 (map (fun '(exported, f) => if (exported : bool) then Some f else None) fs)
  | GEntries es => some_at 0 (map (fun e => Some (snd e)) es)
  | GSlice xs => some_at 0 (map Some xs)
  | _ => []
  end.

Lemma kids_edge v k c : (k, c) ∈ kids v <-> edge v k c.
Proof.
  split.
  - destruct v as [| | |fs|[x|]|[m|]|es|xs| |]; cbn [kids]; try (by intros ?%elem_of_nil);
      try (intros [= -> ->]%list_elem_of_singleton; constructor).
    + rewrite elem_of_some_at, list_lookup_fmap. destruct (fs !! k) as [[[] f]|] eqn:E; try done. intros [= ->]. by constructor.
    + rewrite elem_of_some_at, list_lookup_fmap. destruct (es !! k) as [[key x]|] eqn:E; [|done]. intros [= <-]. by econstructor.
    + rewrite elem_of_some_at, list_lookup_fmap. destruct (xs !! k) as [x|] eqn:E; [|done]. intros [= ->]. by constructor.
  - destruct 1 as [x|fs k c E|m|es k key c E|xs k c E]; cbn [kids]; try (by apply list_elem_of_singleton);
      rewrite elem_of_some_at, list_lookup_fmap, E; done.
Qed.

Lemma kids_labels v : NoDup (kids v).*1.
Proof.
  destruct v as [| | |fs|[x|]|[m|]|es|xs| |]; cbn; try apply NoDup_some_at; try apply NoDup_singleton; constructor.
Qed.

Lemma kids_here v : kids (expand_here v) = kids v.
Proof. by destruct v. Qed.

Lemma exported_kids k fs :
  (some_at k (map (fun '(exported, f) => if (exported : bool) then Some f else None) fs)).*2 =
  omap (fun '(exported, f) => if (exported : bool) && true then Some f else None) fs.
Proof. revert k; induction fs as [|[[] f] fs IH]; intros k; cbn; [done| |]; by rewrite IH. Qed.

Lemma expand_S n h v :
  ExpandEnvInStruct (S n) true h v =
  match h !! v with
  | None => Some h
  | Some x => foldl (fun acc c => acc ≫= fun h' => ExpandEnvInStruct n true h' c) (Some (<[v := expand_here x]> h)) (kids x).*2
  end.
Proof.
  cbn [ExpandEnvInStruct]. destruct (h !! v) as [x|] eqn:E; [|done].
  destruct x as [| | |fs|[x|]|[m|]|es|xs| |]; cbn [expand_here kids]; try done; rewrite (insert_id _ _ _ E); try done.
  - by rewrite exported_kids.
  - replace (map (fun e : string * nat => Some (snd e)) es) with (map Some (map snd es)) by apply map_map. by rewrite some_at_all.
  - by rewrite some_at_all.
Qed.

(** C37. On variables of which none leads back to itself, the walk from an
    addressable one terminates, within their depth, and visits a place once
    for every path to it: through pointers, exported fields, map values and
    slice elements, but not through interfaces (although the comment speaks of
    all string fields), unexported fields and map keys.  So a text with one path
    becomes its expansion, one without is left alone, one that is shared is
    expanded again for every further path, and nothing but text changes.  A
    struct or text that is not addressable is left as it is. *)
Theorem ExpandEnvInStruct_exact r h root :
  ranked edge r h ->
  (exists h', ExpandEnvInStruct (S (r root)) true h root = Some h' /\
    forall j, exists ps, NoDup ps /\ (forall p, p ∈ ps <-> path edge h root p j) /\
      h' !! j = Nat.iter (length ps) expand_here <$> h !! j /\
      ((forall p, ~ path edge h root p j) -> h' !! j = h !! j) /\
      (forall p, path edge h root p j -> (forall q, path edge h root q j -> q = p) -> h' !! j = expand_here <$> h !! j)) /\
  ExpandEnvInStruct (S (r root)) false h root =
    match h !! root with
    | Some (GString _) | Some (GSecret _) | Some (GText _ _) | Some (GStruct _) => Some h
    | _ => ExpandEnvInStruct (S (r root)) true h root
    end.
Proof.
  intros Hr. split.
  - destruct (walk_exact expand_here kids edge kids_edge kids_labels kids_here (fun n => ExpandEnvInStruct n true) expand_S r h root Hr)
      as (h' & Hw & Hj). exists h'. split; [exact Hw|]. intros j. destruct (Hj j) as (ps & Hn & Hp & E).
    exists ps. split; [done|]. split; [done|]. split; [done|]. rewrite E. by apply iter_paths.
  - cbn [ExpandEnvInStruct]. destruct (h !! root) as [[| | |fs| | | | | |]|]; try done.
    assert (omap (fun '(exported, f) => if (exported : bool) && false then Some (f : nat) else None) fs = []) as ->; [|done].
    induction fs as [|[[] f] fs IH]; done.
Qed.

End expand.

(** A configuration whose two fields point at one string, with a string behind an
    interface and one in an unexported field. *)
Definition shared : Store :=
  list_to_map [(0, GStruct [(true, 1); (true, 2); (true, 3); (false, 6); (true, 7)]); (1, GPtr (Some 4)); (2, GPtr (Some 4));
               (3, GIface 5); (4, GString "${A}"); (5, GString "${A}"); (6, GString "${A}"); (7, GString "${A}")]%nat.
Definition depth (i : nat) : nat := nth i [2; 1; 1; 0; 0; 0; 0; 0]%nat 0%nat.

Lemma shared_ranked : ranked edge depth shared.
Proof.
  intros i x k c Hi%elem_of_map_to_list He%kids_edge. vm_compute in Hi.
  repeat (apply elem_of_cons in Hi as [[= -> ->]|Hi];
          [vm_compute in He; by repeat (apply elem_of_cons in He as [[= -> ->]|He]; [vm_compute; lia|]); apply elem_of_nil in He|]).
  by apply elem_of_nil in Hi.
Qed.

Definition no_text (ty : nat) (st : string) : option string := None.
Definition keep_text (ty : nat) (st expanded : string) : string := st.

Lemma ExpandEnvInStruct_exact_witness :
  exists h', ExpandEnvInStruct no_text keep_text (<["A" := "x"]> ∅) 3 true shared 0 = Some h' /\
    h' !! 5%nat = Some (GString "${A}") /\ h' !! 6%nat = Some (GString "${A}") /\ h' !! 7%nat = Some (GString "x").
Proof.
  destruct (ExpandEnvInStruct_exact no_text keep_text (<["A" := "x"]> ∅) depth shared 0 shared_ranked) as [(h' & Hw & Hj) _].
  change (S (depth 0)) with 3%nat in Hw. exists h'. split; [exact Hw|].
  assert (forall j, h' !! j = (ExpandEnvInStruct no_text keep_text (<["A" := "x"]> ∅) 3 true shared 0 ≫= (.!! j))) as E
    by (intros j; by rewrite Hw).
  rewrite !E. vm_compute. done.
Defined.

(** A string behind an interface (an [any] decoded from YAML) is not expanded. *)
Lemma interface_not_expanded :
  (ExpandEnvInStruct no_text keep_text (<["A" := "x"]> ∅) 3 true shared 0 ≫= (.!! 5%nat)) = Some (GString "${A}").
Proof. by vm_compute. Qed.

(** A string that two pointers share is expanded twice, so text that came out of
    the environment is taken for a reference. *)
Lemma shared_string_expanded_twice :
  (ExpandEnvInStruct no_text keep_text (<["A" := "pa$$word"]> ∅) 3 true shared 0 ≫= (.!! 4%nat)) = Some (GString "paword").
Proof. by vm_compute. Qed.

(** A variable that leads back to itself: no depth is enough. *)
Definition loop : Store := list_to_map [(0, GPtr (Some 1)); (1, GStruct [(true, 0)])]%nat.

Lemma cyclic_never_terminates fuel : ExpandEnvInStruct no_text keep_text ∅ fuel true loop 0 = None.
Proof.
  enough (ExpandEnvInStruct no_text keep_text ∅ fuel true loop 0 = None /\ ExpandEnvInStruct no_text keep_text ∅ fuel true loop 1 = None) by tauto.
  induction fuel as [|n [IH0 IH1]]; [done|]. cbn [ExpandEnvInStruct].
  rewrite (eq_refl : loop !! 0%nat = Some (GPtr (Some 1%nat))), (eq_refl : loop !! 1%nat = Some (GStruct [(true, 0%nat)])).
  split; [exact IH1|exact IH0].
Qed.

End Struct.

(** ** yaml_env.go *)
Module Yaml.

Inductive Kind := DocumentNode | SequenceNode | MappingNode | ScalarNode | AliasNode.

(** [yaml.Node]; pointers to nodes are addresses of the store. *)
Record Node := mkNode {
  kind : Kind;
  Tag : string;
  Value : string;
  Content : list nat;
  Alias : option nat;
}.

Abbreviation Store := (gmap nat Node).

Definition scalarYAMLTag (value : string) : string :=
  if (value ==s "true") || (value ==s "false") then "!!bool"
  else if (value ==s "null") || (value ==s "~") then "!!null"
  else "!!str".

(** The elements at indices 1, 3, 5, ...: the values of a mapping. *)
Fixpoint odds {A} (l : list A) : list A :=
  match l with _ :: v :: l' => v :: odds l' | _ => [] end.

(** The nodes a node hands the walk on to. *)
Definition children (nd : Node) : list nat :=
  match kind nd with
  | DocumentNode | SequenceNode => Content nd
  | MappingNode => odds (Content nd)
  | ScalarNode => []
  | AliasNode => option_list (Alias nd)
  end.

Section expand.
Context (env : Env).

(** The ScalarNode case: the node after it. *)
Definition expand_scalar (nd : Node) : Node :=
  match kind nd with
  | ScalarNode =>
      if Value nd ==s "" then nd
      else let expanded := SafeExpandEnv env (Value nd) in
           if expanded !=s Value nd
           then mkNode ScalarNode (scalarYAMLTag expanded) expanded (Content nd) (Alias nd)
           else nd
  | _ => nd
  end.

(** The recursion follows aliases; [None] when it is deeper than the fuel. *)
Fixpoint expandEnvInYAMLNode (fuel : nat) (h : Store) (node : nat) : option Store :=
  match fuel with
  | O => None
  | S n =>
      match h !! node with
      | None => Some h
      | Some nd =>
          match kind nd with
          | ScalarNode => Some (<[node := expand_scalar nd]> h)
          | _ => foldl (fun acc c => acc ≫= fun h' => expandEnvInYAMLNode n h' c) (Some h) (children nd)
          end
      end
  end.

(** UnmarshalYAMLWithEnv: [parse] and [decode] are the YAML library's; [None]
    when the walk does not end within the fuel. *)
Inductive yaml_error := ParseError | DecodeError.

Definition UnmarshalYAMLWithEnv {A} (parse : string -> option (Store * nat)) (decode : Store -> nat -> option A)
    (fuel : nat) (data : string) : option (result yaml_error A) :=
  match parse data with
  | None => Some (Err ParseError)
  | Some (h, root) =>
      h' ← expandEnvInYAMLNode fuel h root;
      Some (match decode h' root with Some v => Ok v | None => Err DecodeError end)
  end.

(** *** Where the walk may go *)

(** An element of a document or sequence; the value of a mapping, at an odd
    position; the node of an alias. *)
Inductive edge : Node -> nat -> nat -> Prop :=
| edge_element nd k c : kind nd = DocumentNode \/ kind nd = SequenceNode -> Content nd !! k = Some c -> edge nd k c
| edge_value nd m c : kind nd = MappingNode -> Content nd !! (2 * m + 1)%nat = Some c -> edge nd m c
| edge_alias nd c : kind nd = AliasNode -> Alias nd = Some c -> edge nd 0 c.

Definition kids (nd : Node) : list (nat * nat) := some_at 0 (map Some (children nd)).

Lemma odds_lookup {A} (l : list A) m : odds l !! m = l !! (2 * m + 1)%nat.
Proof.
  revert l; induction m as [|m IH]; intros [|a [|b l]]; try done. cbn [odds]. change ((b :: odds l) !! S m) with (odds l !! m).
  rewrite IH. by replace (2 * S m + 1)%nat with (S (S (2 * m + 1))) by lia.
Qed.

Lemma yaml_kids_edge nd k c : (k, c) ∈ kids nd <-> edge nd k c.
Proof.
  unfold kids. rewrite elem_of_some_at, list_lookup_fmap. unfold children. split.
  - intros H. destruct (kind nd) eqn:Hk; try done.
    + apply edge_element; [by left|]. by destruct (Content nd !! k); [injection H as ->|].
    + apply edge_element; [by right|]. by destruct (Content nd !! k); [injection H as ->|].
    + apply edge_value; [done|]. rewrite odds_lookup in H. by destruct (Content nd !! (2 * k + 1)%nat); [injection H as ->|].
    + destruct (Alias nd) as [a|] eqn:Ha; [|done]. destruct k; [|done]. injection H as ->. by apply edge_alias.
  - destruct 1 as [nd k c Hk Hc|nd k c Hk Hc|nd c Hk Hc].
    + destruct Hk as [->| ->]; by rewrite Hc.
    + by rewrite Hk, odds_lookup, Hc.
    + by rewrite Hk, Hc.
Qed.

(** Expansion touches the text and the tag of a scalar only. *)
Definition structure (nd : Node) : Kind * list nat * option nat := (kind nd, Content nd, Alias nd).

Lemma expand_scalar_structure nd : structure (expand_scalar nd) = structure nd.
Proof. unfold structure, expand_scalar. destruct (kind nd) eqn:Hk; rewrite ?Hk; repeat case_match; simplify_eq/=; congruence. Qed.

Lemma iter_structure k nd : structure (Nat.iter k expand_scalar nd) = structure nd.
Proof. induction k as [|k IH]; [done|]. simpl. by rewrite expand_scalar_structure. Qed.

Lemma kids_scalar nd : kids (expand_scalar nd) = kids nd.
Proof. pose proof (expand_scalar_structure nd) as [= Hk Hc Ha]. unfold kids, children. by rewrite Hk, Hc, Ha. Qed.

Lemma yaml_expand_S n h i :
  expandEnvInYAMLNode (S n) h i =
  match h !! i with
  | None => Some h
  | Some nd => foldl (fun acc c => acc ≫= fun h' => expandEnvInYAMLNode n h' c) (Some (<[i := expand_scalar nd]> h)) (kids nd).*2
  end.
Proof.
  cbn [expandEnvInYAMLNode]. destruct (h !! i) as [nd|] eqn:E; [|done]. unfold kids. rewrite some_at_all.
  destruct (kind nd) eqn:Hk; try (unfold expand_scalar; rewrite Hk, (insert_id _ _ _ E); done).
  unfold children. by rewrite Hk.
Qed.

(** C38. On a document whose aliases do not lead back into their own anchor the
    walk terminates, within the depth of the document: kinds, contents and
    alias targets of all nodes stay, and each scalar is expanded once for every
    path to it through elements of sequences, values of mappings and aliases.  In
    particular a node that is no element, value or alias target keeps its
    text, as a key of a mapping without anchor does; a key with an anchor is
    expanded when an alias leads to it. *)
Theorem expandEnvInYAMLNode_terminates r h root :
  ranked edge r h ->
  exists h', expandEnvInYAMLNode (S (r root)) h root = Some h' /\
    forall j, structure <$> h' !! j = structure <$> h !! j /\
      exists ps, NoDup ps /\ (forall p, p ∈ ps <-> path edge h root p j) /\
        h' !! j = Nat.iter (length ps) expand_scalar <$> h !! j /\
        (j <> root -> (forall i nd k, h !! i = Some nd -> ~ edge nd k j) -> h' !! j = h !! j) /\
        (forall p, path edge h root p j -> (forall q, path edge h root q j -> q = p) -> h' !! j = expand_scalar <$> h !! j).
Proof.
  intros Hr. destruct (walk_exact expand_scalar kids edge yaml_kids_edge (fun nd => NoDup_some_at _ _) kids_scalar
    expandEnvInYAMLNode yaml_expand_S r h root Hr) as (h' & Hw & Hj).
  exists h'. split; [exact Hw|]. intros j. destruct (Hj j) as (ps & Hn & Hp & E). split.
  { rewrite E. destruct (h !! j); [|done]. simpl. by rewrite iter_structure. }
  exists ps. split; [done|]. split; [done|]. split; [done|].
  destruct (iter_paths expand_scalar _ ps (h !! j) Hn Hp) as [H0 H1]. rewrite E. split; [|exact H1].
  intros Hne Hno. apply H0. intros p [->|(i & nd & k & Hi & He)]%path_last; [done|]. by eapply Hno.
Qed.

End expand.

Definition scalar (v : string) : Node := mkNode ScalarNode "!!str" v [] None.

(** [{$K: ${A}}]: a document, its mapping, the key and the value. *)
Definition doc_plain : Store :=
  list_to_map [(0, mkNode DocumentNode "" "" [1] None); (1, mkNode MappingNode "!!map" "" [2; 3] None);
               (2, scalar "$K"); (3, scalar "${A}")]%nat.

Lemma plain_ranked : ranked edge (fun i => 3 - i)%nat doc_plain.
Proof.
  intros i nd k c Hi%elem_of_map_to_list He%yaml_kids_edge. vm_compute in Hi.
  repeat (apply elem_of_cons in Hi as [[= -> ->]|Hi];
          [vm_compute in He; by repeat (apply elem_of_cons in He as [[= -> ->]|He]; [simpl; lia|]); apply elem_of_nil in He|]).
  by apply elem_of_nil in Hi.
Qed.

(** The key has no edge to it. *)
Lemma plain_key_unreached i nd k : doc_plain !! i = Some nd -> ~ edge nd k 2.
Proof.
  intros Hi%elem_of_map_to_list He%yaml_kids_edge. vm_compute in Hi.
  repeat (apply elem_of_cons in Hi as [[= -> ->]|Hi]; [vm_compute in He; set_solver|]). by apply elem_of_nil in Hi.
Qed.

Lemma expandEnvInYAMLNode_terminates_witness :
  exists h', expandEnvInYAMLNode (<["A" := "true"]> ∅) 4 doc_plain 0 = Some h' /\
    h' !! 2%nat = Some (scalar "$K") /\ h' !! 3%nat = Some (mkNode ScalarNode "!!bool" "true" [] None).
Proof.
  destruct (expandEnvInYAMLNode_terminates (<["A" := "true"]> ∅) (fun i => 3 - i)%nat doc_plain 0 plain_ranked) as (h' & Hw & Hj).
  change (S (3 - 0)) with 4%nat in Hw. exists h'. split; [exact Hw|]. split.
  - destruct (Hj 2%nat) as (_ & ps & _ & _ & _ & H0 & _). rewrite H0; [by vm_compute|done|apply plain_key_unreached].
  - assert (h' !! 3%nat = (expandEnvInYAMLNode (<["A" := "true"]> ∅) 4 doc_plain 0 ≫= (.!! 3%nat))) as -> by (by rewrite Hw).
    by vm_compute.
Defined.

(** [{&k ${A}: v, b: *k}]: a key with an anchor is expanded through its alias. *)
Definition doc_key : Store :=
  list_to_map [(0, mkNode MappingNode "!!map" "" [1; 2; 3; 4] None); (1, scalar "${A}"); (2, scalar "v"); (3, scalar "b");
               (4, mkNode AliasNode "" "k" [] (Some 1))]%nat.

Lemma key_expanded_through_alias :
  (expandEnvInYAMLNode (<["A" := "x"]> ∅) 3 doc_key 0 ≫= (.!! 1%nat)) = Some (scalar "x").
Proof. vm_compute. reflexivity. Qed.

(** [- &x ${A}] then [- *x]: the anchored scalar is expanded through its own
    place and again through the alias, so text that came out of the
    environment is taken for a reference. *)
Definition doc_alias : Store :=
  list_to_map [(0, mkNode SequenceNode "!!seq" "" [1; 2] None); (1, scalar "${A}");
               (2, mkNode AliasNode "" "x" [] (Some 1))]%nat.

Lemma alias_expanded_twice :
  (expandEnvInYAMLNode (<["A" := "pa$$word"]> ∅) 3 doc_alias 0 ≫= (.!! 1%nat)) = Some (scalar "paword").
Proof. vm_compute. reflexivity. Qed.

(** [&x [*x]]: no depth is enough, the walk recurses for ever. *)
Definition doc_loop : Store :=
  list_to_map [(0, mkNode SequenceNode "!!seq" "" [1] None); (1, mkNode AliasNode "" "x" [] (Some 0))]%nat.

Lemma self_alias_never_terminates env fuel : expandEnvInYAMLNode env fuel doc_loop 0 = None.
Proof.
  enough (expandEnvInYAMLNode env fuel doc_loop 0 = None /\ expandEnvInYAMLNode env fuel doc_loop 1 = None) by tauto.
  induction fuel as [|n [IH0 IH1]]; [done|]. cbn [expandEnvInYAMLNode].
  rewrite (eq_refl : doc_loop !! 0%nat = Some (mkNode SequenceNode "!!seq" "" [1%nat] None)).
  rewrite (eq_refl : doc_loop !! 1%nat = Some (mkNode AliasNode "" "x" [] (Some 0%nat))).
  split; [exact IH1|exact IH0].
Qed.

End Yaml.
