(* ===== verification/DayPattern.v ===== *)
(** * The day suffix of durations (src/configutil/duration.go)

    The two patterns of duration.go as expressions of [Regex], the function that
    replaces a match, and scanning functions that do the same without
    backtracking; the proofs of [Duration] use the latter. *)
From S2P Require Import Prelude GoStrings ConfigUtil Regex.
From Stdlib Require String.
Import OS.
From stdpp Require Import pretty.
Local Open Scope string_scope.
Local Open Scope Z_scope.

(** [(\d+)d] *)
Definition dayPattern : re := seqs [Group 1 (Plus (Class is_digit)); lit "d"].
(** [\d*\.\d+d] *)
Definition fracDayPattern : re := seqs [Star (Class is_digit); lit "."; Plus (Class is_digit); lit "d"].

(** [n, _ := strconv.Atoi(sub[1])] for digits: the greatest int when they are
    out of range. *)
Definition Atoi_digits (s : string) : Z :=
  match parse_digits s 0 with Some z => Z.min z maxInt64 | None => 0 end.

(** What replaces a match: the hours of its days. *)
Definition day_hours (m : string) : string :=
  match FindStringSubmatch dayPattern m 1 with
  | Some sub => FormatInt (wrap64 (Atoi_digits sub * 24)) +:+ "h"
  | None => ""
  end.

(** ** Scans *)

(** A point, digits, and a [d]. *)
Fixpoint has_fractional_days (s : string) : bool :=
  match s with
  | "" => false
  | String c s' =>
      (Ascii.eqb c "." &&
       match span is_digit s' with
       | (String _ _, String "d" _) => true
       | _ => false
       end) || has_fractional_days s'
  end.

(** The maximal runs of digits that a [d] follows. *)
Fixpoint replace_days (fuel : nat) (s : string) : string :=
  match fuel with
  | O => s
  | S n =>
      match s with
      | "" => ""
      | String c s' =>
          if is_digit c then
            let '(ds, rest) := span is_digit s in
            match rest with
            | String "d" rest' => FormatInt (wrap64 (Atoi_digits ds * 24)) +:+ "h" +:+ replace_days n rest'
            | _ => ds +:+ replace_days n rest
            end
          else String c (replace_days n s')
      end
  end.

(** ** The patterns *)

Local Open Scope nat_scope.

Lemma span_text f s :
  let '(a, b) := span f s in
  forallb f (to_text a) = true /\ to_text s = (to_text a ++ to_text b)%list /\
  match b with String c _ => f c = false | "" => True end.
Proof.
  induction s as [|c s IH]; cbn [span]; [done|]. destruct (f c) eqn:Hc; [|done].
  destruct (span f s) as [a b]. destruct IH as (H1 & H2 & H3). unfold to_text in *. cbn.
  rewrite Hc, H1, H2. done.
Qed.

(** A run of digits is cut in one way only. *)
Lemma run_unique f (l1 l2 : text) c1 c2 r1 r2 :
  forallb f l1 = true -> forallb f l2 = true -> f c1 = false -> f c2 = false ->
  (l1 ++ c1 :: r1)%list = (l2 ++ c2 :: r2)%list -> l1 = l2 /\ c1 = c2 /\ r1 = r2.
Proof.
  revert l2. induction l1 as [|x l1 IH]; intros [|y l2]; cbn.
  - by intros _ _ _ _ [= -> ->].
  - intros _ [Hy _]%andb_true_iff Hc _ [= -> _]. congruence.
  - intros [Hx _]%andb_true_iff _ _ Hc [= -> _]. congruence.
  - intros [_ H1]%andb_true_iff [_ H2]%andb_true_iff Hc1 Hc2 [= -> H]. destruct (IH l2 H1 H2 Hc1 Hc2 H) as (-> & -> & ->). done.
Qed.

Lemma day_den b p q :
  den dayPattern (b, p) q <-> exists ds, ds <> [] /\ forallb is_digit ds = true /\ p = (ds ++ "d"%char :: snd q)%list /\ fst q = Some "d"%char.
Proof.
  split.
  - intros (q1 & H1 & (q2 & H2 & H3)%seq_inv)%seq_inv. inversion H1 as [| | | | | | |? ? ? ? Hp|]; subst.
    apply plus_class_inv in Hp as (ds & Hne & Hd & Hs). inversion H3; subst. inversion H2 as [|? ? ? ? He| | | | | | |]; subst.
    apply Ascii.eqb_eq in He as <-. cbn in *. eauto.
  - intros (ds & Hne & Hd & -> & Hq). destruct q as [qb qs]. cbn in *. subst qb.
    destruct (den_plus_class is_digit b ds ("d"%char :: qs) Hne Hd) as [b' Hp].
    eapply den_seq; [apply den_group, Hp|]. eapply den_seq; [apply lit_den|constructor].
Qed.

Lemma frac_den b p :
  (exists q, den fracDayPattern (b, p) q) <->
  exists d0 ds rest, forallb is_digit d0 = true /\ ds <> [] /\ forallb is_digit ds = true /\
    p = (d0 ++ "."%char :: ds ++ "d"%char :: rest)%list.
Proof.
  split.
  - intros (q & (q1 & H1 & (q2 & H2 & (q3 & H3 & (q4 & H4 & _)%seq_inv)%seq_inv)%seq_inv)%seq_inv).
    apply star_class_inv in H1 as (d0 & Hd0 & E1). apply lit_inv in H2. apply plus_class_inv in H3 as (ds & Hne & Hds & E3).
    apply lit_inv in H4. cbn in E1. exists d0, ds, (snd q4). rewrite E1, H2, E3, H4. done.
  - intros (d0 & ds & rest & Hd0 & Hne & Hds & ->).
    destruct (den_star_class is_digit b d0 ("."%char :: ds ++ "d"%char :: rest)%list Hd0) as [b1 D1].
    destruct (den_plus_class is_digit (Some "."%char) ds ("d"%char :: rest) Hne Hds) as [b2 D2].
    eexists. eapply den_seq; [exact D1|]. eapply den_seq; [apply lit_den|]. eapply den_seq; [exact D2|].
    eapply den_seq; [apply lit_den|constructor].
Qed.

Lemma has_fractional_spec s :
  has_fractional_days s = true <->
  exists a ds rest, ds <> [] /\ forallb is_digit ds = true /\ to_text s = (a ++ "."%char :: ds ++ "d"%char :: rest)%list.
Proof.
  induction s as [|c s IH]; [split; [done|]; intros ([|] & ds & rest & _ & _ & H); done|].
  cbn [has_fractional_days]. rewrite orb_true_iff, andb_true_iff, IH. pose proof (span_text is_digit s) as Hsp.
  destruct (span is_digit s) as [ds rest]. destruct Hsp as (Hd & Hs & Hr). split.
  - intros [[Hc Hm]|(a & ds' & rest' & ? & ? & Hs')].
    + apply Ascii.eqb_eq in Hc as ->. destruct ds as [|d ds]; [done|]. destruct rest as [|r rest]; [done|].
      exists [], (to_text (String d ds)), (to_text rest). split; [done|]. split; [done|]. unfold to_text in *. cbn in *.
      rewrite Hs. repeat f_equal. by repeat (case_match; try done).
    + exists (c :: a), ds', rest'. unfold to_text in *. cbn. by rewrite Hs'.
  - intros ([|a0 a] & ds' & rest' & Hne & Hd' & Ht); injection Ht as -> Ht.
    + left. split; [done|]. change (String.list_ascii_of_string s) with (to_text s) in Ht. rewrite Hs in Ht.
      destruct rest as [|r rest].
      * exfalso. cbn in Ht. rewrite app_nil_r in Ht. rewrite Ht, forallb_app in Hd. cbn in Hd.
        by rewrite andb_false_r in Hd.
      * destruct (run_unique is_digit (to_text ds) ds' r "d"%char (to_text rest) rest' Hd Hd' Hr eq_refl Ht) as (<- & -> & _).
        by destruct ds.
    + right. eauto 8.
Qed.

Lemma frac_days_scan s : MatchString fracDayPattern s = has_fractional_days s.
Proof.
  apply eq_true_iff_eq. rewrite MatchString_spec, has_fractional_spec. split.
  - intros (a & b & q & Hs & Hd). destruct (proj1 (frac_den _ _) (ex_intro _ q Hd)) as (d0 & ds & rest & _ & ? & ? & ->).
    exists (a ++ d0)%list, ds, rest. split; [done|]. split; [done|]. by rewrite <- app_assoc.
  - intros (a & ds & rest & Hne & Hd & Hs). exists a, ("."%char :: ds ++ "d"%char :: rest)%list.
    destruct (proj2 (frac_den (last a) ("."%char :: ds ++ "d"%char :: rest)%list)) as [q Hq]; [by exists [], ds, rest|]. eauto.
Qed.

(** A run of digits before a [d] is the match, and its group is the run. *)
Lemma day_find b ds rest :
  ds <> [] -> forallb is_digit ds = true ->
  Regex.find dayPattern b (ds ++ "d"%char :: rest)%list = Some (MkFound [] (ds ++ ["d"%char])%list (Some "d"%char, rest) [(1, ds)]).
Proof.
  intros Hne Hd. destruct (match_at dayPattern (b, ds ++ "d"%char :: rest)%list) as [[q c]|] eqn:Hm.
  2: { exfalso. revert Hm. apply (match_at_complete _ _ (Some "d"%char, rest)), day_den. by exists ds. }
  apply match_at_sound in Hm as Hden. apply day_den in Hden as (ds' & _ & Hd' & Heq & Hq).
  destruct (run_unique is_digit ds ds' "d" "d" rest (snd q) Hd Hd' eq_refl eq_refl Heq) as (<- & _ & ->).
  destruct q as [qb qs]. cbn in Hq. subst qb.
  assert (c = [(1, ds)]) as ->.
  { apply bt_groups in Hm as (q' & c' & Hc & [= -> ->]). inversion Hc as [| |? ? ? ? q1 c1 ? ? Hg Hr| | | | | |]; subst.
    inversion Hg as [| | | | | | |? ? ? ? ? c2 Hp|]; subst.
    apply group_free_caps in Hp as Hc2; [|done]. subst c2. apply group_free_caps in Hr as Hc1; [|done]. subst c.
    apply denc_den, plus_class_inv in Hp as (ds'' & _ & Hd'' & Hs'').
    apply denc_den, seq_inv in Hr as (q2 & Hl & Hemp). inversion Hemp; subst. apply lit_inv in Hl. cbn [snd] in *.
    rewrite Hl in Hs''. destruct (run_unique is_digit ds ds'' "d" "d" qs qs Hd Hd'' eq_refl eq_refl Hs'') as (<- & _ & _).
    rewrite Hl, length_app, Nat.add_sub, take_app_length. done. }
  destruct ds as [|d ds]; [done|]. cbn -[match_at dayPattern] in *. rewrite Hm. cbn [snd].
  repeat f_equal. change (d :: ds ++ "d"%char :: qs)%list with ((d :: ds) ++ "d"%char :: qs)%list.
  replace ((d :: ds) ++ "d"%char :: qs)%list with ((d :: ds ++ ["d"%char]) ++ qs)%list by (cbn; by rewrite <- app_assoc).
  apply take_app_length'. cbn. rewrite !length_app. cbn. lia.
Qed.

(** No match starts in a run of digits that something else follows, or
    outside of a run. *)
Lemma day_none b ds rest :
  forallb is_digit ds = true -> match rest with c :: _ => is_digit c = false /\ c <> "d"%char | [] => True end ->
  match_at dayPattern (b, ds ++ rest)%list = None.
Proof.
  intros Hd Hr. destruct (match_at dayPattern _) as [[q c]|] eqn:Hm; [exfalso|done].
  apply match_at_sound, day_den in Hm as (ds' & _ & Hd' & Heq & _). destruct rest as [|x rest].
  - rewrite app_nil_r in Heq. rewrite Heq, forallb_app in Hd. cbn in Hd. by rewrite andb_false_r in Hd.
  - destruct Hr as [Hx Hne]. by destruct (run_unique is_digit ds ds' x "d" rest (snd q) Hd Hd' Hx eq_refl Heq) as (_ & -> & _).
Qed.

Lemma replaced_run repl b ds rest out :
  forallb is_digit ds = true -> match rest with c :: _ => is_digit c = false /\ c <> "d"%char | [] => True end ->
  (forall b', replaced dayPattern repl (b', rest) out) -> replaced dayPattern repl (b, ds ++ rest)%list (ds ++ out)%list.
Proof.
  revert b. induction ds as [|d ds IH]; intros b Hd Hr Ho; [by apply Ho|]. cbn.
  apply replaced_cons; [by apply (day_none b (d :: ds))|]. apply IH; [|done..]. by apply andb_true_iff in Hd as [_ Hd].
Qed.

Lemma day_hours_run ds :
  ds <> "" -> forallb is_digit (to_text ds) = true ->
  day_hours (String.string_of_list_ascii (to_text ds ++ ["d"%char])%list) = FormatInt (wrap64 (Atoi_digits ds * 24)) +:+ "h".
Proof.
  intros Hne Hd. unfold day_hours, FindStringSubmatch. fold (to_text (String.string_of_list_ascii (to_text ds ++ ["d"%char])%list)).
  rewrite to_text_of, day_find; [|by destruct ds|done]. cbn -[FormatInt wrap64 Z.mul].
  unfold to_text. by rewrite String.string_of_list_ascii_of_string.
Qed.

Definition repl_days (m : text) (_ : caps) : text := to_text (day_hours (String.string_of_list_ascii m)).

Lemma replace_days_replaced n s b :
  String.length s <= n -> replaced dayPattern repl_days (b, to_text s) (to_text (replace_days n s)).
Proof.
  revert s b. induction n as [|n IH]; intros s b Hn.
  { destruct s; [|cbn in Hn; lia]. apply (replaced_end _ _ (b, [])). cbn [fst snd Regex.find]. by rewrite (day_none b [] [] eq_refl I : match_at dayPattern (b, []) = None). }
  destruct s as [|c s]; [apply (replaced_end _ _ (b, [])); cbn [fst snd Regex.find]; by rewrite (day_none b [] [] eq_refl I : match_at dayPattern (b, []) = None)|].
  cbn [replace_days]. destruct (is_digit c) eqn:Hc.
  - pose proof (span_text is_digit (String c s)) as Hsp.
    assert (fst (span is_digit (String c s)) <> "") as Hne by (cbn; rewrite Hc; by destruct (span is_digit s)).
    destruct (span is_digit (String c s)) as [ds rest]. destruct Hsp as (Hd & Hs & Hr). cbn in Hne.
    assert (String.length rest <= n) as Hrest.
    { apply (f_equal length) in Hs. rewrite length_app, !to_text_length in Hs. cbn in Hs, Hn. destruct ds; cbn in *; [done|lia]. }
    assert ((exists rest', rest = String "d" rest') \/ ~ exists rest', rest = String "d" rest') as [Hex|Hnot].
    { destruct rest as [|r rest]; [by right; intros []|]. destruct (ascii_dec r "d") as [->|Hrd]; [by left; eexists|].
      right. by intros [rest' [= ? _]]. }
    all: rewrite Hs.
    + destruct Hex as [rest' ->]. rewrite !to_text_app. change (to_text (String "d" rest')) with ("d"%char :: to_text rest').
      pose proof (day_find b (to_text ds) (to_text rest') ltac:(by destruct ds) Hd) as Hf.
      pose proof (replaced_match dayPattern repl_days (b, (to_text ds ++ "d"%char :: to_text rest')%list) _
        (to_text (replace_days n rest')) Hf) as Hrep. cbn [gap matched stop groups app] in Hrep.
      assert (repl_days (to_text ds ++ ["d"%char])%list [(1, to_text ds)] = to_text (FormatInt (wrap64 (Atoi_digits ds * 24)) +:+ "h")) as Hh
        by (unfold repl_days; by rewrite day_hours_run).
      rewrite Hh, to_text_app, <- app_assoc in Hrep.
      apply Hrep; [by destruct (to_text ds)|]. apply IH. cbn in Hrest. lia.
    + replace (match rest with String "d" rest' => _ | _ => _ end) with (ds +:+ replace_days n rest).
      2: { destruct rest as [|r rest]; [done|]. destruct (ascii_dec r "d") as [->|Hr']; [by destruct Hnot; eexists|].
           by repeat (case_match; try done). }
      rewrite to_text_app. apply replaced_run; [done| |intros b'; by apply IH].
      destruct rest as [|r rest]; [done|]. split; [done|]. intros ->. apply Hnot. by eexists.
  - change (to_text (String c s)) with (c :: to_text s). change (to_text (String c (replace_days n s))) with (c :: to_text (replace_days n s)).
    apply replaced_cons; [|apply IH; cbn in Hn; lia].
    destruct (ascii_dec c "d") as [->|Hne]; [|by apply (day_none b [])].
    destruct (match_at dayPattern _) as [[q x]|] eqn:Hm; [exfalso|done].
    apply match_at_sound, day_den in Hm as (ds' & Hne' & Hd' & Heq & _). destruct ds' as [|d ds']; [done|].
    injection Heq as <- _. cbn in Hd'. done.
Qed.

Lemma replace_days_scan s : ReplaceAllStringFunc dayPattern s day_hours = replace_days (String.length s) s.
Proof.
  unfold ReplaceAllStringFunc. rewrite <- (String.string_of_list_ascii_of_string (replace_days _ _)). f_equal.
  eapply replaced_det; [by apply replaceAll_replaced|]. by apply replace_days_replaced.
Qed.

(** C40. The patterns do what the doc comment of [parseDuration] says and nothing
    else: a text is rejected for fractional days exactly when a point, digits
    and a [d] follow each other in it, and the replacement rewrites exactly the
    maximal runs of digits before a [d], left to right, into hours, keeping
    everything else; the backtracking search of the patterns and a single scan
    of the text agree on every text. *)
Theorem patterns_are_scans s :
  MatchString fracDayPattern s = has_fractional_days s /\
  ReplaceAllStringFunc dayPattern s day_hours = replace_days (String.length s) s.
Proof. split; [apply frac_days_scan|apply replace_days_scan]. Qed.
