(* ===== verification/Duration.v ===== *)
(** * Durations and configuration sections (src/configutil)

    duration.go with [time.ParseDuration] and [time.Duration.String], and the
    sections of sections.go.  Durations are nanoseconds in 64 bits. *)
From S2P Require Import Prelude GoStrings TokenMint ConfigUtil DayPattern.
Import OS.
From stdpp Require Import pretty.
From Stdlib Require Import SpecFloat.
Local Open Scope string_scope.
Local Open Scope Z_scope.

Definition Hour : Z := 60 * Minute.

(** ** [time.ParseDuration] *)

Inductive dur_error := FractionalDays | InvalidDuration | MissingUnit | UnknownUnit.

Definition digit (c : ascii) : Z := Z.of_N (code c - 48).

(** [leadingInt]: [None] on overflow past 2^63. *)
Fixpoint leadingInt (x : Z) (s : string) : option (Z * string) :=
  match s with
  | String c s' =>
      if is_digit c then
        if 2 ^ 63 / 10 <? x then None
        else let x' := x * 10 + digit c in
             if 2 ^ 63 <? x' then None else leadingInt x' s'
      else Some (x, s)
  | "" => Some (x, "")
  end.

(** [leadingFraction]: digits past the overflow are skipped. *)
Fixpoint leadingFraction (x : Z) (scale : Float64.t) (overflow : bool) (s : string) : Z * Float64.t * string :=
  match s with
  | String c s' =>
      if is_digit c then
        if overflow then leadingFraction x scale true s'
        else if maxInt64 / 10 <? x then leadingFraction x scale true s'
        else let y := x * 10 + digit c in
             if 2 ^ 63 <? y then leadingFraction x scale true s'
             else leadingFraction y (Float64.mul scale (Float64.of_Z 10)) false s'
      else (x, scale, s)
  | "" => (x, scale, "")
  end.

Definition unitMap (u : string) : option Z :=
  if u ==s "ns" then Some 1
  else if u ==s "us" then Some Microsecond
  else if u ==s bytes [194; 181; 115]%N then Some Microsecond
  else if u ==s bytes [206; 188; 115]%N then Some Microsecond
  else if u ==s "ms" then Some Millisecond
  else if u ==s "s" then Some Second
  else if u ==s "m" then Some Minute
  else if u ==s "h" then Some Hour
  else None.

Definition unit_byte (c : ascii) : bool := negb (Ascii.eqb c "." || is_digit c).

(** [uint64(float64(f) * (float64(unit) / scale))]. *)
Definition fraction (f unit : Z) (scale : Float64.t) : Z :=
  Float64.trunc (Float64.mul (Float64.of_Z f) (SFdiv 53 1024 (Float64.of_Z unit) scale)).

(** One number with its unit, in nanoseconds, and the rest of the text. *)
Definition parse_component (s : string) : result dur_error (Z * string) :=
  match s with
  | "" => Err InvalidDuration
  | String c _ =>
      if negb (Ascii.eqb c "." || is_digit c) then Err InvalidDuration
      else match leadingInt 0 s with
           | None => Err InvalidDuration
           | Some (v, s1) =>
               let pre := negb (Nat.eqb (String.length s) (String.length s1)) in
               let '(f, scale, s2, post) :=
                 match s1 with
                 | String "." s1' =>
                     let '(f, scale, s2) := leadingFraction 0 Float64.one false s1' in
                     (f, scale, s2, negb (Nat.eqb (String.length s1') (String.length s2)))
                 | _ => (0, Float64.one, s1, false)
                 end in
               if negb pre && negb post then Err InvalidDuration
               else
                 let '(u, s3) := span unit_byte s2 in
                 if u ==s "" then Err MissingUnit
                 else match unitMap u with
                      | None => Err UnknownUnit
                      | Some unit =>
                          if 2 ^ 63 / unit <? v then Err InvalidDuration
                          else let v' := v * unit in
                               let v'' := if 0 <? f then v' + fraction f unit scale else v' in
                               if (0 <? f) && (2 ^ 63 <? v'') then Err InvalidDuration
                               else Ok (v'', s3)
                      end
           end
  end.

(** The loop over the components; [d] is a uint64.  Each turn consumes a byte. *)
Fixpoint parse_components (fuel : nat) (d : Z) (s : string) : result dur_error Z :=
  match fuel with
  | O => Ok d
  | S n =>
      if s ==s "" then Ok d
      else let? vs := parse_component s in
           let d' := (d + fst vs) mod 2 ^ 64 in
           if 2 ^ 63 <? d' then Err InvalidDuration else parse_components n d' (snd vs)
  end.

Definition ParseDuration (s : string) : result dur_error Z :=
  let '(neg, s1) := match s with
                    | String "-" s' => (true, s')
                    | String "+" s' => (false, s')
                    | _ => (false, s)
                    end in
  if s1 ==s "0" then Ok 0
  else if s1 ==s "" then Err InvalidDuration
  else let? d := parse_components (String.length s1) 0 s1 in
       if neg then Ok (wrap64 (- wrap64 d))
       else if maxInt64 <? d then Err InvalidDuration
       else Ok d.

(** ** duration.go *)

Definition parseDuration (s : string) : result dur_error Z :=
  if Regex.MatchString fracDayPattern s then Err FractionalDays
  else ParseDuration (Regex.ReplaceAllStringFunc dayPattern s day_hours).

(** The same, scanning the text once for each pattern. *)
Lemma parseDuration_scan s :
  parseDuration s = if has_fractional_days s then Err FractionalDays else ParseDuration (replace_days (String.length s) s).
Proof. unfold parseDuration. by rewrite frac_days_scan, replace_days_scan. Qed.

Example parse_mixed : parseDuration "1d12h30m" = Ok (36 * Hour + 30 * Minute).
Proof. vm_compute. reflexivity. Qed.
Example parse_fraction : parseDuration "1.5h" = Ok (90 * Minute).
Proof. vm_compute. reflexivity. Qed.
Example parse_frac_days : parseDuration "1.5d" = Err FractionalDays.
Proof. vm_compute. reflexivity. Qed.

(** A day count out of range is not an error: the product wraps around, and a
    count past int64 reads as minus a day. *)
Lemma day_count_wraps :
  parseDuration "768614336404564651d" = Ok (8 * Hour) /\
  parseDuration "99999999999999999999d" = Ok (- 24 * Hour).
Proof. vm_compute. split; reflexivity. Qed.

(** ** Durations as their author writes them: whole numbers with units *)
Inductive dunit := Uns | Uus | Umicro | Ums | Us | Um | Uh | Ud.

#[global] Instance dunit_eq_dec : EqDecision dunit.
Proof. solve_decision. Defined.

Definition unit_text (u : dunit) : string :=
  match u with
  | Uns => "ns" | Uus => "us" | Umicro => bytes [194; 181; 115]%N | Ums => "ms"
  | Us => "s" | Um => "m" | Uh => "h" | Ud => "d"
  end.

Definition unit_ns (u : dunit) : Z :=
  match u with
  | Uns => 1 | Uus | Umicro => Microsecond | Ums => Millisecond
  | Us => Second | Um => Minute | Uh => Hour | Ud => 24 * Hour
  end.

Definition digits_ok (ds : string) : bool := (ds !=s "") && all_bytes is_digit ds.
Definition num (ds : string) : Z := default 0 (parse_digits ds 0).

Abbreviation component := (string * dunit)%type.
Definition print_components (cs : list component) : string :=
  foldr (fun c s => c.1 +:+ unit_text c.2 +:+ s) "" cs.
Definition total (cs : list component) : Z := foldr (fun c t => num c.1 * unit_ns c.2 + t) 0 cs.
Definition components_ok (cs : list component) : bool := forallb (fun c => digits_ok c.1) cs.

Definition head_not (f : ascii -> bool) (s : string) : bool :=
  match s with "" => true | String c _ => negb (f c) end.

Lemma span_app f a s : all_bytes f a = true -> head_not f s = true -> span f (a +:+ s) = (a, s).
Proof.
  intros Ha Hs. induction a as [|c a IH].
  - change ("" +:+ s) with s. destruct s as [|c s]; [done|]. cbn in *. by rewrite (proj1 (negb_true_iff _) Hs).
  - rewrite append_cons. cbn [all_bytes span] in *. apply andb_true_iff in Ha as [-> Ha]. by rewrite IH.
Qed.

Lemma parse_digits_le ds x v : 0 <= x -> parse_digits ds x = Some v -> x <= v.
Proof.
  revert x; induction ds as [|c ds IH]; intros x Hx; cbn [parse_digits]; [intros [= <-]; lia|].
  destruct (is_digit c); [|done]. intros H%IH; lia.
Qed.

Lemma digits_num ds : all_bytes is_digit ds = true -> forall x, exists v, parse_digits ds x = Some v.
Proof.
  induction ds as [|c ds IH]; cbn [all_bytes parse_digits]; [by eexists|].
  intros [-> Hd]%andb_true_iff x. by apply IH.
Qed.

Lemma num_spec ds : all_bytes is_digit ds = true -> parse_digits ds 0 = Some (num ds) /\ 0 <= num ds.
Proof.
  intros Hd. unfold num. destruct (digits_num ds Hd 0) as [v Hv]. rewrite Hv. split; [done|].
  apply parse_digits_le in Hv; simpl; lia.
Qed.

Lemma leadingInt_digits ds s x v :
  all_bytes is_digit ds = true -> head_not is_digit s = true -> 0 <= x ->
  parse_digits ds x = Some v -> v <= 2 ^ 63 -> leadingInt x (ds +:+ s) = Some (v, s).
Proof.
  intros Hd Hs. revert x. induction ds as [|c ds IH]; intros x Hx Hp Hv.
  - change ("" +:+ s) with s. injection Hp as ->. destruct s as [|c s]; [done|]. cbn in *.
    by rewrite (proj1 (negb_true_iff _) Hs).
  - rewrite append_cons. cbn [all_bytes parse_digits leadingInt] in *. apply andb_true_iff in Hd as [Hc Hd].
    rewrite Hc in *. fold (digit c) in Hp. assert (0 <= digit c) by (unfold digit; lia).
    pose proof (parse_digits_le ds (x * 10 + digit c) v ltac:(lia) Hp) as Hle.
    assert (x <= 2 ^ 63 / 10) by (apply Z.div_le_lower_bound; lia).
    destruct (Z.ltb_spec (2 ^ 63 / 10) x) as [Hlt|_]; [lia|].
    destruct (Z.ltb_spec (2 ^ 63) (x * 10 + digit c)); [lia|]. apply IH; [done|lia|done|done].
Qed.

Lemma unit_text_facts u : u <> Ud ->
  unitMap (unit_text u) = Some (unit_ns u) /\ all_bytes unit_byte (unit_text u) = true /\ unit_text u <> "".
Proof. by destruct u. Qed.

(** After a number comes a unit, and after a unit a number or the end. *)
Lemma head_unit u s : head_not is_digit (unit_text u +:+ s) = true.
Proof. by destruct u. Qed.

Lemma head_component cs : components_ok cs = true -> head_not unit_byte (print_components cs) = true.
Proof.
  destruct cs as [|[ds u] cs]; [done|]. cbn [components_ok forallb fst print_components foldr].
  intros [[H1 H2]%andb_true_iff _]%andb_true_iff. destruct ds as [|c ds]; [done|]. cbn [all_bytes] in H2.
  apply andb_true_iff in H2 as [H2 _]. rewrite append_cons. cbn. unfold unit_byte. by rewrite H2, orb_true_r.
Qed.

Lemma unit_ns_pos u : 1 <= unit_ns u.
Proof. destruct u; unfold unit_ns, Microsecond, Millisecond, Second, Hour, Minute; lia. Qed.

Lemma parse_component_ok ds u s :
  digits_ok ds = true -> u <> Ud -> head_not unit_byte s = true -> num ds * unit_ns u <= 2 ^ 63 ->
  parse_component (ds +:+ unit_text u +:+ s) = Ok (num ds * unit_ns u, s).
Proof.
  intros [Hne Hd]%andb_true_iff Hu Hs Hv. destruct (num_spec _ Hd) as [Hp H0].
  pose proof (unit_ns_pos u) as Hpos. destruct (unit_text_facts u Hu) as (Hm & Hb & Hnil).
  assert (num ds <= 2 ^ 63) as Hn by nia.
  pose proof (leadingInt_digits ds (unit_text u +:+ s) 0 _ Hd (head_unit u s) ltac:(lia) Hp Hn) as Hl.
  unfold parse_component. rewrite Hl. destruct ds as [|c ds]; [done|]. rewrite append_cons.
  cbn [all_bytes] in Hd. apply andb_true_iff in Hd as [Hc _]. rewrite Hc, orb_true_r. cbn [negb].
  rewrite <- append_cons, length_append. 
  replace (negb (Nat.eqb _ _)) with true by (symmetry; apply negb_true_iff, Nat.eqb_neq; simpl; lia).
  assert (forall {A} (f : string -> A) (g : A), match unit_text u +:+ s with String "." s' => f s' | _ => g end = g) as ->
    by (by destruct u).
  rewrite (span_app _ _ _ Hb Hs), Hm. cbn [negb andb].
  apply String.eqb_neq in Hnil as ->. assert (num (String c ds) <= 2 ^ 63 / unit_ns u) by (apply Z.div_le_lower_bound; lia).
  by destruct (Z.ltb_spec (2 ^ 63 / unit_ns u) (num (String c ds))) as [Hlt|_]; [lia|].
Qed.

Lemma components_total_nonneg cs : components_ok cs = true -> 0 <= total cs.
Proof.
  induction cs as [|[ds u] cs IH]; [done|]. cbn [components_ok forallb total foldr fst snd].
  intros [[_ Hd]%andb_true_iff Hcs]%andb_true_iff. destruct (num_spec _ Hd) as [_ H0]. pose proof (unit_ns_pos u).
  specialize (IH Hcs). unfold total in IH. nia.
Qed.

(** Every component takes at least a byte of the text. *)
Lemma print_length ds u s : (String.length (ds +:+ unit_text u +:+ s) > String.length s)%nat.
Proof. rewrite !length_append. destruct u; simpl; lia. Qed.

Lemma parse_components_ok n d cs :
  (String.length (print_components cs) <= n)%nat -> components_ok cs = true -> Forall (fun c => c.2 <> Ud) cs ->
  0 <= d -> d + total cs <= 2 ^ 63 -> parse_components n d (print_components cs) = Ok (d + total cs).
Proof.
  revert n d. induction cs as [|[ds u] cs IH]; intros n d Hn Hok Hu Hd Ht.
  - destruct n; cbn; f_equal; lia.
  - pose proof (head_component cs) as Hh. pose proof (components_total_nonneg cs) as Ht0.
    cbn [components_ok forallb] in *. apply andb_true_iff in Hok as [Hds Hok]. apply Forall_cons in Hu as [Hu Hus].
    cbn [print_components foldr total fst snd] in *. fold (print_components cs) in *. fold (total cs) in *.
    pose proof (print_length ds u (print_components cs)). destruct n as [|n]; [lia|]. cbn [parse_components].
    pose proof (num_spec ds (proj2 (proj1 (andb_true_iff _ _) Hds))) as [_ H0]. pose proof (unit_ns_pos u).
    specialize (Ht0 Hok). assert (0 <= num ds * unit_ns u) by nia.
    rewrite parse_component_ok by (done || lia || auto).
    replace (_ ==s "") with false by (symmetry; apply String.eqb_neq; intros E; rewrite E in *; simpl in *; lia).
    cbn [fst snd]. rewrite Z.mod_small by lia. destruct (Z.ltb_spec (2 ^ 63) (d + num ds * unit_ns u)); [lia|].
    rewrite IH; [f_equal; lia|lia|done|done|lia|lia].
Qed.

Lemma pretty_char_digit m :
  (m < 10)%N -> is_digit (pretty_N_char m) = true /\ (code (pretty_N_char m) - 48 = m)%N.
Proof.
  intros. assert (m = 0 \/ m = 1 \/ m = 2 \/ m = 3 \/ m = 4 \/ m = 5 \/ m = 6 \/ m = 7 \/ m = 8 \/ m = 9)%N
    as Hm by lia. by destruct_or! Hm; subst m.
Qed.

(** The decimal text of a number reads back as it. *)
Lemma pretty_N_go_digits x s :
  parse_digits (pretty_N_go x s) 0 = parse_digits s (Z.of_N x) /\
  all_bytes is_digit (pretty_N_go x s) = all_bytes is_digit s /\
  (0 < x -> pretty_N_go x s <> "")%N.
Proof.
  revert s. induction (N.lt_wf_0 x) as [x _ IH]. intros s.
  destruct (decide (x = 0)%N) as [->|Hx]; [by rewrite pretty_N_go_0|].
  rewrite pretty_N_go_step by lia. pose proof (N.div_lt x 10 ltac:(lia) ltac:(lia)) as Hlt.
  destruct (IH _ Hlt (String (pretty_N_char (x `mod` 10)) s)) as (-> & -> & _).
  assert (is_digit (pretty_N_char (x `mod` 10)) = true /\ (code (pretty_N_char (x `mod` 10)) - 48 = x `mod` 10)%N) as [Hdg Hc].
  { apply pretty_char_digit, N.mod_lt. lia. }
  cbn [parse_digits all_bytes]. rewrite Hdg, Hc. split_and!; [f_equal|done|].
  - pose proof (N.div_mod x 10 ltac:(lia)). lia.
  - intros _. destruct (decide (x `div` 10 = 0)%N) as [->|Hp]; [by rewrite pretty_N_go_0|].
    by apply (IH _ Hlt), N.neq_0_lt_0.
Qed.

Lemma FormatInt_digits z :
  0 <= z -> digits_ok (FormatInt z) = true /\ num (FormatInt z) = z.
Proof.
  intros Hz. unfold FormatInt, digits_ok, num. destruct z as [|p|p]; [done| |lia].
  change (pretty (Z.pos p)) with (pretty (N.pos p)). unfold pretty, pretty_N.
  rewrite decide_False by done. destruct (pretty_N_go_digits (N.pos p) "") as (-> & -> & Hn).
  split; [|done]. apply andb_true_iff. split; [|done]. apply negb_true_iff, String.eqb_neq, Hn. lia.
Qed.

(** Days become hours. *)
Definition expand_day (c : component) : component :=
  match c with (ds, Ud) => (FormatInt (num ds * 24), Uh) | _ => c end.

Lemma no_point_no_fraction s : all_bytes (fun c => negb (Ascii.eqb c ".")) s = true -> has_fractional_days s = false.
Proof. induction s as [|c s IH]; [done|]. cbn [all_bytes has_fractional_days]. intros [->%negb_true_iff H]%andb_true_iff. auto. Qed.

Lemma digit_not_point c : is_digit c = true -> negb (Ascii.eqb c ".") = true.
Proof. intros H. apply negb_true_iff, Ascii.eqb_neq. by intros ->. Qed.

Lemma print_no_point cs :
  components_ok cs = true -> all_bytes (fun c => negb (Ascii.eqb c ".")) (print_components cs) = true.
Proof.
  induction cs as [|[ds u] cs IH]; [done|]. cbn [components_ok forallb print_components foldr fst snd].
  intros [[_ Hd]%andb_true_iff Hcs]%andb_true_iff. rewrite !all_bytes_app. fold (print_components cs).
  rewrite (all_bytes_impl _ _ _ digit_not_point Hd), (IH Hcs). by destruct u.
Qed.

Lemma total_head ds u cs :
  components_ok ((ds, u) :: cs) = true -> total ((ds, u) :: cs) <= maxInt64 ->
  num ds * unit_ns u <= maxInt64 /\ total cs <= maxInt64.
Proof.
  intros Hok Ht. pose proof (components_total_nonneg cs) as H0. cbn [components_ok forallb total foldr fst snd] in *.
  apply andb_true_iff in Hok as [[_ Hd]%andb_true_iff Hcs]. destruct (num_spec _ Hd) as [_ Hn].
  pose proof (unit_ns_pos u). specialize (H0 Hcs). unfold total in *. nia.
Qed.

Lemma replace_unit n u s : u <> Ud -> (String.length (unit_text u) <= n)%nat ->
  replace_days n (unit_text u +:+ s) = unit_text u +:+ replace_days (n - String.length (unit_text u)) s.
Proof.
  intros Hu Hn. destruct u; try done; cbn [unit_text String.length] in Hn |- *;
    (do 3 (try (destruct n as [|n]; [simpl in Hn; lia|]))); simpl in Hn |- *; rewrite ?Nat.sub_0_r; try done.
Qed.

Lemma replace_digits n ds u s :
  digits_ok ds = true ->
  replace_days (S n) (ds +:+ unit_text u +:+ s) =
  match u with
  | Ud => FormatInt (wrap64 (Atoi_digits ds * 24)) +:+ "h" +:+ replace_days n s
  | _ => ds +:+ replace_days n (unit_text u +:+ s)
  end.
Proof.
  intros [Hne Hd]%andb_true_iff. pose proof (span_app is_digit ds _ Hd (head_unit u s)) as Hs.
  destruct ds as [|c ds]; [done|]. cbn [all_bytes] in Hd. apply andb_true_iff in Hd as [Hc _].
  rewrite append_cons in Hs |- *. cbn [replace_days]. rewrite Hc, Hs. by destruct u.
Qed.

Lemma Hour_val : Hour = 3600000000000.
Proof. done. Qed.

Lemma day_hours ds :
  digits_ok ds = true -> num ds * unit_ns Ud <= maxInt64 -> wrap64 (Atoi_digits ds * 24) = num ds * 24.
Proof.
  intros [_ Hd]%andb_true_iff Hb. destruct (num_spec _ Hd) as [Hp H0]. unfold Atoi_digits. rewrite Hp.
  cbn [unit_ns] in Hb. rewrite Hour_val in Hb. unfold maxInt64 in *.
  rewrite Z.min_l by lia. apply wrap64_id. unfold int64_range. lia.
Qed.

Lemma replace_days_ok n cs :
  (String.length (print_components cs) <= n)%nat -> components_ok cs = true -> total cs <= maxInt64 ->
  replace_days n (print_components cs) = print_components (map expand_day cs).
Proof.
  revert n; induction cs as [|[ds u] cs IH]; intros n Hn Hok Ht; [by destruct n|].
  destruct (total_head _ _ _ Hok Ht) as [Hh Hcs]. apply andb_true_iff in Hok as [Hds Hok].
  cbn [print_components foldr map fst snd] in Hn |- *. fold (print_components cs) in *.
  fold (print_components (map expand_day cs)). rewrite !length_append in Hn. cbn [fst] in Hds.
  assert (String.length ds <> 0%nat) as Hl by (by destruct ds).
  destruct n as [|n]; [lia|]. rewrite replace_digits by done.
  destruct (decide (u = Ud)) as [->|Hu].
  - rewrite day_hours by done. cbn [expand_day fst snd unit_text]. do 2 f_equal. apply IH; [simpl in Hn; lia|done..].
  - rewrite replace_unit by (done || lia). rewrite IH by (done || lia). by destruct u.
Qed.

Lemma expand_day_ok cs :
  components_ok cs = true ->
  components_ok (map expand_day cs) = true /\ total (map expand_day cs) = total cs /\
  Forall (fun c => c.2 <> Ud) (map expand_day cs).
Proof.
  induction cs as [|[ds u] cs IH]; [done|]. intros [Hds Hok]%andb_true_iff.
  destruct (IH Hok) as (H1 & H2 & H3). cbn [map components_ok forallb total foldr fst] in *.
  destruct (num_spec ds (proj2 (proj1 (andb_true_iff _ _) Hds))) as [_ H0].
  destruct (FormatInt_digits (num ds * 24)) as [Hf Hn]; [lia|].
  split_and!.
  - apply andb_true_iff. split; [by destruct u|done].
  - fold (total (map expand_day cs)). rewrite H2. fold (total cs). f_equal.
    destruct u; try done. cbn [expand_day fst snd unit_ns]. rewrite Hn. lia.
  - constructor; [by destruct u|done].
Qed.

(** A text of components starts with a digit and is no bare zero. *)
Lemma print_not_special cs : components_ok cs = true -> cs <> [] ->
  print_components cs <> "0" /\ print_components cs <> "" /\
  exists c s, print_components cs = String c s /\ is_digit c = true.
Proof.
  destruct cs as [|[ds u] cs]; [done|]. intros [[Hne Hd]%andb_true_iff _]%andb_true_iff _. cbn [fst] in Hne, Hd.
  cbn [print_components foldr fst snd]. destruct ds as [|c ds]; [done|]. rewrite append_cons.
  cbn [all_bytes] in Hd. apply andb_true_iff in Hd as [Hc _]. split_and!; [|done|by eexists _, _].
  intros [= _ H]. apply (f_equal String.length) in H. rewrite !length_append in H. destruct u; simpl in H; lia.
Qed.

Lemma sign_of_digit {A} c s (f g : string -> A) (h : A) :
  is_digit c = true -> match String c s with String "-" s' => f s' | String "+" s' => g s' | _ => h end = h.
Proof. intros Hc. repeat case_match; simplify_eq; done. Qed.

Lemma ParseDuration_components cs :
  components_ok cs = true -> Forall (fun c => c.2 <> Ud) cs -> cs <> [] -> total cs <= maxInt64 ->
  ParseDuration (print_components cs) = Ok (total cs).
Proof.
  intros Hok Hu Hne Ht. destruct (print_not_special cs Hok Hne) as (Hz & He & c & s & Hp & Hc).
  unfold ParseDuration. rewrite Hp at 1. rewrite sign_of_digit by done.
  apply String.eqb_neq in Hz as ->. apply String.eqb_neq in He as ->. pose proof (components_total_nonneg cs Hok).
  rewrite parse_components_ok by (done || unfold maxInt64 in *; lia). rewrite Z.add_0_l.
  by destruct (Z.ltb_spec maxInt64 (total cs)); [lia|].
Qed.

Lemma parse_whole cs :
  components_ok cs = true -> cs <> [] -> total cs <= maxInt64 ->
  parseDuration (print_components cs) = Ok (total cs).
Proof.
  intros Hok Hne Ht. rewrite parseDuration_scan. rewrite no_point_no_fraction by (by apply print_no_point).
  rewrite replace_days_ok by done. destruct (expand_day_ok cs Hok) as (H1 & H2 & H3).
  rewrite ParseDuration_components; [by rewrite H2|done|done|by destruct cs|by rewrite H2].
Qed.

(** A duration written as whole numbers with units, days included and in any
    order, parses to their sum, as long as the sum fits a [time.Duration]. *)
Theorem parseDuration_components cs :
  components_ok cs = true -> cs <> [] -> total cs <= maxInt64 ->
  parseDuration (print_components cs) = Ok (total cs).
Proof. apply parse_whole. Qed.

Lemma parseDuration_components_witness : parseDuration "30d12h07m" = Ok (30 * 24 * Hour + 12 * Hour + 7 * Minute).
Proof.
  refine (parseDuration_components [("30", Ud); ("12", Uh); ("07", Um)] _ _ _); [reflexivity|done|].
  vm_compute. discriminate.
Defined.

(** ** [time.Duration.String] and the YAML form *)

Definition digit_char (d : Z) : ascii := ascii_of_N (Z.to_N d + 48).

(** [fmtFrac]: the fraction of [v / 10^prec] in front of [acc], trailing zeros
    and with them the point left out, and the whole part. *)
Fixpoint fmtFrac (prec : nat) (v : Z) (print : bool) (acc : string) : string * Z :=
  match prec with
  | O => ((if print then String "." acc else acc), v)
  | S n =>
      let d := v mod 10 in
      let print' := print || negb (d =? 0) in
      fmtFrac n (v / 10) print' (if print' then String (digit_char d) acc else acc)
  end.

Definition Duration_String (d : Z) : string :=
  let u := Z.abs d in
  let body :=
    if u <? Second then
      if u =? 0 then "0s"
      else
        let '(prec, unit) := if u <? Microsecond then (0%nat, "ns")
                             else if u <? Millisecond then (3%nat, bytes [194; 181; 115]%N)
                             else (6%nat, "ms") in
        let '(s, u') := fmtFrac prec u false unit in FormatInt u' +:+ s
    else
      let '(s, secs) := fmtFrac 9 u false "s" in
      let s1 := FormatInt (secs mod 60) +:+ s in
      let mins := secs / 60 in
      if 0 <? mins then
        let s2 := FormatInt (mins mod 60) +:+ "m" +:+ s1 in
        let hours := mins / 60 in
        if 0 <? hours then FormatInt hours +:+ "h" +:+ s2 else s2
      else s1 in
  if d <? 0 then String "-" body else body.

(** UnmarshalYAML of a scalar and MarshalYAML. *)
Definition UnmarshalYAML (s : string) : result dur_error Z := parseDuration s.
Definition MarshalYAML (d : Z) : string := Duration_String d.

Example String_ex : map Duration_String [1; 1500; 1500000; 5 * Minute + 250 * Millisecond; - 36 * Hour; 0] =
  ["1ns"; "1.5" +:+ bytes [194; 181; 115]%N; "1.5ms"; "5m0.25s"; "-36h0m0s"; "0s"].
Proof. vm_compute. reflexivity. Qed.

Lemma fmtFrac_whole n v acc : v mod 10 ^ Z.of_nat n = 0 -> fmtFrac n v false acc = (acc, v / 10 ^ Z.of_nat n).
Proof.
  revert v; induction n as [|n IH]; intros v Hv; [by rewrite Z.div_1_r|].
  rewrite Nat2Z.inj_succ, Z.pow_succ_r in * by lia. assert (0 < 10 ^ Z.of_nat n) as Hp by lia.
  apply Z.mod_divide in Hv as [k ->]; [|lia]. replace (k * (10 * 10 ^ Z.of_nat n)) with (k * 10 ^ Z.of_nat n * 10) by lia.
  cbn [fmtFrac]. rewrite Z.mod_mul by lia. cbn [orb negb Z.eqb]. rewrite Z.div_mul by lia. rewrite IH by (apply Z.mod_mul; lia).
  f_equal. rewrite Z.div_mul by lia. rewrite <- Z.mul_assoc, (Z.mul_comm _ 10), Z.div_mul by lia. done.
Qed.

(** The components of a non-negative number of whole seconds. *)
Definition hms (secs : Z) : list component :=
  let mins := secs / 60 in
  (if 0 <? mins / 60 then [(FormatInt (mins / 60), Uh)] else []) ++
  (if 0 <? mins then [(FormatInt (mins mod 60), Um)] else []) ++ [(FormatInt (secs mod 60), Us)].

Lemma hms_ok secs : 0 <= secs -> components_ok (hms secs) = true /\ total (hms secs) = secs * Second /\ hms secs <> [].
Proof.
  intros H0. unfold hms. set (mins := secs / 60).
  assert (0 <= mins) by (apply Z.div_pos; lia). assert (0 <= mins / 60) by (apply Z.div_pos; lia).
  pose proof (Z.div_mod secs 60 ltac:(lia)). pose proof (Z.div_mod mins 60 ltac:(lia)). fold mins in H1.
  pose proof (Z.mod_pos_bound secs 60 ltac:(lia)). pose proof (Z.mod_pos_bound mins 60 ltac:(lia)).
  destruct (FormatInt_digits (mins / 60)) as [Ha Hna]; [lia|].
  destruct (FormatInt_digits (mins mod 60)) as [Hb Hnb]; [lia|].
  destruct (FormatInt_digits (secs mod 60)) as [Hc Hnc]; [lia|].
  unfold total, components_ok, Second.
  destruct (Z.ltb_spec 0 (mins / 60)); destruct (Z.ltb_spec 0 mins); cbn [app forallb foldr fst snd];
    rewrite ?Ha, ?Hb, ?Hc, ?Hna, ?Hnb, ?Hnc; (split; [done|]); (split; [|done]);
    cbn [unit_ns]; rewrite ?Hour_val; unfold Minute, Second; lia.
Qed.

Lemma String_hms secs : 0 <= secs -> Duration_String (secs * Second) = print_components (hms secs).
Proof.
  intros H0. unfold Duration_String. replace (Z.abs _) with (secs * Second) by (unfold Second; lia).
  destruct (Z.ltb_spec (secs * Second) 0); [unfold Second in *; lia|].
  destruct (Z.ltb_spec (secs * Second) Second).
  { assert (secs = 0) as -> by (unfold Second in *; lia). reflexivity. }
  rewrite (fmtFrac_whole 9) by (apply Z.mod_mul; done). change (10 ^ Z.of_nat 9) with Second.
  rewrite Z.div_mul by done. unfold hms.
  assert (secs / 60 < 1 -> secs / 60 / 60 < 1) as Hm by (intros; apply Z.div_lt_upper_bound; lia).
  destruct (Z.ltb_spec 0 (secs / 60)); destruct (Z.ltb_spec 0 (secs / 60 / 60)); try lia; done.
Qed.

Lemma parse_negative cs :
  components_ok cs = true -> cs <> [] -> total cs <= maxInt64 ->
  parseDuration (String "-" (print_components cs)) = Ok (- total cs).
Proof.
  intros Hok Hne Ht. rewrite parseDuration_scan. rewrite no_point_no_fraction by (cbn; by apply print_no_point).
  cbn [String.length replace_days]. change (is_digit "-") with false. cbv iota.
  rewrite replace_days_ok by done. destruct (expand_day_ok cs Hok) as (H1 & H2 & H3).
  destruct (print_not_special (map expand_day cs) H1) as (Hz & He & _); [by destruct cs|].
  unfold ParseDuration. apply String.eqb_neq in Hz as ->. apply String.eqb_neq in He as ->.
  pose proof (components_total_nonneg cs Hok). unfold maxInt64 in *.
  rewrite parse_components_ok by (done || lia). rewrite H2, Z.add_0_l.
  by rewrite !wrap64_id by (rewrite ?wrap64_id; unfold int64_range; lia).
Qed.

(** Reading back what MarshalYAML wrote for a duration of whole seconds,
    negative ones included, gives the duration. *)
Theorem Duration_yaml_roundtrip d :
  int64_range d -> d mod Second = 0 -> UnmarshalYAML (MarshalYAML d) = Ok d.
Proof.
  intros Hr Hm. unfold UnmarshalYAML, MarshalYAML. apply Z.mod_divide in Hm as [k ->]; [|done].
  destruct (hms_ok (Z.abs k)) as (Hok & Ht & Hne); [lia|].
  assert (total (hms (Z.abs k)) <= maxInt64) by (rewrite Ht; unfold int64_range, maxInt64, Second in *; lia).
  destruct (decide (0 <= k)).
  - rewrite Z.abs_eq in * by lia. rewrite String_hms by done. by rewrite parse_whole, Ht.
  - assert (Duration_String (k * Second) = String "-" (Duration_String (Z.abs k * Second))) as ->.
    { unfold Duration_String. rewrite !Z.abs_mul, Z.abs_idemp.
      destruct (Z.ltb_spec (k * Second) 0); [|unfold Second in *; lia].
      by destruct (Z.ltb_spec (Z.abs k * Second) 0); [unfold Second in *; lia|]. }
    rewrite String_hms, parse_negative, Ht by (done || lia). f_equal. lia.
Qed.

Lemma Duration_yaml_roundtrip_witness : UnmarshalYAML (MarshalYAML (- 90061 * Second)) = Ok (- 90061 * Second).
Proof. refine (Duration_yaml_roundtrip _ _ _); [unfold int64_range, Second; lia|reflexivity]. Defined.

(** ** sections.go *)
Module Sections.

Inductive section_error :=
| ListenAddrRequired | CertKeyMismatch | BadMinVersion | DriverRequired | DSNRequired | BadLevel | BadFormat.

Record HTTPServerSection := { ListenAddr : string; ReadTimeout : Z; WriteTimeout : Z; IdleTimeout : Z;
                              MaxHeaderBytes : Z; ShutdownTimeout : Z }.

Definition HTTPServer_Validate (s : HTTPServerSection) : result section_error unit :=
  if ListenAddr s ==s "" then Err ListenAddrRequired else Ok tt.

Record TLSSection := { CertFile : string; KeyFile : string; ClientCAFile : string; MinVersion : string }.

Definition TLS_Validate (s : TLSSection) : result section_error unit :=
  let hasCert := CertFile s !=s "" in
  let hasKey := KeyFile s !=s "" in
  if negb (Bool.eqb hasCert hasKey) then Err CertKeyMismatch
  else if (MinVersion s !=s "") && (MinVersion s !=s "1.2") && (MinVersion s !=s "1.3") then Err BadMinVersion
  else Ok tt.

Definition TLS_IsEnabled (s : TLSSection) : bool := (CertFile s !=s "") && (KeyFile s !=s "").

Record DatabaseSection := { Driver : string; DSN : string }.

Definition Database_Validate (s : DatabaseSection) : result section_error unit :=
  if Driver s ==s "" then Err DriverRequired else if DSN s ==s "" then Err DSNRequired else Ok tt.

Record LogSection := { Level : string; Format : string; Redact : bool }.

Definition oneof (s : string) (l : list string) : bool := existsb (String.eqb s) l.

Definition Log_Validate (s : LogSection) : result section_error unit :=
  if (Level s !=s "") && negb (oneof (ToLower (Level s)) ["debug"; "info"; "warn"; "error"]) then Err BadLevel
  else if (Format s !=s "") && negb (oneof (ToLower (Format s)) ["json"; "text"]) then Err BadFormat
  else Ok tt.

Record HealthSection := { Enabled : bool; LivenessPath : string; ReadinessPath : string }.

Definition or_default (s d : string) : string := if s ==s "" then d else s.

Definition Health_WithDefaults (s : HealthSection) : HealthSection :=
  {| Enabled := Enabled s; LivenessPath := or_default (LivenessPath s) "/health";
     ReadinessPath := or_default (ReadinessPath s) "/readiness" |}.

Record ProbeSidecarSection := { Addr : string }.

Definition ProbeSidecar_WithDefault (s : ProbeSidecarSection) (addr : string) : ProbeSidecarSection :=
  {| Addr := or_default (Addr s) addr |}.

(** A valid TLS section either serves TLS, with both files and no version below
    1.2, or names no file at all: TLS is never half configured. *)
Lemma TLS_valid_sound s :
  TLS_Validate s = Ok tt ->
  (TLS_IsEnabled s = true \/ (CertFile s = "" /\ KeyFile s = "")) /\ MinVersion s ∈ [""; "1.2"; "1.3"].
Proof.
  unfold TLS_Validate, TLS_IsEnabled. destruct (CertFile s ==s "") eqn:Hc, (KeyFile s ==s "") eqn:Hk; try done; cbn [negb Bool.eqb];
    destruct (MinVersion s ==s "") eqn:H0; destruct (MinVersion s ==s "1.2") eqn:H2; destruct (MinVersion s ==s "1.3") eqn:H3;
    try done; intros _; apply String.eqb_eq in Hc || clear Hc; apply String.eqb_eq in Hk || clear Hk;
    repeat match goal with H : (_ ==s _) = true |- _ => apply String.eqb_eq in H end;
    (split; [tauto|]); set_solver.
Qed.

Lemma WithDefaults_idempotent s addr p :
  Health_WithDefaults (Health_WithDefaults s) = Health_WithDefaults s /\
  (addr <> "" -> ProbeSidecar_WithDefault (ProbeSidecar_WithDefault p addr) addr = ProbeSidecar_WithDefault p addr).
Proof.
  unfold Health_WithDefaults, ProbeSidecar_WithDefault, or_default. cbn.
  destruct (LivenessPath s ==s "") eqn:H1, (ReadinessPath s ==s "") eqn:H2; cbn; rewrite ?H1, ?H2;
    (split; [done|]); intros _; destruct (Addr p ==s "") eqn:H3; rewrite ?H3; try done;
    by destruct (addr ==s "").
Qed.

End Sections.
