(* ===== verification/AuthzConfig.v ===== *)
(** * csar-authz configuration (src/authzconfig/config.go)

    The schema, its defaults and validate.  Decoding YAML (with the expansion of
    EnvExpand.v) is an argument of [LoadFromBytes].  Sections shared with other
    services are those of Duration.v ([Sections]) and StsClient.v. *)
From S2P Require Import Prelude GoStrings StsClient Duration.
Import Sections.
Local Open Scope string_scope.

Record PermissionConfig := MkPermission { Resource : string; Action : string }.

Record RoleConfig := MkRole {
  Name : string; Description : string; Parents : list string; Permissions : list PermissionConfig }.

Record AssignmentConfig := MkAssignment { as_Subject : string; as_Roles : list string; as_ScopeType : string; as_ScopeID : string }.

Record BootstrapAssignment := MkBootstrap { ba_Subject : string; ba_Role : string; ba_ScopeType : string; ba_ScopeID : string }.

Record PolicyConfig := MkPolicy { Roles : list RoleConfig; Assignments : list AssignmentConfig }.

Record AdminConfig := MkAdmin {
  ad_Enabled : bool; ad_Addr : string; ad_TLS : TLSSection; AllowedClientCN : string;
  DelegatableRoles : list string; AuditRequired : bool; ServiceAssignableRoles : list string }.

Record StoreConfig := MkStore { Backend : string; st_DSN : string }.

Record GRPCConfig := MkGRPC { Reflection : bool }.

Record AuthnConfig := MkAuthn {
  an_Enabled : bool; JWKSURL : string; an_PublicKeyFile : string; an_Issuer : string; an_Audience : string;
  ClockSkew : Z; SubjectClaim : string; CacheTTL : Z; JWKSTLS : TLSSection }.

Record Config := MkConfig {
  c_ListenAddr : string; TLS : TLSSection; Health : HealthSection; ProbeSidecar : ProbeSidecarSection;
  GRPC : GRPCConfig; Authn : AuthnConfig; Store : StoreConfig; Policy : PolicyConfig; Admin : AdminConfig;
  Audit : ServiceAuthConfig; AuditOutboxEnabled : bool; BootstrapAssignments : list BootstrapAssignment }.

(** The errors, with the indices they report. *)
Inductive cfg_error :=
| ESection (e : section_error)
| ERoleName (i : nat)
| EDuplicateRole (i : nat)
| EParent (i : nat) (parent : string)
| EResource (i j : nat)
| EAction (i j : nat)
| EAssignments
| EServiceRoleEmpty (i : nat)
| EServiceRoleUndefined (i : nat)
| ESubject (i : nat)
| EBootRole (i : nat)
| EBootUndefined (i : nat)
| EScopeType (i : nat)
| EBackend
| EStoreDSN
| ENoKeySource
| ETwoKeySources
| EOutbox
| EAudit (missing : list string)
| EParse.

Definition applyDefaults (c : Config) : Config :=
  let an := Authn c in
  let st := Store c in
  let ad := Admin c in
  {| c_ListenAddr := or_default (c_ListenAddr c) ":9090";
     TLS := TLS c;
     Health := Health_WithDefaults (Health c);
     ProbeSidecar := ProbeSidecar_WithDefault (ProbeSidecar c) ":9091";
     GRPC := GRPC c;
     Authn := MkAuthn (an_Enabled an) (JWKSURL an) (an_PublicKeyFile an) (an_Issuer an) (an_Audience an)
                (if an_Enabled an && (ClockSkew an =? 0)%Z then (30 * Second)%Z else ClockSkew an)
                (or_default (SubjectClaim an) "sub")
                (if an_Enabled an && (CacheTTL an =? 0)%Z then (5 * Minute)%Z else CacheTTL an)
                (JWKSTLS an);
     Store := MkStore (or_default (Backend st) "memory") (st_DSN st);
     Policy := Policy c;
     Admin := MkAdmin (ad_Enabled ad) (if ad_Enabled ad && (ad_Addr ad ==s "") then ":9092" else ad_Addr ad)
                (ad_TLS ad) (AllowedClientCN ad) (DelegatableRoles ad) (AuditRequired ad) (ServiceAssignableRoles ad);
     Audit := Audit c;
     AuditOutboxEnabled := AuditOutboxEnabled c;
     BootstrapAssignments := BootstrapAssignments c |}.

Definition check_permission (i j : nat) (p : PermissionConfig) : result cfg_error unit :=
  if Resource p ==s "" then Err (EResource i j)
  else if Action p ==s "" then Err (EAction i j)
  else Ok tt.

(** One turn of the loop over the roles; [roleNames] as it comes in. *)
Definition check_role (roleNames : gset string) (i : nat) (r : RoleConfig) : result cfg_error (gset string) :=
  if Name r ==s "" then Err (ERoleName i)
  else if decide (Name r ∈ roleNames) then Err (EDuplicateRole i)
  else
    let roleNames := {[ Name r ]} ∪ roleNames in
    let? _ := loop (fun _ p => if decide (p ∈ roleNames) then Ok tt else Err (EParent i p)) 0 (Parents r) in
    let? _ := loop (check_permission i) 0 (Permissions r) in
    Ok roleNames.

Fixpoint check_roles (roleNames : gset string) (i : nat) (rs : list RoleConfig) : result cfg_error (gset string) :=
  match rs with
  | [] => Ok roleNames
  | r :: rs' => let? names := check_role roleNames i r in check_roles names (S i) rs'
  end.

Definition check_service_role (roleNames : gset string) (i : nat) (role : string) : result cfg_error unit :=
  if role ==s "" then Err (EServiceRoleEmpty i)
  else if decide (role ∈ roleNames) then Ok tt
  else Err (EServiceRoleUndefined i).

Definition check_bootstrap (roleNames : gset string) (i : nat) (ba : BootstrapAssignment) : result cfg_error unit :=
  if ba_Subject ba ==s "" then Err (ESubject i)
  else if ba_Role ba ==s "" then Err (EBootRole i)
  else if negb (bool_decide (ba_Role ba ∈ roleNames)) then Err (EBootUndefined i)
  else if ba_ScopeType ba ==s "" then Err (EScopeType i)
  else Ok tt.

Definition check_store (st : StoreConfig) : result cfg_error unit :=
  if negb (oneof (Backend st) ["memory"; "postgres"]) then Err EBackend
  else if (Backend st ==s "postgres") && (st_DSN st ==s "") then Err EStoreDSN
  else Ok tt.

Definition check_authn (an : AuthnConfig) : result cfg_error unit :=
  if an_Enabled an then
    let hasJWKS := JWKSURL an !=s "" in
    let hasKey := an_PublicKeyFile an !=s "" in
    if negb hasJWKS && negb hasKey then Err ENoKeySource
    else if hasJWKS && hasKey then Err ETwoKeySources
    else Ok tt
  else Ok tt.

Definition validate (c : Config) : result cfg_error unit :=
  let? _ := map_err ESection (TLS_Validate (TLS c)) in
  let? roleNames := check_roles ∅ 0 (Roles (Policy c)) in
  let? _ := (match Assignments (Policy c) with [] => Ok tt | _ => Err EAssignments end) in
  let? _ := loop (check_service_role roleNames) 0 (ServiceAssignableRoles (Admin c)) in
  let? _ := loop (check_bootstrap roleNames) 0 (BootstrapAssignments c) in
  let? _ := check_store (Store c) in
  let? _ := check_authn (Authn c) in
  let? _ := (if AuditOutboxEnabled c && ((Backend (Store c) !=s "postgres") || negb (IsConfigured (Audit c)))
             then Err EOutbox else Ok tt) in
  map_err EAudit (Validate (Audit c)).

Section load.
(** configutil.UnmarshalYAMLWithEnv into a Config. *)
Context (Unmarshal : string -> option Config).

Definition LoadFromBytes (data : string) : result cfg_error Config :=
  match Unmarshal data with
  | None => Err EParse
  | Some c => let c := applyDefaults c in let? _ := validate c in Ok c
  end.
End load.

(** ** What an accepted configuration guarantees *)

Definition names (rs : list RoleConfig) : gset string := list_to_set (map Name rs).

Definition permission_ok (p : PermissionConfig) : Prop := Resource p <> "" /\ Action p <> "".

(** A role among the roles before it. *)
Definition role_ok (before : gset string) (r : RoleConfig) : Prop :=
  Name r <> "" /\ (Name r ∉ before) /\
  (forall p, p ∈ Parents r -> p = Name r \/ p ∈ before) /\
  Forall permission_ok (Permissions r).

Definition roles_ok (before : gset string) (rs : list RoleConfig) : Prop :=
  forall i r, rs !! i = Some r -> role_ok (before ∪ names (firstn i rs)) r.

Definition bootstrap_ok (defined : gset string) (ba : BootstrapAssignment) : Prop :=
  ba_Subject ba <> "" /\ ba_Role ba <> "" /\ ba_Role ba ∈ defined /\ ba_ScopeType ba <> "".

Record valid (c : Config) : Prop := {
  v_tls : TLS_Validate (TLS c) = Ok tt;
  v_roles : roles_ok ∅ (Roles (Policy c));
  v_assignments : Assignments (Policy c) = [];
  v_service : Forall (fun r => r <> "" /\ r ∈ names (Roles (Policy c))) (ServiceAssignableRoles (Admin c));
  v_bootstrap : Forall (bootstrap_ok (names (Roles (Policy c)))) (BootstrapAssignments c);
  v_store : Backend (Store c) = "memory" \/ (Backend (Store c) = "postgres" /\ st_DSN (Store c) <> "");
  v_authn : an_Enabled (Authn c) = true ->
            (JWKSURL (Authn c) <> "" /\ an_PublicKeyFile (Authn c) = "") \/
            (JWKSURL (Authn c) = "" /\ an_PublicKeyFile (Authn c) <> "");
  v_outbox : AuditOutboxEnabled c = true ->
             Backend (Store c) = "postgres" /\ Forall (fun f => snd f <> "") (requiredFields (Audit c));
  v_audit : Forall (fun f => snd f = "") (requiredFields (Audit c)) \/
            Forall (fun f => snd f <> "") (requiredFields (Audit c)) }.

Lemma check_permission_ok i j p : check_permission i j p = Ok tt <-> permission_ok p.
Proof.
  unfold check_permission, permission_ok.
  destruct (eqb_cases (Resource p) "") as [[-> ?]|[-> ?]]; [iff_done|].
  destruct (eqb_cases (Action p) "") as [[-> ?]|[-> ?]]; iff_done.
Qed.

Lemma check_role_ok before i r out :
  check_role before i r = Ok out <-> role_ok before r /\ out = {[ Name r ]} ∪ before.
Proof.
  unfold check_role, role_ok. destruct (eqb_cases (Name r) "") as [[-> ?]|[-> ?]]; [iff_done|].
  destruct (decide (Name r ∈ before)); [iff_done|].
  set (fp := fun (_ : nat) p => if decide (p ∈ {[ Name r ]} ∪ before) then Ok tt else Err (EParent i p)).
  pose proof (loop_ok fp (fun p => p = Name r \/ p ∈ before) 0 (Parents r)) as Hp. rewrite Forall_forall in Hp.
  pose proof (loop_ok (check_permission i) permission_ok 0 (Permissions r) (check_permission_ok i)) as Hq.
  destruct (loop fp 0 (Parents r)) as [[]|e] eqn:Ep; cbn.
  - destruct (loop (check_permission i) 0 (Permissions r)) as [[]|e] eqn:Eq; cbn.
    + assert (forall p, p ∈ Parents r -> p = Name r \/ p ∈ before); [|naive_solver].
      apply Hp; [|done]. intros ? p. unfold fp. case_decide; set_solver.
    + split; [done|]. intros [(_ & _ & _ & Hperm) _]. by apply Hq in Hperm.
  - split; [done|]. intros [(_ & _ & Hpar & _) _]. apply Hp in Hpar; [done|].
    intros ? p. unfold fp. case_decide; set_solver.
Qed.

Lemma roles_ok_cons before r rs :
  roles_ok before (r :: rs) <-> role_ok before r /\ roles_ok ({[ Name r ]} ∪ before) rs.
Proof.
  assert (forall i, before ∪ names (firstn (S i) (r :: rs)) = ({[ Name r ]} ∪ before) ∪ names (firstn i rs)) as Heq
    by (intros i; unfold names; simpl; set_solver).
  unfold roles_ok. split.
  - intros H. split; [|intros i r' Hi; rewrite <- Heq; by apply (H (S i))].
    replace before with (before ∪ names (firstn 0 (r :: rs))) by (unfold names; simpl; set_solver). by apply H.
  - intros [Hr H] [|i] r' Hi; [|rewrite Heq; by apply H]. injection Hi as <-.
    by replace (before ∪ names (firstn 0 (r :: rs))) with before by (unfold names; simpl; set_solver).
Qed.

Lemma check_roles_ok before i rs out :
  check_roles before i rs = Ok out <-> roles_ok before rs /\ out = before ∪ names rs.
Proof.
  revert before i; induction rs as [|r rs IH]; intros before i; cbn [check_roles].
  - unfold names. cbn. split; [intros [= <-]; split; [intros j r; by rewrite lookup_nil|set_solver]|].
    intros [_ ->]. f_equal. set_solver.
  - rewrite roles_ok_cons. pose proof (check_role_ok before i r) as Hr.
    destruct (check_role before i r) as [b|e]; cbn.
    + destruct (proj1 (Hr b) eq_refl) as [Hok ->]. rewrite IH. unfold names. simpl.
      rewrite (assoc_L (∪) before), (comm_L (∪) before {[ Name r ]}). tauto.
    + split; [done|]. intros [[Hok _] _]. by pose proof (proj2 (Hr _) (conj Hok eq_refl)).
Qed.

Lemma check_service_role_ok names i r : check_service_role names i r = Ok tt <-> r <> "" /\ r ∈ names.
Proof.
  unfold check_service_role. destruct (eqb_cases r "") as [[-> ?]|[-> ?]]; [iff_done|]. case_decide; iff_done.
Qed.

Lemma check_bootstrap_ok names i b : check_bootstrap names i b = Ok tt <-> bootstrap_ok names b.
Proof.
  unfold check_bootstrap, bootstrap_ok. destruct (eqb_cases (ba_Subject b) "") as [[-> ?]|[-> ?]]; [iff_done|].
  destruct (eqb_cases (ba_Role b) "") as [[-> ?]|[-> ?]]; [iff_done|]. case_bool_decide; [|iff_done].
  destruct (eqb_cases (ba_ScopeType b) "") as [[-> ?]|[-> ?]]; iff_done.
Qed.

Lemma check_store_ok st :
  check_store st = Ok tt <-> Backend st = "memory" \/ (Backend st = "postgres" /\ st_DSN st <> "").
Proof.
  unfold check_store, oneof. cbn [existsb]. destruct (eqb_cases (Backend st) "memory") as [[-> H]|[-> ?]].
  { rewrite H. cbn. iff_done. by left. }
  destruct (eqb_cases (Backend st) "postgres") as [[-> ?]|[-> ?]]; cbn [negb orb andb]; [|iff_done; tauto].
  destruct (eqb_cases (st_DSN st) "") as [[-> ?]|[-> ?]]; iff_done; naive_solver.
Qed.

Lemma check_authn_ok an :
  check_authn an = Ok tt <->
  (an_Enabled an = true -> (JWKSURL an <> "" /\ an_PublicKeyFile an = "") \/ (JWKSURL an = "" /\ an_PublicKeyFile an <> "")).
Proof.
  unfold check_authn. destruct (an_Enabled an); [|done].
  destruct (eqb_cases (JWKSURL an) "") as [[-> ?]|[-> ?]]; destruct (eqb_cases (an_PublicKeyFile an) "") as [[-> ?]|[-> ?]];
    cbn [negb andb]; (split; [intros; simplify_eq; tauto|]); intros Ho; try done; specialize (Ho eq_refl); tauto.
Qed.

Lemma authz_validate_valid c : validate c = Ok tt <-> valid c.
Proof.
  unfold validate. rewrite then_ok, map_err_ok, bind_ok. setoid_rewrite check_roles_ok.
  repeat setoid_rewrite then_ok. setoid_rewrite map_err_ok.
  setoid_rewrite (fun n => loop_ok _ _ 0 (ServiceAssignableRoles (Admin c)) (check_service_role_ok n)).
  setoid_rewrite (fun n => loop_ok _ _ 0 (BootstrapAssignments c) (check_bootstrap_ok n)).
  setoid_rewrite check_store_ok. setoid_rewrite check_authn_ok. split.
  - intros (Ht & n & (Hr & ->) & Has & Hs & Hb & Hst & Han & Ho & Ha). rewrite (left_id_L ∅ (∪)) in *.
    pose proof (proj1 (outbox_ok _ _ _ _ Ha) Ho). apply service_auth_ok in Ha.
    constructor; try done. by destruct (Assignments (Policy c)).
  - intros []. split; [done|]. exists (∅ ∪ names (Roles (Policy c))). rewrite (left_id_L ∅ (∪)).
    assert (Validate (Audit c) = Ok tt) by (by apply service_auth_ok).
    split_and!; try done; [by rewrite v_assignments0|by apply (proj2 (outbox_ok _ _ _ _ H))].
Qed.

(** LoadFromBytes accepts exactly the documents whose configuration, with
    its defaults, is valid: unique named roles whose parents are defined by
    then, complete permissions, service-assignable and bootstrap roles that the
    policy defines, a known store (PostgreSQL with a DSN), one key source when
    inbound authentication is on, and the audit outbox only on PostgreSQL with a
    complete audit transport. *)
Theorem LoadFromBytes_exact Unmarshal data c :
  LoadFromBytes Unmarshal data = Ok c <->
  exists c0, Unmarshal data = Some c0 /\ c = applyDefaults c0 /\ valid c.
Proof.
  unfold LoadFromBytes. destruct (Unmarshal data) as [c0|]; [|by split; [|intros (? & ? & ?)]].
  rewrite then_ok, authz_validate_valid. split; [intros [? [= <-]]; by exists c0|].
  by intros (? & [= <-] & -> & ?).
Qed.

(** ** The role hierarchy *)

(** [p] is a parent of another role [r]. *)
Definition strict_parent (c : Config) (p r : string) : Prop :=
  exists rc, rc ∈ Roles (Policy c) /\ Name rc = r /\ p ∈ Parents rc /\ p <> r.

(** The place of a name in a list. *)
Fixpoint pos (x : string) (l : list string) : nat :=
  match l with [] => 0 | y :: l' => if decide (y = x) then 0 else S (pos x l') end.

Lemma pos_lt x l i : x ∈ firstn i l -> (pos x l < i)%nat.
Proof.
  revert i; induction l as [|y l IH]; intros [|i]; cbn [firstn pos]; try by intros ?%elem_of_nil.
  intros [->|Hx]%elem_of_cons; case_decide; try done; try lia. apply IH in Hx. lia.
Qed.

Lemma pos_eq x l i : l !! i = Some x -> (x ∉ firstn i l) -> pos x l = i.
Proof.
  revert i; induction l as [|y l IH]; intros [|i]; cbn [firstn pos]; [done..| |].
  - intros [= ->] _. by case_decide.
  - intros Hi Hn. case_decide; [subst; set_solver|]. f_equal. apply IH; set_solver.
Qed.

Lemma names_take i rs p : p ∈ names (firstn i rs) <-> p ∈ firstn i (map Name rs).
Proof. unfold names. by rewrite elem_of_list_to_set, firstn_map. Qed.

Lemma strict_parent_earlier c p r :
  valid c -> strict_parent c p r -> (pos p (map Name (Roles (Policy c))) < pos r (map Name (Roles (Policy c))))%nat.
Proof.
  intros Hv (rc & Hrc & <- & Hp & Hne). apply list_elem_of_lookup in Hrc as [i Hi].
  destruct (v_roles _ Hv i rc Hi) as (_ & Hfresh & Hpar & _).
  rewrite (pos_eq (Name rc) _ i); [|by rewrite list_lookup_fmap, Hi|rewrite <- names_take; set_solver].
  apply pos_lt, names_take. destruct (Hpar p Hp) as [|H]; [done|]. set_solver.
Qed.

(** C32. In an accepted configuration no role is its own ancestor through other
    roles: following parents upwards always ends. *)
Theorem role_hierarchy_well_founded Unmarshal data c :
  LoadFromBytes Unmarshal data = Ok c -> well_founded (strict_parent c).
Proof.
  unfold LoadFromBytes. destruct (Unmarshal data) as [c0|]; [|done]. rewrite then_ok, authz_validate_valid. intros [Hv [= <-]].
  eapply (wf_projected _ (fun r => pos r (map Name (Roles (Policy (applyDefaults c0)))))); [|exact lt_wf].
  intros p r Hpr. by apply strict_parent_earlier.
Qed.

Definition tls0 : TLSSection := {| CertFile := ""; KeyFile := ""; ClientCAFile := ""; MinVersion := "" |}.

(** A configuration with the given roles and nothing else. *)
Definition with_roles (rs : list RoleConfig) : Config :=
  MkConfig "" tls0 {| Enabled := false; LivenessPath := ""; ReadinessPath := "" |} {| Addr := "" |} (MkGRPC false)
    (MkAuthn false "" "" "" "" 0 "" 0 tls0) (MkStore "" "") (MkPolicy rs []) (MkAdmin false "" tls0 "" [] false [])
    (MkServiceAuth "" "" "" "" "" 0 "" "") false [].

Definition two_roles : list RoleConfig := [MkRole "viewer" "" [] []; MkRole "admin" "" ["viewer"] [MkPermission "*" "*"]].

Lemma role_hierarchy_witness : well_founded (strict_parent (applyDefaults (with_roles two_roles))).
Proof. refine (role_hierarchy_well_founded (fun _ => Some (with_roles two_roles)) "" _ _). reflexivity. Defined.

(** A role may name itself as its parent, which the rule that parents appear
    earlier rules out. *)
Lemma self_parent_accepted :
  LoadFromBytes (fun _ => Some (with_roles [MkRole "admin" "" ["admin"] []])) "" =
  Ok (applyDefaults (with_roles [MkRole "admin" "" ["admin"] []])).
Proof. reflexivity. Qed.
