(* ===== verification/YCloud.v ===== *)
(** * Cloud IAM tokens (src/ycloud/iam.go)

    The resolver's construction, the three exchanges and the cache with its
    shared refresh.  The file system, JSON, PEM and key parsing, signing, HTTP
    and the clock are the environment's.  Goroutines inside ResolveToken are a
    list of program counters; every region under the resolver's lock is one
    [action] and actions interleave in any order.  [singleflight.Group] is
    there by its contract: one execution of the function at a time, whose
    callers in the meantime wait for it and get its result. *)
From S2P Require Import Prelude GoStrings Secret.
Local Open Scope string_scope.
Local Open Scope Z_scope.

Record AuthConfig := MkAuthConfig {
  AuthMode : string; IAMToken : Secret.t; OAuthToken : Secret.t; SAKeyFile : string;
  AccessKeyID : Secret.t; SecretAccessKey : Secret.t }.

Inductive YErr :=
| NeedIAMToken | NeedOAuthToken | NeedSAKeyFile | BadAuthMode
| KeyRead | KeyParse | KeyNoID | KeyNoAccount | KeyNoKey | KeyPEM | KeyFormat | KeyNotRSA
| SignFailed | BuildFailed | HTTPFailed | BadStatus (code : Z) | DecodeFailed | CannotRefresh.

Section keys.
Context {Key : Type}.

Record IAMTokenResolver := MkResolver {
  authToken : string; expiry : Z; authMode : string; oauthToken : string; metadataURL : string;
  saID : string; saAccountID : string; saPrivKey : option Key }.

(** ** Service-account keys *)

Record SAKey := MkSAKey { ID : string; ServiceAccountID : string; PrivateKey : Key }.
Record saKeyJSON := MkSAKeyJSON { k_ID : string; k_ServiceAccountID : string; k_PrivateKey : string }.

Inductive pkcs8 := P8RSA (k : Key) | P8Other | P8Error.

Context (ReadFile : string -> option string).
Context (Unmarshal : string -> option saKeyJSON).
Context (pem_Decode : string -> option string).
Context (ParsePKCS8 : string -> pkcs8).
Context (ParsePKCS1 : string -> option Key).

Definition LoadSAKey (path : string) : result YErr SAKey :=
  match ReadFile path with
  | None => Err KeyRead
  | Some data =>
      match Unmarshal data with
      | None => Err KeyParse
      | Some k =>
          if k_ID k ==s "" then Err KeyNoID
          else if k_ServiceAccountID k ==s "" then Err KeyNoAccount
          else if k_PrivateKey k ==s "" then Err KeyNoKey
          else
            match pem_Decode (k_PrivateKey k) with
            | None => Err KeyPEM
            | Some der =>
                match ParsePKCS8 der with
                | P8Error =>
                    match ParsePKCS1 der with
                    | None => Err KeyFormat
                    | Some rsaKey => Ok (MkSAKey (k_ID k) (k_ServiceAccountID k) rsaKey)
                    end
                | P8Other => Err KeyNotRSA
                | P8RSA rsaKey => Ok (MkSAKey (k_ID k) (k_ServiceAccountID k) rsaKey)
                end
            end
      end
  end.

Definition default_metadataURL : string :=
  "http://169.254.169.254/computeMetadata/v1/instance/service-accounts/default/token".

Definition NewIAMTokenResolver (cfg : AuthConfig) : result YErr IAMTokenResolver :=
  let r tok id account key :=
    MkResolver tok 0 (AuthMode cfg) (Secret.Plaintext (OAuthToken cfg)) default_metadataURL id account key in
  if AuthMode cfg ==s "iam_token" then
    if Secret.IsEmpty (IAMToken cfg) then Err NeedIAMToken
    else Ok (r (Secret.Plaintext (IAMToken cfg)) "" "" None)
  else if AuthMode cfg ==s "oauth_token" then
    if Secret.IsEmpty (OAuthToken cfg) then Err NeedOAuthToken else Ok (r "" "" "" None)
  else if AuthMode cfg ==s "metadata" then Ok (r "" "" "" None)
  else if AuthMode cfg ==s "service_account" then
    if SAKeyFile cfg ==s "" then Err NeedSAKeyFile
    else let? k := LoadSAKey (SAKeyFile cfg) in Ok (r "" (ID k) (ServiceAccountID k) (Some (PrivateKey k)))
  else Err BadAuthMode.

(** ** The exchanges *)

(** A request: the payload is the JSON object sent, without its encoding. *)
Record request := MkRequest {
  method : string; url : string; header : gmap string string; payload : option (string * string) }.

(** How far an HTTP exchange got; [now] is the instant after it. *)
Inductive http (R : Type) :=
| HBuild | HTransport | HStatus (code : Z) (body : option R).
#[global] Arguments HBuild {R}.
#[global] Arguments HTransport {R}.
#[global] Arguments HStatus {R} _ _.

Record iamTokenResponse := MkIAMResponse { r_IAMToken : string; r_ExpiresAt : Z }.
Record metadataTokenResponse := MkMetaResponse { r_AccessToken : string; r_ExpiresIn : Z }.

Definition decoded {R} (x : http R) : result YErr R :=
  match x with
  | HBuild => Err BuildFailed
  | HTransport => Err HTTPFailed
  | HStatus code body =>
      if negb (code =? 200) then Err (BadStatus code)
      else match body with None => Err DecodeFailed | Some r => Ok r end
  end.

Definition iamEndpoint : string := "https://iam.api.cloud.yandex.net/iam/v1/tokens".

Definition iam_expiry (now : Z) (r : iamTokenResponse) : Z :=
  if IsZero (r_ExpiresAt r) then now + 11 * 60 * Minute else r_ExpiresAt r.

Definition oauth_request (r : IAMTokenResolver) : request :=
  MkRequest "POST" iamEndpoint {[ "Content-Type" := "application/json" ]}
    (Some ("yandexPassportOauthToken", oauthToken r)).

Definition exchangeOAuthToken (now : Z) (x : http iamTokenResponse) : result YErr (string * Z) :=
  let? res := decoded x in Ok (r_IAMToken res, iam_expiry now res).

Definition metadata_request (r : IAMTokenResolver) : request :=
  MkRequest "GET" (metadataURL r) {[ "Metadata-Flavor" := "Google" ]} None.

Definition fetchMetadataToken (now : Z) (x : http metadataTokenResponse) : result YErr (string * Z) :=
  let? res := decoded x in Ok (r_AccessToken res, now + wrap64 (r_ExpiresIn res * Second)).

Record sa_claims := MkSAClaims { c_kid : string; c_iss : string; c_aud : string; c_iat : Z; c_exp : Z }.

Definition mintSAJWT_claims (r : IAMTokenResolver) (now : Z) : sa_claims :=
  MkSAClaims (saID r) (saAccountID r) iamEndpoint now (now + 60 * Second).

Context (Sign : option Key -> sa_claims -> option string).

Definition sa_request (r : IAMTokenResolver) (now : Z) : result YErr request :=
  match Sign (saPrivKey r) (mintSAJWT_claims r now) with
  | None => Err SignFailed
  | Some jwt => Ok (MkRequest "POST" iamEndpoint {[ "Content-Type" := "application/json" ]} (Some ("jwt", jwt)))
  end.

Definition exchangeSAToken (r : IAMTokenResolver) (now later : Z) (x : http iamTokenResponse) : result YErr (string * Z) :=
  let? _ := sa_request r now in
  let? res := decoded x in Ok (r_IAMToken res, iam_expiry later res).

(** What the endpoints answer, whichever is asked. *)
Record answers := MkAnswers { iam : http iamTokenResponse; meta : http metadataTokenResponse }.

Definition exchange (r : IAMTokenResolver) (now later : Z) (x : answers) : result YErr (string * Z) :=
  if authMode r ==s "oauth_token" then exchangeOAuthToken later (iam x)
  else if authMode r ==s "metadata" then fetchMetadataToken later (meta x)
  else if authMode r ==s "service_account" then exchangeSAToken r now later (iam x)
  else Err CannotRefresh.

(** ** ResolveToken and refreshToken *)

Definition usable (r : IAMTokenResolver) (now : Z) : bool :=
  (authToken r !=s "") && Before (now + 30 * Second) (expiry r).

Abbreviation outcome := (result YErr string).

(** A goroutine in ResolveToken, with the instant of its call. *)
Inductive pc :=
| PRead (t0 : Z)                                    (** ResolveToken: look at the cache *)
| PQuick (t0 : Z)                                   (** refreshToken: look again *)
| PEnter (t0 : Z)                                   (** sf.Do *)
| PDouble (t0 : Z) (c : nat)                        (** leading: look once more *)
| PExchange (t0 : Z) (c : nat) (since : Z)          (** leading: the exchange, begun at [since] *)
| PStore (t0 : Z) (c : nat) (tok : string) (exp : Z)
| PPublish (t0 : Z) (c : nat) (res : outcome)       (** leading: the function returned *)
| PWait (t0 : Z) (c : nat)                          (** waiting for call [c] *)
| PDone (t0 : Z) (since : Z) (res : outcome).       (** [since]: t0, or the start of the call waited for *)

(** A refresh: when it began, its result, and when it ended if it has. *)
Record call := MkCall { began : Z; result_ : option outcome; ended : Z }.

Record Sys := MkSys {
  resolver : IAMTokenResolver; threads : list pc;
  calls : gmap nat call; inflight : option nat; next : nat; clock : Z;
  issued : list (string * Z * Z) (** ghost: tokens obtained, expiry, instant *) }.

Definition start (r : IAMTokenResolver) (now : Z) : Sys := MkSys r [] ∅ None 0 now [].

Inductive action :=
| Call | Read (t : nat) | Quick (t : nat) | Enter (t : nat) | Double (t : nat)
| Exchange (t : nat) (x : answers) | StoreA (t : nat) | Publish (t : nat) | Wake (t : nat).

Definition set_pc (t : nat) (p : pc) (s : Sys) : Sys :=
  MkSys (resolver s) (<[t := p]> (threads s)) (calls s) (inflight s) (next s) (clock s) (issued s).

(** One action at the instant of the clock. *)
Definition act (a : action) (s : Sys) : option Sys :=
  let now := clock s in
  let r := resolver s in
  match a with
  | Call => Some (MkSys r (threads s ++ [PRead now])%list (calls s) (inflight s) (next s) now (issued s))
  | Read t =>
      match threads s !! t with
      | Some (PRead t0) =>
          Some (if (authMode r ==s "iam_token") || usable r now
                then set_pc t (PDone t0 t0 (Ok (authToken r))) s else set_pc t (PQuick t0) s)
      | _ => None
      end
  | Quick t =>
      match threads s !! t with
      | Some (PQuick t0) =>
          Some (if usable r now then set_pc t (PDone t0 t0 (Ok (authToken r))) s else set_pc t (PEnter t0) s)
      | _ => None
      end
  | Enter t =>
      match threads s !! t with
      | Some (PEnter t0) =>
          Some match inflight s with
               | Some c => set_pc t (PWait t0 c) s
               | None =>
                   set_pc t (PDouble t0 (next s))
                     (MkSys r (threads s) (<[next s := MkCall now None now]> (calls s)) (Some (next s)) (S (next s)) now (issued s))
               end
      | _ => None
      end
  | Double t =>
      match threads s !! t with
      | Some (PDouble t0 c) =>
          Some (if usable r now then set_pc t (PPublish t0 c (Ok (authToken r))) s else set_pc t (PExchange t0 c now) s)
      | _ => None
      end
  | Exchange t x =>
      match threads s !! t with
      | Some (PExchange t0 c since) =>
          Some match exchange r since now x with
               | Err e => set_pc t (PPublish t0 c (Err e)) s
               | Ok (tok, exp) =>
                   set_pc t (PStore t0 c tok exp)
                     (MkSys r (threads s) (calls s) (inflight s) (next s) now ((tok, exp, now) :: issued s))
               end
      | _ => None
      end
  | StoreA t =>
      match threads s !! t with
      | Some (PStore t0 c tok exp) =>
          let r' := MkResolver tok exp (authMode r) (oauthToken r) (metadataURL r) (saID r) (saAccountID r) (saPrivKey r) in
          Some (set_pc t (PPublish t0 c (Ok tok))
                  (MkSys r' (threads s) (calls s) (inflight s) (next s) now (issued s)))
      | _ => None
      end
  | Publish t =>
      match threads s !! t with
      | Some (PPublish t0 c res) =>
          match calls s !! c with
          | Some cl => Some (set_pc t (PDone t0 t0 res)
                 (MkSys r (threads s) (<[c := MkCall (began cl) (Some res) now]> (calls s)) None (next s) now (issued s)))
          | None => None
          end
      | _ => None
      end
  | Wake t =>
      match threads s !! t with
      | Some (PWait t0 c) =>
          match calls s !! c with
          | Some (MkCall b (Some res) _) => Some (set_pc t (PDone t0 b res) s)
          | _ => None
          end
      | _ => None
      end
  end.

(** Time passes between actions and never goes back. *)
Definition tick (now : Z) (s : Sys) : option Sys :=
  if now <? clock s then None
  else Some (MkSys (resolver s) (threads s) (calls s) (inflight s) (next s) now (issued s)).

Fixpoint run (l : list (Z * action)) (s : Sys) : option Sys :=
  match l with
  | [] => Some s
  | (now, a) :: l' => s1 ← tick now s; s2 ← act a s1; run l' s2
  end.

(** ** Leadership: one exchange at a time *)

Definition lead (p : pc) : option nat :=
  match p with
  | PDouble _ c | PExchange _ c _ | PStore _ c _ _ | PPublish _ c _ => Some c
  | _ => None
  end.

Record leadership (s : Sys) : Prop := {
  l_lead : forall t p c, threads s !! t = Some p -> lead p = Some c -> inflight s = Some c;
  l_uniq : forall t t' p p', threads s !! t = Some p -> threads s !! t' = Some p' ->
             is_Some (lead p) -> is_Some (lead p') -> t = t';
  l_owner : forall c, inflight s = Some c ->
              is_Some (calls s !! c) /\ exists t p, threads s !! t = Some p /\ lead p = Some c;
  l_pending : forall c b e, calls s !! c = Some (MkCall b None e) -> inflight s = Some c;
  l_wait : forall t t0 c, threads s !! t = Some (PWait t0 c) -> is_Some (calls s !! c);
  l_next : forall c, is_Some (calls s !! c) -> (c < next s)%nat }.

(** The thread [t] moves on from [p] to [p']. *)
Lemma lookup_set_pc (l : list pc) t p p' t' q :
  l !! t = Some p -> <[t := p']> l !! t' = Some q -> (t' = t /\ q = p') \/ (t' <> t /\ l !! t' = Some q).
Proof.
  intros Ht. destruct (decide (t = t')) as [<-|Hne].
  - rewrite list_lookup_insert_eq by (by eapply lookup_lt_Some). intros [= <-]. by left.
  - rewrite list_lookup_insert_ne by done. by right.
Qed.

Lemma lookup_set_pc_eq (l : list pc) t p p' : l !! t = Some p -> <[t := p']> l !! t = Some p'.
Proof. intros Ht. by rewrite list_lookup_insert_eq by (by eapply lookup_lt_Some). Qed.

(** A move that keeps the lead, the calls and who is in flight. *)
Lemma leadership_move s s' t p p' :
  leadership s -> threads s !! t = Some p -> lead p' = lead p ->
  (forall t0 c, p' = PWait t0 c -> is_Some (calls s !! c)) ->
  threads s' = <[t := p']> (threads s) -> calls s' = calls s -> inflight s' = inflight s -> next s' = next s ->
  leadership s'.
Proof.
  intros [L1 L2 L3 L4 L5 L6] Ht Hl Hw Hth Hc Hi Hn.
  assert (forall t' q, threads s' !! t' = Some q -> exists q0, threads s !! t' = Some q0 /\ lead q = lead q0) as Hold.
  { intros t' q. rewrite Hth. intros [[-> ->]|[_ Hq]]%(lookup_set_pc _ _ _ _ _ _ Ht); eauto. }
  constructor; rewrite ?Hc, ?Hi, ?Hn.
  - intros t' q c (q0 & Hq & ->)%Hold. eauto.
  - intros t1 t2 q1 q2 (r1 & H1 & ->)%Hold (r2 & H2 & ->)%Hold. eauto.
  - intros c Hin. destruct (L3 c Hin) as (Hs & t' & q & Hq & Hlq). split; [done|].
    destruct (decide (t' = t)) as [->|Hne].
    + exists t, p'. rewrite Hth, (lookup_set_pc_eq _ _ _ _ Ht). split; congruence.
    + exists t', q. rewrite Hth, list_lookup_insert_ne by done. done.
  - done.
  - intros t' t0 c. rewrite Hth. intros [[-> <-]|[_ Hq]]%(lookup_set_pc _ _ _ _ _ _ Ht); eauto.
  - done.
Qed.

(** Entering when nothing is in flight. *)
Lemma leadership_enter s t t0 :
  leadership s -> threads s !! t = Some (PEnter t0) -> inflight s = None ->
  leadership (set_pc t (PDouble t0 (next s))
    (MkSys (resolver s) (threads s) (<[next s := MkCall (clock s) None (clock s)]> (calls s)) (Some (next s)) (S (next s)) (clock s) (issued s))).
Proof.
  intros [L1 L2 L3 L4 L5 L6] Ht Hin. constructor; cbn.
  - intros t' q c Hq Hl. apply (lookup_set_pc _ _ _ _ _ _ Ht) in Hq as [[-> ->]|[_ Hq]]; [done|].
    specialize (L1 _ _ _ Hq Hl). congruence.
  - intros t1 t2 q1 q2 H1 H2 [c1 Hc1] [c2 Hc2].
    apply (lookup_set_pc _ _ _ _ _ _ Ht) in H1 as [[-> ->]|[_ H1]]; [|specialize (L1 _ _ _ H1 Hc1); congruence].
    apply (lookup_set_pc _ _ _ _ _ _ Ht) in H2 as [[-> ->]|[_ H2]]; [done|specialize (L1 _ _ _ H2 Hc2); congruence].
  - intros c [= <-]. rewrite lookup_insert_eq. split; [by eexists|]. exists t, (PDouble t0 (next s)).
    by rewrite (lookup_set_pc_eq _ _ _ _ Ht).
  - intros c b e. rewrite lookup_insert_Some. intros [[-> _]|[_ Hc]]; [done|]. specialize (L4 _ _ _ Hc). congruence.
  - intros t' t1 c Hq. apply (lookup_set_pc _ _ _ _ _ _ Ht) in Hq as [[_ ?]|[_ Hq]]; [done|].
    destruct (decide (c = next s)) as [->|]; [by rewrite lookup_insert_eq|]. rewrite lookup_insert_ne by done. eauto.
  - intros c. destruct (decide (c = next s)) as [->|]; [lia|]. rewrite lookup_insert_ne by done. intros ?%L6. lia.
Qed.

(** The function returned: its call is complete and nothing is in flight. *)
Lemma leadership_publish s t t0 c cl res :
  leadership s -> threads s !! t = Some (PPublish t0 c res) -> calls s !! c = Some cl ->
  leadership (set_pc t (PDone t0 t0 res)
    (MkSys (resolver s) (threads s) (<[c := MkCall (began cl) (Some res) (clock s)]> (calls s)) None (next s) (clock s) (issued s))).
Proof.
  intros [L1 L2 L3 L4 L5 L6] Ht Hcl. pose proof (L1 _ _ _ Ht eq_refl) as Hin.
  assert (forall t' q, <[t := PDone t0 t0 res]> (threads s) !! t' = Some q -> lead q = None) as Hnone.
  { intros t' q [[_ ->]|[Hne Hq]]%(lookup_set_pc _ _ _ _ _ _ Ht); [done|]. destruct (lead q) as [c'|] eqn:Hl; [|done].
    by pose proof (L2 _ _ _ _ Hq Ht (ex_intro _ _ Hl) (ex_intro _ _ eq_refl)). }
  assert (forall c', is_Some (calls s !! c') -> is_Some (<[c := MkCall (began cl) (Some res) (clock s)]> (calls s) !! c')) as Hkeep.
  { intros c' Hc'. destruct (decide (c' = c)) as [->|]; [by rewrite lookup_insert_eq|by rewrite lookup_insert_ne]. }
  constructor; cbn.
  - intros t' q c' Hq. by rewrite (Hnone _ _ Hq).
  - intros t1 t2 q1 q2 H1 _ H. rewrite (Hnone _ _ H1) in H. by destruct H.
  - done.
  - intros c' b e. rewrite lookup_insert_Some. intros [[_ ?]|[Hne Hc']]; [done|]. specialize (L4 _ _ _ Hc'). congruence.
  - intros t' t1 c' Hq. apply (lookup_set_pc _ _ _ _ _ _ Ht) in Hq as [[_ ?]|[_ Hq]]; [done|]. eauto.
  - intros c'. destruct (decide (c' = c)) as [->|]; [intros _; apply L6; eauto|]. rewrite lookup_insert_ne by done. apply L6.
Qed.

Ltac move_on L := eapply (leadership_move _ _ _ _ _ L); [eassumption| | |reflexivity..]; [reflexivity|intros; discriminate].

Lemma leadership_act a s s' : leadership s -> act a s = Some s' -> leadership s'.
Proof.
  intros L H. destruct a as [|t|t|t|t|t x|t|t|t]; cbn [act] in H.
  { injection H as <-. destruct L as [L1 L2 L3 L4 L5 L6].
    assert (forall t' q, (threads s ++ [PRead (clock s)])%list !! t' = Some q ->
              threads s !! t' = Some q \/ q = PRead (clock s)) as Hold.
    { intros t' q [Hq|[_ Hq]]%lookup_app_Some; [by left|right]. by apply list_lookup_singleton_Some in Hq as [_ <-]. }
    constructor; cbn.
    - intros t' q c [Hq| ->]%Hold Hl; [eauto|done].
    - intros t1 t2 q1 q2 [H1| ->]%Hold [H2| ->]%Hold Hl1 Hl2; eauto;
        first [by destruct Hl1 as [? [=]]|by destruct Hl2 as [? [=]]].
    - intros c Hc. destruct (L3 c Hc) as (Hs & t & q & Hq & Hlq). split; [done|]. exists t, q.
      by rewrite (lookup_app_l_Some _ _ _ _ Hq).
    - done.
    - intros t' t0 c [Hq|Hq]%Hold; [eauto|done].
    - done. }
  all: destruct (threads s !! t) as [p|] eqn:Ht; [|done]; destruct p; try done.
  - injection H as <-. destruct (_ || _); move_on L.
  - injection H as <-. destruct (usable _ _); move_on L.
  - injection H as <-. destruct (inflight s) as [c|] eqn:Hin; [|by apply leadership_enter].
    eapply (leadership_move _ _ _ _ _ L Ht); [| |reflexivity..]; [done|]. intros ?? [= <- <-]. by apply (l_owner _ L).
  - injection H as <-. destruct (usable _ _); move_on L.
  - injection H as <-. destruct (exchange _ _ _ x) as [[tok exp]|e]; move_on L.
  - injection H as <-. move_on L.
  - destruct (calls s !! c) as [cl|] eqn:Hc; [|done]. injection H as <-. by apply leadership_publish.
  - destruct (calls s !! c) as [[b [res|] e]|] eqn:Hc; try done. injection H as <-. move_on L.
Qed.

(** ** Where the tokens come from *)

(** [tok] was obtained by an exchange, and at or after [since] either obtained
    or found to have more than 30 seconds left. *)
Definition vouched (iss : list (string * Z * Z)) (since : Z) (tok : string) : Prop :=
  exists exp at_, (tok, exp, at_) ∈ iss /\ (since <= at_ \/ exists w, since <= w /\ w + 30 * Second < exp).

Lemma vouched_mono iss iss' since since' tok :
  (forall x, x ∈ iss -> x ∈ iss') -> since' <= since -> vouched iss since tok -> vouched iss' since' tok.
Proof.
  intros Hi Hs (exp & at_ & Hin & Hor). exists exp, at_. split; [by apply Hi|].
  destruct Hor as [|(w & ? & ?)]; [left; lia|right; exists w; lia].
Qed.

(** What the program counter of a thread promises. *)
Definition pc_ok (s : Sys) (p : pc) : Prop :=
  match p with
  | PRead t0 | PQuick t0 | PEnter t0 | PWait t0 _ => t0 <= clock s
  | PDouble t0 c | PExchange t0 c _ => forall cl, calls s !! c = Some cl -> t0 <= began cl <= clock s
  | PStore t0 c tok exp =>
      forall cl, calls s !! c = Some cl -> t0 <= began cl /\ exists at_, (tok, exp, at_) ∈ issued s /\ began cl <= at_
  | PPublish t0 c res =>
      forall cl, calls s !! c = Some cl -> t0 <= began cl /\ forall tok, res = Ok tok -> vouched (issued s) (began cl) tok
  | PDone t0 since res =>
      (since = t0 \/ exists c cl, calls s !! c = Some cl /\ began cl = since) /\
      forall tok, res = Ok tok -> vouched (issued s) since tok
  end.

Record provenance (s : Sys) : Prop := {
  p_mode : authMode (resolver s) <> "iam_token";
  p_cache : authToken (resolver s) = "" \/
            exists at_, (authToken (resolver s), expiry (resolver s), at_) ∈ issued s;
  p_calls : forall c b tok e, calls s !! c = Some (MkCall b (Some (Ok tok)) e) -> vouched (issued s) b tok;
  p_threads : forall t p, threads s !! t = Some p -> pc_ok s p }.

Lemma usable_vouched s since :
  provenance s -> usable (resolver s) (clock s) = true -> since <= clock s ->
  vouched (issued s) since (authToken (resolver s)).
Proof.
  intros Hp Hu Hs. unfold usable, Before in Hu. apply andb_true_iff in Hu as [Hne Hlt].
  destruct (p_cache _ Hp) as [He|(at_ & Hin)]; [by rewrite He in Hne|].
  exists (expiry (resolver s)), at_. split; [done|]. right. exists (clock s). apply Z.ltb_lt in Hlt. lia.
Qed.

Definition cache_ok (s : Sys) : Prop :=
  authToken (resolver s) = "" \/ exists at_, (authToken (resolver s), expiry (resolver s), at_) ∈ issued s.

(** A move of one thread that adds to what was issued, and touches only calls
    that no other thread leads. *)
Lemma provenance_move s s' t p p' :
  provenance s -> threads s !! t = Some p -> threads s' = <[t := p']> (threads s) ->
  pc_ok s' p' -> authMode (resolver s') = authMode (resolver s) -> cache_ok s' ->
  (forall c cl, calls s' !! c = Some cl ->
     calls s !! c = Some cl \/
     ((forall b tok e, cl = MkCall b (Some (Ok tok)) e -> vouched (issued s') b tok) /\
      forall t' q, t' <> t -> threads s !! t' = Some q -> lead q <> Some c)) ->
  (forall c cl, calls s !! c = Some cl -> exists cl', calls s' !! c = Some cl' /\ began cl' = began cl) ->
  clock s' = clock s -> (forall x, x ∈ issued s -> x ∈ issued s') -> provenance s'.
Proof.
  intros [P1 P2 P3 P4] Ht Hth Hok Hr Hca Hc Hkeep Hk Hi. constructor; [congruence|done|..].
  - intros c b tok e [Hold|[Hv _]]%Hc; [|by eapply Hv]. eapply vouched_mono; [exact Hi|reflexivity|eauto].
  - intros t' q. rewrite Hth. intros [[_ ->]|[Hne Hq]]%(lookup_set_pc _ _ _ _ _ _ Ht); [done|].
    assert (forall c cl, lead q = Some c -> calls s' !! c = Some cl -> calls s !! c = Some cl) as Hcl.
    { intros c cl Hl [|[_ Hn]]%Hc; [done|]. by destruct (Hn _ _ Hne Hq). }
    pose proof (P4 _ _ Hq) as Hpc. destruct q; cbn in *; rewrite ?Hk; try done.
    + intros cl ?%Hcl; eauto.
    + intros cl ?%Hcl; eauto.
    + intros cl H%Hcl; [|done]. destruct (Hpc _ H) as (? & at_ & ? & ?). eauto.
    + intros cl H%Hcl; [|done]. destruct (Hpc _ H) as (? & Hv). split; [done|].
      intros tok ->. eapply vouched_mono; [exact Hi|reflexivity|eauto].
    + destruct Hpc as [Hs Hv]. split; [|intros tok ->; eapply vouched_mono; [exact Hi|reflexivity|eauto]].
      destruct Hs as [->|(c & cl & H & <-)]; [by left|right]. destruct (Hkeep _ _ H) as (cl' & ? & ?). eauto.
Qed.

(** The common case: cache, calls and history as they were. *)
Lemma provenance_set s t p p' :
  provenance s -> threads s !! t = Some p -> pc_ok s p' -> provenance (set_pc t p' s).
Proof. intros Hp Ht Hok. eapply provenance_move; [done|done|reflexivity|destruct p'; exact Hok|done|apply Hp|by left|by eauto|done|done]. Qed.

Lemma provenance_act a s s' : leadership s -> provenance s -> act a s = Some s' -> provenance s'.
Proof.
  intros L P H. pose proof (p_threads _ P) as Hth. destruct a as [|t|t|t|t|t x|t|t|t]; cbn [act] in H.
  { injection H as <-. destruct P as [P1 P2 P3 P4]. constructor; [done..|].
    intros t q [Hq|[_ Hq]]%lookup_app_Some; cbn in *; [by specialize (P4 _ _ Hq); destruct q|].
    apply list_lookup_singleton_Some in Hq as [_ <-]. by cbn. }
  all: destruct (threads s !! t) as [p|] eqn:Ht; [|done]; specialize (Hth _ _ Ht); destruct p; try done; cbn in Hth.
  - injection H as <-. rewrite (proj2 (String.eqb_neq _ _) (p_mode _ P)). cbn [orb].
    destruct (usable _ _) eqn:Hu; (eapply provenance_set; [done|done|]); [|done].
    split; [by left|]. intros tok [= <-]. by apply usable_vouched.
  - injection H as <-. destruct (usable _ _) eqn:Hu; (eapply provenance_set; [done|done|]); [|done].
    split; [by left|]. intros tok [= <-]. by apply usable_vouched.
  - injection H as <-. destruct (inflight s) as [c|] eqn:Hin; [by eapply provenance_set|].
    eapply provenance_move; [done|done|reflexivity| |done|apply P| | |done|done]; cbn.
    + intros cl. rewrite lookup_insert_eq. intros [= <-]. cbn. lia.
    + intros c cl. rewrite lookup_insert_Some. intros [[<- <-]|[_ ?]]; [right|by left]. split; [done|].
      intros t' q _ Hq Hl. pose proof (l_lead _ L _ _ _ Hq Hl). congruence.
    + intros c cl Hc. exists cl. rewrite lookup_insert_ne; [done|]. intros <-. pose proof (l_next _ L (next s) (ex_intro _ _ Hc)). lia.
  - injection H as <-. destruct (usable _ _) eqn:Hu; (eapply provenance_set; [done|done|]); [|done].
    intros cl Hcl. destruct (Hth _ Hcl). split; [done|]. intros tok [= <-]. by apply usable_vouched.
  - injection H as <-. destruct (exchange _ _ _ x) as [[tok exp]|e].
    + eapply provenance_move; [done|done|reflexivity| |done| |by left|by eauto|done|set_solver]; cbn.
      * intros cl Hcl. destruct (Hth _ Hcl). split; [done|]. exists (clock s). split; [set_solver|done].
      * destruct (p_cache _ P) as [|[at_ ?]]; [by left|right]. exists at_. cbn. set_solver.
    + eapply provenance_set; [done|done|]. intros cl Hcl. destruct (Hth _ Hcl). split; [done|by intros].
  - injection H as <-. destruct (l_owner _ L c (l_lead _ L _ _ _ Ht eq_refl)) as [[cl Hcl] _].
    destruct (Hth _ Hcl) as (Hle & at_ & Hiss & Hat).
    eapply provenance_move; [done|done|reflexivity| |done| |by left|by eauto|done|done]; cbn.
    + intros cl' Hcl'. replace cl' with cl by congruence. split; [done|]. intros tok' [= <-]. exists exp, at_. auto.
    + right. by exists at_.
  - destruct (calls s !! c) as [cl|] eqn:Hcl; [|done]. injection H as <-. destruct (Hth _ eq_refl) as [Hle Hv].
    eapply provenance_move; [done|done|reflexivity| |done|apply P| | |done|done]; cbn.
    + split; [by left|]. intros tok Hr. eapply vouched_mono; [|exact Hle|by apply Hv]. done.
    + intros c' cl'. rewrite lookup_insert_Some. intros [[<- <-]|[_ ?]]; [right|by left].
      split; [intros b tok e [= <- -> _]; by apply Hv|]. intros t' q Hne Hq Hl.
      by pose proof (l_uniq _ L _ _ _ _ Hq Ht (ex_intro _ _ Hl) (ex_intro _ _ eq_refl)).
    + intros c' cl' Hc'. destruct (decide (c' = c)) as [->|]; [|exists cl'; by rewrite lookup_insert_ne].
      eexists. rewrite lookup_insert_eq. split; [done|]. cbn. congruence.
  - destruct (calls s !! c) as [[b [res|] e]|] eqn:Hc; try done. injection H as <-.
    eapply provenance_set; [done|done|]. split; [right; by eexists _, _|]. intros tok ->. by apply (p_calls _ P c _ _ e).
Qed.

(** Which refresh a result comes from: a refresh that has not ended is the one in
    flight; who waits asked before its refresh ended; and who is done without
    leading got the result of a refresh that ended after the question. *)
Record joined (s : Sys) : Prop := {
  j_open : forall c cl, inflight s = Some c -> calls s !! c = Some cl -> result_ cl = None;
  j_wait : forall t t0 c cl, threads s !! t = Some (PWait t0 c) -> calls s !! c = Some cl ->
             is_Some (result_ cl) -> t0 <= ended cl;
  j_done : forall t t0 since res, threads s !! t = Some (PDone t0 since res) ->
             since = t0 \/ exists c cl, calls s !! c = Some cl /\ began cl = since /\ result_ cl = Some res /\ t0 <= ended cl }.

(** A move that leaves the refreshes alone. *)
Lemma joined_move s s' t p p' :
  joined s -> threads s !! t = Some p -> threads s' = <[t := p']> (threads s) ->
  calls s' = calls s -> inflight s' = inflight s ->
  (forall t0 c cl, p' = PWait t0 c -> calls s !! c = Some cl -> is_Some (result_ cl) -> t0 <= ended cl) ->
  (forall t0 since res, p' = PDone t0 since res ->
     since = t0 \/ exists c cl, calls s !! c = Some cl /\ began cl = since /\ result_ cl = Some res /\ t0 <= ended cl) ->
  joined s'.
Proof.
  intros [J1 J2 J3] Ht Hth Hc Hi Hw Hd. constructor; rewrite ?Hc, ?Hi; [done|..].
  - intros t' t0 c cl. rewrite Hth. intros [[_ <-]|[_ Hq]]%(lookup_set_pc _ _ _ _ _ _ Ht); eauto.
  - intros t' t0 since res. rewrite Hth. intros [[_ <-]|[_ Hq]]%(lookup_set_pc _ _ _ _ _ _ Ht); eauto.
Qed.

Ltac stay J := eapply (joined_move _ _ _ _ _ J); [eassumption|reflexivity..| |]; intros; by simplify_eq; left.

Lemma joined_enter s t t0 :
  leadership s -> joined s -> threads s !! t = Some (PEnter t0) -> inflight s = None ->
  joined (set_pc t (PDouble t0 (next s))
    (MkSys (resolver s) (threads s) (<[next s := MkCall (clock s) None (clock s)]> (calls s)) (Some (next s)) (S (next s)) (clock s) (issued s))).
Proof.
  intros L [J1 J2 J3] Ht Hin.
  assert (forall c cl, calls s !! c = Some cl -> c <> next s) as Hne.
  { intros c cl Hc ->. pose proof (l_next _ L _ (ex_intro _ _ Hc)). lia. }
  constructor; cbn.
  - intros c cl [= <-]. rewrite lookup_insert_eq. by intros [= <-].
  - intros t' t1 c cl [[_ ?]|[_ Hq]]%(lookup_set_pc _ _ _ _ _ _ Ht); [done|].
    rewrite lookup_insert_Some. intros [[_ <-]|[_ Hc]]; [by intros [? ?]|eauto].
  - intros t' t1 since res [[_ ?]|[_ Hq]]%(lookup_set_pc _ _ _ _ _ _ Ht); [done|].
    destruct (J3 _ _ _ _ Hq) as [?|(c & cl & Hc & ?)]; [by left|right]. exists c, cl.
    rewrite lookup_insert_ne; [done|]. symmetry. by eapply Hne.
Qed.

Lemma joined_publish s t t0 c cl res :
  leadership s -> provenance s -> joined s -> threads s !! t = Some (PPublish t0 c res) -> calls s !! c = Some cl ->
  joined (set_pc t (PDone t0 t0 res)
    (MkSys (resolver s) (threads s) (<[c := MkCall (began cl) (Some res) (clock s)]> (calls s)) None (next s) (clock s) (issued s))).
Proof.
  intros L P [J1 J2 J3] Ht Hcl. pose proof (J1 _ _ (l_lead _ L _ _ _ Ht eq_refl) Hcl) as Hopen.
  constructor; cbn; [done|..].
  - intros t' t1 c' cl' [[_ ?]|[_ Hq]]%(lookup_set_pc _ _ _ _ _ _ Ht); [done|].
    rewrite lookup_insert_Some. intros [[<- <-]|[_ Hc]]; [|eauto]. intros _. cbn. by apply (p_threads _ P _ _ Hq).
  - intros t' t1 since res' [[_ [= -> -> ->]]|[_ Hq]]%(lookup_set_pc _ _ _ _ _ _ Ht); [by left|].
    destruct (J3 _ _ _ _ Hq) as [?|(c' & cl' & Hc & ? & Hr & ?)]; [by left|right]. exists c', cl'.
    rewrite lookup_insert_ne; [done|]. intros ->. congruence.
Qed.

Lemma joined_act a s s' : leadership s -> provenance s -> joined s -> act a s = Some s' -> joined s'.
Proof.
  intros L P J H. destruct a as [|t|t|t|t|t x|t|t|t]; cbn [act] in H.
  { injection H as <-. destruct J as [J1 J2 J3].
    assert (forall t' q, (threads s ++ [PRead (clock s)])%list !! t' = Some q ->
              threads s !! t' = Some q \/ q = PRead (clock s)) as Hold.
    { intros t' q [Hq|[_ Hq]]%lookup_app_Some; [by left|right]. by apply list_lookup_singleton_Some in Hq as [_ <-]. }
    constructor; cbn; [done|..].
    - intros t t0 c cl [Hq|Hq]%Hold; [eauto|done].
    - intros t t0 since res [Hq|Hq]%Hold; [eauto|done]. }
  all: destruct (threads s !! t) as [p|] eqn:Ht; [|done]; destruct p; try done.
  - injection H as <-. destruct (_ || _); stay J.
  - injection H as <-. destruct (usable _ _); stay J.
  - injection H as <-. destruct (inflight s) as [c|] eqn:Hin; [|by apply joined_enter].
    eapply (joined_move _ _ _ _ _ J Ht); [reflexivity..| |done]. intros t1 c' cl [= <- <-] Hc Hr.
    rewrite (j_open _ J _ _ Hin Hc) in Hr. by destruct Hr.
  - injection H as <-. destruct (usable _ _); stay J.
  - injection H as <-. destruct (exchange _ _ _ x) as [[tok exp]|e]; stay J.
  - injection H as <-. stay J.
  - destruct (calls s !! c) as [cl|] eqn:Hc; [|done]. injection H as <-. by apply joined_publish.
  - destruct (calls s !! c) as [[b [res|] e]|] eqn:Hc; try done. injection H as <-.
    eapply (joined_move _ _ _ _ _ J Ht); [reflexivity..|done|]. intros t1 since res' [= <- <- <-]. right.
    exists c, (MkCall b (Some res) e). split_and!; try done. by apply (j_wait _ J _ _ _ _ Ht Hc).
Qed.

Definition inv (s : Sys) : Prop := leadership s /\ provenance s /\ joined s.

Lemma inv_tick now s s' : inv s -> tick now s = Some s' -> inv s'.
Proof.
  unfold tick. destruct (Z.ltb_spec now (clock s)); [done|]. intros ([] & [P1 P2 P3 P4] & []) [= <-].
  split; [by constructor|]. split; [|by constructor]. constructor; cbn; [done..|]. intros t p Hp. specialize (P4 _ _ Hp).
  destruct p; cbn in *; try lia; try done; intros cl Hcl; specialize (P4 _ Hcl); lia.
Qed.

Lemma inv_run l s s' : inv s -> run l s = Some s' -> inv s'.
Proof.
  revert s; induction l as [|[now a] l IH]; intros s Hi; cbn [run]; [by intros [= <-]|].
  destruct (tick now s) as [s1|] eqn:Ht; [|done]. cbn. destruct (act a s1) as [s2|] eqn:Ha; [|done]. cbn.
  apply IH. pose proof (inv_tick _ _ _ Hi Ht) as (L & P & J).
  split_and!; [by eapply leadership_act|by eapply provenance_act|by eapply joined_act].
Qed.

Lemma inv_start r now : authToken r = "" -> authMode r <> "iam_token" -> inv (start r now).
Proof.
  intros Hr Hm. split_and!; constructor; cbn; try done; try (by intros; rewrite ?lookup_nil, ?lookup_empty in * );
    try (by left); intros c; rewrite lookup_empty; by intros [].
Qed.

Lemma New_start cfg r :
  NewIAMTokenResolver cfg = Ok r -> AuthMode cfg <> "iam_token" -> authToken r = "" /\ authMode r <> "iam_token".
Proof.
  unfold NewIAMTokenResolver. intros H Hm. rewrite (proj2 (String.eqb_neq _ _) Hm) in H.
  repeat (case_match; try done); by injection H as <-.
Qed.

(** C17. In every mode but iam_token (which returns the configured token), whatever
    callers of ResolveToken and exchanges do: a token that a caller gets came from
    an exchange, and was obtained, or had more than 30 seconds left, at or after
    some instant [since].  That instant is the caller's own question, or the
    beginning of a refresh that was still running when the caller asked, whose
    result is that very token. *)
Theorem token_provenance cfg r now l s t t0 since tok :
  NewIAMTokenResolver cfg = Ok r -> AuthMode cfg <> "iam_token" ->
  run l (start r now) = Some s -> threads s !! t = Some (PDone t0 since (Ok tok)) ->
  vouched (issued s) since tok /\
  (since = t0 \/
   exists c cl, calls s !! c = Some cl /\ began cl = since /\ result_ cl = Some (Ok tok) /\ t0 <= ended cl).
Proof.
  intros Hn Hm Hr Ht. destruct (New_start _ _ Hn Hm) as [Ha Hmode].
  destruct (inv_run _ _ _ (inv_start r now Ha Hmode) Hr) as (_ & P & J).
  destruct (p_threads _ P _ _ Ht) as [_ Hv]. split; [by apply Hv|by apply (j_done _ J _ _ _ _ Ht)].
Qed.

(** At most one exchange with the token service is under way at any time,
    and no caller waits for a refresh that nobody is running. *)
Theorem one_exchange cfg r now l s :
  NewIAMTokenResolver cfg = Ok r -> AuthMode cfg <> "iam_token" -> run l (start r now) = Some s ->
  (forall t t' t0 t0' c c' b b', threads s !! t = Some (PExchange t0 c b) ->
     threads s !! t' = Some (PExchange t0' c' b') -> t = t') /\
  (forall t t0 c, threads s !! t = Some (PWait t0 c) ->
     exists b o e, calls s !! c = Some (MkCall b o e) /\
                 (o = None -> exists t' p, threads s !! t' = Some p /\ lead p = Some c)).
Proof.
  intros Hn Hm Hr. destruct (New_start _ _ Hn Hm) as [Ha Hmode].
  destruct (inv_run _ _ _ (inv_start r now Ha Hmode) Hr) as (L & _). split.
  - intros t t' t0 t0' c c' b b' H1 H2. apply (l_uniq _ L _ _ _ _ H1 H2); by eexists.
  - intros t t0 c Hw. destruct (l_wait _ L _ _ _ Hw) as [[b o e] Hc]. exists b, o, e. split; [done|]. intros ->.
    by apply (l_owner _ L), (l_pending _ L _ b e).
Qed.

End keys.

(** ** Concrete runs *)
Module Demo.

Definition oauth : AuthConfig :=
  MkAuthConfig "oauth_token" (Secret.NewSecret "") (Secret.NewSecret "y0") "" (Secret.NewSecret "") (Secret.NewSecret "").

Definition resolver0 : IAMTokenResolver (Key := unit) :=
  MkResolver "" 0 "oauth_token" "y0" default_metadataURL "" "" None.

Abbreviation New := (NewIAMTokenResolver (Key := unit) (fun _ => None) (fun _ => None) (fun _ => None) (fun _ => P8Other) (fun _ => None)).
Abbreviation Run := (run (Key := unit) (fun _ _ => Some "jwt")).

Definition sec (n : Z) : Z := n * Second.
Definition reply (tok : string) (exp : Z) : answers :=
  MkAnswers (HStatus 200 (Some (MkIAMResponse tok exp))) HTransport.

(** One caller refreshes while a second one looks at the empty cache; the
    second leads a flight of its own, whose check passes; a third comes when
    the token has expired and joins that flight. *)
Definition trace : list (Z * action) :=
  [(sec 1, Call); (sec 1, Call); (sec 1, Read 0); (sec 1, Quick 0); (sec 1, Read 1); (sec 1, Quick 1);
   (sec 1, Enter 0); (sec 1, Double 0); (sec 2, Exchange 0 (reply "t1" (sec 100))); (sec 2, StoreA 0); (sec 2, Publish 0);
   (sec 60, Enter 1); (sec 60, Double 1);
   (sec 200, Call); (sec 200, Read 2); (sec 200, Quick 2); (sec 200, Enter 2);
   (sec 200, Publish 1); (sec 200, Wake 2)].

Definition final : Sys (Key := unit) :=
  match Run trace (start resolver0 0) with Some s => s | None => start resolver0 0 end.

(** The third caller joined the refresh that began at 60 seconds and ended at 200. *)
Lemma token_provenance_witness :
  vouched (issued final) (sec 60) "t1" /\
  (sec 60 = sec 200 \/
   exists c cl, calls final !! c = Some cl /\ began cl = sec 60 /\ result_ cl = Some (Ok "t1") /\ sec 200 <= ended cl).
Proof.
  refine (token_provenance (fun _ => None) (fun _ => None) (fun _ => None) (fun _ => P8Other) (fun _ => None)
            (fun _ _ => Some "jwt") oauth resolver0 0 trace final 2 (sec 200) (sec 60) "t1" _ _ _ _);
    [reflexivity|done|vm_compute; reflexivity..].
Defined.

Lemma one_exchange_witness :
  Run trace (start resolver0 0) = Some final /\
  (forall t t' t0 t0' c c' b b', threads final !! t = Some (PExchange t0 c b) ->
     threads final !! t' = Some (PExchange t0' c' b') -> t = t').
Proof.
  split; [vm_compute; reflexivity|].
  refine (proj1 (one_exchange (fun _ => None) (fun _ => None) (fun _ => None) (fun _ => P8Other) (fun _ => None)
                   (fun _ _ => Some "jwt") oauth resolver0 0 trace final _ _ _)); [reflexivity|done|vm_compute; reflexivity].
Defined.

(** The third caller asked at 200 seconds and gets a token that expired at 100. *)
Lemma follower_gets_expired_token :
  threads final !! 2%nat = Some (PDone (sec 200) (sec 60) (Ok "t1")) /\ issued final = [("t1", sec 100, sec 2)].
Proof. vm_compute. split; reflexivity. Qed.

(** A reply without a token is cached and returned as a success. *)
Lemma empty_token_is_success :
  (s ← Run [(0, Call); (0, Read 0); (0, Quick 0); (0, Enter 0); (0, Double 0); (0, Exchange 0 (reply "" 0));
            (0, StoreA 0); (0, Publish 0)] (start resolver0 0); threads s !! 0%nat) = Some (PDone 0 0 (Ok "")).
Proof. vm_compute. reflexivity. Qed.

(** A follower shares the failure of the leader's request, whatever its cause:
    the leader's own cancelled context included. *)
Lemma follower_shares_failure :
  (s ← Run [(0, Call); (0, Call); (0, Read 0); (0, Quick 0); (0, Read 1); (0, Quick 1); (0, Enter 0); (0, Enter 1);
            (0, Double 0); (0, Exchange 0 (MkAnswers HTransport HTransport)); (0, Publish 0); (0, Wake 1)]
            (start resolver0 0); threads s !! 1%nat) = Some (PDone 0 0 (Err HTTPFailed)).
Proof. vm_compute. reflexivity. Qed.

End Demo.
