(* ===== verification/Storage.v ===== *)
(** * Object-storage contracts (src/storage)

    storage.go (object keys, scopes, upload intents, metadata) and s3signer.go
    around the presigning client of the AWS SDK, which is an argument.
    [PathLib] is package path of Go: Clean and Join. *)
From S2P Require Import Prelude GoStrings HttpResponse GatewayCtx Secret.
Local Open Scope string_scope.
Local Open Scope Z_scope.

(** ** Package path *)
Module PathLib.

(** The segments of a cleaned path, last one first. *)
Fixpoint clean_segs (rooted : bool) (stack segs : list string) : list string :=
  match segs with
  | [] => stack
  | seg :: segs' =>
      if (seg ==s "") || (seg ==s ".") then clean_segs rooted stack segs'
      else if seg ==s ".." then
        match stack with
        | top :: stack' => if top ==s ".." then clean_segs rooted (".." :: stack) segs' else clean_segs rooted stack' segs'
        | [] => clean_segs rooted (if rooted then [] else [".."]) segs'
        end
      else clean_segs rooted (seg :: stack) segs'
  end.

Definition Clean (p : string) : string :=
  if p ==s "" then "."
  else
    let rooted := HasPrefix p "/" in
    let body := join "/" (rev (clean_segs rooted [] (Split "/" p))) in
    if rooted then "/" +:+ body else if body ==s "" then "." else body.

(** Elements are joined with slashes, empty ones left out at the front. *)
Definition join_elems (elems : list string) : string :=
  fold_left (fun buf e => if buf ==s "" then e else buf +:+ "/" +:+ e) elems "".

Definition Join (elems : list string) : string :=
  if forallb (fun e => e ==s "") elems then "" else Clean (join_elems elems).

(** A segment that cleaning keeps. *)
Definition normal (seg : string) : Prop := seg <> "" /\ seg <> "." /\ seg <> "..".

Lemma clean_normal rooted stack segs :
  Forall normal segs -> clean_segs rooted stack segs = (rev segs ++ stack)%list.
Proof.
  intros H. revert stack. induction H as [|seg segs (H1 & H2 & H3) _ IH]; intros stack; [done|]. cbn [clean_segs].
  rewrite (proj2 (String.eqb_neq _ _) H1), (proj2 (String.eqb_neq _ _) H2), (proj2 (String.eqb_neq _ _) H3). cbn [orb].
  rewrite IH. cbn [rev]. by rewrite <- app_assoc.
Qed.

Lemma clean_app rooted stack l1 l2 :
  clean_segs rooted stack (l1 ++ l2)%list = clean_segs rooted (clean_segs rooted stack l1) l2.
Proof.
  revert stack; induction l1 as [|seg l1 IH]; intros stack; [done|]. cbn [clean_segs app].
  repeat case_match; apply IH.
Qed.

Lemma join_app sep l1 l2 :
  l1 <> [] -> l2 <> [] -> join sep (l1 ++ l2)%list = join sep l1 +:+ sep +:+ join sep l2.
Proof.
  intros H1 H2. induction l1 as [|x l1 IH]; [done|]. destruct l1 as [|y l1].
  - destruct l2 as [|z l2]; [done|]. done.
  - change ((x :: y :: l1) ++ l2)%list with (x :: (y :: l1) ++ l2)%list.
    assert (forall l, l <> [] -> join sep (x :: l) = x +:+ sep +:+ join sep l) as Hj by (by intros [|? ?]).
    rewrite !Hj by done. rewrite IH by done. by rewrite !append_assoc.
Qed.

Lemma join_Split s : join "/" (Split "/" s) = s.
Proof.
  induction s as [|c s IH]; [done|]. cbn [Split]. destruct (Ascii.eqb c "/") eqn:Hc.
  - apply Ascii.eqb_eq in Hc as ->. destruct (Split "/" s) as [|w ws] eqn:Hs; [by destruct (Split_nonempty "/" s)|].
    change (join "/" ("" :: w :: ws)) with (String "/" (join "/" (w :: ws))). by rewrite IH.
  - destruct (Split "/" s) as [|w [|w' ws]] eqn:Hs; [by destruct (Split_nonempty "/" s)|by rewrite <- IH|].
    rewrite <- IH. done.
Qed.

(** A path whose last segment is normal keeps a clean relative path below it. *)
Lemma Clean_below p last rest key :
  normal last -> (Split "/" p = rest ++ [last])%list -> Forall normal (Split "/" key) ->
  Clean (p +:+ "/" +:+ key) = Clean p +:+ "/" +:+ key.
Proof.
  intros Hl Hp Hk. assert (p <> "") as Hne.
  { intros ->. cbn in Hp. destruct rest as [|r [|? ?]]; simplify_eq/=. by destruct Hl. }
  assert (p +:+ "/" +:+ key <> "") as Hne' by (by destruct p).
  unfold Clean. rewrite (proj2 (String.eqb_neq _ _) Hne), (proj2 (String.eqb_neq _ _) Hne').
  assert (HasPrefix (p +:+ "/" +:+ key) "/" = HasPrefix p "/") as ->.
  { unfold HasPrefix. destruct p as [|c p]; [done|]. rewrite append_cons. cbn. by destruct (ascii_dec "/" c), p. }
  change (p +:+ "/" +:+ key) with (p +:+ String "/" key). rewrite Split_app_sep, clean_app, (clean_normal _ _ _ Hk).
  set (rooted := HasPrefix p "/").
  assert (exists st, clean_segs rooted [] (Split "/" p) = last :: st) as [st Hst].
  { rewrite Hp, clean_app, (clean_normal _ _ [last]) by (by apply Forall_singleton). cbn. eauto. }
  rewrite Hst, rev_app_distr, rev_involutive, join_app; [|cbn [rev]; by destruct (rev st)|apply Split_nonempty].
  rewrite join_Split. destruct rooted; [by rewrite append_assoc|].
  assert (join "/" (rev (last :: st)) <> "") as Hj.
  { cbn [rev]. destruct (rev st) as [|x l]; [apply Hl|]. cbn. destruct l; by destruct x. }
  rewrite (proj2 (String.eqb_neq _ _) Hj). case_match; [|done].
  apply String.eqb_eq in H. by destruct (join "/" (rev (last :: st))).
Qed.

End PathLib.

(** ** storage.go *)

Record ObjectRef := MkObjectRef {
  Scope : string; Bucket : string; Key : string; ETag : string; VersionID : string; o_ContentType : string; Size : Z;
  LastModified : option Z }.
Abbreviation ObjectInfo := ObjectRef.

Record PresignedRequest := MkPresigned {
  Method : string; URL : string; Headers : gmap string string; ExpiresAt : Z }.
Abbreviation SignedRequest := PresignedRequest.

Record ReadLink := MkReadLink { l_URL : string; l_Headers : gmap string string; l_ExpiresAt : Z }.

Record MintUploadIntentInput := MkMintUpload {
  mi_Scope : string; mi_Filename : string; mi_ContentType : string; mi_ContentLength : Z;
  mi_Metadata : list (string * string); mi_TTL : Z }.

Record IssueReadLinkInput := MkIssueRead {
  ri_Bucket : string; ri_Key : string; ri_ResponseFilename : string; ri_ResponseContentType : string; ri_TTL : Z }.

Inductive UploadIntentStatus := Pending | Finalized | Expired.

Record UploadIntent := MkUploadIntent {
  u_ID : string; u_Scope : string; u_Status : UploadIntentStatus; u_Object : ObjectInfo; u_ContentLength : Z;
  u_Metadata : gmap string string; u_Upload : SignedRequest; u_CreatedAt : Z; u_ExpiresAt : Z; u_FinalizedAt : option Z }.

Definition NewUploadIntentID (uuid : string) : string := "ui_" +:+ uuid.

Inductive storage_error :=
| ScopeNotUTF8 | ScopeRequired | ScopeSlash | ScopeChars
| KeyNotUTF8 | KeyRequired | KeySlash | KeyEmptySegment | KeyDotSegment | KeyControl
| BadPrefix (e : storage_error) | BucketRequired | TypeRequired | LengthRequired | TTLRequired
| ExpiresRequired | CredentialsRequired | PresignFailed.

(** [unicode.IsControl] for some rune of UTF-8 text: C0, DEL, or C1 (194 128-159). *)
Fixpoint has_control (s : string) : bool :=
  match s with
  | "" => false
  | String a s' =>
      (code a <? 32)%N || (code a =? 127)%N
      || ((code a =? 194)%N && match s' with String b _ => byte_in 128 159 b | "" => false end)
      || has_control s'
  end.

(** [unicode.IsSpace] for some rune. *)
Fixpoint has_space (s : string) : bool :=
  match s with
  | "" => false
  | String _ s' => match strip_one spaces s with Some _ => true | None => has_space s' end
  end.

Definition ValidateScopeName (scope : string) : result storage_error unit :=
  if negb (ValidString scope) then Err ScopeNotUTF8
  else
    let scope := TrimSpace scope in
    if scope ==s "" then Err ScopeRequired
    else if Contains scope "/" then Err ScopeSlash
    else if has_control scope || has_space scope then Err ScopeChars
    else Ok tt.

Definition check_segment (segment : string) : result storage_error unit :=
  if segment ==s "" then Err KeyEmptySegment
  else if (segment ==s ".") || (segment ==s "..") then Err KeyDotSegment
  else if has_control segment then Err KeyControl
  else Ok tt.

Definition ValidateObjectKey (key : string) : result storage_error unit :=
  if negb (ValidString key) then Err KeyNotUTF8
  else
    let key := TrimSpace key in
    if key ==s "" then Err KeyRequired
    else if HasPrefix key "/" || HasSuffix key "/" then Err KeySlash
    else first_err check_segment (Split "/" key).

(** [strings.Trim(s, "/")]. *)
Definition trim_slashes (s : string) : string := TrimSuffixes ["/"] (TrimPrefixes ["/"] s).

Definition JoinObjectKey (prefix key : string) : result storage_error string :=
  let? _ := ValidateObjectKey key in
  let prefix := trim_slashes prefix in
  if prefix ==s "" then Ok key
  else let? _ := map_err BadPrefix (ValidateObjectKey prefix) in
       Ok (prefix +:+ "/" +:+ key).

Definition validateBucket (bucket : string) : result storage_error unit :=
  if TrimSpace bucket ==s "" then Err BucketRequired else Ok tt.

Definition ValidateMintUploadIntentInput (i : MintUploadIntentInput) : result storage_error unit :=
  let? _ := ValidateScopeName (mi_Scope i) in
  if TrimSpace (mi_ContentType i) ==s "" then Err TypeRequired
  else if mi_ContentLength i <=? 0 then Err LengthRequired
  else if mi_TTL i <=? 0 then Err TTLRequired
  else Ok tt.

Definition ValidateIssueReadLinkInput (i : IssueReadLinkInput) : result storage_error unit :=
  let? _ := validateBucket (ri_Bucket i) in
  let? _ := ValidateObjectKey (ri_Key i) in
  if ri_TTL i <=? 0 then Err TTLRequired else Ok tt.

(** A Go map ranged over in the order of the list. *)
Definition canonical_step (out : gmap string string) (kv : string * string) : gmap string string :=
  let key := ToLower (TrimSpace kv.1) in
  if key ==s "" then out else <[key := TrimSpace kv.2]> out.

Definition CanonicalMetadata (metadata : list (string * string)) : gmap string string :=
  fold_left canonical_step metadata ∅.

(** ** Validated keys are clean relative paths *)
Import PathLib.

Definition no_slash (s : string) : bool := all_bytes (fun c => negb (Ascii.eqb c "/")) s.

(** Being a proper path segment is lost by no extension: what contains a
    segment other than a run of at most two dots is not such a run. *)
Lemma normal_extend a s b : normal s -> normal (a +:+ s +:+ b).
Proof.
  intros (H1 & H2 & H3). split_and!; intros E; pose proof (f_equal String.length E) as Hl; rewrite !length_append in Hl;
    simpl in Hl; destruct s as [|c [|d [|e s]]]; try done; destruct a as [|x [|y a]]; try (simpl in Hl; lia);
    destruct b as [|z [|t b]]; simpl in Hl; try lia. all: cbv in E; simplify_eq. all: done.
Qed.

Lemma normal_prepend w s : normal s -> normal (w +:+ s).
Proof. rewrite <- (append_nil_r s) at 2. apply normal_extend. Qed.

Lemma normal_append s w : normal s -> normal (s +:+ w).
Proof. apply (normal_extend ""). Qed.

(** White space around a clean path does not make it less so. *)
Lemma trimmed_normal s : Forall normal (Split "/" (TrimSpace s)) -> Forall normal (Split "/" s).
Proof.
  intros H. destruct (TrimSpace_split (fun c => negb (Ascii.eqb c "/")) s) as (a & b & Hs & Ha & Hb);
    [vm_compute; reflexivity|].
  rewrite Hs. destruct (Split_append "/" (TrimSpace s) b Hb) as (xs & x & H1 & H2).
  rewrite H1 in H. apply Forall_app in H as [Hxs [Hx _]%Forall_cons].
  assert (Forall normal (Split "/" (TrimSpace s +:+ b))) as Hm.
  { rewrite H2. apply Forall_app. split; [done|]. constructor; [by apply normal_append|constructor]. }
  destruct (Split_prepend "/" a (TrimSpace s +:+ b) Ha) as (y & ys & Hy & ->). rewrite Hy in Hm.
  apply Forall_cons in Hm as [? ?]. constructor; [by apply normal_prepend|done].
Qed.

Lemma check_segment_normal seg : check_segment seg = Ok tt -> normal seg /\ has_control seg = false.
Proof.
  unfold check_segment. destruct (eqb_cases seg "") as [[-> ?]|[-> ?]]; [done|].
  destruct (eqb_cases seg ".") as [[-> ?]|[-> ?]]; [done|].
  destruct (eqb_cases seg "..") as [[-> ?]|[-> ?]]; [done|]. cbn [orb]. by destruct (has_control seg).
Qed.

Lemma ValidateObjectKey_normal key : ValidateObjectKey key = Ok tt -> Forall normal (Split "/" key).
Proof.
  unfold ValidateObjectKey. destruct (negb _); [done|]. destruct (_ ==s _); [done|]. destruct (_ || _); [done|].
  rewrite first_err_ok. intros H. apply trimmed_normal. eapply Forall_impl; [exact H|].
  intros seg Hs. by apply check_segment_normal in Hs as [? _].
Qed.

Lemma JoinObjectKey_normal prefix key k : JoinObjectKey prefix key = Ok k -> Forall normal (Split "/" k).
Proof.
  unfold JoinObjectKey. rewrite then_ok. intros [Hk H]. apply ValidateObjectKey_normal in Hk.
  destruct (trim_slashes prefix ==s ""); [by injection H as <-|]. apply then_ok in H as [Hp%map_err_ok [= <-]].
  apply ValidateObjectKey_normal in Hp. change (trim_slashes prefix +:+ "/" +:+ key) with (trim_slashes prefix +:+ String "/" key).
  rewrite Split_app_sep. by apply Forall_app.
Qed.

Lemma trim_slashes_split s :
  exists a b, s = a +:+ trim_slashes s +:+ b /\
    all_bytes (Ascii.eqb "/") a = true /\ all_bytes (Ascii.eqb "/") b = true.
Proof.
  assert (Forall (fun p => all_bytes (Ascii.eqb "/") p = true) ["/"]) as Hf by (by repeat constructor).
  destruct (TrimPrefixes_split (Ascii.eqb "/") ["/"] s Hf) as (a & Ha & Hfa).
  destruct (TrimSuffixes_split (Ascii.eqb "/") ["/"] (TrimPrefixes ["/"] s) Hf) as (b & Hb & Hfb).
  exists a, b. unfold trim_slashes. by rewrite <- Hb, <- Ha.
Qed.

(** The object key that [key] stands for under [prefix]: the prefix without the
    slashes around it, a slash, and the key, or the key alone when the prefix
    has nothing but slashes; no segment of it is empty or made of dots. *)
Definition key_below (prefix key k : string) : Prop :=
  exists a q b, prefix = a +:+ q +:+ b /\
    all_bytes (Ascii.eqb "/") a = true /\ all_bytes (Ascii.eqb "/") b = true /\
    ((q = "" /\ k = key) \/ (q <> "" /\ k = q +:+ "/" +:+ key)) /\
    Forall normal (Split "/" k).

(** The joined key lies below the prefix. *)
Lemma JoinObjectKey_below prefix key k : JoinObjectKey prefix key = Ok k -> key_below prefix key k.
Proof.
  intros H. pose proof (JoinObjectKey_normal _ _ _ H) as Hn. destruct (trim_slashes_split prefix) as (a & b & Hs & Ha & Hb).
  exists a, (trim_slashes prefix), b. split_and!; try done. unfold JoinObjectKey in H. rewrite then_ok in H. destruct H as [_ H].
  destruct (String.eqb_spec (trim_slashes prefix) "") as [He|He]; [injection H as <-; by left|].
  rewrite then_ok in H. destruct H as [_ [= <-]]. by right.
Qed.

(** White space at the ends is validated away but kept in the key, a line break
    included, although keys must not contain control characters. *)
Lemma key_keeps_newline : JoinObjectKey "p" ("a" +:+ bytes [10]%N) = Ok ("p/a" +:+ bytes [10]%N).
Proof. vm_compute. reflexivity. Qed.

(** Two metadata keys that differ in case only: the result depends on the
    order of the map's iteration. *)
Lemma canonical_order_matters :
  CanonicalMetadata [("A", "1"); ("a", "2")] !! "a" = Some "2" /\
  CanonicalMetadata [("a", "2"); ("A", "1")] !! "a" = Some "1".
Proof. vm_compute. split; reflexivity. Qed.

(** ** s3signer.go *)
Section signer.

Record S3SignerConfig := MkSignerConfig {
  sc_Endpoint : string; sc_Region : string; UsePathStyle : bool; sc_AccessKeyID : Secret.t; sc_SecretAccessKey : Secret.t }.

Record PresignPutInput := MkPresignPut {
  pp_Bucket : string; pp_Key : string; pp_ContentType : string; pp_Metadata : list (string * string); pp_Expires : Z }.

Record PresignGetInput := MkPresignGet {
  pg_Bucket : string; pg_Key : string; pg_ResponseFilename : string; pg_ResponseContentType : string; pg_Expires : Z }.

(** What the SDK is asked to sign, and what it returns: the URL and the signed
    header. *)
Record sdk_put := MkSdkPut { sp_bucket : string; sp_key : string; sp_type : string; sp_metadata : gmap string string }.
Record sdk_get := MkSdkGet { sg_bucket : string; sg_key : string; sg_type : option string; sg_disposition : option string }.
Record presigner := MkPresigner {
  PresignPutObject : sdk_put -> Z -> option (string * Gateway.Header);
  PresignGetObject : sdk_get -> Z -> option (string * Gateway.Header) }.

Definition defaultS3Endpoint : string := "https://storage.yandexcloud.net".
Definition defaultS3Region : string := "ru-central1".

(** [s3.New] and [s3.NewPresignClient], and [strconv.Quote] of [%q]. *)
Context (NewPresignClient : string -> string -> bool -> Secret.t -> Secret.t -> presigner).
Context (Quote : string -> string).

Definition NewS3Signer (cfg : S3SignerConfig) : result storage_error presigner :=
  if Secret.IsEmpty (sc_AccessKeyID cfg) || Secret.IsEmpty (sc_SecretAccessKey cfg) then Err CredentialsRequired
  else
    let endpoint := if sc_Endpoint cfg ==s "" then defaultS3Endpoint else sc_Endpoint cfg in
    let region := if sc_Region cfg ==s "" then defaultS3Region else sc_Region cfg in
    Ok (NewPresignClient endpoint region (UsePathStyle cfg) (sc_AccessKeyID cfg) (sc_SecretAccessKey cfg)).

Definition flattenHeader (header : Gateway.Header) : gmap string string := join ", " <$> header.

(** [strings.NewReplacer]: the four bytes that could end the quoted name. *)
Fixpoint replace_unsafe (s : string) : string :=
  match s with
  | "" => ""
  | String c s' =>
      String (if existsb (N.eqb (code c)) [92; 34; 13; 10]%N then "_"%char else c) (replace_unsafe s')
  end.

Definition contentDispositionAttachment (filename : string) : string :=
  "attachment; filename=" +:+ Quote (replace_unsafe filename).

(** The checks both operations begin with. *)
Definition presign_checks (bucket key : string) (expires : Z) : result storage_error unit :=
  let? _ := validateBucket bucket in
  let? _ := ValidateObjectKey key in
  if expires <=? 0 then Err ExpiresRequired else Ok tt.

Definition PresignPut (c : presigner) (now : Z) (i : PresignPutInput) : result storage_error PresignedRequest :=
  let? _ := presign_checks (pp_Bucket i) (pp_Key i) (pp_Expires i) in
  let ct := TrimSpace (pp_ContentType i) in
  let ct := if ct ==s "" then "application/octet-stream" else ct in
  match PresignPutObject c (MkSdkPut (pp_Bucket i) (pp_Key i) ct (CanonicalMetadata (pp_Metadata i))) (pp_Expires i) with
  | None => Err PresignFailed
  | Some (url, h) => Ok (MkPresigned "PUT" url (flattenHeader h) (now + pp_Expires i))
  end.

Definition nonempty_opt (s : string) : option string := if s ==s "" then None else Some s.

Definition PresignGet (c : presigner) (now : Z) (i : PresignGetInput) : result storage_error PresignedRequest :=
  let? _ := presign_checks (pg_Bucket i) (pg_Key i) (pg_Expires i) in
  let ct := nonempty_opt (TrimSpace (pg_ResponseContentType i)) in
  let disposition := contentDispositionAttachment <$> nonempty_opt (TrimSpace (pg_ResponseFilename i)) in
  match PresignGetObject c (MkSdkGet (pg_Bucket i) (pg_Key i) ct disposition) (pg_Expires i) with
  | None => Err PresignFailed
  | Some (url, h) => Ok (MkPresigned "GET" url (flattenHeader h) (now + pg_Expires i))
  end.

(** What gets signed names a bucket and a clean relative key, expires in the
    future, and a file name cannot break out of its header. *)
Lemma presigned_sound c now i r :
  PresignGet c now i = Ok r ->
  Forall normal (Split "/" (pg_Key i)) /\ now < ExpiresAt r /\ Method r = "GET".
Proof.
  unfold PresignGet. rewrite then_ok. intros [Hc H]. unfold presign_checks in Hc. rewrite !then_ok in Hc.
  destruct Hc as (_ & Hk & He). apply ValidateObjectKey_normal in Hk.
  destruct (Z.leb_spec (pg_Expires i) 0); [done|].
  destruct (PresignGetObject _ _ _) as [[url h]|]; [|done]. injection H as <-. cbn. split; [done|]. split; [lia|done].
Qed.

End signer.
