(* ===== verification/TokenObject.v ===== *)
(** * Stored token objects (src/s3store/format.go)

    The three formats of a stored token and their coding.  JSON is an argument;
    [base64.StdEncoding] is written out on top of the URL alphabet of
    AuditList.v and the padding of Jwt.v. *)
From S2P Require Import Prelude GoStrings HttpResponse AuditList Jwt TokenMint.
Import Std.
Local Open Scope string_scope.

(** ** base64.StdEncoding *)
Module StdBase64.

Definition to_std (c : ascii) : ascii :=
  if Ascii.eqb c "-" then "+"%char else if Ascii.eqb c "_" then "/"%char else c.

(** The two bytes of the other alphabet are outside this one. *)
Definition from_std (c : ascii) : ascii :=
  if Ascii.eqb c "+" then "-"%char else if Ascii.eqb c "/" then "_"%char
  else if Ascii.eqb c "-" || Ascii.eqb c "_" then "!"%char else c.

Fixpoint map_bytes (f : ascii -> ascii) (s : string) : string :=
  match s with "" => "" | String c s' => String (f c) (map_bytes f s') end.

Definition padded (s : string) : string :=
  match (String.length s mod 4)%nat with 2%nat => s +:+ "==" | 3%nat => s +:+ "=" | _ => s end.

Definition EncodeToString (s : string) : string := map_bytes to_std (padded (Base64.EncodeToString s)).
Definition DecodeString (s : string) : option string := DecodePadded (map_bytes from_std s).

(** A byte of the URL alphabet or the padding. *)
Definition url_byte (c : ascii) : bool := Ascii.eqb (from_std (to_std c)) c && byte_in 0 127 (to_std c).

Lemma sextet_url v : (v < 64)%N -> url_byte (Base64.sextet v) = true.
Proof.
  intros Hv. assert (forallb (fun i => url_byte (Base64.sextet (N.of_nat i))) (seq 0 64) = true) as Hall
    by (vm_compute; reflexivity).
  rewrite forallb_forall in Hall. specialize (Hall (N.to_nat v) ltac:(apply in_seq; lia)). by rewrite N2Nat.id in Hall.
Qed.

Lemma sextets_url l :
  Forall (fun v => v < 64)%N l -> all_bytes url_byte (String.string_of_list_ascii (map Base64.sextet l)) = true.
Proof. induction 1 as [|v l Hv _ IH]; [done|]. cbn. by rewrite sextet_url, IH. Qed.

Lemma padded_url s : all_bytes url_byte (padded (Base64.EncodeToString s)) = true.
Proof.
  assert (all_bytes url_byte (Base64.EncodeToString s) = true) as H
    by (apply sextets_url, Base64.sextets_small).
  unfold padded. repeat case_match; rewrite ?all_bytes_app, ?H; done.
Qed.

Lemma map_bytes_back s : all_bytes url_byte s = true -> map_bytes from_std (map_bytes to_std s) = s.
Proof.
  induction s as [|c s IH]; [done|]. cbn [all_bytes map_bytes]. intros [[Hc _]%andb_true_iff Hs]%andb_true_iff.
  apply Ascii.eqb_eq in Hc. by rewrite Hc, IH.
Qed.

Lemma Std_Decode_Encode s : DecodeString (EncodeToString s) = Some s.
Proof.
  unfold DecodeString, EncodeToString. rewrite map_bytes_back by apply padded_url.
  apply (base64URLDecode_Encode s).
Qed.

(** The text is ASCII, hence UTF-8, and empty only for no bytes at all. *)
Lemma Encode_ascii s : all_bytes (byte_in 0 127) (EncodeToString s) = true.
Proof.
  unfold EncodeToString. pose proof (padded_url s) as H. induction (padded _) as [|c t IH]; [done|].
  cbn [all_bytes map_bytes] in *. apply andb_true_iff in H as [[_ Hc]%andb_true_iff Ht]. by rewrite Hc, IH.
Qed.

Lemma Std_Encode_nonempty s : s <> "" -> EncodeToString s <> "".
Proof. intros Hs E. pose proof (Std_Decode_Encode s) as Hd. rewrite E in Hd. by injection Hd as <-. Qed.

End StdBase64.

(** ** Objects *)

Record TokenObject := MkTokenObject {
  EncryptedToken : string; KMSKeyID : string; Plaintext : string;
  o_Kind : string; o_GrantProfile : string; o_ClientIDRef : string; o_ClientSecretRef : string;
  UpdatedAt : string; UpdatedBy : string; o_Tenant : string; SchemaVersion : Z }.

Inductive format_error :=
| ParseFailed | DescriptorAndValue | BadDescriptor (e : DescriptorErr) | NoValue | NoKMSKeyID
| NeedPlaintext | NeedEncToken | BadBase64 | UnknownMode | MarshalFailed.

Definition IsDescriptor (o : TokenObject) : bool := o_Kind o !=s "".

Definition DescriptorOf (o : TokenObject) : Descriptor :=
  MkDescriptor (o_Kind o) (o_GrantProfile o) (o_ClientIDRef o) (o_ClientSecretRef o).

Record DecodedToken := MkDecoded {
  d_Plaintext : string; d_EncryptedToken : string; d_KMSKeyID : string; Passthrough : bool; d_Descriptor : option Descriptor }.

Definition DecodeToken (obj : TokenObject) (kmsMode : string) : result format_error DecodedToken :=
  if IsDescriptor obj then Ok (MkDecoded "" "" "" false (Some (DescriptorOf obj)))
  else if kmsMode ==s "passthrough" then
    if Plaintext obj ==s "" then Err NeedPlaintext else Ok (MkDecoded (Plaintext obj) "" "" true None)
  else if kmsMode ==s "kms" then
    if EncryptedToken obj ==s "" then Err NeedEncToken
    else match StdBase64.DecodeString (EncryptedToken obj) with
         | None => Err BadBase64
         | Some decoded => Ok (MkDecoded "" decoded (KMSKeyID obj) false None)
         end
  else Err UnknownMode.

Definition EncodeToken (raw kmsKeyID kmsMode : string) : result format_error TokenObject :=
  if kmsMode ==s "passthrough" then Ok (MkTokenObject "" "" raw "" "" "" "" "" "" "" 0)
  else if kmsMode ==s "kms" then Ok (MkTokenObject (StdBase64.EncodeToString raw) kmsKeyID "" "" "" "" "" "" "" "" 0)
  else Err UnknownMode.

Definition EncodeDescriptor (d : Descriptor) : result format_error TokenObject :=
  let? _ := map_err BadDescriptor (ValidateDescriptor (Some d)) in
  Ok (MkTokenObject "" "" "" (Kind d) (GrantProfile d) (ClientIDRef d) (ClientSecretRef d) "" "" "" 0).

Section json.
Context (Unmarshal : string -> option TokenObject).

Definition ParseTokenObject (data : string) : result format_error TokenObject :=
  match Unmarshal data with
  | None => Err ParseFailed
  | Some obj =>
      if IsDescriptor obj then
        if (Plaintext obj !=s "") || (EncryptedToken obj !=s "") then Err DescriptorAndValue
        else let? _ := map_err BadDescriptor (ValidateDescriptor (Some (DescriptorOf obj))) in Ok obj
      else if (Plaintext obj ==s "") && (EncryptedToken obj ==s "") then Err NoValue
      else if (EncryptedToken obj !=s "") && (KMSKeyID obj ==s "") then Err NoKMSKeyID
      else Ok obj
  end.

(** An object that parses is either a complete descriptor of a known kind
    without any stored value, or a stored value without a descriptor; a stored
    ciphertext names its key.  No unknown kind is taken for a stored value. *)
Theorem ParseTokenObject_exclusive data obj :
  ParseTokenObject data = Ok obj ->
  (o_Kind obj <> "" /\ Plaintext obj = "" /\ EncryptedToken obj = "" /\ ValidateDescriptor (Some (DescriptorOf obj)) = Ok tt) \/
  (o_Kind obj = "" /\ (Plaintext obj <> "" \/ EncryptedToken obj <> "") /\ (EncryptedToken obj <> "" -> KMSKeyID obj <> "")).
Proof.
  unfold ParseTokenObject, IsDescriptor. destruct (Unmarshal data) as [o|]; [|done].
  destruct (eqb_cases (o_Kind o) "") as [[-> Hk]|[-> Hk]]; cbn [negb].
  - destruct (eqb_cases (Plaintext o) "") as [[-> Hp]|[-> Hp]]; destruct (eqb_cases (EncryptedToken o) "") as [[-> Ht]|[-> Ht]];
      cbn [andb negb]; try done; try (destruct (eqb_cases (KMSKeyID o) "") as [[-> Hi]|[-> Hi]]; [done|]);
      intros [= <-]; right; tauto.
  - destruct (eqb_cases (Plaintext o) "") as [[-> Hp]|[-> Hp]]; cbn [negb orb]; [|done].
    destruct (eqb_cases (EncryptedToken o) "") as [[-> Ht]|[-> Ht]]; cbn [negb]; [|done].
    rewrite then_ok. intros [Hd%map_err_ok [= <-]]. left. tauto.
Qed.

(** An object may carry both a plaintext and a ciphertext; which one is used
    depends on the mode of the reader. *)
Lemma both_values_accepted data o :
  Unmarshal data = Some o -> o_Kind o = "" -> Plaintext o <> "" -> EncryptedToken o <> "" -> KMSKeyID o <> "" ->
  ParseTokenObject data = Ok o.
Proof.
  intros Hu Hk Hp Ht Hi. unfold ParseTokenObject, IsDescriptor. rewrite Hu, Hk.
  by rewrite (proj2 (String.eqb_neq _ _) Hp), (proj2 (String.eqb_neq _ _) Ht), (proj2 (String.eqb_neq _ _) Hi).
Qed.

Context (Marshal : TokenObject -> option string).

Definition MarshalTokenObject (obj : TokenObject) : result format_error string :=
  match Marshal obj with None => Err MarshalFailed | Some data => Ok data end.

(** The texts of an object are UTF-8. *)
Definition utf8_object (o : TokenObject) : bool :=
  forallb ValidString [EncryptedToken o; KMSKeyID o; Plaintext o; o_Kind o; o_GrantProfile o; o_ClientIDRef o;
                       o_ClientSecretRef o; UpdatedAt o; UpdatedBy o; o_Tenant o].

(** encoding/json: an object whose texts are UTF-8 is encoded, and decodes to
    itself. *)
Definition json_roundtrips (o : TokenObject) : Prop :=
  utf8_object o = true -> exists data, Marshal o = Some data /\ Unmarshal data = Some o.

(** A token that is encoded in either mode, written, parsed and decoded in
    the same mode is the token that was encoded, with its key: any bytes in KMS
    mode, UTF-8 text in passthrough mode. *)
Theorem token_roundtrip raw key mode obj :
  EncodeToken raw key mode = Ok obj -> json_roundtrips obj -> raw <> "" ->
  (mode = "passthrough" -> ValidString raw = true) -> (mode = "kms" -> key <> "" /\ ValidString key = true) ->
  exists data, MarshalTokenObject obj = Ok data /\ ParseTokenObject data = Ok obj /\
    DecodeToken obj mode = Ok (if mode ==s "kms" then MkDecoded "" raw key false None else MkDecoded raw "" "" true None).
Proof.
  unfold EncodeToken. intros He Hj Hne Hp Hk. destruct (eqb_cases mode "passthrough") as [[E ->]|[E Hm]]; rewrite E in He; clear E.
  - injection He as <-. destruct Hj as (data & Hd & Hu).
    { cbn. by rewrite Hp. }
    exists data. unfold MarshalTokenObject, ParseTokenObject, DecodeToken. rewrite Hd, Hu. cbn.
    by rewrite (proj2 (String.eqb_neq _ _) Hne).
  - destruct (eqb_cases mode "kms") as [[E ->]|[E _]]; rewrite E in He; [|done]. injection He as <-. destruct (Hk eq_refl) as [Hkne Hkv].
    pose proof (proj2 (String.eqb_neq _ _) (StdBase64.Std_Encode_nonempty raw Hne)) as Hn.
    destruct Hj as (data & Hd & Hu).
    { cbn. by rewrite (ascii_valid _ (StdBase64.Encode_ascii raw)), Hkv. }
    exists data. unfold MarshalTokenObject, ParseTokenObject, DecodeToken. rewrite Hd, Hu. cbn.
    rewrite Hn, StdBase64.Std_Decode_Encode. cbn. by rewrite (proj2 (String.eqb_neq _ _) Hkne).
Qed.

Lemma descriptor_roundtrip d obj :
  EncodeDescriptor d = Ok obj -> forall mode, DescriptorOf obj = d /\ DecodeToken obj mode = Ok (MkDecoded "" "" "" false (Some d)).
Proof.
  unfold EncodeDescriptor. rewrite then_ok. intros [Hv%map_err_ok [= <-]] mode. unfold DecodeToken, IsDescriptor, DescriptorOf.
  cbn in *. destruct (eqb_cases (Kind d) KindOAuth2ClientCredentials) as [[E Hk]|[E Hk]]; rewrite E in Hv; [|done].
  rewrite Hk. cbn. by destruct d; cbn in *; subst.
Qed.

End json.

Definition kms_object : TokenObject := MkTokenObject "AP9h" "abj" "" "" "" "" "" "" "" "" 0.

Lemma token_roundtrip_witness :
  exists data, MarshalTokenObject (fun _ => Some "{}") kms_object = Ok data /\
    ParseTokenObject (fun _ => Some kms_object) data = Ok kms_object /\
    DecodeToken kms_object "kms" = Ok (MkDecoded "" (bytes [0; 255; 97]%N) "abj" false None).
Proof.
  refine (token_roundtrip (fun _ => Some kms_object) (fun _ => Some "{}") (bytes [0; 255; 97]%N) "abj" "kms" kms_object _ _ _ _ _);
    [vm_compute; reflexivity|intros _; by exists "{}"|discriminate|discriminate|split; [discriminate|reflexivity]].
Defined.

Lemma ParseTokenObject_exclusive_witness :
  o_Kind kms_object = "" /\ (Plaintext kms_object <> "" \/ EncryptedToken kms_object <> "").
Proof.
  destruct (ParseTokenObject_exclusive (fun _ => Some kms_object) "{}" kms_object) as [[H _]|(H1 & H2 & _)];
    [vm_compute; reflexivity|by destruct H|split; [exact H1|exact H2]].
Defined.
