(* ===== verification/S3Store.v ===== *)
(** * The object-store client (src/s3store: client.go, stream.go, object.go)

    An operation is a program over what it asks of the outside: the token
    resolver, a request to the store (through the SDK with static keys, over
    HTTP with an IAM token) or a page of a listing.  [run] executes a program
    against a world; [sends] says that every request a program can issue,
    whatever the world answers, has a property. *)
From S2P Require Import Prelude GoStrings GatewayCtx Secret YCloud Storage.
Import PathLib.
Local Open Scope string_scope.
Local Open Scope Z_scope.

(** ** Requests and programs *)

(** Scheme, user information and host; path; raw query; fragment. *)
Record URL := MkURL { origin : string; upath : string; query : string; fragment : string }.

(** [url.Values.Encode], and a raw query with one parameter set
    ([u.Query], [Set], [Encode]). *)
Class QueryText := { encode_values : list (string * string) -> string; set_param : string -> string -> string -> string }.

(** The URL that the text of [u], a question mark and [q] denote: a text that
    already has a query or a fragment keeps it, and the rest joins it. *)
Definition append_query (u : URL) (q : string) : URL :=
  if fragment u !=s "" then MkURL (origin u) (upath u) (query u) (fragment u +:+ "?" +:+ q)
  else if query u !=s "" then MkURL (origin u) (upath u) (query u +:+ "?" +:+ q) ""
  else MkURL (origin u) (upath u) q "".

Inductive request :=
| SDKPut (bucket key ctype payload : string) (len : option Z) (ifNoneMatch : bool)
| SDKGet (bucket key : string) (version : option string)
| SDKHead (bucket key : string)
| SDKDelete (bucket key : string)
| HTTP (method : string) (url : URL) (header : list (string * string)) (payload : option string) (len : option Z) (redirects : bool).

(** An answer: the fields of an SDK result, or the status and headers of an HTTP
    response, with what reading the body yields.  A length and a date come
    decoded from the SDK, as text in HTTP headers. *)
Record reply := MkReply {
  status : Z; version : option string; etag : option string; ctype_ : option string;
  length_ : option Z; length_text : option string; modified : option Z; modified_text : option string;
  body : option string }.

(** [Failed] is an error of the call; an SDK error may carry a status. *)
Inductive answer := Failed (status : option Z) | Replied (r : reply).

Record page := MkPage { contents : list (option string); truncated : option bool; nextToken : option string }.

(** A request for a page: through the SDK, or over HTTP with its URL and
    headers; and what comes of it. *)
Record list_request := MkList {
  l_bucket : string; l_prefix : string; l_token : option string; l_http : option (URL * list (string * string)) }.

Inductive listing := LFailed | LStatus (code : Z) | LUndecoded | LPage (p : page).

Inductive s3err :=
| BucketRequired | StaticKeysRequired | BadAuth (e : YErr) | BadMode
| BadStream | BadKey (e : storage_error) | SeekFailed | LengthMismatch
| ObjectExists | NotFound | CallFailed | AuthFailed | BadEndpoint | HTTPStatus (code : Z)
| PinnedVersionRequired | VersionMismatch | TooLarge | ReadFailed | BadLength | BadDate
| SigningUnsupported | ListFailed | NoFuel.

Inductive prog (A : Type) :=
| Ret (r : result s3err A)
| Resolve (k : option string -> prog A)
| Send (req : request) (k : answer -> prog A)
| List_ (req : list_request) (k : listing -> prog A).
Arguments Ret {A} _. Arguments Resolve {A} _. Arguments Send {A} _ _. Arguments List_ {A} _ _.

Fixpoint bind {A B} (p : prog A) (f : A -> prog B) : prog B :=
  match p with
  | Ret (Ok a) => f a
  | Ret (Err e) => Ret (Err e)
  | Resolve k => Resolve (fun t => bind (k t) f)
  | Send r k => Send r (fun a => bind (k a) f)
  | List_ r k => List_ r (fun p => bind (k p) f)
  end.

Notation "'do' x ':=' p 'in' q" := (bind p (fun x => q)) (at level 10, x name, p at level 100, q at level 200).
Abbreviation throw e := (Ret (Err e)).
Abbreviation ret a := (Ret (Ok a)).

Record world := MkWorld {
  w_token : option string; w_send : request -> answer; w_page : option string -> listing }.

Fixpoint run {A} (w : world) (p : prog A) : result s3err A :=
  match p with
  | Ret r => r
  | Resolve k => run w (k (w_token w))
  | Send r k => run w (k (w_send w r))
  | List_ r k => run w (k (w_page w (l_token r)))
  end.

Section sends.
Context (P : request -> Prop).
(** [P] holds of all requests; a token is whatever the resolver yields. *)
Inductive sends {A} : prog A -> Prop :=
| sends_ret r : sends (Ret r)
| sends_resolve k : (forall t, sends (k t)) -> sends (Resolve k)
| sends_send r k : P r -> (forall a, sends (k a)) -> sends (Send r k)
| sends_list r k : (forall p, sends (k p)) -> sends (List_ r k).
End sends.

Lemma sends_bind {A B} P (p : prog A) (f : A -> prog B) :
  sends P p -> (forall a, sends P (f a)) -> sends P (bind p f).
Proof. induction 1 as [[a|e]| | |]; intros Hf; cbn [bind]; [done|..]; constructor; auto. Qed.

Lemma run_bind {A B} w (p : prog A) (f : A -> prog B) :
  run w (bind p f) = let? a := run w p in run w (f a).
Proof. induction p as [[a|e]|k IH|r k IH|t k IH]; cbn [bind run]; done. Qed.

(** ** client.go *)

Record Config := MkS3Config {
  c_Bucket : string; Endpoint : string; Region : string; Prefix : string; Auth : AuthConfig }.

Record ObjectEntry := MkEntry { TokenRef : string; e_Body : string; e_ETag : string }.

Record Client := MkClient { cfg : Config; iamAuth : bool; presigns : bool }.

Definition maxObjectSize : Z := Z.shiftl 10 20.
Definition MaxStreamObjectBytes : Z := Z.shiftl 64 20.

Definition or_string (s d : string) : string := if s ==s "" then d else s.

Section client.
(** [url.Parse] of the endpoint (one that ends in a bare question mark, which
    [String] would keep, is not represented). *)
Context (url_Parse : string -> option URL) {Q : QueryText}.
(** ycloud.NewIAMTokenResolver of the authentication block succeeds or fails. *)
Context (NewResolver : AuthConfig -> result YErr unit).
(** [time.Parse(http.TimeFormat, _)]. *)
Context (ParseHTTPDate : string -> option Z).

Definition NewClient (c : Config) : result s3err Client :=
  if c_Bucket c ==s "" then Err BucketRequired
  else
    let c := MkS3Config (c_Bucket c) (or_string (Endpoint c) "https://storage.yandexcloud.net")
               (or_string (Region c) "ru-central1") (Prefix c) (Auth c) in
    let mode := AuthMode (Auth c) in
    if (mode ==s "static") || (mode ==s "") then
      if Secret.IsEmpty (AccessKeyID (Auth c)) || Secret.IsEmpty (SecretAccessKey (Auth c)) then Err StaticKeysRequired
      else Ok (MkClient c false true)
    else if existsb (String.eqb mode) ["iam_token"; "oauth_token"; "metadata"; "service_account"] then
      let? _ := map_err BadAuth (NewResolver (Auth c)) in Ok (MkClient c true false)
    else Err BadMode.

(** The resolver's token. *)
Definition resolved : prog string :=
  Resolve (fun t => match t with Some t => ret t | None => throw AuthFailed end).

Definition objectURL (c : Client) (key : string) : result s3err URL :=
  match url_Parse (Endpoint (cfg c)) with
  | None => Err BadEndpoint
  | Some base => Ok (MkURL (origin base) (Join [upath base; c_Bucket (cfg c); key]) (query base) (fragment base))
  end.

Definition bucketURL (c : Client) : result s3err URL :=
  match url_Parse (Endpoint (cfg c)) with
  | None => Err BadEndpoint
  | Some base => Ok (MkURL (origin base) (Join [upath base; c_Bucket (cfg c)]) (query base) (fragment base))
  end.

Definition subjectToken (token : string) : string * string := ("X-YaCloud-SubjectToken", token).

(** [io.ReadAll(io.LimitReader(body, n))]. *)
Fixpoint limit_read (n : Z) (s : string) : string :=
  match s with "" => "" | String a s' => if n <=? 0 then "" else String a (limit_read (n - 1) s') end.

(** Reading a body of at most [maxObjectSize] bytes. *)
Definition read_object (r : reply) : result s3err string :=
  match body r with
  | None => Err ReadFailed
  | Some b =>
      let b := limit_read (maxObjectSize + 1) b in
      if maxObjectSize <? Len b then Err TooLarge else Ok b
  end.

Definition text (o : option string) : string := default "" o.

Definition getObjectSDK (c : Client) (key tokenRef : string) : prog ObjectEntry :=
  Send (SDKGet (c_Bucket (cfg c)) key None) (fun a =>
    match a with
    | Failed _ => throw CallFailed
    | Replied r => do b := Ret (read_object r) in ret (MkEntry tokenRef b (text (etag r)))
    end).

Definition getObjectIAM (c : Client) (key tokenRef : string) : prog ObjectEntry :=
  do token := resolved in
  do u := Ret (objectURL c key) in
  Send (HTTP "GET" u [subjectToken token] None None true) (fun a =>
    match a with
    | Failed _ => throw CallFailed
    | Replied r =>
        if status r =? 404 then throw NotFound
        else if negb (status r =? 200) then throw (HTTPStatus (status r))
        else do b := Ret (read_object r) in ret (MkEntry tokenRef b (text (etag r)))
    end).

Definition GetObject (c : Client) (tokenRef : string) : prog ObjectEntry :=
  let key := Prefix (cfg c) +:+ tokenRef in
  if iamAuth c then getObjectIAM c key tokenRef else getObjectSDK c key tokenRef.

Definition octets (ct : string) : string := or_string ct "application/octet-stream".

Definition putObjectSDKWithOptions (c : Client) (key body ctype : string) : prog string :=
  Send (SDKPut (c_Bucket (cfg c)) key (octets ctype) body None false) (fun a =>
    match a with Failed _ => throw CallFailed | Replied r => ret (text (etag r)) end).

Definition putObjectIAMWithOptions (c : Client) (key body ctype : string) : prog string :=
  do token := resolved in
  do u := Ret (objectURL c key) in
  Send (HTTP "PUT" u [subjectToken token; ("Content-Type", octets ctype)] (Some body) (Some (Len body)) true) (fun a =>
    match a with
    | Failed _ => throw CallFailed
    | Replied r =>
        if negb (status r =? 200) && negb (status r =? 201) then throw (HTTPStatus (status r))
        else ret (text (etag r))
    end).

Definition PutObjectWithOptions (c : Client) (tokenRef body ctype : string) : prog string :=
  let key := Prefix (cfg c) +:+ tokenRef in
  if iamAuth c then putObjectIAMWithOptions c key body ctype else putObjectSDKWithOptions c key body ctype.

Definition PutObject (c : Client) (tokenRef body : string) : prog string :=
  PutObjectWithOptions c tokenRef body "application/json".

Definition deleteObjectSDK (c : Client) (key : string) : prog unit :=
  Send (SDKDelete (c_Bucket (cfg c)) key) (fun a => match a with Failed _ => throw CallFailed | Replied _ => ret tt end).

Definition deleteObjectIAM (c : Client) (key : string) : prog unit :=
  do token := resolved in
  do u := Ret (objectURL c key) in
  Send (HTTP "DELETE" u [subjectToken token] None None true) (fun a =>
    match a with
    | Failed _ => throw CallFailed
    | Replied r =>
        if negb (status r =? 204) && negb (status r =? 200) then throw (HTTPStatus (status r)) else ret tt
    end).

Definition DeleteObject (c : Client) (tokenRef : string) : prog unit :=
  let key := Prefix (cfg c) +:+ tokenRef in
  if iamAuth c then deleteObjectIAM c key else deleteObjectSDK c key.

(** *** Listing *)

Definition trim_prefix (s p : string) : string :=
  match GoStrings.strip_prefix p s with Some r => r | None => s end.

(** The loop over the objects of one page. *)
Fixpoint fetch_all (c : Client) (keys : list (option string)) : prog (list ObjectEntry) :=
  match keys with
  | [] => ret []
  | None :: keys' => fetch_all c keys'
  | Some key :: keys' =>
      let tokenRef := trim_prefix key (Prefix (cfg c)) in
      if tokenRef ==s "" then fetch_all c keys'
      else
        do e := (if iamAuth c then getObjectIAM c key tokenRef else getObjectSDK c key tokenRef) in
        do es := fetch_all c keys' in
        ret (e :: es)
  end.

(** listPageIAM: a page and the token of the next one, empty when there is
    none. *)
Definition listPageIAM (c : Client) (continuationToken : string) : prog (list (option string) * string) :=
  do token := resolved in
  do u := Ret (bucketURL c) in
  let params := ([("list-type", "2"); ("prefix", Prefix (cfg c))] ++
                 (if continuationToken ==s "" then [] else [("continuation-token", continuationToken)]))%list in
  List_ (MkList (c_Bucket (cfg c)) (Prefix (cfg c)) (nonempty_opt continuationToken)
           (Some (append_query u (encode_values params), [subjectToken token]))) (fun l =>
    match l with
    | LFailed => throw CallFailed
    | LStatus code => throw (HTTPStatus code)
    | LUndecoded => throw ListFailed
    | LPage p => ret (contents p, match truncated p with Some true => text (nextToken p) | _ => "" end)
    end).

(** [fuel] bounds the number of pages. *)
Fixpoint listObjectsIAM (fuel : nat) (c : Client) (continuationToken : string) : prog (list ObjectEntry) :=
  match fuel with
  | O => throw NoFuel
  | S n =>
      do pg := listPageIAM c continuationToken in
      do es := fetch_all c (fst pg) in
      if snd pg ==s "" then ret es
      else do es' := listObjectsIAM n c (snd pg) in ret (es ++ es')%list
  end.

Fixpoint listObjectsSDK (fuel : nat) (c : Client) (continuationToken : option string) : prog (list ObjectEntry) :=
  match fuel with
  | O => throw NoFuel
  | S n =>
      List_ (MkList (c_Bucket (cfg c)) (Prefix (cfg c)) continuationToken None) (fun l =>
        match l with
        | LPage p =>
            do es := fetch_all c (contents p) in
            match truncated p with
            | Some true => do es' := listObjectsSDK n c (nextToken p) in ret (es ++ es')%list
            | _ => ret es
            end
        | _ => throw ListFailed
        end)
  end.

Definition ListObjects (fuel : nat) (c : Client) : prog (list ObjectEntry) :=
  if iamAuth c then listObjectsIAM fuel c "" else listObjectsSDK fuel c None.

(** ** stream.go *)

(** A seekable body: what seeking to its end and its start yields, and its
    bytes. *)
Record stream := MkStream { seek_end : option Z; seek_start : bool; content : string }.

Definition put_reply (ref_ : ObjectRef) (r : reply) : ObjectRef :=
  MkObjectRef (Scope ref_) (Bucket ref_) (Key ref_) (text (etag r)) (text (version r)) (o_ContentType ref_) (Size ref_) (LastModified ref_).

Definition putStream (c : Client) (key : string) (body : option stream) (size : Z) (ctype : string) (ifAbsent : bool) : prog ObjectRef :=
  match body with
  | None => throw BadStream
  | Some body =>
      if (size <? 1) || (MaxStreamObjectBytes <? size) then throw BadStream
      else
        do key := Ret (map_err BadKey (JoinObjectKey (Prefix (cfg c)) key)) in
        match seek_end body with
        | None => throw SeekFailed
        | Some actual =>
            if negb (actual =? size) then throw LengthMismatch
            else if negb (seek_start body) then throw SeekFailed
            else
              let ctype := octets ctype in
              let ref_ := MkObjectRef "" (c_Bucket (cfg c)) key "" "" ctype size None in
              if negb (iamAuth c) then
                Send (SDKPut (c_Bucket (cfg c)) key ctype (content body) (Some size) ifAbsent) (fun a =>
                  match a with
                  | Failed (Some 412) => throw (if ifAbsent then ObjectExists else CallFailed)
                  | Failed _ => throw CallFailed
                  | Replied r => ret (put_reply ref_ r)
                  end)
              else
                do token := resolved in
                do u := Ret (objectURL c key) in
                Send (HTTP "PUT" u ((if ifAbsent then [("If-None-Match", "*")] else []) ++
                                    [("Content-Type", ctype); subjectToken token])%list
                        (Some (limit_read size (content body))) (Some size) false) (fun a =>
                  match a with
                  | Failed _ => throw CallFailed
                  | Replied r =>
                      if ifAbsent && (status r =? 412) then throw ObjectExists
                      else if negb (status r =? 200) && negb (status r =? 201) then throw (HTTPStatus (status r))
                      else ret (put_reply ref_ r)
                  end)
        end
  end.

Definition PutStream (c : Client) (key : string) (body : option stream) (size : Z) (ctype : string) : prog ObjectRef :=
  putStream c key body size ctype false.
Definition PutStreamIfAbsent (c : Client) (key : string) (body : option stream) (size : Z) (ctype : string) : prog ObjectRef :=
  putStream c key body size ctype true.

(** The body, its length if known and the version received. *)
Definition openVersionIAM (c : Client) (key version_ : string) : prog (option string * Z * string) :=
  do token := resolved in
  do u := Ret (objectURL c key) in
  let u := MkURL (origin u) (upath u) (set_param (query u) "versionId" version_) (fragment u) in
  Send (HTTP "GET" u [subjectToken token] None None false) (fun a =>
    match a with
    | Failed _ => throw CallFailed
    | Replied r =>
        if negb (status r =? 200) then throw (HTTPStatus (status r))
        else ret (body r, default (-1) (length_ r), text (version r))
    end).

(** The reader it returns: the bytes of the body and the byte budget. *)
Record boundedObjectReader := MkReader { rest : string; remaining : Z }.

Definition OpenVersion (c : Client) (key version_ : string) (maxBytes : Z) : prog boundedObjectReader :=
  if (version_ ==s "") || (version_ ==s "null") || (maxBytes <? 1) || (MaxStreamObjectBytes <? maxBytes)
  then throw PinnedVersionRequired
  else
    do key := Ret (map_err BadKey (JoinObjectKey (Prefix (cfg c)) key)) in
    do o := (if negb (iamAuth c) then
               Send (SDKGet (c_Bucket (cfg c)) key (Some version_)) (fun a =>
                 match a with
                 | Failed _ => throw CallFailed
                 | Replied r => ret (body r, default (-1) (length_ r), text (version r))
                 end)
             else openVersionIAM c key version_) in
    if negb (snd o ==s version_) || (maxBytes <? snd (fst o)) then throw VersionMismatch
    else ret (MkReader (text (fst (fst o))) maxBytes).

(** *** Reading *)

Inductive read_error := EOF | ReadErr | OverBudget.

(** What one Read of the underlying body does when asked for [n] bytes. *)
Record chunk := MkChunk { got : nat; err : option read_error }.

(** The contract of io.Reader on a body of which [rest] is left. *)
Definition chunk_ok (rest : string) (n : Z) (ch : chunk) : bool :=
  (Z.of_nat (got ch) <=? n) && (Nat.leb (got ch) (String.length rest))
  && match err ch with
     | Some EOF => Nat.eqb (got ch) (String.length rest)
     | Some OverBudget => false
     | _ => true
     end.

Definition drop_bytes (k : nat) (s : string) : string := String.substring k (String.length s - k) s.
Definition take_bytes (k : nat) (s : string) : string := String.substring 0 k s.

(** [Read(p)] with [len(p) = n]: the bytes, the error, and the new state. *)
Definition Read (n : Z) (ch : chunk) (r : boundedObjectReader) : string * option read_error * boundedObjectReader :=
  if n =? 0 then ("", None, r)
  else if remaining r =? 0 then
    let r' := MkReader (drop_bytes (got ch) (rest r)) (remaining r) in
    if (0 <? got ch)%nat then ("", Some OverBudget, r') else ("", err ch, r')
  else
    let r' := MkReader (drop_bytes (got ch) (rest r)) (remaining r - Z.of_nat (got ch)) in
    (take_bytes (got ch) (rest r), err ch, r').

(** The number of bytes the underlying Read is asked for. *)
Definition asked (n : Z) (r : boundedObjectReader) : Z :=
  if remaining r =? 0 then 1 else Z.min n (remaining r).

(** Reads until the first error: what was delivered, and the error if any. *)
Fixpoint read_loop (l : list (Z * chunk)) (r : boundedObjectReader) : option (string * option read_error) :=
  match l with
  | [] => Some ("", None)
  | (n, ch) :: l' =>
      if (n <? 0) || (negb (n =? 0) && negb (chunk_ok (rest r) (asked n r) ch)) then None
      else
        let '(b, e, r') := Read n ch r in
        match e with
        | Some e => Some (b, Some e)
        | None => '(b', e') ← read_loop l' r'; Some (b +:+ b', e')
        end
  end.

(** ** object.go *)

Definition statObjectSDK (c : Client) (key tokenRef : string) : prog ObjectInfo :=
  Send (SDKHead (c_Bucket (cfg c)) key) (fun a =>
    match a with
    | Failed (Some 404) => throw NotFound
    | Failed _ => throw CallFailed
    | Replied r =>
        ret (MkObjectRef "" (c_Bucket (cfg c)) tokenRef (text (etag r)) (text (version r)) (text (ctype_ r))
               (default 0 (length_ r)) (modified r))
    end).

(** A header of the response, given as text. *)
Definition parsed {B} (f : string -> option B) (e : s3err) (h : string) : result s3err (option B) :=
  if h ==s "" then Ok None else match f h with None => Err e | Some b => Ok (Some b) end.

Definition statObjectIAM (c : Client) (key tokenRef : string) : prog ObjectInfo :=
  do token := resolved in
  do u := Ret (objectURL c key) in
  Send (HTTP "HEAD" u [subjectToken token] None None false) (fun a =>
    match a with
    | Failed _ => throw CallFailed
    | Replied r =>
        if status r =? 404 then throw NotFound
        else if negb (status r =? 200) then throw (HTTPStatus (status r))
        else
          do size := Ret (parsed ParseInt BadLength (text (length_text r))) in
          do last := Ret (parsed ParseHTTPDate BadDate (text (modified_text r))) in
          ret (MkObjectRef "" (c_Bucket (cfg c)) tokenRef (text (etag r)) (text (version r)) (text (ctype_ r)) (default 0 size) last)
    end).

Definition StatObject (c : Client) (tokenRef : string) : prog ObjectInfo :=
  let key := Prefix (cfg c) +:+ tokenRef in
  if iamAuth c then statObjectIAM c key tokenRef else statObjectSDK c key tokenRef.

Definition StatStreamObject (c : Client) (key : string) : prog ObjectRef :=
  do key := Ret (map_err BadKey (JoinObjectKey (Prefix (cfg c)) key)) in
  if iamAuth c then statObjectIAM c key key else statObjectSDK c key key.

Definition defaultContentType (value : string) : string :=
  if TrimSpace value ==s "" then "application/octet-stream" else TrimSpace value.

Definition signedHeaders (headers : Gateway.Header) : gmap string string :=
  join "," <$> filter (fun kv => kv.2 <> []) headers.

Record PresignPutOptions := MkPutOptions { po_ExpiresIn : Z; po_ContentType : string; ChecksumSHA256Base64 : string }.
Record PresignGetOptions := MkGetOptions { go_ExpiresIn : Z; ResponseContentType : string; ResponseContentDisposition : string }.

(** The SDK's presigning calls. *)
Context (PresignPutSDK : string -> string -> string -> option string -> Z -> option (string * Gateway.Header)).
Context (PresignGetSDK : string -> string -> option string -> option string -> Z -> option (string * Gateway.Header)).

Definition PresignPutObject (c : Client) (now : Z) (tokenRef : string) (opts : PresignPutOptions) : result s3err SignedRequest :=
  if negb (presigns c) then Err SigningUnsupported
  else match PresignPutSDK (c_Bucket (cfg c)) (Prefix (cfg c) +:+ tokenRef) (defaultContentType (po_ContentType opts))
               (nonempty_opt (ChecksumSHA256Base64 opts)) (po_ExpiresIn opts) with
       | None => Err CallFailed
       | Some (u, h) => Ok (MkPresigned "PUT" u (signedHeaders h) (now + po_ExpiresIn opts))
       end.

Definition PresignGetObject (c : Client) (now : Z) (tokenRef : string) (opts : PresignGetOptions) : result s3err ReadLink :=
  if negb (presigns c) then Err SigningUnsupported
  else match PresignGetSDK (c_Bucket (cfg c)) (Prefix (cfg c) +:+ tokenRef) (nonempty_opt (ResponseContentType opts))
               (nonempty_opt (ResponseContentDisposition opts)) (go_ExpiresIn opts) with
       | None => Err CallFailed
       | Some (u, h) => Ok (MkReadLink u (signedHeaders h) (now + go_ExpiresIn opts))
       end.

(** ** Streams stay below the bucket and the prefix *)

(** A bucket name is one path segment. *)
Definition bucket_ok (c : Client) : Prop := normal (c_Bucket (cfg c)) /\ no_slash (c_Bucket (cfg c)) = true.

(** The request addresses [key] in the client's bucket: over HTTP it goes to the
    endpoint's scheme and host, its path is the bucket's with the key below it,
    and it follows no redirect. *)
Definition addresses (c : Client) (key : string) (r : request) : Prop :=
  match r with
  | SDKPut b k _ _ _ _ | SDKGet b k _ | SDKHead b k | SDKDelete b k => b = c_Bucket (cfg c) /\ k = key
  | HTTP _ u _ _ _ redirects =>
      redirects = false /\
      exists base, url_Parse (Endpoint (cfg c)) = Some base /\ origin u = origin base /\
                   upath u = Join [upath base; c_Bucket (cfg c)] +:+ "/" +:+ key
  end.

Lemma Join_base p b key :
  b <> "" -> Join [p; b; key] = Clean ((if p ==s "" then b else p +:+ "/" +:+ b) +:+ "/" +:+ key) /\
             Join [p; b] = Clean (if p ==s "" then b else p +:+ "/" +:+ b).
Proof.
  intros Hb. unfold Join, join_elems. cbn [forallb fold_left String.eqb].
  change ("" ==s "") with true. cbv iota. rewrite (proj2 (String.eqb_neq _ _) Hb), andb_false_r. cbn [andb].
  assert (forall x, x <> "" -> (if x ==s "" then key else x +:+ "/" +:+ key) = x +:+ "/" +:+ key) as Hx
    by (intros x Hx; by rewrite (proj2 (String.eqb_neq _ _) Hx)).
  rewrite Hx by (destruct p; [exact Hb|done]). by rewrite andb_false_r.
Qed.

Lemma Split_bucket p b : no_slash b = true -> exists rest, (Split "/" (if p ==s "" then b else p +:+ "/" +:+ b) = rest ++ [b])%list.
Proof.
  intros Hb. destruct (p ==s ""); [exists []; by apply Split_single|].
  exists (Split "/" p). change (p +:+ "/" +:+ b) with (p +:+ String "/" b). rewrite Split_app_sep. f_equal. by apply Split_single.
Qed.

(** A clean relative key is a path below the bucket, as it is. *)
Lemma objectURL_below c key u :
  bucket_ok c -> Forall normal (Split "/" key) -> objectURL c key = Ok u ->
  exists base, url_Parse (Endpoint (cfg c)) = Some base /\ origin u = origin base /\
               upath u = Join [upath base; c_Bucket (cfg c)] +:+ "/" +:+ key.
Proof.
  intros [Hn Hs] Hk. unfold objectURL. destruct (url_Parse _) as [base|]; [|done]. intros [= <-].
  exists base. split_and!; [done..|]. cbn [upath].
  destruct (Join_base (upath base) (c_Bucket (cfg c)) key) as [-> ->]; [apply Hn|].
  destruct (Split_bucket (upath base) (c_Bucket (cfg c)) Hs) as [rest_ Hr]. by eapply Clean_below.
Qed.

Lemma sends_resolved P : sends P resolved.
Proof. constructor. intros [t|]; constructor. Qed.

Lemma sends_ok {A B} P (r : result s3err A) (f : A -> prog B) :
  (forall a, r = Ok a -> sends P (f a)) -> sends P (bind (Ret r) f).
Proof. intros H. destruct r as [a|e]; cbn; [by apply H|constructor]. Qed.

Lemma joined_key c key k : map_err BadKey (JoinObjectKey (Prefix (cfg c)) key) = Ok k -> Forall normal (Split "/" k).
Proof. intros H%map_err_ok. by eapply JoinObjectKey_normal. Qed.

(** The token, then the URL, then a request to it. *)
Lemma sends_url {A} c k R (f : string -> URL -> prog A) :
  bucket_ok c -> Forall normal (Split "/" k) ->
  (forall t u, (exists base, url_Parse (Endpoint (cfg c)) = Some base /\ origin u = origin base /\
                             upath u = Join [upath base; c_Bucket (cfg c)] +:+ "/" +:+ k) -> sends R (f t u)) ->
  sends R (do token := resolved in do u := Ret (objectURL c k) in f token u).
Proof.
  intros Hb Hk Hf. apply sends_bind; [apply sends_resolved|]. intros t. apply sends_ok. intros u Hu.
  by apply Hf, objectURL_below.
Qed.

(** An answer ends the operation. *)
Ltac answered := intros [?|?]; repeat case_match; repeat (apply sends_ok; intros); constructor.

(** Addressing, in the bucket, the configured prefix and [key] below it. *)
Definition below_prefix (c : Client) (key : string) (r : request) : Prop :=
  exists k, key_below (Prefix (cfg c)) key k /\ addresses c k r.

Lemma sends_putStream c key body_ size ct ifAbsent :
  bucket_ok c -> sends (below_prefix c key) (putStream c key body_ size ct ifAbsent).
Proof.
  intros Hb. unfold putStream. destruct body_ as [b|]; [|constructor]. destruct (_ || _); [constructor|].
  apply sends_ok. intros k Hk. pose proof (joined_key _ _ _ Hk) as Hn. apply map_err_ok, JoinObjectKey_below in Hk.
  destruct (seek_end b) as [actual|]; [|constructor]. destruct (negb _); [constructor|]. destruct (negb _); [constructor|].
  destruct (iamAuth c); cbn [negb].
  - apply sends_url; [done..|]. intros t u Hu. constructor; [by exists k|]. answered.
  - constructor; [by exists k|]. answered.
Qed.

Lemma sends_OpenVersion c key v n : bucket_ok c -> sends (below_prefix c key) (OpenVersion c key v n).
Proof.
  intros Hb. unfold OpenVersion. destruct (_ || _); [constructor|].
  apply sends_ok. intros k Hk. pose proof (joined_key _ _ _ Hk) as Hn. apply map_err_ok, JoinObjectKey_below in Hk.
  apply sends_bind; [|intros o; destruct (_ || _); constructor].
  destruct (iamAuth c); cbn [negb].
  - apply sends_url; [done..|]. intros t u Hu. constructor; [by exists k|]. answered.
  - constructor; [by exists k|]. answered.
Qed.

Lemma sends_StatStreamObject c key : bucket_ok c -> sends (below_prefix c key) (StatStreamObject c key).
Proof.
  intros Hb. unfold StatStreamObject. apply sends_ok. intros k Hk. pose proof (joined_key _ _ _ Hk) as Hn. apply map_err_ok, JoinObjectKey_below in Hk.
  destruct (iamAuth c).
  - apply sends_url; [done..|]. intros t u Hu. constructor; [by exists k|]. answered.
  - constructor; [by exists k|]. answered.
Qed.

(** C16. Streams stay below the prefix, in a bucket whose name is one path
    segment other than "." and ".." (NewClient does not check that): every request
    that a stream operation can send, whatever the store and the resolver answer,
    addresses in the client's bucket the object key that consists of the
    configured prefix without the slashes around it and the given key, all of
    whose segments are non-empty and not dots; over HTTP it goes to the endpoint's
    scheme and host, its path is the bucket's path with that object key below it,
    and the subject token does not follow a redirect. *)
Theorem streams_stay_below_prefix c key :
  bucket_ok c ->
  (forall b size ct ifAbsent, sends (below_prefix c key) (putStream c key b size ct ifAbsent)) /\
  (forall v n, sends (below_prefix c key) (OpenVersion c key v n)) /\
  sends (below_prefix c key) (StatStreamObject c key).
Proof.
  intros Hb. split_and!; intros; [by apply sends_putStream|by apply sends_OpenVersion|by apply sends_StatStreamObject].
Qed.

End client.

(** ** The byte budget *)

Lemma substring_full s : String.substring 0 (String.length s) s = s.
Proof. induction s as [|c s IH]; [done|]. cbn. by rewrite IH. Qed.

Lemma take_drop k s :
  (k <= String.length s)%nat -> s = take_bytes k s +:+ drop_bytes k s /\ String.length (take_bytes k s) = k.
Proof.
  unfold take_bytes, drop_bytes. revert k; induction s as [|c s IH]; intros k Hk.
  - by assert (k = 0%nat) as -> by (simpl in Hk; lia).
  - destruct k as [|k].
    + split; [|done]. rewrite Nat.sub_0_r, substring_full. done.
    + simpl in Hk. destruct (IH k) as (H1 & H2); [lia|]. cbn [String.length String.substring Nat.sub].
      split; [rewrite append_cons; by rewrite <- H1|by rewrite H2].
Qed.

(** One Read: what it delivers comes off the front of the body and off the
    budget; the end is reported when nothing is left. *)
Lemma Read_step n ch r b e r' :
  0 <= remaining r -> n = 0 \/ chunk_ok (rest r) (asked n r) ch = true -> Read n ch r = (b, e, r') ->
  Len b + remaining r' = remaining r /\ 0 <= remaining r' /\
  (b = "" /\ e = Some OverBudget \/ rest r = b +:+ rest r' /\ (e = Some EOF -> rest r' = "")).
Proof.
  intros Hr Hok. unfold Read, asked, chunk_ok in *. destruct (Z.eqb_spec n 0) as [->|Hn].
  { intros [= <- <- <-]. split_and!; [unfold Len; simpl; lia|done|by right]. }
  destruct Hok as [|[[Hg1 Hg2]%andb_true_iff He]%andb_true_iff]; [done|].
  apply Z.leb_le in Hg1. apply Nat.leb_le in Hg2. destruct (take_drop _ _ Hg2) as [Hs Hlen].
  assert (err ch = Some EOF -> drop_bytes (got ch) (rest r) = "") as Hend.
  { intros E. rewrite E in He. apply Nat.eqb_eq in He. pose proof (f_equal String.length Hs) as Hl.
    rewrite length_append in Hl. destruct (drop_bytes (got ch) (rest r)); [done|simpl in Hl; lia]. }
  destruct (Z.eqb_spec (remaining r) 0) as [H0|H0].
  - destruct (Nat.ltb_spec 0 (got ch)); intros [= <- <- <-]; cbn [remaining rest];
      (split_and!; [unfold Len; simpl; lia|lia|]); [by left|right].
    replace (got ch) with 0%nat in * by lia. replace (take_bytes 0 (rest r)) with "" in Hs by (by destruct (rest r)). by split.
  - intros [= <- <- <-]. cbn [remaining rest]. split_and!; [unfold Len; lia|lia|by right].
Qed.

(** C39. However the store's body trickles in, the reader delivers a prefix of it
    of at most the byte budget; and when it reports the end of the body without
    an error, it has delivered all of it.  A larger body ends in an error. *)
Theorem bounded_reader_sound l r out e :
  0 <= remaining r -> read_loop l r = Some (out, e) ->
  Len out <= remaining r /\ (exists tail, rest r = out +:+ tail) /\ (e = Some EOF -> out = rest r).
Proof.
  revert r out; induction l as [|[n ch] l IH]; intros r out Hr; cbn [read_loop].
  { intros [= <- <-]. split_and!; [done|by exists (rest r)|done]. }
  destruct ((n <? 0) || _) eqn:Hg; [done|]. apply orb_false_iff in Hg as [_ Hg].
  destruct (Read n ch r) as [[b e1] r'] eqn:HR.
  apply Read_step in HR as (Hl & Hr' & Hb); [|done|destruct (Z.eqb_spec n 0); [by left|right; by apply negb_false_iff]].
  pose proof (Len_nonneg b). destruct e1 as [e1|].
  - intros [= <- <-]. split_and!; [lia| |].
    + destruct Hb as [[-> _]|[Hb _]]; [by exists (rest r)|by exists (rest r')].
    + intros [= ->]. destruct Hb as [[_ ?]|[Hb Hend]]; [done|]. by rewrite Hb, (Hend eq_refl), append_nil_r.
  - destruct Hb as [[_ ?]|[Hb _]]; [done|]. destruct (read_loop l r') as [[b' e']|] eqn:Hloop; [|done]. cbn.
    intros [= <- <-]. apply IH in Hloop as (H1 & (tail & H2) & H3); [|done]. split_and!.
    + unfold Len in *. rewrite length_append. lia.
    + exists tail. by rewrite append_assoc, <- H2.
    + intros He. by rewrite (H3 He).
Qed.

Lemma bounded_reader_witness :
  Len "abc" <= 3 /\ (exists tail, "abc" = "abc" +:+ tail) /\ (Some EOF = Some EOF -> "abc" = "abc").
Proof.
  refine (bounded_reader_sound [(8, MkChunk 2 None); (8, MkChunk 0 None); (8, MkChunk 1 None); (8, MkChunk 0 (Some EOF))]
            (MkReader "abc" 3) "abc" (Some EOF) _ _); [vm_compute; discriminate|vm_compute; reflexivity].
Defined.

(** ** Listing *)

(** The pages of a bucket from token [t] on: each but the last is truncated and
    names the next one's token. *)
Inductive pages (w : world) : option string -> list (list (option string)) -> Prop :=
| pages_last t p : w_page w t = LPage p -> truncated p <> Some true -> pages w t [contents p]
| pages_more t p t' l : w_page w t = LPage p -> truncated p = Some true -> nextToken p = Some t' -> t' <> "" ->
    pages w (Some t') l -> pages w t (contents p :: l).

(** The listed keys that stand for tokens, with the tokens' names. *)
Definition token_keys (c : Client) (keys : list (option string)) : list (string * string) :=
  omap (fun k => match k with
                 | Some k => let r := trim_prefix k (Prefix (cfg c)) in if r ==s "" then None else Some (k, r)
                 | None => None
                 end) keys.

Section listing.
Context (url_Parse : string -> option URL) {Q : QueryText}.

(** Fetching one key. *)
Definition fetch (c : Client) (key tokenRef : string) : prog ObjectEntry :=
  if iamAuth c then getObjectIAM url_Parse c key tokenRef else getObjectSDK c key tokenRef.

Lemma fetch_all_run w c keys es :
  Forall2 (fun k e => run w (fetch c k.1 k.2) = Ok e) (token_keys c keys) es ->
  run w (fetch_all url_Parse c keys) = Ok es.
Proof.
  revert es; induction keys as [|[k|] keys IH]; intros es; cbn [fetch_all token_keys omap list_omap]; [by intros ->%Forall2_nil_inv_l| |apply IH].
  destruct (trim_prefix k (Prefix (cfg c)) ==s ""); [apply IH|].
  intros (e & es' & He & Hes & ->)%Forall2_cons_inv_l. cbn in He. rewrite run_bind. fold (fetch c k (trim_prefix k (Prefix (cfg c)))).
  rewrite He. rewrite run_bind, (IH _ Hes). done.
Qed.

Abbreviation fetched w c ps es := (Forall2 (fun k e => run w (fetch c k.1 k.2) = Ok e) (token_keys c (concat ps)) es).

Lemma fetched_cons w c p ps es :
  fetched w c (p :: ps) es ->
  exists es1 es2, es = (es1 ++ es2)%list /\ run w (fetch_all url_Parse c p) = Ok es1 /\ fetched w c ps es2.
Proof.
  cbn [concat]. unfold token_keys. rewrite omap_app. intros (es1 & es2 & H1 & H2 & ->)%Forall2_app_inv_l.
  exists es1, es2. split; [done|]. split; [by apply fetch_all_run|done].
Qed.

Lemma fetched_one w c p es : fetched w c [p] es -> run w (fetch_all url_Parse c p) = Ok es.
Proof. intros (es1 & es2 & -> & H1 & ->%Forall2_nil_inv_l)%fetched_cons. by rewrite app_nil_r. Qed.

Lemma listSDK_run w c t ps : pages w t ps -> forall es n,
  fetched w c ps es -> (length ps <= n)%nat -> run w (listObjectsSDK url_Parse n c t) = Ok es.
Proof.
  induction 1 as [t p Hp Htr|t p t' l Hp Htr Hn Hne Hl IH]; intros es [|n] Hf Hle; try (simpl in Hle; lia);
    cbn [listObjectsSDK run l_token]; rewrite Hp, run_bind.
  - rewrite (fetched_one _ _ _ _ Hf). by destruct (truncated p) as [[]|].
  - apply fetched_cons in Hf as (es1 & es2 & -> & -> & H2). rewrite Htr, Hn, run_bind.
    by rewrite (IH es2 n H2) by (simpl in Hle; lia).
Qed.

Lemma listIAM_run w c tok t ps : w_token w = Some tok -> is_Some (url_Parse (Endpoint (cfg c))) -> pages w t ps ->
  forall s es n, t = nonempty_opt s ->
  fetched w c ps es -> (length ps <= n)%nat -> run w (listObjectsIAM url_Parse n c s) = Ok es.
Proof.
  intros Ht [base Hu]. induction 1 as [t p Hp Htr|t p t' l Hp Htr Hn Hne Hl IH]; intros s es [|n] Hs Hf Hle; try (simpl in Hle; lia);
    cbn [listObjectsIAM]; rewrite !run_bind; unfold listPageIAM, resolved, bucketURL; rewrite Hu; cbn [run bind];
    rewrite Ht; cbn [run bind l_token]; rewrite <- Hs, Hp; cbn [run fst snd]; rewrite run_bind.
  - rewrite (fetched_one _ _ _ _ Hf). by destruct (truncated p) as [[]|].
  - apply fetched_cons in Hf as (es1 & es2 & -> & -> & H2). rewrite Htr, Hn. change (text (Some t')) with t'.
    rewrite (proj2 (String.eqb_neq _ _) Hne), run_bind. rewrite (IH t' es2 n); [done| |done|simpl in Hle; lia].
    unfold nonempty_opt. by rewrite (proj2 (String.eqb_neq _ _) Hne).
Qed.

(** Listing walks all pages in order and returns an entry for each listed
    key other than the bare prefix, within as many turns as there are pages. *)
Theorem ListObjects_complete w c ps es n :
  is_Some (w_token w) -> is_Some (url_Parse (Endpoint (cfg c))) ->
  pages w None ps -> fetched w c ps es ->
  (length ps <= n)%nat -> run w (ListObjects url_Parse n c) = Ok es.
Proof.
  intros [tok Ht] Hu Hp Hf Hn. unfold ListObjects. destruct (iamAuth c).
  - by eapply listIAM_run.
  - by eapply listSDK_run.
Qed.

End listing.

(** ** Concrete clients *)
Module Demo.

Definition no_secret : Secret.t := Secret.NewSecret "".
Definition config : Config :=
  MkS3Config "tokens-bucket" "https://s3.example" "ru" "tokens/" (MkAuthConfig "metadata" no_secret no_secret "" no_secret no_secret).
Definition client : Client := MkClient config true false.
Definition parse (_ : string) : option URL := Some (MkURL "https://s3.example" "" "" "").
#[local] Instance plain_query : QueryText :=
  {| encode_values l := String.concat "&" (map (fun kv => fst kv +:+ "=" +:+ snd kv) l);
     set_param q k v := (if q ==s "" then "" else q +:+ "&") +:+ k +:+ "=" +:+ v |}.

Lemma streams_witness :
  bucket_ok client /\ sends (below_prefix parse client "a/b") (StatStreamObject parse (fun _ => None) client "a/b").
Proof.
  assert (bucket_ok client) as H by (split; [repeat split; discriminate|reflexivity]). split; [exact H|].
  exact (proj2 (proj2 (streams_stay_below_prefix parse (fun _ => None) client "a/b" H))).
Defined.

(** A store of two pages. *)
Definition reply_of (b : string) : reply := MkReply 200 None (Some "e") None None None None None (Some b).
Definition two_pages : world :=
  MkWorld (Some "t") (fun _ => Replied (reply_of "{}"))
    (fun t => match t with
              | None => LPage (MkPage [Some "tokens/"; Some "tokens/a"] (Some true) (Some "n"))
              | Some _ => LPage (MkPage [None; Some "tokens/b"] (Some false) None)
              end).

Lemma ListObjects_witness :
  run two_pages (ListObjects parse 2 client) = Ok [MkEntry "a" "{}" "e"; MkEntry "b" "{}" "e"].
Proof.
  refine (ListObjects_complete parse two_pages client [[Some "tokens/"; Some "tokens/a"]; [None; Some "tokens/b"]] _ 2 _ _ _ _ _);
    [by eexists|by eexists| |repeat constructor|reflexivity].
  eapply (pages_more two_pages None (MkPage [Some "tokens/"; Some "tokens/a"] (Some true) (Some "n")) "n");
    [reflexivity..|discriminate|]. by apply (pages_last two_pages (Some "n") (MkPage [None; Some "tokens/b"] (Some false) None)).
Defined.

(** A token reference with dot segments leaves the prefix and the bucket, and
    the subject token goes along. *)
Lemma get_escapes_bucket :
  match GetObject parse client "../../other/secret" with
  | Resolve k => match k (Some "t") with
                 | Send (HTTP m u h _ _ redirects) _ => (m, upath u, h, redirects) = ("GET", "other/secret", [subjectToken "t"], true)
                 | _ => False
                 end
  | _ => False
  end.
Proof. vm_compute. reflexivity. Qed.

(** NewClient accepts ".." as a bucket: the path then leaves the endpoint's. *)
Lemma dots_bucket_escapes :
  let c := MkClient (MkS3Config ".." "https://s3.example/team" "ru" "" (Auth config)) true false in
  NewClient (fun _ => Ok tt) (cfg c) = Ok c /\
  objectURL (fun _ => Some (MkURL "https://s3.example" "/team" "" "")) c "secret" = Ok (MkURL "https://s3.example" "/secret" "" "").
Proof. vm_compute. done. Qed.

(** A truncated page without a token: the SDK listing starts over, for ever. *)
Definition no_next : world :=
  MkWorld None (fun _ => Failed None) (fun _ => LPage (MkPage [] (Some true) None)).
Lemma listing_restarts n : run no_next (listObjectsSDK parse n client None) = Err NoFuel.
Proof. induction n as [|n IH]; [done|]. cbn [listObjectsSDK run w_page no_next contents fetch_all bind truncated nextToken]. by rewrite run_bind, IH. Qed.

End Demo.
