(* ===== verification/Notify.v ===== *)
(** * The notification client (src/notify)

    The batching core of AsyncClient.v on notifications.  Unlike the audit
    client, [Record] looks at the [closed] flag under the mutex and sends to the
    channel after releasing it, and [Close] sets the flag under the mutex and
    closes the channel after releasing it; the two halves of each are separate
    steps here.  A copy made by cloneNotification is the value itself;
    [Ownership] shows when that is right. *)
From S2P Require Import Prelude GoStrings StsClient AsyncClient.
Local Open Scope Z_scope.

(** ** types.go *)

Abbreviation Channel := string.
Definition ChannelUnspecified : Channel := "".
Definition ChannelSite : Channel := "site".
Definition ChannelTelegram : Channel := "telegram".
Definition ChannelEmail : Channel := "email".

Abbreviation Priority := string.
Definition PriorityUnspecified : Priority := "".
Definition PriorityLow : Priority := "low".
Definition PriorityNormal : Priority := "normal".
Definition PriorityHigh : Priority := "high".
Definition PriorityUrgent : Priority := "urgent".

Record Notification := MkNotification {
  ID : string; Topic : string; Title : string; Body : string; Link : string; Metadata : gmap string string;
  priority : Priority; Recipients : list string; Channels : list Channel; Sender : string }.

#[global] Instance Notification_eq_dec : EqDecision Notification.
Proof. solve_decision. Defined.

(** ** http_transport.go *)

Inductive notify_error :=
| TransportRequired | MarshalFailed | BuildFailed | RequestFailed | BadStatus (code : Z) | RouterFailed.

Definition ingestURL (baseURL : string) : string :=
  (TrimRightByte "/" (TrimSpace baseURL) +:+ "/ingest")%string.

(** What becomes of the POST of a batch. *)
Inductive post := PostUnmarshalable | PostUnbuilt | PostFailed | PostStatus (code : Z).

(** [Send] on a transport that may be nil: the requests made and the outcome. *)
Definition Send (transport : option string) (p : post) (notifications : list Notification)
  : list (string * list Notification) * result notify_error unit :=
  match transport, notifications with
  | None, _ | _, [] => ([], Ok tt)
  | Some url, _ =>
      match p with
      | PostUnmarshalable => ([], Err MarshalFailed)
      | PostUnbuilt => ([], Err BuildFailed)
      | PostFailed => ([(url, notifications)], Err RequestFailed)
      | PostStatus code =>
          ([(url, notifications)], if (code =? 200) || (code =? 202) then Ok tt else Err (BadStatus code))
      end
  end.

(** ** client.go *)

Abbreviation Core := (AsyncClient.Client Notification).

(** A notification is made of texts, lists and a map of texts, which
    [json.Marshal] always encodes. *)
#[export] Instance notification_marshals : Marshals Notification := fun _ => true.

(** The batching core with the [closed] flag of the client; the channel itself
    is closed when [closed core] is.  [closing] is a [Close] between its two
    halves, [pending] the callers of [Record] between theirs, [handed] the ghost
    history of what callers handed over. *)
Record Client := MkClient {
  core : Core; flag : bool; closing : bool; pending : list Notification; panicked : bool; handed : list Notification }.

Definition NewClient (cfg : ClientConfig) : result notify_error Client :=
  match AsyncClient.NewClient cfg with
  | None => Err TransportRequired
  | Some c => Ok (MkClient c false false [] false [])
  end.

(** The first half of [Record]: under the mutex. *)
Definition record_check (n : option Notification) (c : Client) : Client :=
  match n with
  | None => c
  | Some n =>
      if flag c then
        MkClient (fallback client_closed [n] (add_recorded n (core c))) (flag c) (closing c) (pending c) (panicked c) (n :: handed c)
      else MkClient (core c) (flag c) (closing c) (pending c ++ [n])%list (panicked c) (n :: handed c)
  end.

(** The second half: a send, in a select with a default, panics on a closed
    channel. *)
Definition record_send (i : nat) (c : Client) : option Client :=
  match pending c !! i with
  | None => None
  | Some n =>
      if closed (core c) then Some (MkClient (core c) (flag c) (closing c) (pending c) true (handed c))
      else Some (MkClient (enqueue n (add_recorded n (core c))) (flag c) (closing c) (delete i (pending c)) (panicked c) (handed c))
  end.

(** [RecordSync]. *)
Definition RecordSync (transport : option (list Notification -> result notify_error unit)) (n : option Notification)
  : result notify_error unit :=
  match n, transport with
  | None, _ => Ok tt
  | Some _, None => Err TransportRequired
  | Some n, Some send => send [n]
  end.

(** [Close], up to the release of the mutex and from the close of the channel. *)
Definition close_flag (c : Client) : Client :=
  if flag c then c else MkClient (core c) true true (pending c) (panicked c) (handed c).

Definition close_chan (c : Client) : option Client :=
  if closing c then Some (MkClient (close_events (core c)) (flag c) false (pending c) (panicked c) (handed c)) else None.

(** dispatchLoop and workerLoop, one turn of one of them. *)
Definition dispatchLoop_recv : Core -> option Core := dispatch_recv.
Definition dispatchLoop_timer : Core -> option Core := dispatch_timer.
Definition workerLoop_take : nat -> Core -> option Core := worker_take.
Definition workerLoop_sent : nat -> bool -> Core -> option Core := worker_sent.

Definition loops (a : step) (c : Core) : option Core :=
  match a with
  | ARecv => dispatchLoop_recv c
  | ATimer => dispatchLoop_timer c
  | ATake w => workerLoop_take w c
  | ASent w ok => workerLoop_sent w ok c
  end.

Inductive action :=
| NRecord (n : option Notification) | NSend (i : nat) | NCloseFlag | NCloseChan | NStep (a : step).

(** A panic takes the process down. *)
Definition exec (a : action) (c : Client) : option Client :=
  if panicked c then None
  else
    match a with
    | NRecord n => Some (record_check n c)
    | NSend i => record_send i c
    | NCloseFlag => Some (close_flag c)
    | NCloseChan => close_chan c
    | NStep a => k ← loops a (core c); Some (MkClient k (flag c) (closing c) (pending c) (panicked c) (handed c))
    end.

Fixpoint run (acts : list action) (c : Client) : option Client :=
  match acts with
  | [] => Some c
  | a :: acts' => c' ← exec a c; run acts' c'
  end.

(** NewRouterClient: off without a configuration. *)
Definition NewRouterClient (cfg : option ServiceAuthConfig) (router : option string) : result notify_error (option (string * Client)) :=
  match cfg with
  | Some cfg =>
      if negb (IsConfigured cfg) then Ok None
      else match router with
           | None => Err RouterFailed
           | Some base => let? c := NewClient (MkClientConfig true 0 0 0 None) in Ok (Some (ingestURL base, c))
           end
  | None => Ok None
  end.

(** ** Accounting, and when a panic is possible *)

Record inv (c : Client) : Prop := {
  n_core : Inv (core c);
  n_handed : handed c ≡ₚ (pending c ++ recorded (core c))%list;
  n_closing : closing c = true -> closed (core c) = false;
  n_closed : closed (core c) = true -> flag c = true;
  n_flag : closing c = true -> flag c = true }.

Lemma recorded_fallback r l (c : Core) : recorded (fallback r l c) = recorded c.
Proof. unfold fallback. by destruct (fallbackLog c). Qed.

Lemma recorded_flush (c : Core) : recorded (flush c) = recorded c.
Proof. unfold flush. destruct (batch c); [done|]. destruct (Nat.ltb _ _); [done|]. by rewrite recorded_fallback. Qed.

Lemma enqueue_same (n : Notification) (c : Core) :
  recorded (enqueue n c) = recorded c /\ closed (enqueue n c) = closed c.
Proof. unfold enqueue. destruct (Nat.ltb _ _); [done|]. by rewrite recorded_fallback, closed_fallback. Qed.

(** The loops hand nothing over. *)
Lemma recorded_step a (c c' : Core) : exec_step a c = Some c' -> recorded c' = recorded c.
Proof.
  destruct a as [| |w|w ok]; simpl; intros Hx.
  - unfold dispatch_recv in Hx. destruct (dispatcherDone c); [done|].
    destruct (events c); [destruct (closed c); [|done]; injection Hx as <-; cbn; apply recorded_flush|].
    cbn [batch set_events] in Hx. destruct (batch c); [by injection Hx as <-|].
    destruct (Nat.leb _ _); injection Hx as <-; [by rewrite recorded_flush|done].
  - unfold dispatch_timer in Hx. destruct (dispatcherDone c); [done|]. destruct (batch c); [done|].
    destruct (timer c); [|done]. injection Hx as <-. by rewrite recorded_flush.
  - unfold worker_take in Hx. case_go.
  - unfold worker_sent in Hx. destruct (workers c !! w) as [[]|]; try done.
    injection Hx as <-. destruct ok; [done|by rewrite recorded_fallback].
Qed.

Lemma inv_exec a c c' : inv c -> exec a c = Some c' -> inv c'.
Proof.
  intros HI. pose proof HI as [h1 h2 h3 h4 h5]. unfold exec. destruct (panicked c); [done|].
  destruct a as [[n|]|i| | |a]; cbn [record_check].
  - intros [= <-]. destruct (flag c) eqn:Hf; constructor; cbn; rewrite ?recorded_fallback, ?closed_fallback; try done.
    + by apply inv_fallback.
    + cbn. rewrite h2. apply Permutation_middle.
    + rewrite h2, <- app_assoc. apply Permutation_middle.
  - by intros [= <-].
  - unfold record_send. destruct (pending c !! i) as [n|] eqn:Hp; [|done].
    destruct (closed (core c)) eqn:Hc; intros [= <-]; [constructor; cbn; rewrite ?Hc; auto|].
    destruct (enqueue_same n (add_recorded n (core c))) as [He1 He2].
    constructor; cbn; rewrite ?He1, ?He2; cbn; rewrite ?Hc; try done; [by apply inv_enqueue|].
    rewrite h2. etrans; [apply Permutation_app_tail, (delete_Permutation _ _ _ Hp)|]. apply Permutation_middle.
  - intros [= <-]. unfold close_flag. destruct (flag c) eqn:Hf; [done|]. constructor; cbn; try done.
    intros _. destruct (closed (core c)) eqn:Hc; [|done]. specialize (h4 eq_refl). congruence.
  - unfold close_chan. destruct (closing c) eqn:Hc; [|done]. intros [= <-]. constructor; cbn; auto. by apply inv_close.
  - destruct (loops a (core c)) as [k|] eqn:Hk; [|done]. intros [= <-].
    assert (exec_step a (core c) = Some k) as Hs by (by destruct a).
    constructor; cbn; rewrite ?(recorded_step _ _ _ Hs), ?(closed_step _ _ _ Hs); try done. by eapply inv_step.
Qed.

Lemma notify_inv_start cfg c : NewClient cfg = Ok c -> inv c.
Proof.
  unfold NewClient. destruct (AsyncClient.NewClient cfg) as [k|] eqn:Hk; [|done]. intros [= <-].
  pose proof (inv_new _ _ Hk) as Hi.
  assert (recorded k = [] /\ closed k = false) as [Hr Hc].
  { unfold AsyncClient.NewClient in Hk. destruct (HasTransport cfg); [|done]. by injection Hk as <-. }
  constructor; cbn; rewrite ?Hr, ?Hc; done.
Qed.

Lemma notify_inv_run acts c c' : inv c -> run acts c = Some c' -> inv c'.
Proof.
  revert c; induction acts as [|a acts IH]; intros c HI; cbn [run]; [by intros [= <-]|].
  destruct (exec a c) as [c1|] eqn:E; [|done]. cbn. apply IH. by eapply inv_exec.
Qed.

(** Every close of the channel happens with no caller between the halves of
    [Record]. *)
Fixpoint quiet (acts : list action) (c : Client) : bool :=
  match acts with
  | [] => true
  | a :: acts' =>
      match a with NCloseChan => match pending c with [] => true | _ => false end | _ => true end
      && match exec a c with Some c' => quiet acts' c' | None => true end
  end.

Lemma quiet_run acts c c' :
  inv c -> (closed (core c) = true -> pending c = []) -> panicked c = false -> quiet acts c = true ->
  run acts c = Some c' -> panicked c' = false.
Proof.
  revert c; induction acts as [|a acts IH]; intros c HI Hq Hp; cbn [run quiet]; [by intros _ [= <-]|].
  intros [Ha Hrest]%andb_true_iff. destruct (exec a c) as [c1|] eqn:E; [|done]. cbn.
  apply IH; [by eapply inv_exec| | |done]; unfold exec in E; rewrite Hp in E; destruct HI as [h1 h2 h3 h4 h5].
  - destruct a as [[n|]|i| | |a]; cbn [record_check] in E.
    + injection E as <-. destruct (flag c) eqn:Hf; cbn; rewrite ?closed_fallback; [done|]. intros Hc. specialize (h4 Hc). congruence.
    + injection E as <-. done.
    + unfold record_send in E. destruct (pending c !! i) as [n|] eqn:Hpi; [|done].
      destruct (closed (core c)) eqn:Hc; [by rewrite (Hq eq_refl) in Hpi|]. injection E as <-. cbn.
      destruct (enqueue_same n (add_recorded n (core c))) as [_ ->]. cbn. congruence.
    + injection E as <-. unfold close_flag. by destruct (flag c).
    + unfold close_chan in E. destruct (closing c); [|done]. injection E as <-. cbn. by destruct (pending c).
    + destruct (loops a (core c)) as [k|] eqn:Hk; [|done]. injection E as <-. cbn.
      assert (exec_step a (core c) = Some k) as Hs by (by destruct a). by rewrite (closed_step _ _ _ Hs).
  - destruct a as [[n|]|i| | |a]; cbn [record_check] in E.
    + injection E as <-. by destruct (flag c).
    + by injection E as <-.
    + unfold record_send in E. destruct (pending c !! i) as [n|] eqn:Hpi; [|done].
      destruct (closed (core c)) eqn:Hc; [by rewrite (Hq eq_refl) in Hpi|]. by injection E as <-.
    + injection E as <-. unfold close_flag. by destruct (flag c).
    + unfold close_chan in E. destruct (closing c); [|done]. by injection E as <-.
    + destruct (loops a (core c)) as [k|] eqn:Hk; [|done]. by injection E as <-.
Qed.

(** In any interleaving of callers, [Close], dispatcher, timer and workers,
    every notification handed over is with a caller about to queue it, queued,
    batched or being sent, accepted by the transport, logged or, only with the
    fallback disabled, dropped.  The client panics on no run in which the channel
    is closed while no caller is between the two halves of [Record]. *)
Theorem notify_accounts_for_every_notification cfg c0 acts c :
  NewClient cfg = Ok c0 -> run acts c0 = Some c ->
  handed c ≡ₚ (pending c ++ in_flight (core c) ++ sent (core c) ++ map snd (logged (core c)) ++ dropped (core c))%list /\
  (fallbackLog (core c) = true -> dropped (core c) = []) /\
  (quiet acts c0 = true -> panicked c = false).
Proof.
  intros Hn Hr. pose proof (notify_inv_start _ _ Hn) as H0. pose proof (notify_inv_run _ _ _ H0 Hr) as [h1 h2 _ _ _].
  destruct h1 as [[i1 _ _ _ _ _ _ i8 _ _] _ _ _ _]. split; [by rewrite h2, i1|]. split; [done|].
  intros Hq. eapply quiet_run; [exact H0| | |exact Hq|exact Hr]; unfold NewClient in Hn;
    (destruct (AsyncClient.NewClient cfg) as [k|] eqn:Hk; [|done]); by injection Hn as <-.
Qed.

(** ** Runs *)

Definition note (id : string) : Notification := MkNotification id "t" "" "" "" ∅ PriorityNormal [] [] "".
Definition demo_cfg : ClientConfig := MkClientConfig true 1 0 1 None.
Definition demo : Client := match NewClient demo_cfg with Ok c => c | Err _ => MkClient (AsyncClient.MkClient true 0 0 [] false [] false false [] false [] [] [] [] []) false false [] false [] end.

Definition orderly : list action :=
  [NRecord (Some (note "1")); NSend 0; NRecord (Some (note "2")); NSend 0; NStep ARecv; NCloseFlag;
   NRecord (Some (note "3")); NCloseChan; NStep ARecv; NStep (ATake 0); NStep (ASent 0 true); NStep (ATake 0)].

Lemma notify_accounts_witness :
  exists c, run orderly demo = Some c /\ map ID (sent (core c)) = ["1"]%string /\
    map (fun x => (fst (fst x), ID (snd x))) (logged (core c)) = [(client_closed, "3"); (buffer_full, "2")]%string /\ panicked c = false.
Proof.
  eexists. split; [vm_compute; reflexivity|]. split; [reflexivity|]. split; [reflexivity|].
  refine (proj2 (proj2 (notify_accounts_for_every_notification demo_cfg demo orderly _ _ _)) _); vm_compute; reflexivity.
Defined.

(** A caller that has seen the flag unset sends after [Close] has closed the
    channel: the process panics. *)
Lemma record_close_race_panics :
  (panicked <$> run [NRecord (Some (note "1")); NCloseFlag; NCloseChan; NSend 0] demo) = Some true.
Proof. vm_compute. reflexivity. Qed.
