(* ===== verification/Interact.v ===== *)
(** * Programs that talk to a peer

    An operation that exchanges events with the outside (a token resolver, an
    HTTP endpoint, an SMTP server) is a program over events [E] and answers [R].
    [run] executes it against a peer that chooses every answer from the whole
    history, so a theorem about all peers covers every failure and every
    adversarial reply.  [emits] bounds the events a program can ever produce,
    whatever the answers.

    [Transport] is what a mail transport promises its callers: the peer decides
    whether a message was taken, and the outcome reported agrees with it. *)
From S2P Require Import Prelude.

Section programs.
Context {E R : Type}.

Inductive prog (A : Type) :=
| Ret (a : A)
| Do (e : E) (k : R -> prog A).
Arguments Ret {A} _. Arguments Do {A} _ _.

Fixpoint bind {A B} (p : prog A) (f : A -> prog B) : prog B :=
  match p with
  | Ret a => f a
  | Do e k => Do e (fun r => bind (k r) f)
  end.

(** [if err != nil { return err }] after a step. *)
Definition try {F A B} (p : prog (result F A)) (f : A -> prog (result F B)) : prog (result F B) :=
  bind p (fun r => match r with Ok a => f a | Err e => Ret (Err e) end).

Definition wrap {F G A} (g : F -> G) (p : prog (result F A)) : prog (result G A) := bind p (fun r => Ret (map_err g r)).

Definition peer : Type := list (E * R) -> E -> R.

(** The exchanges of a run after the history [h], oldest first, and the result. *)
Fixpoint run {A} (srv : peer) (h : list (E * R)) (p : prog A) : list (E * R) * A :=
  match p with
  | Ret a => (h, a)
  | Do e k => let r := srv h e in run srv (h ++ [(e, r)])%list (k r)
  end.

(** [P] holds of every event a run of [p] after [h] produces, given what came
    before it, and [Q] of the whole history and the result, whatever the answers. *)
Fixpoint safe {A} (P : list (E * R) -> E -> Prop) (Q : list (E * R) -> A -> Prop) (h : list (E * R)) (p : prog A) : Prop :=
  match p with
  | Ret a => Q h a
  | Do e k => P h e /\ forall r, safe P Q (h ++ [(e, r)])%list (k r)
  end.

Definition ends {A} (Q : list (E * R) -> A -> Prop) : list (E * R) -> prog A -> Prop := safe (fun _ _ => True) Q.

(** Each event of [t] satisfies [P] after what precedes it. *)
Fixpoint trace_ok (P : list (E * R) -> E -> Prop) (h t : list (E * R)) : Prop :=
  match t with
  | [] => True
  | x :: t => P h (fst x) /\ trace_ok P (h ++ [x])%list t
  end.

Lemma safe_run {A} P Q srv h (p : prog A) :
  safe P Q h p ->
  let '(h', a) := run srv h p in exists t, h' = (h ++ t)%list /\ trace_ok P h t /\ Q h' a.
Proof.
  revert h; induction p as [a|e k IH]; intros h; cbn [safe run].
  - intros H. exists []. by rewrite app_nil_r.
  - intros [He Hk]. specialize (IH (srv h e) _ (Hk (srv h e))). destruct (run _ _ _) as [h' a].
    destruct IH as (t & -> & Ht & HQ). exists ((e, srv h e) :: t). by rewrite <- app_assoc in *.
Qed.

Lemma ends_run {A} Q srv h (p : prog A) : ends Q h p -> let '(h', a) := run srv h p in Q h' a.
Proof. intros H. apply (safe_run _ _ srv) in H. destruct (run _ _ _). by destruct H as (t & _ & _ & H). Qed.

(** The same, event by event. *)
Lemma trace_ok_spec P h t h1 e r h2 : trace_ok P h t -> t = (h1 ++ (e, r) :: h2)%list -> P (h ++ h1)%list e.
Proof.
  revert h t; induction h1 as [|x h1 IH]; intros h t Ht ->.
  - cbn in Ht. rewrite app_nil_r. apply Ht.
  - destruct Ht as [_ Ht]. specialize (IH _ _ Ht eq_refl). by rewrite <- app_assoc in IH.
Qed.

Lemma safe_mono {A} P (Q Q' : list (E * R) -> A -> Prop) h (p : prog A) :
  (forall h a, Q h a -> Q' h a) -> safe P Q h p -> safe P Q' h p.
Proof. intros HQ. revert h; induction p as [a|e k IH]; intros h; cbn [safe]; [auto|]. intros [He Hk]. split; [done|]. eauto. Qed.

Lemma safe_weaken {A} (P P' : list (E * R) -> E -> Prop) (Q : list (E * R) -> A -> Prop) h (p : prog A) :
  (forall h e, P h e -> P' h e) -> safe P Q h p -> safe P' Q h p.
Proof. intros HP. revert h; induction p as [a|e k IH]; intros h; cbn [safe]; [auto|]. intros [He Hk]. split; eauto. Qed.

Lemma safe_bind {A B} P (Q : list (E * R) -> A -> Prop) (Q' : list (E * R) -> B -> Prop) h (p : prog A) (f : A -> prog B) :
  safe P Q h p -> (forall h a, Q h a -> safe P Q' h (f a)) -> safe P Q' h (bind p f).
Proof.
  intros Hp Hf. revert h Hp; induction p as [a|e k IH]; intros h; cbn [safe bind]; [by eauto|].
  intros [He Hk]. split; [done|]. intros r. by apply IH.
Qed.

Lemma safe_try {F A B} P (Q : list (E * R) -> result F A -> Prop) (Q' : list (E * R) -> result F B -> Prop) h
    (p : prog (result F A)) (f : A -> prog (result F B)) :
  safe P Q h p -> (forall h e, Q h (Err e) -> Q' h (Err e)) -> (forall h a, Q h (Ok a) -> safe P Q' h (f a)) ->
  safe P Q' h (try p f).
Proof. intros Hp He Hf. eapply safe_bind; [exact Hp|]. intros h' [a|e]; cbn [safe]; auto. Qed.

Lemma safe_wrap {F G A} P (g : F -> G) (Q : list (E * R) -> result G A -> Prop) h (p : prog (result F A)) :
  safe P (fun h r => Q h (map_err g r)) h p -> safe P Q h (wrap g p).
Proof. intros Hp. eapply safe_bind; [exact Hp|]. done. Qed.

(** A run extends the history. *)
Lemma safe_extends {A} P (Q : list (E * R) -> A -> Prop) h (p : prog A) :
  safe P Q h p -> safe P (fun h' a => Q h' a /\ exists t, h' = (h ++ t)%list) h p.
Proof.
  revert h; induction p as [a|e k IH]; intros h; cbn [safe].
  - intros H. split; [done|]. exists []. by rewrite app_nil_r.
  - intros [He Hk]. split; [done|]. intros r. eapply safe_mono; [|apply (IH r _ (Hk r))].
    intros h' a [HQ (t & ->)]. split; [done|]. exists ((e, r) :: t). by rewrite <- app_assoc.
Qed.
End programs.
Arguments prog : clear implicits.
Arguments peer : clear implicits.
Arguments Ret {E R A} _. Arguments Do {E R A} _ _.

Notation "'do' x ':=' p 'in' q" := (bind p (fun x => q)) (at level 10, x name, p at level 100, q at level 200).
Notation "'try!' x ':=' p 'in' q" := (try p (fun x => q)) (at level 10, x name, p at level 100, q at level 200).

(** ** What a transport promises *)

(** Whether the peer took the message: it said so, it certainly did not, or it
    may have. *)
Inductive verdict := Taken | NotTaken | InDoubt.

Inductive Outcome := Retryable | Rejected | Unknown.

(** The result of a submission agrees with what happened: a receipt only for a
    message that was taken, [Unknown] exactly when in doubt, and a failure that
    invites another attempt or a final rejection only when it was not taken. *)
Definition agrees {A} (v : verdict) (r : result Outcome A) : Prop :=
  match r with
  | Ok _ => v = Taken
  | Err Unknown => v = InDoubt
  | Err Retryable | Err Rejected => v = NotTaken
  end.

Class Transport {E R M A : Type} (Send : M -> prog E R (result Outcome A)) := {
  judge : list (E * R) -> verdict;
  Send_agrees : forall m, ends (fun h r => agrees (judge h) r) [] (Send m) }.
