(* ===== verification/Postbox.v ===== *)
(** * The Postbox client (src/postbox/postbox.go)

    Configuration, the request of a send and the classification of its failures.
    JSON encoding, URL parsing, the token resolver and the HTTP exchange are the
    environment's; a send is a program over the resolver and the exchange. *)
From S2P Require Import Prelude GoStrings Secret YCloud Interact.
Local Open Scope string_scope.
Local Open Scope Z_scope.

Definition DefaultEndpoint : string := "https://postbox.cloud.yandex.net".
Definition DefaultRegion : string := "ru-central1".
Definition defaultCharset : string := "UTF-8".

Record Config := MkConfig { Endpoint : string; Region : string; Auth : AuthConfig }.

Definition or_string (s d : string) : string := if s ==s "" then d else s.

Definition ApplyDefaults (c : Config) : Config :=
  MkConfig (or_string (Endpoint c) DefaultEndpoint) (or_string (Region c) DefaultRegion) (Auth c).

Inductive config_error :=
| EndpointRequired | RegionRequired | IAMTokenRequired | OAuthTokenRequired | SAKeyFileRequired | BadAuthMode.

Definition Validate (c : Config) : result config_error unit :=
  if Endpoint c ==s "" then Err EndpointRequired
  else if Region c ==s "" then Err RegionRequired
  else
    let mode := AuthMode (Auth c) in
    if mode ==s "iam_token" then if Secret.IsEmpty (IAMToken (Auth c)) then Err IAMTokenRequired else Ok tt
    else if mode ==s "oauth_token" then if Secret.IsEmpty (OAuthToken (Auth c)) then Err OAuthTokenRequired else Ok tt
    else if mode ==s "metadata" then Ok tt
    else if mode ==s "service_account" then if SAKeyFile (Auth c) ==s "" then Err SAKeyFileRequired else Ok tt
    else Err BadAuthMode.

Record Message := MkMessage {
  FromEmailAddress : string; ToAddresses : list string; Subject : string; TextBody : string; HTMLBody : string;
  Charset : string }.

Record SendError := MkSendError { Stage : string; StatusCode : Z; IsUnknown : bool; IsRetryable : bool }.

(** ** The request body *)

Record content := MkContent { Data : string; c_Charset : string }.
Record body := MkBody { Text : content; HTML : content }.
Record message := MkMsg { m_Subject : content; m_Body : body }.
Record sendEmailRequest := MkSendRequest { s_From : string; s_To : list string; Simple : message }.

Definition toSendEmailRequest (msg : Message) : sendEmailRequest :=
  let charset := or_string (Charset msg) defaultCharset in
  MkSendRequest (FromEmailAddress msg) (ToAddresses msg)
    (MkMsg (MkContent (Subject msg) charset)
       (MkBody (MkContent (TextBody msg) charset) (MkContent (HTMLBody msg) charset))).

(** ** The client *)

(** What the code sets of an [http.Client]: the timeout and whether redirects
    are followed. *)
Record HTTPClient := MkHTTPClient { Timeout : Z; follows : bool }.

Definition protectedClient (client : option HTTPClient) : HTTPClient :=
  let clone := default (MkHTTPClient 0 true) client in
  MkHTTPClient (if Timeout clone =? 0 then 10 * Second else Timeout clone) false.

Record Client := MkClient { endpoint : string; client : HTTPClient }.

Definition NewClientWithResolver (cfg : Config) (c : option HTTPClient) : Client :=
  MkClient (TrimRightByte "/" (Endpoint (ApplyDefaults cfg))) (protectedClient c).

(** The resolver is built by [ycloud.NewIAMTokenResolver]. *)
Definition NewClient {Res} (NewIAMTokenResolver : AuthConfig -> result YErr Res) (cfg : Config) (c : option HTTPClient)
  : result YErr (Client * Res) :=
  let cfg := ApplyDefaults cfg in
  let? resolver := NewIAMTokenResolver (Auth cfg) in
  Ok (NewClientWithResolver cfg (Some (protectedClient c)), resolver).

(** Decoding the receipt from at most 64 KiB of the answer. *)
Inductive receipt := Decoded (id : string) | DecodedNothing | Undecoded.

Record request := MkRequest { url : string; header : list (string * string); payload : string; http : HTTPClient }.

Inductive event := ResolveToken | Post (r : request).
Inductive answer := NoAnswer | Token (t : string) | Replied (code : Z) (r : receipt).

Definition one_of_bytes (l : list ascii) (c : ascii) : bool := existsb (Ascii.eqb c) l.
(** [strings.ContainsAny] with a set of ASCII characters. *)
Definition ContainsAny (s : string) (l : list ascii) : bool := negb (all_bytes (fun c => negb (one_of_bytes l c)) s).

Definition CR : ascii := "013"%char.
Definition LF : ascii := "010"%char.
Definition NUL : ascii := "000"%char.
Definition TAB : ascii := "009"%char.

Definition clean_id (id : string) : string :=
  if (254 <? Len id) || ContainsAny id [CR; LF; NUL] then "" else id.

Section client.
(** [json.Marshal] of the request and whether [http.NewRequest] takes the URL. *)
Context (Marshal : sendEmailRequest -> option string).
Context (valid_URL : string -> bool).

Definition SendEmailWithReceipt (c : Client) (msg : option Message) : prog event answer (result SendError string) :=
  match msg with
  | None => Ret (Err (MkSendError "validate" 0 false false))
  | Some msg =>
      Do ResolveToken (fun a =>
        match a with
        | Token token =>
            match Marshal (toSendEmailRequest msg) with
            | None => Ret (Err (MkSendError "encode" 0 false false))
            | Some b =>
                let u := (endpoint c +:+ "/v2/email/outbound-emails")%string in
                if negb (valid_URL u) then Ret (Err (MkSendError "request" 0 false false))
                else
                  Do (Post (MkRequest u [("Content-Type", "application/json"); ("X-YaCloud-SubjectToken", token)] b (client c)))
                    (fun a =>
                       match a with
                       | Replied code r =>
                           if (code <? 200) || (300 <=? code)
                           then Ret (Err (MkSendError "response" code (500 <=? code) (code =? 429)))
                           else
                             match r with
                             | Undecoded => Ret (Ok "")
                             | DecodedNothing => Ret (Ok (clean_id ""))
                             | Decoded id => Ret (Ok (clean_id id))
                             end
                       | _ => Ret (Err (MkSendError "send" 0 true false))
                       end)
            end
        | _ => Ret (Err (MkSendError "authentication" 0 false true))
        end)
  end.

Definition SendEmail (c : Client) (msg : option Message) : prog event answer (result SendError unit) :=
  do r := SendEmailWithReceipt c msg in Ret (let? _ := r in Ok tt).

(** ** What the endpoint did with the message *)

(** No request: not taken.  An answer in the 2xx range takes it, other answers
    below 500 refuse it; a server error or no answer leaves it open. *)
Fixpoint judge_post (h : list (event * answer)) : verdict :=
  match h with
  | [] => NotTaken
  | (Post _, Replied code _) :: _ =>
      if (200 <=? code) && (code <? 300) then Taken else if 500 <=? code then InDoubt else NotTaken
  | (Post _, _) :: _ => InDoubt
  | _ :: h => judge_post h
  end.

(** How a caller reads the flags of an error. *)
Definition outcome (e : SendError) : Outcome :=
  if IsUnknown e then Unknown else if IsRetryable e then Retryable else Rejected.

Lemma SendEmailWithReceipt_agrees c msg :
  ends (fun h r => agrees (judge_post h) (map_err outcome r)) [] (SendEmailWithReceipt c msg).
Proof.
  destruct msg as [msg|]; [|done]. split; [done|]. intros [|token|? ?]; [done| |done].
  cbn [safe]. destruct (Marshal _); [|done]. destruct (valid_URL (endpoint c +:+ _)) eqn:Hu; cbn [safe negb]; [|done].
  split; [done|]. intros [| |code r]; [done..|]. destruct (code <? 200) eqn:H1, (300 <=? code) eqn:H2; cbn [orb].
  all: try (destruct r; cbn; by rewrite (proj2 (Z.leb_le _ _)), (proj2 (Z.ltb_lt _ _)) by lia).
  all: cbn; unfold outcome; cbn; destruct (200 <=? code) eqn:?, (code <? 300) eqn:?, (500 <=? code) eqn:?, (code =? 429) eqn:?;
    cbn; try done; lia.
Qed.

(** The token leaves only in the header of a POST to the configured endpoint,
    with redirects off, so no other host sees it. *)
Lemma token_destination c msg :
  safe (fun _ e => match e with
                   | Post r => url r = (endpoint c +:+ "/v2/email/outbound-emails")%string /\ http r = client c
                   | ResolveToken => True
                   end) (fun _ _ => True) [] (SendEmailWithReceipt c msg).
Proof.
  destruct msg as [msg|]; [|done]. cbn. split; [done|]. intros [|token|? ?]; [done| |done].
  destruct (Marshal _); [|done]. destruct (valid_URL _); [|done]. cbn. split; [done|].
  intros [| |code r]; [done..|]. destruct (_ || _); [done|]. by destruct r.
Qed.
End client.

Lemma or_string_idem s d : or_string (or_string s d) d = or_string s d.
Proof. unfold or_string. destruct (s ==s "") eqn:E; [by destruct (d ==s "")|by rewrite E]. Qed.

Lemma ApplyDefaults_idem c : ApplyDefaults (ApplyDefaults c) = ApplyDefaults c.
Proof. unfold ApplyDefaults. cbn. by rewrite !or_string_idem. Qed.

Lemma NewClient_protected cfg c : follows (client (NewClientWithResolver cfg c)) = false.
Proof. done. Qed.

(** A message ID that is returned is short and has no line breaks. *)
Lemma ContainsAny_false s l : ContainsAny s l = false <-> all_bytes (fun c => negb (one_of_bytes l c)) s = true.
Proof. unfold ContainsAny. by destruct (all_bytes _ s). Qed.

Lemma clean_id_spec id : Len (clean_id id) <= 254 /\ ContainsAny (clean_id id) [CR; LF; NUL] = false.
Proof.
  unfold clean_id. destruct (254 <? Len id) eqn:Hl; [done|]. destruct (ContainsAny id _) eqn:Hc; [done|]. cbn [orb].
  split; [lia|done].
Qed.

(** What [Validate] accepts. *)
Definition auth_complete (a : AuthConfig) : Prop :=
  (AuthMode a = "iam_token" /\ Secret.Plaintext (IAMToken a) <> "") \/
  (AuthMode a = "oauth_token" /\ Secret.Plaintext (OAuthToken a) <> "") \/
  AuthMode a = "metadata" \/ (AuthMode a = "service_account" /\ SAKeyFile a <> "").

Lemma Validate_ok c : Validate c = Ok tt <-> Endpoint c <> "" /\ Region c <> "" /\ auth_complete (Auth c).
Proof.
  unfold Validate, auth_complete, Secret.IsEmpty, Secret.Plaintext.
  destruct (eqb_cases (Endpoint c) "") as [[-> ?]|[-> ?]]; [split; [done|tauto]|].
  destruct (eqb_cases (Region c) "") as [[-> ?]|[-> ?]]; [split; [done|tauto]|].
  set (m := AuthMode (Auth c)).
  destruct (eqb_cases m "iam_token") as [[-> E]|[-> ?]].
  { rewrite E. destruct (eqb_cases (Secret.value (IAMToken (Auth c))) "") as [[-> ?]|[-> ?]];
      split; intros; try done; naive_solver. }
  destruct (eqb_cases m "oauth_token") as [[-> E]|[-> ?]].
  { rewrite E. destruct (eqb_cases (Secret.value (OAuthToken (Auth c))) "") as [[-> ?]|[-> ?]];
      split; intros; try done; naive_solver. }
  destruct (eqb_cases m "metadata") as [[-> E]|[-> ?]]; [naive_solver|].
  destruct (eqb_cases m "service_account") as [[-> E]|[-> ?]]; [|naive_solver].
  rewrite E. destruct (eqb_cases (SAKeyFile (Auth c)) "") as [[-> ?]|[-> ?]]; naive_solver.
Qed.

(** A configuration that is accepted has a resolver unless its key file cannot
    be loaded. *)
Lemma Validate_resolver {Key} rf um pd p8 p1 c :
  Validate c = Ok tt -> AuthMode (Auth c) <> "service_account" ->
  is_ok (NewIAMTokenResolver (Key := Key) rf um pd p8 p1 (Auth c)) = true.
Proof.
  intros (_ & _ & H)%Validate_ok Hm. unfold NewIAMTokenResolver, Secret.IsEmpty, Secret.Plaintext in *.
  destruct H as [[E H]|[[E H]|[E|[E _]]]]; [| | |done]; rewrite E; cbn; try done.
  - by destruct (eqb_cases (Secret.value (IAMToken (Auth c))) "") as [[-> ?]|[-> ?]].
  - by destruct (eqb_cases (Secret.value (OAuthToken (Auth c))) "") as [[-> ?]|[-> ?]].
Qed.
