(* ===== verification/Email.v ===== *)
(** * Outbound email (src/email)

    Configuration, message preparation and the two transports.  The SMTP
    transport is a program over the connection: [net/smtp] as the code uses it
    (its lazy greeting, the extensions it announces, the AUTH exchange, the
    codes each command expects) runs against a server that answers anything it
    likes or breaks the connection at any point.  Every command carries the name
    the TLS peer was verified for, [None] in clear.  [net/mail], MIME encodings,
    URL and IP parsing, random values and the clock are the environment's. *)
From S2P Require Import Prelude GoStrings Secret YCloud Health TokenObject Interact Postbox.
Local Open Scope string_scope.
Local Open Scope Z_scope.

(** ** config.go *)

Definition ProviderPostbox : string := "postbox".
Definition ProviderSelectel : string := "selectel".
Definition TLSImplicit : string := "tls".
Definition TLSStartTLS : string := "starttls".
Definition SelectelHost : string := "smtp.mail.selcloud.ru".

Record SMTPConfig := MkSMTPConfig {
  Host : string; Port : Z; TLSMode : string; Username : string; Password : Secret.t; c_Timeout : Z }.

Record Config := MkConfig { Provider : string; c_Postbox : option Postbox.Config; Selectel : option SMTPConfig }.

Definition default_smtp (c : SMTPConfig) : SMTPConfig :=
  let mode := or_string (TLSMode c) TLSImplicit in
  MkSMTPConfig (or_string (Host c) SelectelHost)
    (if Port c =? 0 then if mode ==s TLSStartTLS then 1126 else 1127 else Port c) mode
    (Username c) (Password c) (if c_Timeout c =? 0 then 10 * Second else c_Timeout c).

Definition ApplyDefaults (c : Config) : Config :=
  if Provider c ==s ProviderPostbox then
    MkConfig (Provider c) (Postbox.ApplyDefaults <$> c_Postbox c) (Selectel c)
  else if Provider c ==s ProviderSelectel then
    MkConfig (Provider c) (c_Postbox c) (default_smtp <$> Selectel c)
  else c.

(** What the code reads of a parsed URL. *)
Record URL := MkURL { Scheme : string; Hostname : string; HasUser : bool; RawQuery : string; Fragment : string }.

Inductive config_error :=
| OnlyPostbox | BadEndpoint | BadPostbox (e : Postbox.config_error) | OnlySelectel
| BadHost | BadPort | BadTLSMode | CredentialsRequired | BadTimeout | BadProvider.

Section validation.
Context (url_Parse : string -> option URL).
Context (is_IP : string -> bool).

Definition SMTP_validate (c : SMTPConfig) : result config_error unit :=
  if (Host c ==s "") || ContainsAny (Host c) [CR; LF; TAB; NUL; " "%char; "/"%char; "@"%char] ||
     (negb (is_IP (Host c)) && has_byte ":" (Host c)) then Err BadHost
  else if (Port c <? 1) || (65535 <? Port c) then Err BadPort
  else if (TLSMode c !=s TLSImplicit) && (TLSMode c !=s TLSStartTLS) then Err BadTLSMode
  else if (Username c ==s "") || ContainsAny (Username c) [CR; LF; NUL] || Secret.IsEmpty (Password c)
  then Err CredentialsRequired
  else if (c_Timeout c <=? 0) || (Minute <? c_Timeout c) then Err BadTimeout
  else Ok tt.

Definition secure_endpoint (endpoint : string) : bool :=
  match url_Parse endpoint with
  | None => false
  | Some u => (Scheme u ==s "https") && (Hostname u !=s "") && negb (HasUser u) && (RawQuery u ==s "") && (Fragment u ==s "")
  end.

Definition Validate (c : Config) : result config_error unit :=
  if Provider c ==s ProviderPostbox then
    match c_Postbox c, Selectel c with
    | Some pb, None =>
        if negb (secure_endpoint (Endpoint pb)) then Err BadEndpoint else map_err BadPostbox (Postbox.Validate pb)
    | _, _ => Err OnlyPostbox
    end
  else if Provider c ==s ProviderSelectel then
    match Selectel c, c_Postbox c with
    | Some s, None => SMTP_validate s
    | _, _ => Err OnlySelectel
    end
  else Err BadProvider.
End validation.

(** ** errors.go *)

Record SendError := MkSendError { Stage : string; e_Outcome : Outcome; Code : Z }.
Abbreviation failure := MkSendError.

(** A call returns an error or panics (an index out of range). *)
Inductive fault := Failed (e : SendError) | Panicked.

(** ** message.go *)

Record Message := MkMessage {
  From : string; To : string; Subject : string; TextBody : string; HTMLBody : string; ID : string }.
Record Receipt := MkReceipt { r_Provider : string; MessageID : string }.
Record Address := MkAddress { Name : string; Addr : string }.

Fixpoint Count (c : ascii) (s : string) : Z :=
  match s with "" => 0 | String x s => (if Ascii.eqb x c then 1 else 0) + Count c s end.

Definition validAddress (a : Address) : bool :=
  (Len (Addr a) <=? 254) && (Len (Name a) <=? 128) && (Count "@" (Addr a) =? 1) && negb (ContainsAny (Addr a) [CR; LF; NUL]).

(** Runes outside the visible ASCII range are refused, bytes of longer runes
    and invalid bytes with them. *)
Definition ascii_ (s : string) : bool := all_bytes (fun c => (33 <=? code c)%N && (code c <=? 126)%N) s.

(** [id[1 : len(id)-1]] of a text that starts with [<] and ends with [>]. *)
Definition inner_of (id : string) : option string :=
  match GoStrings.strip_prefix "<" id with
  | None => None
  | Some rest => rev_string <$> GoStrings.strip_prefix ">" (rev_string rest)
  end.

Definition validID (id : string) : bool :=
  if (Len id <? 5) || (254 <? Len id) then false
  else
    match inner_of id with
    | None => false
    | Some inner =>
        (Count "@" inner =? 1) && negb (ContainsAny inner ["<"%char; ">"%char; " "%char; TAB; CR; LF]) && ascii_ inner
    end.

Section message.
(** [mail.ParseAddress], [Address.String], [mime.BEncoding.Encode] and the
    quoted-printable writer. *)
Context (ParseAddress : string -> option Address).
Context (Address_String : Address -> string).
Context (BEncode : string -> string).
Context (QuotedPrintable : string -> string).

Definition bad : fault := Failed (failure "validate" Rejected 0).

Definition prepare (uuid : string) (msg : option Message) : result fault (Message * Address * Address) :=
  match msg with
  | None => Err bad
  | Some m =>
      if ContainsAny (From m +:+ To m +:+ Subject m +:+ ID m) [CR; LF; NUL] || (256 <? Len (Subject m)) ||
         (TrimSpace (Subject m) ==s "") || (1024 * 1024 <? Len (TextBody m) + Len (HTMLBody m)) ||
         ((TextBody m ==s "") && (HTMLBody m ==s ""))
      then Err bad
      else
        match ParseAddress (From m) with
        | None => Err (Failed (failure "sender" Rejected 0))
        | Some from =>
            if negb (validAddress from) then Err (Failed (failure "sender" Rejected 0))
            else
              match ParseAddress (To m) with
              | None => Err (Failed (failure "recipient" Rejected 0))
              | Some to =>
                  if negb (validAddress to) then Err (Failed (failure "recipient" Rejected 0))
                  else
                    let? id := if ID m ==s "" then
                                 match SplitN2 "@" (Addr from) with
                                 | Some (_, domain) => Ok ("<" +:+ uuid +:+ "@" +:+ domain +:+ ">")
                                 | None => Err Panicked
                                 end
                               else Ok (ID m) in
                    if negb (validID id) then Err (Failed (failure "message_id" Rejected 0))
                    else Ok (MkMessage (Address_String from) (Address_String to) (Subject m) (TextBody m) (HTMLBody m) id,
                             from, to)
              end
        end
  end.

Definition CRLF : string := String CR (String LF "").
Definition quote : string := String "034" "".

(** Writes to a [bytes.Buffer] do not fail, so the error returns of the code are
    not reached.  Part headers are written in the order of their names. *)
Definition write_part (boundary kind : string) (first : bool) (part : string) : string :=
  (if first then "" else CRLF) +:+ "--" +:+ boundary +:+ CRLF +:+
  "Content-Transfer-Encoding: quoted-printable" +:+ CRLF +:+ "Content-Type: " +:+ kind +:+ "; charset=UTF-8" +:+ CRLF +:+ CRLF +:+
  QuotedPrintable part.

Definition mimeMessage (date boundary : string) (m : Message) : string :=
  "From: " +:+ From m +:+ CRLF +:+ "To: " +:+ To m +:+ CRLF +:+ "Subject: " +:+ BEncode (Subject m) +:+ CRLF +:+
  "Date: " +:+ date +:+ CRLF +:+ "Message-ID: " +:+ ID m +:+ CRLF +:+ "MIME-Version: 1.0" +:+ CRLF +:+
  "Content-Type: multipart/alternative; boundary=" +:+ quote +:+ boundary +:+ quote +:+ CRLF +:+ CRLF +:+
  (if TextBody m ==s "" then "" else write_part boundary "text/plain" true (TextBody m)) +:+
  (if HTMLBody m ==s "" then "" else write_part boundary "text/html" (TextBody m ==s "") (HTMLBody m)) +:+
  CRLF +:+ "--" +:+ boundary +:+ "--" +:+ CRLF.
End message.

(** ** emailnorm *)

(** The canonical form of an address, src/emailnorm. *)
Definition Normalize (ParseAddress : string -> option Address) (value : string) : option string :=
  addr ← ParseAddress (TrimSpace value);
  let email := ToLower (TrimSpace (Addr addr)) in
  if (email ==s "") || negb (Contains email "@") then None else Some email.

(** ** The SMTP connection *)

Inductive command :=
| EHLO | HELO | STARTTLS | AUTH (mech : string) | AuthResponse (resp : string) | AuthAbort
| MAIL (from : string) (body8 utf8 : bool) | RCPT (to : string) | DATA | QUIT.

Inductive event :=
| Dial (addr : string) | SetDeadline | Handshake (name : string) | Greeting
| Cmd (tls : option string) (c : command) | Body (tls : option string) (b : string) | EndData (tls : option string).

(** [Reply] is a complete reply of the server, its lines joined by line feeds;
    [Broken] any other error (I/O, deadline, TLS, malformed reply). *)
Inductive answer := Done | Reply (code : Z) (text : string) | Broken.

Inductive smtp_error := ReplyError (code : Z) | OtherError.

Abbreviation smtp A := (prog event answer (result smtp_error A)).

(** [textproto]: an expected code of one, two or three digits. *)
Definition expected (expect code : Z) : bool :=
  if (1 <=? expect) && (expect <? 10) then code / 100 =? expect
  else if (10 <=? expect) && (expect <? 100) then code / 10 =? expect
  else if (100 <=? expect) && (expect <? 1000) then code =? expect
  else true.

Definition ReadResponse (expect : Z) (a : answer) : result smtp_error (Z * string) :=
  match a with
  | Reply code text => if expected expect code then Ok (code, text) else Err (ReplyError code)
  | _ => Err OtherError
  end.

Definition perform (e : event) : smtp unit := Do e (fun a => Ret (match a with Done => Ok tt | _ => Err OtherError end)).

(** The fields of [smtp.Client] the code relies on; [hello] is nil before the
    greeting. *)
Record client := MkSMTP { serverName : string; tls : option string; ext : option (gmap string string); hello : option (result smtp_error unit) }.

Definition cmd (c : client) (expect : Z) (x : command) : smtp (Z * string) :=
  Do (Cmd (tls c) x) (fun a => Ret (ReadResponse expect a)).

Definition Cut (line : string) : string * string := default (line, "") (SplitN2 " " line).

Definition extensions (text : string) : gmap string string :=
  fold_left (fun m line => <[(Cut line).1 := (Cut line).2]> m) (tail (Split LF text)) ∅.

Definition ehlo (c : client) : smtp client :=
  try! r := cmd c 250 EHLO in Ret (Ok (MkSMTP (serverName c) (tls c) (Some (extensions r.2)) (hello c))).

Definition did_hello (c : client) (e : option (gmap string string)) (r : result smtp_error unit) : client :=
  MkSMTP (serverName c) (tls c) e (Some r).

Definition say_hello (c : client) : prog event answer client :=
  match hello c with
  | Some _ => Ret c
  | None =>
      do r := ehlo c in
      match r with
      | Ok c' => Ret (did_hello c' (ext c') (Ok tt))
      | Err _ => do r := cmd c 250 HELO in Ret (did_hello c None (let? _ := r in Ok tt))
      end
  end.

Definition hello_error (c : client) : result smtp_error unit := default (Ok tt) (hello c).

Definition Extension (c : client) (name : string) : prog event answer (client * option string) :=
  do c := say_hello c in
  Ret (c, match hello_error c with Ok _ => m ← ext c; m !! name | Err _ => None end).

(** Commands that greet first. *)
Definition greeted {A} (c : client) (k : client -> smtp A) : smtp A :=
  do c := say_hello c in match hello_error c with Ok _ => k c | Err e => Ret (Err e) end.

Definition StartTLS (c : client) (name : string) : smtp client :=
  greeted c (fun c =>
    try! _ := cmd c 220 STARTTLS in
    try! _ := perform (Handshake name) in
    ehlo (MkSMTP (serverName c) (Some name) (ext c) (hello c))).

Definition Quit (c : client) : prog event answer unit := do _ := greeted c (fun c => cmd c 221 QUIT) in Ret tt.

(** ** loginAuth *)

Record loginAuth := MkLogin { username : string; password : string; host : string; step : Z }.

(** The mechanism and no initial response, if the server is the verified one. *)
Definition Start (a : loginAuth) (name : string) (isTLS : bool) : result smtp_error string :=
  if negb isTLS || (name !=s host a) then Err OtherError else Ok "LOGIN".

Definition Next (a : loginAuth) (more : bool) : loginAuth * result smtp_error (option string) :=
  if negb more then (a, Ok None)
  else
    let a := MkLogin (username a) (password a) (host a) (step a + 1) in
    (a, if step a =? 1 then Ok (Some (username a))
        else if step a =? 2 then Ok (Some (password a)) else Err OtherError).

Section smtp.
(** A challenge must be standard base64; its contents are not looked at. *)
Definition decodes (msg : string) : bool :=
  match StdBase64.DecodeString msg with Some _ => true | None => false end.

(** One reply of the server in [smtp.Client.Auth]; the fuel bounds the number of
    challenges, of which [loginAuth] answers two. *)
Fixpoint auth_loop (fuel : nat) (c : client) (a : loginAuth) (code : Z) (msg : string) : smtp unit :=
  let abort e := do _ := cmd c 501 AuthAbort in do _ := Quit c in Ret (Err e) in
  match fuel with
  | O => Ret (Err OtherError)
  | S fuel =>
      if negb ((code =? 334) || (code =? 235)) then abort (ReplyError code)
      else if (code =? 334) && negb (decodes msg) then abort OtherError
      else
        let '(a, r) := Next a (code =? 334) in
        match r with
        | Err e => abort e
        | Ok None => Ret (Ok tt)
        | Ok (Some resp) => try! r := cmd c 0 (AuthResponse resp) in auth_loop fuel c a r.1 r.2
        end
  end.

Definition challenges : nat := 3.

Definition Auth (c : client) (a : loginAuth) : smtp unit :=
  greeted c (fun c =>
    match Start a (serverName c) (bool_decide (is_Some (tls c))) with
    | Err e => do _ := Quit c in Ret (Err e)
    | Ok mech => try! r := cmd c 0 (AUTH mech) in auth_loop challenges c a r.1 r.2
    end).

(** [smtp.Client] refuses lines with a line break before sending them. *)
Definition validateLine {A} (line : string) (k : smtp A) : smtp A :=
  if ContainsAny line [LF; CR] then Ret (Err OtherError) else k.

Definition announces (c : client) (name : string) : bool :=
  match ext c with Some m => bool_decide (is_Some (m !! name)) | None => false end.

Definition Mail (c : client) (from : string) : smtp (Z * string) :=
  validateLine from (greeted c (fun c => cmd c 250 (MAIL from (announces c "8BITMIME") (announces c "SMTPUTF8")))).
Definition Rcpt (c : client) (to : string) : smtp (Z * string) := validateLine to (cmd c 25 (RCPT to)).
Definition Data (c : client) : smtp (Z * string) := cmd c 354 DATA.

(** ** smtp.go *)

Fixpoint Fields_from (fuel : nat) (cur s : string) : list string :=
  let emit := if cur ==s "" then [] else [cur] in
  match fuel with
  | O => emit
  | S fuel =>
      match strip_one spaces s with
      | Some rest => (emit ++ Fields_from fuel "" rest)%list
      | None => match s with "" => emit | String c s => Fields_from fuel (cur +:+ String c "") s end
      end
  end.
Definition Fields (s : string) : list string := Fields_from (S (String.length s)) "" s.

Definition hasLOGIN (methods : string) : bool := existsb (fun method => EqualFold method "LOGIN") (Fields methods).

Definition smtpFailure (stage : string) (mayHaveAccepted : bool) (e : smtp_error) : SendError :=
  match e with
  | ReplyError code => failure stage (if (400 <=? code) && (code <? 500) then Retryable else Rejected) code
  | OtherError => if mayHaveAccepted then failure stage Unknown 0 else failure stage Retryable 0
  end.

Definition at_stage {A} (stage : string) (mayHaveAccepted : bool) (p : smtp A) : prog event answer (result SendError A) :=
  wrap (smtpFailure stage mayHaveAccepted) p.

(** The sender with the name its TLS configuration verifies. *)
Record smtpSender := MkSender { cfg : SMTPConfig; ServerName : string }.
Definition newSMTP (c : SMTPConfig) : smtpSender := MkSender c (Host c).

(** [smtp.NewClient] reads the greeting. *)
Definition greet (c : client) : prog event answer (result SendError client) :=
  at_stage "greeting" false (Do Greeting (fun a => Ret (let? _ := ReadResponse 220 a in Ok c))).

(** [Send] from the dial to the open data stream. *)
Definition session (s : smtpSender) (from to : string) : prog event answer (result SendError client) :=
  let c0 name := MkSMTP (Host (cfg s)) name None None in
  try! _ := at_stage "connect" false (perform (Dial (JoinHostPort (Host (cfg s)) (FormatInt (Port (cfg s)))))) in
  try! _ := at_stage "deadline" false (perform SetDeadline) in
  try! c :=
    if TLSMode (cfg s) ==s TLSImplicit then
      try! _ := at_stage "tls" false (perform (Handshake (ServerName s))) in greet (c0 (Some (ServerName s)))
    else greet (c0 None) in
  try! c :=
    if TLSMode (cfg s) ==s TLSStartTLS then
      do x := Extension c "STARTTLS" in
      match x.2 with
      | None => Ret (Err (failure "starttls_required" Rejected 0))
      | Some _ => at_stage "starttls" false (StartTLS x.1 (ServerName s))
      end
    else Ret (Ok c) in
  do x := Extension c "AUTH" in
  if negb (match x.2 with Some methods => hasLOGIN methods | None => false end)
  then Ret (Err (failure "auth_login_required" Rejected 0))
  else
    let c := x.1 in
    let a := MkLogin (Username (cfg s)) (Secret.Plaintext (Password (cfg s))) (Host (cfg s)) 0 in
    try! _ := at_stage "auth" false (Auth c a) in
    try! _ := at_stage "mail" false (Mail c from) in
    try! _ := at_stage "recipient" false (Rcpt c to) in
    try! _ := at_stage "data" false (Data c) in
    Ret (Ok c).

(** [Send] from the body on.  After the final reply, QUIT cannot revoke the
    acceptance. *)
Definition submit (c : client) (body id : string) : prog event answer (result SendError Receipt) :=
  try! _ := at_stage "body" true (perform (Body (tls c) body)) in
  try! _ := at_stage "acceptance" true (Do (EndData (tls c)) (fun a => Ret (ReadResponse 250 a))) in
  do _ := perform SetDeadline in
  do _ := Quit c in
  Ret (Ok (MkReceipt ProviderSelectel id)).

Context (ParseAddress : string -> option Address).
Context (Address_String : Address -> string).
Context (BEncode : string -> string).
Context (QuotedPrintable : string -> string).

(** What a send takes from the random source and the clock. *)
Record draw := MkDraw { uuid : string; date : string; boundary : string }.

Definition smtp_Send (s : smtpSender) (x : draw * option Message) : prog event answer (result fault Receipt) :=
  match prepare ParseAddress Address_String (uuid x.1) x.2 with
  | Err e => Ret (Err e)
  | Ok (m, from, to) =>
      if negb (ascii_ (Addr from)) || negb (ascii_ (Addr to)) then Ret (Err (Failed (failure "smtp_address" Rejected 0)))
      else
        let body := mimeMessage BEncode QuotedPrintable (date x.1) (boundary x.1) m in
        wrap Failed (try! c := session s (Addr from) (Addr to) in submit c body (ID m))
  end.

(** ** sender.go *)

Context (Marshal : sendEmailRequest -> option string).
Context (valid_URL : string -> bool).

Definition postbox_Send (c : Postbox.Client) (x : draw * option Message)
  : prog Postbox.event Postbox.answer (result fault Receipt) :=
  match prepare ParseAddress Address_String (uuid x.1) x.2 with
  | Err e => Ret (Err e)
  | Ok (m, _, _) =>
      do r := SendEmailWithReceipt Marshal valid_URL c
                (Some (Postbox.MkMessage (From m) [To m] (Subject m) (TextBody m) (HTMLBody m) "")) in
      Ret (match r with
           | Ok id => Ok (MkReceipt ProviderPostbox id)
           | Err pe => Err (Failed (failure (Postbox.Stage pe)
                                      (if IsUnknown pe then Unknown else if IsRetryable pe then Retryable else Rejected)
                                      (StatusCode pe)))
           end)
  end.

Inductive Sender (Res : Type) := SMTP (s : smtpSender) | PostboxSender (c : Postbox.Client) (resolver : Res).

(** [NilSection]: a nil section is dereferenced. *)
Inductive new_error := BadConfig (e : config_error) | BadResolver (e : YErr) | NilSection.

Context (url_Parse : string -> option URL).
Context (is_IP : string -> bool).
Context {Res : Type} (NewIAMTokenResolver : AuthConfig -> result YErr Res).

(** The sections are copied before the defaults are filled in, so the caller's
    configuration is left as it was: the value here. *)
Definition NewSender (c : Config) (http : option HTTPClient) : result new_error (Sender Res) :=
  let c := ApplyDefaults c in
  let? _ := map_err BadConfig (Validate url_Parse is_IP c) in
  if Provider c ==s ProviderSelectel then
    match Selectel c with Some s => Ok (SMTP Res (newSMTP s)) | None => Err NilSection end
  else
    match c_Postbox c with
    | Some pb => let? r := map_err BadResolver (NewClient NewIAMTokenResolver pb http) in Ok (PostboxSender Res r.1 r.2)
    | None => Err NilSection
    end.
End smtp.

(** ** What is accepted *)

Record smtp_ok (is_IP : string -> bool) (c : SMTPConfig) : Prop := {
  ok_host : Host c <> "" /\ ContainsAny (Host c) [CR; LF; TAB; NUL; " "%char; "/"%char; "@"%char] = false /\
            (is_IP (Host c) = true \/ has_byte ":" (Host c) = false);
  ok_port : 1 <= Port c <= 65535;
  ok_mode : TLSMode c = TLSImplicit \/ TLSMode c = TLSStartTLS;
  ok_user : Username c <> "" /\ ContainsAny (Username c) [CR; LF; NUL] = false /\ Secret.Plaintext (Password c) <> "";
  ok_timeout : 0 < c_Timeout c <= Minute }.

Lemma SMTP_validate_ok is_IP c : SMTP_validate is_IP c = Ok tt <-> smtp_ok is_IP c.
Proof.
  unfold SMTP_validate, Secret.IsEmpty. split.
  - intros H. destruct (eqb_cases (Host c) "") as [[E ?]|[E ?]]; rewrite E in H; [done|].
    destruct (ContainsAny (Host c) _) eqn:?; [done|]. destruct (negb (is_IP _) && _) eqn:Hip; [done|]. cbn in H.
    destruct (_ || _) eqn:Hp in H; [done|]. destruct (_ && _) eqn:Hm in H; [done|].
    destruct (_ || _ || _) eqn:Hu in H; [done|]. destruct (_ || _) eqn:Ht in H; [done|].
    apply orb_false_iff in Hp, Ht, Hu. destruct Hp as [Hp1 Hp2], Ht as [Ht1 Ht2], Hu as [Hu Hu3].
    apply orb_false_iff in Hu as [Hu1 Hu2]. apply String.eqb_neq in Hu1, Hu3.
    constructor; [|lia| |by split_and!|lia].
    + split_and!; [done|done|]. destruct (is_IP (Host c)); [by left|by right].
    + destruct (eqb_cases (TLSMode c) TLSImplicit) as [[_ ?]|[E1 _]]; [by left|right].
      rewrite E1 in Hm. apply negb_false_iff, String.eqb_eq in Hm. done.
  - intros [(H1 & H2 & H3) Hp Hm (U1 & U2 & U3) Ht]. apply String.eqb_neq in H1, U1. rewrite H1, H2, U1, U2. cbn.
    replace (negb (is_IP (Host c)) && has_byte ":" (Host c)) with false by (destruct H3 as [-> | ->]; by rewrite ?andb_false_r).
    replace (_ || _) with false by lia. replace ((TLSMode c !=s _) && _) with false by (by destruct Hm as [-> | ->]).
    apply String.eqb_neq in U3. unfold Secret.Plaintext in U3. rewrite U3. by replace (_ || _) with false by lia.
Qed.

Lemma Email_Validate_ok url_Parse is_IP c :
  Validate url_Parse is_IP c = Ok tt <->
  (Provider c = ProviderPostbox /\ Selectel c = None /\
   exists pb, c_Postbox c = Some pb /\ secure_endpoint url_Parse (Endpoint pb) = true /\ Postbox.Validate pb = Ok tt) \/
  (Provider c = ProviderSelectel /\ c_Postbox c = None /\ exists s, Selectel c = Some s /\ smtp_ok is_IP s).
Proof.
  assert (ProviderPostbox <> ProviderSelectel) as Hne by done. unfold Validate.
  destruct (eqb_cases (Provider c) ProviderPostbox) as [[-> E]|[-> E]].
  - rewrite E. split.
    + intros H. left. destruct (c_Postbox c) as [pb|], (Selectel c); try done.
      destruct (secure_endpoint _ _) eqn:Hs; [|done]. apply map_err_ok in H. split_and!; eauto.
    + intros [(_ & -> & pb & -> & -> & H)|[H _]]; [by apply map_err_ok|done].
  - destruct (eqb_cases (Provider c) ProviderSelectel) as [[-> E']|[-> E']]; [|split; [done|by intros [[? _]|[? _]]]].
    rewrite E'. split.
    + intros H. right. destruct (c_Postbox c) as [pb|], (Selectel c) as [s|]; try done. apply SMTP_validate_ok in H. eauto.
    + intros [[H _]|(_ & -> & s & -> & H)]; [done|]. by apply SMTP_validate_ok.
Qed.

(** Filling in the defaults twice is filling them in once. *)
Lemma default_smtp_idem c : default_smtp (default_smtp c) = default_smtp c.
Proof.
  unfold default_smtp. cbn. rewrite !or_string_idem. f_equal.
  - destruct (Port c =? 0) eqn:E; [by destruct (_ ==s _)|by rewrite E].
  - destruct (c_Timeout c =? 0) eqn:E; [done|by rewrite E].
Qed.

Lemma Email_ApplyDefaults_idem c : ApplyDefaults (ApplyDefaults c) = ApplyDefaults c.
Proof.
  unfold ApplyDefaults. destruct (Provider c ==s ProviderPostbox) eqn:E1; cbn [Provider c_Postbox Selectel].
  - rewrite E1. f_equal. destruct (c_Postbox c); cbn; [|done]. by rewrite Postbox.ApplyDefaults_idem.
  - destruct (Provider c ==s ProviderSelectel) eqn:E2; cbn [Provider c_Postbox Selectel]; rewrite E1; [rewrite E2|by rewrite E2].
    f_equal. destruct (Selectel c); cbn; [|done]. by rewrite default_smtp_idem.
Qed.

(** ** What the server did with the message *)

(** The reply to the end of the data decides; an error while the body or its
    end is written leaves it open. *)
Fixpoint judge_smtp (h : list (event * answer)) : verdict :=
  match h with
  | [] => NotTaken
  | (EndData _, Reply code _) :: _ => if code =? 250 then Taken else NotTaken
  | (EndData _, _) :: _ => InDoubt
  | (Body _ _, Done) :: h => judge_smtp h
  | (Body _ _, _) :: _ => InDoubt
  | _ :: h => judge_smtp h
  end.

Definition data_event (e : event) : bool := match e with Body _ _ | EndData _ => true | _ => false end.
Definition quiet (h : list (event * answer)) : Prop := Forall (fun x => data_event (fst x) = false) h.

Lemma quiet_nil : quiet [].
Proof. by constructor. Qed.

Lemma judge_quiet h t : quiet h -> judge_smtp (h ++ t) = judge_smtp t.
Proof.
  induction 1 as [|[e r] h He _ IH]; [done|]. cbn [app judge_smtp fst] in *.
  by destruct e; cbn in He; rewrite ?IH.
Qed.

Lemma quiet_not_taken h : quiet h -> judge_smtp h = NotTaken.
Proof. intros H. rewrite <- (app_nil_r h). by rewrite judge_quiet. Qed.

(** ** What may leave, and how *)

Section session.
Context (name addr : string).

(** Commands that say nothing about the message or the account. *)
Definition clear (x : command) : Prop := x = EHLO \/ x = HELO \/ x = STARTTLS \/ x = QUIT.

(** A successful handshake verified the peer under this name. *)
Definition verified (h : list (event * answer)) (n : string) : Prop := n = name /\ (Handshake n, Done) ∈ h.

Definition protected (h : list (event * answer)) (e : event) : Prop :=
  match e with
  | Dial a => a = addr
  | Handshake n => n = name
  | Cmd None x => clear x
  | Cmd (Some n) _ | Body (Some n) _ | EndData (Some n) => verified h n
  | Body None _ | EndData None => False
  | SetDeadline | Greeting => True
  end.

Definition on_channel (h : list (event * answer)) (t : option string) : Prop :=
  match t with Some n => verified h n | None => True end.

(** The state of a session that has not opened the data stream. *)
Definition holds (h : list (event * answer)) (c : client) : Prop := quiet h /\ on_channel h (tls c).

Lemma on_channel_app h x t : on_channel h t -> on_channel (h ++ x) t.
Proof. destruct t as [n|]; [|done]. intros [-> H]. split; [done|]. apply elem_of_app. by left. Qed.

Lemma quiet_snoc h e r : data_event e = false -> quiet h -> quiet (h ++ [(e, r)]).
Proof. intros He Hh. apply Forall_app; split; [done|]. by constructor. Qed.

Lemma holds_snoc h e r c : data_event e = false -> holds h c -> holds (h ++ [(e, r)]) c.
Proof. intros He [Hq Hc]. split; [by apply quiet_snoc|by apply on_channel_app]. Qed.

(** A command keeps the session as it is. *)
Lemma cmd_safe h c n x :
  holds h c -> (tls c = None -> clear x) -> safe protected (fun h _ => holds h c) h (cmd c n x).
Proof.
  intros H Hx. split; [|by intros r; apply holds_snoc]. destruct H as [_ H]. cbn.
  destruct (tls c); [done|by apply Hx].
Qed.

Ltac plain := unfold clear; intros; tauto.

(** [c'] is [c] after greeting: the same channel. *)
Definition same (c c' : client) : Prop := tls c' = tls c /\ serverName c' = serverName c.

Lemma holds_same h c c' : same c c' -> holds h c -> holds h c'.
Proof. intros [E _]. unfold holds. by rewrite E. Qed.

Lemma ehlo_safe h c :
  holds h c -> safe protected (fun h r => holds h c /\ match r with Ok c' => same c c' /\ hello c' = hello c | Err _ => True end) h (ehlo c).
Proof.
  intros H. eapply safe_try; [apply (cmd_safe _ _ _ _ H); plain| |]; cbn; [done|]. intros h' r H'. by split_and!.
Qed.

Lemma say_hello_safe h c :
  holds h c -> safe protected (fun h c' => holds h c' /\ same c c' /\ is_Some (hello c')) h (say_hello c).
Proof.
  intros H. unfold say_hello. destruct (hello c) eqn:Eh; [cbn; rewrite Eh; by split_and!|].
  eapply safe_bind; [by apply ehlo_safe|]. intros h' [c'|e] [H' Hr].
  - destruct Hr as [[E1 E2] _]. cbn. split_and!; [by apply (holds_same _ c)|done|by eexists].
  - eapply safe_bind; [apply (cmd_safe _ _ _ _ H'); plain|]. intros h2 r H2. cbn. split_and!; [done|done|by eexists].
Qed.

Lemma Extension_safe h c e :
  holds h c -> safe protected (fun h x => holds h x.1 /\ same c x.1 /\ is_Some (hello x.1)) h (Extension c e).
Proof. intros H. eapply safe_bind; [by apply say_hello_safe|]. intros h' c' H'. exact H'. Qed.

Lemma greeted_safe {A} (Q : list (event * answer) -> result smtp_error A -> Prop) h c (k : client -> smtp A) :
  holds h c -> (forall h e, quiet h -> Q h (Err e)) ->
  (forall h c', holds h c' -> same c c' -> is_Some (hello c') -> safe protected Q h (k c')) ->
  safe protected Q h (greeted c k).
Proof.
  intros H He Hk. eapply safe_bind; [by apply say_hello_safe|]. intros h' c' (H' & Hs & Hi).
  destruct (hello_error c'); [by apply Hk|]. apply He. apply H'.
Qed.

Lemma Quit_safe h c : holds h c -> safe protected (fun h _ => quiet h) h (Quit c).
Proof.
  intros H. eapply safe_bind with (Q := fun h _ => quiet h).
  - apply greeted_safe; [done|done|]. intros h' c' H' _ _.
    eapply safe_mono; [|apply (cmd_safe _ _ _ _ H'); plain]. by intros h2 r [].
  - done.
Qed.

Lemma perform_safe h e (Q : list (event * answer) -> result smtp_error unit -> Prop) :
  protected h e -> Q (h ++ [(e, Done)])%list (Ok tt) -> (forall r, Q (h ++ [(e, r)])%list (Err OtherError)) ->
  safe protected Q h (perform e).
Proof. intros He Hok Herr. split; [done|]. intros [|? ?|]; cbn; auto. Qed.

Lemma StartTLS_safe h c :
  holds h c ->
  safe protected (fun h r => quiet h /\ match r with
                                        | Ok c' => holds h c' /\ tls c' = Some name /\ serverName c' = serverName c
                                        | Err _ => True end) h (StartTLS c name).
Proof.
  intros H. apply greeted_safe; [done|done|]. intros h1 c1 H1 [E1 E2] _.
  eapply safe_try; [apply (cmd_safe _ _ _ _ H1); plain|by intros h2 e []|]. cbv beta. intros h2 _ H2.
  eapply safe_try with (Q := fun h r => quiet h /\ match r with Ok _ => (Handshake name, Done) ∈ h | Err _ => True end).
  - apply perform_safe; [done| |].
    + split; [apply quiet_snoc; [done|apply H2]|]. apply elem_of_app. right. by constructor.
    + intros r. split; [|done]. apply quiet_snoc; [done|apply H2].
  - by intros h3 e [].
  - cbv beta iota. intros h3 _ [Hq Hin]. set (c2 := MkSMTP _ _ _ _). assert (holds h3 c2) as H3 by done.
    eapply safe_mono; [|by apply ehlo_safe]. intros h4 [c'|e] [H4 Hr]; [|by split; [apply H4|]].
    destruct Hr as [[Et Es] _]. split; [apply H4|]. rewrite Et, Es. split_and!; [|done|done].
    by eapply holds_same.
Qed.

(** Nothing of the message is out; a result satisfies [Q]. *)
Definition fine {A} (Q : list (event * answer) -> A -> Prop) (h : list (event * answer)) (r : result smtp_error A) : Prop :=
  quiet h /\ match r with Ok a => Q h a | Err _ => True end.
Definition good {A} (Q : list (event * answer) -> A -> Prop) (h : list (event * answer)) (r : result SendError A) : Prop :=
  quiet h /\ match r with Ok a => Q h a | Err e => e_Outcome e <> Unknown end.

(** ** AUTH *)

Section auth.

Lemma auth_loop_safe fuel h c a n msg :
  holds h c -> is_Some (tls c) -> safe protected (fine (fun h _ => holds h c)) h (auth_loop fuel c a n msg).
Proof.
  intros H Ht. revert h H a n msg; induction fuel as [|fuel IH]; intros h H a n msg; [by split; [apply H|]|]. cbn [auth_loop].
  assert (forall x, tls c = None -> clear x) as Hany by (by rewrite <- not_eq_None_Some in Ht).
  assert (forall e, safe protected (fine (fun h (_ : unit) => holds h c)) h
                      (do _ := cmd c 501 AuthAbort in do _ := Quit c in Ret (Err e))) as Habort.
  { intros e. eapply safe_bind; [apply (cmd_safe _ _ _ _ H), Hany|]. cbv beta. intros h' _ H'.
    eapply safe_bind; [by apply Quit_safe|]. by split. }
  destruct (negb _); [done|]. destruct (_ && _); [done|].
  destruct (Next a _) as [a' [[resp|]|e]]; [|by split; [apply H|]|done].
  eapply safe_try; [apply (cmd_safe _ _ _ _ H), Hany|by intros h' e []|]. cbv beta. intros h' r H'. by apply IH.
Qed.

Lemma Auth_safe h c a :
  holds h c -> safe protected (fine (fun h _ => holds h c /\ is_Some (tls c))) h (Auth c a).
Proof.
  intros H. apply greeted_safe; [done|by split|]. intros h1 c1 H1 [E1 E2] _. unfold Start.
  destruct (negb (bool_decide (is_Some (tls c1))) || _) eqn:Hs.
  { eapply safe_bind; [by apply Quit_safe|]. by split. }
  apply orb_false_iff in Hs as [Hs%negb_false_iff%bool_decide_eq_true _].
  eapply safe_try; [apply (cmd_safe _ _ _ _ H1); by rewrite <- not_eq_None_Some in Hs|by intros h2 e []|]. cbv beta. intros h2 r H2.
  eapply safe_mono; [|by apply auth_loop_safe]. intros h3 [x|e] [Hq Hx]; split; try done. rewrite <- E1. split; [|done].
  apply (holds_same _ c1); [by split|done].
Qed.

(** The challenges are bounded: more fuel changes nothing. *)
Lemma auth_loop_fuel srv fuel h c a n msg :
  0 <= step a -> (Z.to_nat (3 - step a) <= fuel)%nat -> (1 <= fuel)%nat ->
  run srv h (auth_loop (S fuel) c a n msg) = run srv h (auth_loop fuel c a n msg).
Proof.
  revert h a n msg; induction fuel as [|fuel IH]; intros h a n msg Hs Hf H1; [lia|].
  remember (S fuel) as g eqn:Hg. cbn [auth_loop]. rewrite Hg. cbn [auth_loop]. destruct (negb _); [done|].
  destruct (_ && negb _); [done|]. destruct (n =? 334) eqn:En; cbn; [|done].
  destruct (step a + 1 =? 1) eqn:E1; cbn.
  - destruct (srv h _); cbn; try done. rewrite Hg in IH. apply IH; cbn; lia.
  - destruct (step a + 1 =? 2) eqn:E2; cbn; [|done].
    destruct (srv h _); cbn; try done. rewrite Hg in IH. apply IH; cbn; lia.
Qed.
End auth.

(** ** The session as a whole *)

Lemma smtpFailure_before stage e : e_Outcome (smtpFailure stage false e) <> Unknown.
Proof. destruct e as [n|]; cbn; [|done]. by destruct (_ && _). Qed.

Lemma at_stage_safe {A} stage Q h (p : smtp A) :
  safe protected (fine Q) h p -> safe protected (good Q) h (at_stage stage false p).
Proof.
  intros H. apply safe_wrap. eapply safe_mono; [|exact H]. intros h' [a|e] [Hq HQ]; [done|].
  split; [done|]. apply smtpFailure_before.
Qed.

Lemma stage_try {A B} stage Q (Q' : list (event * answer) -> B -> Prop) h (p : smtp A) f :
  safe protected (fine Q) h p -> (forall h a, quiet h -> Q h a -> safe protected (good Q') h (f a)) ->
  safe protected (good Q') h (try (at_stage stage false p) f).
Proof.
  intros Hp Hf. eapply safe_try; [by apply at_stage_safe|by intros h' e []|]. intros h' a [Hq HQ]. by apply Hf.
Qed.

Lemma good_try {A B} Q (Q' : list (event * answer) -> B -> Prop) h (p : prog event answer (result SendError A)) f :
  safe protected (good Q) h p -> (forall h a, quiet h -> Q h a -> safe protected (good Q') h (f a)) ->
  safe protected (good Q') h (try p f).
Proof. intros Hp Hf. eapply safe_try; [exact Hp|by intros h' e []|]. intros h' a [Hq HQ]. by apply Hf. Qed.

Lemma perform_fine h e (Q : list (event * answer) -> unit -> Prop) :
  protected h e -> data_event e = false -> quiet h -> Q (h ++ [(e, Done)])%list tt -> safe protected (fine Q) h (perform e).
Proof. intros Hp He Hq HQ. apply perform_safe; [done| |]; intros; split; try done; by apply quiet_snoc. Qed.

Lemma cmd_fine h c n x : holds h c -> is_Some (tls c) -> safe protected (fine (fun h _ => holds h c)) h (cmd c n x).
Proof.
  intros H Ht. eapply safe_mono; [|apply (cmd_safe _ _ _ _ H); by rewrite <- not_eq_None_Some in Ht].
  intros h' [a|e] H'; split; try done; apply H'.
Qed.

Lemma validateLine_fine {A} Q h line (k : smtp A) :
  quiet h -> safe protected (fine Q) h k -> safe protected (fine Q) h (validateLine line k).
Proof. intros Hq Hk. unfold validateLine. by destruct (ContainsAny _ _). Qed.

Lemma Mail_fine h c from : holds h c -> is_Some (tls c) -> safe protected (fine (fun h _ => holds h c)) h (Mail c from).
Proof.
  intros H Ht. apply validateLine_fine; [apply H|]. apply greeted_safe; [done|by split|]. intros h' c' H' [E1 E2] _.
  eapply safe_mono; [|apply (cmd_fine _ _ _ _ H'); by rewrite E1]. intros h2 [a|e] [Hq Hh]; split; try done.
  apply (holds_same _ c'); [|done]. by split.
Qed.

Lemma greet_good h c : holds h c -> safe protected (good holds) h (greet c).
Proof.
  intros H. apply at_stage_safe. split; [done|]. intros r. cbn.
  assert (holds (h ++ [(Greeting, r)]) c) as H' by (by apply holds_snoc).
  destruct (ReadResponse 220 r); split; try done; apply H'.
Qed.
End session.

Section sends.
Context (s : smtpSender).
Let name := ServerName s.
Let addr := JoinHostPort (Host (cfg s)) (FormatInt (Port (cfg s))).

Lemma tls_part h :
  quiet h ->
  safe (protected name addr) (good (holds name)) h
    (if TLSMode (cfg s) ==s TLSImplicit then
       try! _ := at_stage "tls" false (perform (Handshake name)) in
       greet (MkSMTP (Host (cfg s)) (Some name) None None)
     else greet (MkSMTP (Host (cfg s)) None None None)).
Proof.
  intros Hq. destruct (_ ==s _); [|by apply greet_good].
  eapply stage_try with (Q := fun h _ => (Handshake name, Done) ∈ h).
  - apply perform_fine; try done. apply elem_of_app. right. by constructor.
  - intros h' _ Hq' Hin. by apply greet_good.
Qed.

Lemma starttls_part h c :
  holds name h c ->
  safe (protected name addr) (good (holds name)) h
    (if TLSMode (cfg s) ==s TLSStartTLS then
       do x := Extension c "STARTTLS" in
       match x.2 with
       | None => Ret (Err (failure "starttls_required" Rejected 0))
       | Some _ => at_stage "starttls" false (StartTLS x.1 name)
       end
     else Ret (Ok c)).
Proof.
  intros H. destruct (_ ==s _); [|by split; [apply H|]]. eapply safe_bind; [by apply Extension_safe|].
  intros h4 [c4 m] (H4 & _). cbn [fst snd] in *.
  destruct m; [|split; [apply H4|done]]. apply at_stage_safe. eapply safe_mono; [|by apply StartTLS_safe].
  intros h5 [c5|e] [Hq Hc]; split; try done. apply Hc.
Qed.

Lemma session_safe from to :
  safe (protected name addr) (good (fun h c => holds name h c /\ is_Some (tls c) /\ is_Some (hello c))) [] (session s from to).
Proof.
  pose proof quiet_nil as Hq0. unfold session.
  eapply stage_try; [by apply (perform_fine _ _ _ _ (fun _ _ => True))|]. intros h1 _ Hq1 _.
  eapply stage_try; [by apply (perform_fine _ _ _ _ (fun _ _ => True))|]. intros h2 _ Hq2 _.
  eapply good_try; [by apply tls_part|]. intros h3 c Hq3 H3. eapply good_try; [by apply starttls_part|].
  intros h4 c4 Hq4 H4. eapply safe_bind; [by apply Extension_safe|]. intros h5 [c5 m] (H5 & _ & Hi). cbn [fst snd] in *.
  destruct (negb _); [split; [apply H5|done]|].
  eapply stage_try; [by apply Auth_safe|]. cbv beta. intros h6 _ Hq6 [H6 Ht].
  eapply stage_try; [by apply Mail_fine|]. cbv beta. intros h7 _ Hq7 H7.
  eapply stage_try; [apply validateLine_fine; [done|by apply cmd_fine]|]. cbv beta. intros h8 _ Hq8 H8.
  eapply stage_try; [by apply cmd_fine|]. cbv beta. intros h9 _ Hq9 H9. by split.
Qed.

(** After the greeting nothing but QUIT is left to say. *)
Lemma Quit_greeted h c :
  is_Some (hello c) -> on_channel name h (tls c) -> safe (protected name addr) (fun _ _ => True) h (Quit c).
Proof.
  intros [r Hr] Hc. unfold Quit, greeted, say_hello. rewrite Hr. cbn [bind]. unfold hello_error. rewrite Hr.
  destruct r; cbn; [|done]. split; [|done]. destruct (tls c); [done|]. unfold clear. tauto.
Qed.

Lemma submit_safe h c body id :
  holds name h c -> is_Some (tls c) -> is_Some (hello c) ->
  safe (protected name addr) (fun h r => agrees (judge_smtp h) (map_err e_Outcome r)) h (submit c body id).
Proof.
  intros [Hq Hc] [n Hn] Hi. unfold submit, at_stage, wrap, perform. rewrite Hn in Hc. rewrite Hn. cbn [bind try].
  split; [done|]. intros [|? ?|]; cbn; try (by rewrite judge_quiet).
  assert (forall x, verified name (h ++ [x]) n) as Hv by (intros x; by apply (on_channel_app _ _ _ (Some n))).
  split; [apply Hv|]. intros [|code text|]; cbn; try (by rewrite <- app_assoc, judge_quiet).
  destruct (code =? 250) eqn:Ec; cbn.
  - split; [done|]. intros r. eapply safe_bind.
    + apply safe_extends, Quit_greeted; [done|]. rewrite Hn. rewrite <- !app_assoc. by apply on_channel_app.
    + intros h' _ [_ (t & ->)]. cbn. rewrite <- !app_assoc, judge_quiet by done. cbn. by rewrite Ec.
  - rewrite <- app_assoc, judge_quiet by done. cbn. rewrite Ec. by destruct (_ && _).
Qed.
End sends.

(** ** Preparation *)

Lemma Count_nonneg c s : 0 <= Count c s.
Proof. induction s as [|x s IH]; cbn; [done|]. destruct (Ascii.eqb x c); lia. Qed.

Lemma Count_SplitN2 s : Count "@" s <> 0 -> is_Some (SplitN2 "@" s).
Proof.
  induction s as [|x s IH]; cbn [Count SplitN2]; [done|]. destruct (Ascii.eqb x "@"); [by eexists|].
  intros H. destruct IH as [[a b] ->]; [lia|by eexists].
Qed.

Definition outcome_of (f : fault) : Outcome := match f with Failed e => e_Outcome e | Panicked => Unknown end.

(** A canonical address is not empty and has an [@]; equal spellings up to the
    case of the parsed address agree. *)
Lemma Normalize_ok ParseAddress value email :
  Normalize ParseAddress value = Some email ->
  email <> "" /\ Contains email "@" = true /\
  (forall value' a a', ParseAddress (TrimSpace value) = Some a -> ParseAddress (TrimSpace value') = Some a' ->
     EqualFold (TrimSpace (Addr a)) (TrimSpace (Addr a')) = true -> Normalize ParseAddress value' = Some email).
Proof.
  unfold Normalize. destruct (ParseAddress (TrimSpace value)) as [a|] eqn:Ha; [|done]. cbn.
  destruct (eqb_cases (ToLower (TrimSpace (Addr a))) "") as [[-> ?]|[E ?]]; [done|]. rewrite E. cbn.
  destruct (Contains _ _) eqn:Hc; [|done]. intros [= <-]. split_and!; [done|done|].
  intros value' a0 a' [= <-] Ha' Hf%String.eqb_eq. rewrite Ha'. cbn. rewrite <- Hf, E, Hc. done.
Qed.

Section prepared.
Context (ParseAddress : string -> option Address) (Address_String : Address -> string).

(** Refusing a message is final, and the address never lacks its domain. *)
Lemma prepare_err id msg f : prepare ParseAddress Address_String id msg = Err f -> outcome_of f = Rejected.
Proof.
  unfold prepare. destruct msg as [m|]; [|by intros [= <-]]. destruct (_ || _); [by intros [= <-]|].
  destruct (ParseAddress (From m)) as [from|]; [|by intros [= <-]].
  destruct (validAddress from) eqn:Hv; cbn [negb]; [|by intros [= <-]].
  destruct (ParseAddress (To m)) as [to|]; [|by intros [= <-]].
  destruct (validAddress to); cbn [negb]; [|by intros [= <-]].
  destruct (SplitN2 "@" (Addr from)) as [[l d]|] eqn:Hs.
  - by destruct (ID m ==s ""); cbn; destruct (validID _); cbn; intros [= <-].
  - exfalso. unfold validAddress in Hv. bprop.
    destruct (Count_SplitN2 (Addr from)) as [x Hx]; [lia|]. by rewrite Hx in Hs.
Qed.

(** A prepared message: its identifier and both envelope addresses are fit for
    the wire. *)
Lemma prepare_ok id msg m from to :
  prepare ParseAddress Address_String id msg = Ok (m, from, to) ->
  validID (ID m) = true /\ validAddress from = true /\ validAddress to = true /\
  From m = Address_String from /\ To m = Address_String to /\
  exists m0, msg = Some m0 /\ ParseAddress (From m0) = Some from /\ ParseAddress (To m0) = Some to /\
    Subject m = Subject m0 /\ TextBody m = TextBody m0 /\ HTMLBody m = HTMLBody m0 /\
    (ID m0 <> "" -> ID m = ID m0).
Proof.
  unfold prepare. destruct msg as [m0|]; [|done]. destruct (_ || _); [done|].
  destruct (ParseAddress (From m0)) as [from'|] eqn:Hf; [|done].
  destruct (validAddress from') eqn:Hv; cbn [negb]; [|done].
  destruct (ParseAddress (To m0)) as [to'|] eqn:Ht; [|done].
  destruct (validAddress to') eqn:Hv2; cbn [negb]; [|done].
  destruct (eqb_cases (ID m0) "") as [[-> E]|[-> E]].
  - destruct (SplitN2 _ _) as [[l d]|]; cbn; [|done]. destruct (validID _) eqn:Hid; cbn [negb]; [|done].
    intros [= <- <- <-]. cbn. split_and!; try done. exists m0. by split_and!.
  - cbn. destruct (validID (ID m0)) eqn:Hid; cbn [negb]; [|done].
    intros [= <- <- <-]. cbn. split_and!; try done. exists m0. by split_and!.
Qed.
End prepared.

(** ** The transports *)

Section transports.
Context (ParseAddress : string -> option Address) (Address_String : Address -> string).
Context (BEncode QuotedPrintable : string -> string).
Abbreviation smtp_Send_ := (smtp_Send ParseAddress Address_String BEncode QuotedPrintable).

Lemma map_err_map_err {E F G A} (f : E -> F) (g : F -> G) (r : result E A) :
  map_err g (map_err f r) = map_err (fun e => g (f e)) r.
Proof. by destruct r. Qed.

Lemma rejected_agrees {A} h (r : result fault A) f : r = Err f -> outcome_of f = Rejected -> judge_smtp h = NotTaken ->
  agrees (judge_smtp h) (map_err outcome_of r).
Proof. by intros -> Hf Hj; cbn; rewrite Hf. Qed.

Lemma smtp_Send_safe s x :
  safe (protected (ServerName s) (JoinHostPort (Host (cfg s)) (FormatInt (Port (cfg s)))))
    (fun h r => agrees (judge_smtp h) (map_err outcome_of r)) [] (smtp_Send_ s x).
Proof.
  unfold smtp_Send. destruct (prepare _ _ _ _) as [[[m from] to]|f] eqn:Hp.
  - destruct (_ || _); [done|]. apply safe_wrap. eapply safe_bind; [by apply session_safe|].
    intros h [c|e] [Hq Hc].
    + destruct Hc as (Hc & Ht & Hh). eapply safe_mono; [|by apply submit_safe].
      intros h' r Hr. by rewrite map_err_map_err.
    + cbn. rewrite (quiet_not_taken _ Hq). by destruct (e_Outcome e).
  - cbn. by rewrite (prepare_err _ _ _ _ _ Hp).
Qed.

#[export] Program Instance smtp_transport s :
  Transport (fun x => do r := smtp_Send_ s x in Ret (map_err outcome_of r)) := {| judge := judge_smtp |}.
Next Obligation.
  intros s x. eapply safe_bind; [eapply safe_weaken; [|apply smtp_Send_safe]; done|]. by intros h r Hr.
Qed.

Context (Marshal : sendEmailRequest -> option string) (valid_URL : string -> bool).
Abbreviation postbox_Send_ := (postbox_Send ParseAddress Address_String Marshal valid_URL).

#[export] Program Instance postbox_transport c :
  Transport (fun x => do r := postbox_Send_ c x in Ret (map_err outcome_of r)) := {| judge := judge_post |}.
Next Obligation.
  intros c x. unfold postbox_Send. destruct (prepare _ _ _ _) as [[[m from] to]|f] eqn:Hp.
  - eapply safe_bind with (Q := fun h r => agrees (judge_post h) (map_err outcome_of r)); [|done].
    eapply safe_bind; [apply SendEmailWithReceipt_agrees|]. intros h [id|pe] Hr; exact Hr.
  - cbn. by rewrite (prepare_err _ _ _ _ _ Hp).
Qed.
End transports.

(** Against the interface: in every run, with every peer. *)
Lemma transport_truthful {E R M A} (Send : M -> prog E R (result Outcome A)) `{!Transport Send} srv m :
  let '(h, r) := run srv [] (Send m) in agrees (judge h) r.
Proof. apply ends_run, Send_agrees. Qed.

Lemma run_ret {E R A B} (srv : peer E R) h (p : prog E R A) (f : A -> B) :
  run srv h (do a := p in Ret (f a)) = let '(h, a) := run srv h p in (h, f a).
Proof. revert h; induction p as [a|e k IH]; intros h; cbn [bind run]; [done|]. apply IH. Qed.

Section senders.
Context (ParseAddress : string -> option Address) (Address_String : Address -> string).
Context (BEncode QuotedPrintable : string -> string).
Context (Marshal : sendEmailRequest -> option string) (valid_URL : string -> bool).
Context (url_Parse : string -> option URL) (is_IP : string -> bool).
Context {Res : Type} (NewIAMTokenResolver : AuthConfig -> result YErr Res).
Abbreviation New := (NewSender url_Parse is_IP NewIAMTokenResolver).
Abbreviation smtp_Send_ := (smtp_Send ParseAddress Address_String BEncode QuotedPrintable).
Abbreviation postbox_Send_ := (postbox_Send ParseAddress Address_String Marshal valid_URL).

Lemma ApplyDefaults_Provider c : Provider (ApplyDefaults c) = Provider c.
Proof. unfold ApplyDefaults. destruct (_ ==s _); [done|]. by destruct (_ ==s _). Qed.

Lemma NewSender_no_nil c http : New c http <> Err NilSection.
Proof.
  unfold NewSender. destruct (Validate _ _ _) as [[]|e] eqn:Hv; cbn; [|done]. unfold Validate in Hv.
  rewrite ApplyDefaults_Provider in *. destruct (eqb_cases (Provider c) ProviderPostbox) as [[E1 E]|[E1 E]]; rewrite E1 in Hv.
  - rewrite E. cbn. destruct (c_Postbox _); [|done]. by destruct (NewClient _ _ _).
  - destruct (_ ==s ProviderSelectel); [|done]. by destruct (Selectel _).
Qed.

(** What a sender was made from. *)
Lemma NewSender_ok c http x :
  New c http = Ok x ->
  match x with
  | SMTP _ s =>
      exists cfg0, Selectel c = Some cfg0 /\ s = newSMTP (default_smtp cfg0) /\ SMTP_validate is_IP (default_smtp cfg0) = Ok tt
  | PostboxSender _ k _ =>
      exists pb, c_Postbox c = Some pb /\ k = NewClientWithResolver (Postbox.ApplyDefaults pb) (Some (protectedClient http)) /\
        secure_endpoint url_Parse (Endpoint (Postbox.ApplyDefaults pb)) = true /\ Postbox.Validate (Postbox.ApplyDefaults pb) = Ok tt
  end.
Proof.
  unfold NewSender, Validate. rewrite ApplyDefaults_Provider. unfold ApplyDefaults.
  destruct (eqb_cases (Provider c) ProviderPostbox) as [[-> E]|[-> E]].
  - rewrite E. cbn [c_Postbox Selectel]. destruct (c_Postbox c) as [pb|]; [|done]. destruct (Selectel c); [done|]. cbn.
    destruct (secure_endpoint _ _) eqn:Hs; [|done]. cbn. destruct (Postbox.Validate _) as [[]|] eqn:Hv; [|done]. cbn.
    unfold NewClient. destruct (NewIAMTokenResolver _); [|done]. cbn. intros [= <-]. exists pb. by rewrite Postbox.ApplyDefaults_idem.
  - destruct (eqb_cases (Provider c) ProviderSelectel) as [[-> E']|[-> E']]; [|done].
    cbn [c_Postbox Selectel]. destruct (Selectel c) as [s|]; [|done]. destruct (c_Postbox c); [done|]. cbn.
    destruct (SMTP_validate _ _) as [[]|] eqn:Hv; [|done]. cbn. intros [= <-]. by exists s.
Qed.

(** C15. Whatever the peer does, and wherever the connection breaks, the result
    of a send tells the truth about the message: a receipt means the peer
    confirmed that it took it, [Unknown] that it may have, [Retryable] and
    [Rejected] that it did not.  Both transports keep this contract, and making
    a sender never dereferences a missing section. *)
Theorem email_outcome_truthful c http x :
  New c http = Ok x ->
  match x with
  | SMTP _ s => forall srv m, let '(h, r) := run srv [] (smtp_Send_ s m) in agrees (judge_smtp h) (map_err outcome_of r)
  | PostboxSender _ k _ => forall srv m, let '(h, r) := run srv [] (postbox_Send_ k m) in agrees (judge_post h) (map_err outcome_of r)
  end /\
  (forall c' http', New c' http' <> Err NilSection).
Proof.
  intros _. split.
  - destruct x as [s|k res]; intros srv m.
    + pose proof (transport_truthful _ (Transport0 := smtp_transport ParseAddress Address_String BEncode QuotedPrintable s) srv m) as H.
      cbv beta in H. rewrite run_ret in H. by destruct (run _ _ _).
    + pose proof (transport_truthful _ (Transport0 := postbox_transport ParseAddress Address_String Marshal valid_URL k) srv m) as H.
      cbv beta in H. rewrite run_ret in H. by destruct (run _ _ _).
  - apply NewSender_no_nil.
Qed.

(** C18. A send that uses SMTP, in every run and with every server, connects only
    to the configured host and port; before a handshake has verified that host
    it sends only EHLO, HELO, STARTTLS and QUIT; everything else (the
    credentials, the envelope, the message) leaves on a connection verified for
    that host. *)
Theorem smtp_confidential c http s srv m h r h1 e a h2 :
  New c http = Ok (SMTP _ s) -> run srv [] (smtp_Send_ s m) = (h, r) -> h = (h1 ++ (e, a) :: h2)%list ->
  exists cfg0, Selectel c = Some cfg0 /\
    protected (or_string (Host cfg0) SelectelHost)
      (JoinHostPort (or_string (Host cfg0) SelectelHost) (FormatInt (Port (default_smtp cfg0)))) h1 e.
Proof.
  intros (cfg0 & Hc & -> & _)%NewSender_ok Hrun ->. exists cfg0. split; [done|].
  pose proof (safe_run _ _ srv _ _ (smtp_Send_safe ParseAddress Address_String BEncode QuotedPrintable (newSMTP (default_smtp cfg0)) m)) as H.
  rewrite Hrun in H. destruct H as (t & E & Ht & _). cbn in E. by eapply (trace_ok_spec _ []).
Qed.
End senders.

(** ** A server *)

Module Demo.

Definition address (s : string) : option Address := if Count "@" s =? 1 then Some (MkAddress "" s) else None.
Definition print_address (a : Address) : string := "<" +:+ Addr a +:+ ">".
Definition same_text (s : string) : string := s.
Definition msg : option Message := Some (MkMessage "a@x.ru" "b@y.ru" "code" "1234" "" "").
Definition random : draw := MkDraw "u-u" "now" "bb".
Definition config (mode : string) : Config :=
  MkConfig "selectel" None (Some (MkSMTPConfig "" 0 mode "user" (Secret.NewSecret "pass") 0)).
Definition sender (mode : string) : smtpSender :=
  newSMTP (default_smtp (MkSMTPConfig "" 0 mode "user" (Secret.NewSecret "pass") 0)).

(** A server that does as asked, except that it answers the end of the data
    with [final] and every greeting with [hi]. *)
Definition line (l : list string) : string := String.concat (String LF "") l.
Definition obliging (hi final : answer) : peer event answer := fun _ e =>
  match e with
  | Dial _ | SetDeadline | Handshake _ | Body _ _ => Done
  | Greeting => Reply 220 "ready"
  | Cmd _ EHLO | Cmd _ HELO => hi
  | Cmd _ STARTTLS => Reply 220 "go ahead"
  | Cmd _ (AUTH _) => Reply 334 "VXNlcm5hbWU6"
  | Cmd _ (AuthResponse r) => if r ==s "user" then Reply 334 "UGFzc3dvcmQ6" else Reply 235 "ok"
  | Cmd _ AuthAbort => Reply 501 ""
  | Cmd _ DATA => Reply 354 ""
  | Cmd _ QUIT => Broken
  | Cmd _ _ => Reply 250 ""
  | EndData _ => final
  end.
Definition hello_text : answer := Reply 250 (line ["smtp"; "STARTTLS"; "AUTH PLAIN login"]).

Abbreviation send srv mode := (run srv [] (smtp_Send address print_address same_text same_text (sender mode) (random, msg))).
Abbreviation make mode := (NewSender (fun _ => None) (fun _ => false) (fun _ => Ok tt) (config mode) None).

(** Accepted although QUIT fails; refused for now; in doubt. *)
Example accepted : (send (obliging hello_text (Reply 250 "queued")) "starttls").2 = Ok (MkReceipt "selectel" "<u-u@x.ru>").
Proof. vm_compute. reflexivity. Qed.
Example busy : (send (obliging hello_text (Reply 451 "later")) "").2 = Err (Failed (failure "acceptance" Retryable 451)).
Proof. vm_compute. reflexivity. Qed.
Example lost : (send (obliging hello_text Broken) "").2 = Err (Failed (failure "acceptance" Unknown 0)).
Proof. vm_compute. reflexivity. Qed.

(** A connection lost during EHLO, or a 421 reply to it, is reported as a
    permanent rejection: [Extension] has no error to return, so the missing
    reply looks like a server without AUTH LOGIN. *)
Lemma lost_greeting_rejected :
  (send (obliging Broken Broken) "").2 = Err (Failed (failure "auth_login_required" Rejected 0)) /\
  (send (obliging (Reply 421 "try again later") Broken) "starttls").2 = Err (Failed (failure "starttls_required" Rejected 0)).
Proof. split; vm_compute; reflexivity. Qed.

Lemma email_outcome_truthful_witness :
  let '(h, r) := send (obliging hello_text Broken) "starttls" in agrees (judge_smtp h) (map_err outcome_of r).
Proof.
  refine (proj1 (email_outcome_truthful address print_address same_text same_text (fun _ => None) (fun _ => true)
            (fun _ => None) (fun _ => false) (fun _ => Ok tt) (config "starttls") None (SMTP unit (sender "starttls")) _)
            (obliging hello_text Broken) (random, msg)).
  vm_compute. reflexivity.
Defined.

Lemma smtp_confidential_witness :
  exists cfg0, Selectel (config "starttls") = Some cfg0 /\
    protected (or_string (Host cfg0) SelectelHost)
      (JoinHostPort (or_string (Host cfg0) SelectelHost) (FormatInt (Port (default_smtp cfg0))))
      (firstn 8 (send (obliging hello_text (Reply 250 "queued")) "starttls").1)
      (Cmd (Some "smtp.mail.selcloud.ru") (AuthResponse "user")).
Proof.
  refine (smtp_confidential address print_address same_text same_text (fun _ => None) (fun _ => false) (fun _ => Ok tt)
            (config "starttls") None (sender "starttls") (obliging hello_text (Reply 250 "queued")) (random, msg)
            (send (obliging hello_text (Reply 250 "queued")) "starttls").1 (send (obliging hello_text (Reply 250 "queued")) "starttls").2
            _ _ (Reply 334 "UGFzc3dvcmQ6") (skipn 9 (send (obliging hello_text (Reply 250 "queued")) "starttls").1) _ _ _);
    vm_compute; reflexivity.
Defined.
End Demo.
