(* ===== verification/AuthnConfig.v ===== *)
(** * The authentication service's configuration (src/authnconfig/config.go)

    The schema, the defaults that LoadFromBytes fills in, and [validate].  The
    sections come from the components that use them: TLS, log and health from
    Duration.v, the service blocks from StsClient.v, mail delivery from Email.v
    and Postbox.v, route tokens from RouteTokens.v.  YAML decoding and
    [uuid.Parse] are arguments; a Go map is ranged over in any order. *)
From S2P Require Import Prelude GoStrings Secret Duration StsClient YCloud RouteTokens Health Interact Postbox Email.
Import Sections.
Local Open Scope string_scope.
Local Open Scope Z_scope.

(** ** The schema *)

Record AuthzTLSConfig := MkAuthzTLS { at_Enabled : bool; CAFile : string; at_CertFile : string; at_KeyFile : string }.
Record AuthzConfig := MkAuthz { az_Enabled : bool; az_Endpoint : string; az_TLS : AuthzTLSConfig }.
Record BotProviderInfo := MkBot { b_Provider : string; BotUsername : string }.
Record BotVerifyConfig := MkBotVerify {
  bv_Enabled : bool; bv_CodeTTL : Z; bv_MaxPendingPerIP : Z; AllowedProviders : list string; Bots : list BotProviderInfo }.
Record EmailOTPConfig := MkEmailOTP {
  eo_Enabled : bool; CodeTTL : Z; MaxPendingPerIP : Z; MaxPendingPerEmail : Z; MaxAttempts : Z; Cooldown : Z;
  SenderAddress : string; SenderName : string; eo_Subject : string; eo_Postbox : Postbox.Config;
  Delivery : option Email.Config }.
Record LegacyTelegramJWTConfig := MkTelegram {
  tg_Enabled : bool; HMACSecret : string; tg_Issuer : string; tg_Audience : string; MaxTokenAge : Z; EndpointEnabledUntil : Z }.
Record LegacyLoginConfig := MkLegacyLogin { TelegramJWT : LegacyTelegramJWTConfig }.
Record LegacyUsersSyncApplyConfig := MkApply { ap_Enabled : bool; Actions : list string; MaxLinks : Z; MaxCreates : Z }.
Record LegacyUsersSyncConfig := MkSync {
  LockDatabaseDSN : string; ls_Enabled : bool; AllowedSubjects : list string; MaxUsers : Z;
  IdentityOverrides : gmap Z string; Apply : LegacyUsersSyncApplyConfig }.
Record BootstrapAccount := MkAccount {
  a_Name : string; PublicKeyPEM : string; AllowedAudiences : list string; AllowAllAudiences : bool; TokenTTL : Z }.
Record STSConfig := MkSTS { st_Enabled : bool; AssertionMaxAge : Z; Accounts : list BootstrapAccount }.
Record DatabaseConfig := MkDatabase { Driver : string; DSN : string }.
Record JWTConfig := MkJWT {
  j_PrivateKeyFile : string; j_PublicKeyFile : string; j_Algorithm : string; j_Issuer : string; j_Audience : string;
  j_TTL : Z; AutoGenerate : bool; KeyDir : string }.
Record ProviderConfig := MkProvider {
  p_Name : string; ClientID : string; ClientSecret : string; CallbackURL : string; Scopes : list string; Trusted : bool }.
Record OAuthConfig := MkOAuth { oa_Enabled : option bool; SessionSecret : string; Providers : list ProviderConfig }.
Record PasskeyConfig := MkPasskey {
  pk_Enabled : bool; RPID : string; RPDisplayName : string; Origins : list string; ChallengeTTL : Z;
  StateCookieName : string; UserVerification : string; Attestation : string; StateSecret : string }.
Record CookieConfig := MkCookie { ck_Name : string; Domain : string; Secure : bool; SameSite : string }.
Record SessionConfig := MkSession { MaxAge : Z; se_IdleTimeout : Z; TouchThreshold : Z; se_CleanupInterval : Z }.
Record QRLoginConfig := MkQR { q_TTL : Z; q_MaxPendingPerIP : Z; q_CleanupInterval : Z }.
Record RedisConfig := MkRedis { Address : string; r_Password : string; DB : Z }.

Record Config (V : Type) := MkConfig {
  c_ListenAddr : string; BaseURL : string; FrontendURL : string; AllowedRedirectOrigins : list string;
  TLS : TLSSection; Health : HealthSection; ProbeSidecar : ProbeSidecarSection; Log : LogSection;
  Database : DatabaseConfig; JWT : JWTConfig; OAuth : OAuthConfig; Passkeys : PasskeyConfig; Cookie : CookieConfig;
  Session : SessionConfig; QRLogin : QRLoginConfig; Redis : option RedisConfig; STS : STSConfig; Authz : AuthzConfig;
  Audit : ServiceAuthConfig; AuditOutboxEnabled : bool; StorageClient : ServiceAuthConfig;
  BotVerify : option BotVerifyConfig; EmailOTP : option EmailOTPConfig; LegacyLogin : LegacyLoginConfig;
  LegacyUsersSync : LegacyUsersSyncConfig; RouteTokens_ : gmap string (RouteTokenConfig V) }.
Arguments MkConfig {V}.
Arguments c_ListenAddr {V} _. Arguments BaseURL {V} _. Arguments FrontendURL {V} _. Arguments AllowedRedirectOrigins {V} _.
Arguments TLS {V} _. Arguments Health {V} _. Arguments ProbeSidecar {V} _. Arguments Log {V} _. Arguments Database {V} _.
Arguments JWT {V} _. Arguments OAuth {V} _. Arguments Passkeys {V} _. Arguments Cookie {V} _. Arguments Session {V} _.
Arguments QRLogin {V} _. Arguments Redis {V} _. Arguments STS {V} _. Arguments Authz {V} _. Arguments Audit {V} _.
Arguments AuditOutboxEnabled {V} _. Arguments StorageClient {V} _. Arguments BotVerify {V} _. Arguments EmailOTP {V} _.
Arguments LegacyLogin {V} _. Arguments LegacyUsersSync {V} _. Arguments RouteTokens_ {V} _.

Definition IsEnabled (c : OAuthConfig) : bool := default true (oa_Enabled c).

(** A copy of the effective delivery configuration. *)
Definition EmailDelivery (c : EmailOTPConfig) : Email.Config :=
  match Delivery c with
  | Some d => d
  | None => Email.MkConfig ProviderPostbox (Some (eo_Postbox c)) None
  end.

Definition DefaultLegacyUsersSyncMaxUsers : Z := 20000.
Definition DefaultLegacyUsersSyncMaxLinks : Z := 100.
Definition DefaultLegacyUsersSyncMaxCreates : Z := 20.
Definition LegacyUsersSyncActionLink : string := "link".
Definition LegacyUsersSyncActionCreate : string := "create".

(** ** The defaults *)

Definition or_Z (z d : Z) : Z := if z =? 0 then d else z.

Definition default_jwt (j : JWTConfig) : JWTConfig :=
  MkJWT (j_PrivateKeyFile j) (j_PublicKeyFile j) (or_string (j_Algorithm j) "RS256") (j_Issuer j) (j_Audience j)
    (or_Z (j_TTL j) (24 * Hour)) (AutoGenerate j) (or_string (KeyDir j) "./keys").

Definition default_session (s : SessionConfig) : SessionConfig :=
  MkSession (or_Z (MaxAge s) (30 * 24 * Hour)) (or_Z (se_IdleTimeout s) (7 * 24 * Hour))
    (or_Z (TouchThreshold s) Minute) (or_Z (se_CleanupInterval s) Hour).

Definition default_sync (s : LegacyUsersSyncConfig) : LegacyUsersSyncConfig :=
  let a := Apply s in
  MkSync (LockDatabaseDSN s) (ls_Enabled s) (AllowedSubjects s) (or_Z (MaxUsers s) DefaultLegacyUsersSyncMaxUsers)
    (IdentityOverrides s)
    (MkApply (ap_Enabled a) (Actions a) (or_Z (MaxLinks a) DefaultLegacyUsersSyncMaxLinks)
       (or_Z (MaxCreates a) DefaultLegacyUsersSyncMaxCreates)).

Definition default_qr (q : QRLoginConfig) : QRLoginConfig :=
  MkQR (or_Z (q_TTL q) (2 * Minute)) (or_Z (q_MaxPendingPerIP q) 3) (or_Z (q_CleanupInterval q) (5 * Minute)).

Definition default_bot (b : BotVerifyConfig) : BotVerifyConfig :=
  if bv_Enabled b then
    MkBotVerify (bv_Enabled b) (or_Z (bv_CodeTTL b) (5 * Minute)) (or_Z (bv_MaxPendingPerIP b) 3) (AllowedProviders b) (Bots b)
  else b.

Definition default_otp (e : EmailOTPConfig) : EmailOTPConfig :=
  if eo_Enabled e then
    MkEmailOTP (eo_Enabled e) (or_Z (CodeTTL e) (5 * Minute)) (or_Z (MaxPendingPerIP e) 3) (or_Z (MaxPendingPerEmail e) 3)
      (or_Z (MaxAttempts e) 5) (or_Z (Cooldown e) Minute) (SenderAddress e) (SenderName e)
      (or_string (eo_Subject e) "Your AURUMSKYNET sign-in code")
      (match Delivery e with None => Postbox.ApplyDefaults (eo_Postbox e) | Some _ => eo_Postbox e end)
      (Email.ApplyDefaults <$> Delivery e)
  else e.

Definition default_passkeys (secret : string) (p : PasskeyConfig) : PasskeyConfig :=
  MkPasskey (pk_Enabled p) (RPID p) (RPDisplayName p) (Origins p) (or_Z (ChallengeTTL p) (5 * Minute))
    (or_string (StateCookieName p) "csar_passkey_state") (or_string (UserVerification p) "required")
    (or_string (Attestation p) "none") (or_string (StateSecret p) secret).

Definition apply_defaults {V} (c : Config V) : Config V :=
  {| c_ListenAddr := or_string (c_ListenAddr c) ":8081";
     BaseURL := BaseURL c; FrontendURL := FrontendURL c; AllowedRedirectOrigins := AllowedRedirectOrigins c;
     TLS := TLS c;
     Health := Health_WithDefaults (Health c);
     ProbeSidecar := ProbeSidecar c; Log := Log c;
     Database := MkDatabase (or_string (Driver (Database c)) "postgres") (DSN (Database c));
     JWT := default_jwt (JWT c);
     OAuth := OAuth c;
     Passkeys := default_passkeys (SessionSecret (OAuth c)) (Passkeys c);
     Cookie := MkCookie (or_string (ck_Name (Cookie c)) "csar_session") (Domain (Cookie c)) (Secure (Cookie c))
                 (or_string (SameSite (Cookie c)) "lax");
     Session := default_session (Session c);
     QRLogin := default_qr (QRLogin c);
     Redis := Redis c;
     STS := MkSTS (st_Enabled (STS c))
              (if st_Enabled (STS c) && (AssertionMaxAge (STS c) =? 0) then 5 * Minute else AssertionMaxAge (STS c))
              (Accounts (STS c));
     Authz := Authz c; Audit := Audit c; AuditOutboxEnabled := AuditOutboxEnabled c; StorageClient := StorageClient c;
     BotVerify := default_bot <$> BotVerify c;
     EmailOTP := default_otp <$> EmailOTP c;
     LegacyLogin := LegacyLogin c;
     LegacyUsersSync := default_sync (LegacyUsersSync c);
     RouteTokens_ := applyRouteTokenDefaults (RouteTokens_ c) |}.

(** ** Validation *)

Inductive cfg_error :=
| ESection (e : section_error) | EDSN | EBaseURL | ESessionSecret | EOutbox | EService (missing : list string)
| ENoProvider | EProviderName (i : nat) | EClientID (i : nat) | EClientSecret (i : nat)
| EAlgorithm (alg : string) | ERPID | ERPDisplayName | EOrigins | EUserVerification | EAttestation | EStateSecret
| EQRTTL | EQRPending | EQRCleanup
| EHMACSecret | EMaxTokenAge
| ENoSubjects | ESubject (s : string) | EMaxUsers | EOverride (legacyID : Z) (userID : string) | ECaps | EAction (a : string)
| ELockDSN
| ECodeTTL | EPendingIP | EPendingEmail | EAttempts | ECooldown | ESenderAddress | EOTPSubject | EBothDeliveries
| EDelivery (e : Email.config_error)
| ERouteToken (e : ProfileErr)
| EParse.

Definition guard (ok : bool) (e : cfg_error) : result cfg_error unit := if ok then Ok tt else Err e.

Definition check_provider (i : nat) (p : ProviderConfig) : result cfg_error unit :=
  let? _ := guard (p_Name p !=s "") (EProviderName i) in
  let? _ := guard (ClientID p !=s "") (EClientID i) in
  guard (ClientSecret p !=s "") (EClientSecret i).

Definition check_oauth (o : OAuthConfig) : result cfg_error unit :=
  if IsEnabled o then
    let? _ := guard (negb (Nat.eqb (length (Providers o)) 0)) ENoProvider in
    loop check_provider 0 (Providers o)
  else Ok tt.

Definition check_passkeys (p : PasskeyConfig) : result cfg_error unit :=
  if pk_Enabled p then
    let? _ := guard (RPID p !=s "") ERPID in
    let? _ := guard (RPDisplayName p !=s "") ERPDisplayName in
    let? _ := guard (negb (Nat.eqb (length (Origins p)) 0)) EOrigins in
    let? _ := guard (oneof (UserVerification p) ["required"; "preferred"; "discouraged"]) EUserVerification in
    let? _ := guard (oneof (Attestation p) ["none"; "indirect"; "direct"; "enterprise"]) EAttestation in
    guard (StateSecret p !=s "") EStateSecret
  else Ok tt.

Definition LegacyLogin_validate (c : LegacyLoginConfig) : result cfg_error unit :=
  let tg := TelegramJWT c in
  if tg_Enabled tg then
    let? _ := guard (HMACSecret tg !=s "") EHMACSecret in guard (0 <=? MaxTokenAge tg) EMaxTokenAge
  else Ok tt.

Section validation.
Context (uuid_Parse : string -> bool).
Context (iter : forall A, gmap string A -> list (string * A)).
Context (iterZ : gmap Z string -> list (Z * string)).
Context (url_Parse : string -> option URL).
Context (is_IP : string -> bool).

Definition LegacyUsersSync_validate (c : LegacyUsersSyncConfig) : result cfg_error unit :=
  if ls_Enabled c then
    let? _ := guard (negb (Nat.eqb (length (AllowedSubjects c)) 0)) ENoSubjects in
    let? _ := first_err (fun s => guard (HasPrefix s "svc:") (ESubject s)) (AllowedSubjects c) in
    let? _ := guard (0 <=? MaxUsers c) EMaxUsers in
    let? _ := first_err (fun o => guard (uuid_Parse o.2) (EOverride o.1 o.2)) (iterZ (IdentityOverrides c)) in
    let? _ := guard ((0 <=? MaxLinks (Apply c)) && (0 <=? MaxCreates (Apply c))) ECaps in
    first_err (fun a => guard ((a ==s LegacyUsersSyncActionLink) || (a ==s LegacyUsersSyncActionCreate)) (EAction a))
      (Actions (Apply c))
  else Ok tt.

(** The legacy block is untouched. *)
Definition postbox_empty (p : Postbox.Config) : bool :=
  (Endpoint p ==s "") && (Region p ==s "") && (AuthMode (Postbox.Auth p) ==s "") && (SAKeyFile (Postbox.Auth p) ==s "") &&
  Secret.IsEmpty (IAMToken (Postbox.Auth p)) && Secret.IsEmpty (OAuthToken (Postbox.Auth p)) &&
  Secret.IsEmpty (AccessKeyID (Postbox.Auth p)) && Secret.IsEmpty (SecretAccessKey (Postbox.Auth p)).

Definition EmailOTP_validate (c : option EmailOTPConfig) : result cfg_error unit :=
  match c with
  | None => Ok tt
  | Some c =>
      if eo_Enabled c then
        let? _ := guard (0 <? CodeTTL c) ECodeTTL in
        let? _ := guard (0 <? MaxPendingPerIP c) EPendingIP in
        let? _ := guard (0 <? MaxPendingPerEmail c) EPendingEmail in
        let? _ := guard (0 <? MaxAttempts c) EAttempts in
        let? _ := guard (0 <=? Cooldown c) ECooldown in
        let? _ := guard (SenderAddress c !=s "") ESenderAddress in
        let? _ := guard (eo_Subject c !=s "") EOTPSubject in
        match Delivery c with
        | Some d =>
            let? _ := guard (postbox_empty (eo_Postbox c)) EBothDeliveries in
            map_err EDelivery (Email.Validate url_Parse is_IP d)
        | None => map_err EDelivery (Email.Validate url_Parse is_IP (EmailDelivery c))
        end
      else Ok tt
  end.

Definition validate {V} (c : Config V) : result cfg_error unit :=
  let? _ := map_err ESection (TLS_Validate (TLS c)) in
  let? _ := map_err ESection (Log_Validate (Log c)) in
  let? _ := guard (DSN (Database c) !=s "") EDSN in
  let? _ := guard (BaseURL c !=s "") EBaseURL in
  let? _ := guard (negb (IsEnabled (OAuth c) && (SessionSecret (OAuth c) ==s ""))) ESessionSecret in
  let? _ := (if AuditOutboxEnabled c && ((Driver (Database c) !=s "postgres") || negb (IsConfigured (Audit c)))
             then Err EOutbox else Ok tt) in
  let? _ := map_err EService (StsClient.Validate (Audit c)) in
  let? _ := map_err EService (StsClient.Validate (StorageClient c)) in
  let? _ := check_oauth (OAuth c) in
  let? _ := guard (oneof (j_Algorithm (JWT c)) ["RS256"; "EdDSA"]) (EAlgorithm (j_Algorithm (JWT c))) in
  let? _ := check_passkeys (Passkeys c) in
  let? _ := guard (0 <? q_TTL (QRLogin c)) EQRTTL in
  let? _ := guard (0 <? q_MaxPendingPerIP (QRLogin c)) EQRPending in
  let? _ := guard (0 <? q_CleanupInterval (QRLogin c)) EQRCleanup in
  let? _ := LegacyLogin_validate (LegacyLogin c) in
  let? _ := LegacyUsersSync_validate (LegacyUsersSync c) in
  let? _ := guard (negb ((Driver (Database c) ==s "postgres") && ls_Enabled (LegacyUsersSync c) &&
                         ap_Enabled (Apply (LegacyUsersSync c)) && (TrimSpace (LockDatabaseDSN (LegacyUsersSync c)) ==s ""))) ELockDSN in
  let? _ := EmailOTP_validate (EmailOTP c) in
  map_err ERouteToken (validateRouteTokens iter (RouteTokens_ c)).

(** configutil.UnmarshalYAMLWithEnv into a Config. *)
Context {V : Type} (Unmarshal : string -> option (Config V)).

Definition LoadFromBytes (data : string) : result cfg_error (Config V) :=
  match Unmarshal data with
  | None => Err EParse
  | Some c => let c := apply_defaults c in let? _ := validate c in Ok c
  end.
End validation.

(** ** What an accepted configuration guarantees *)

Definition provider_ok (p : ProviderConfig) : Prop := p_Name p <> "" /\ ClientID p <> "" /\ ClientSecret p <> "".

Definition passkeys_ok (p : PasskeyConfig) : Prop :=
  RPID p <> "" /\ RPDisplayName p <> "" /\ Origins p <> [] /\
  UserVerification p ∈ ["required"; "preferred"; "discouraged"] /\
  Attestation p ∈ ["none"; "indirect"; "direct"; "enterprise"] /\ StateSecret p <> "".

Definition sync_ok (uuid_Parse : string -> bool) (c : LegacyUsersSyncConfig) : Prop :=
  AllowedSubjects c <> [] /\ Forall (fun s => HasPrefix s "svc:" = true) (AllowedSubjects c) /\ 0 <= MaxUsers c /\
  map_Forall (fun _ u => uuid_Parse u = true) (IdentityOverrides c) /\
  (0 <= MaxLinks (Apply c) /\ 0 <= MaxCreates (Apply c)) /\
  Forall (fun a => a = "link" \/ a = "create") (Actions (Apply c)).

(** One delivery: the legacy Postbox block or the delivery block, not both. *)
Definition otp_ok (url_Parse : string -> option URL) (is_IP : string -> bool) (c : EmailOTPConfig) : Prop :=
  0 < CodeTTL c /\ 0 < MaxPendingPerIP c /\ 0 < MaxPendingPerEmail c /\ 0 < MaxAttempts c /\ 0 <= Cooldown c /\
  SenderAddress c <> "" /\ eo_Subject c <> "" /\
  (Delivery c = None \/ postbox_empty (eo_Postbox c) = true) /\
  Email.Validate url_Parse is_IP (EmailDelivery c) = Ok tt.

Definition all_or_nothing (a : ServiceAuthConfig) : Prop :=
  Forall (fun f => snd f = "") (requiredFields a) \/ Forall (fun f => snd f <> "") (requiredFields a).

Record valid uuid_Parse url_Parse is_IP {V} (c : Config V) : Prop := {
  v_tls : TLS_Validate (TLS c) = Ok tt;
  v_log : Log_Validate (Log c) = Ok tt;
  v_dsn : DSN (Database c) <> "";
  v_base : BaseURL c <> "";
  v_oauth : IsEnabled (OAuth c) = true -> SessionSecret (OAuth c) <> "" /\ Providers (OAuth c) <> [] /\ Forall provider_ok (Providers (OAuth c));
  v_outbox : AuditOutboxEnabled c = true -> Driver (Database c) = "postgres" /\ Forall (fun f => snd f <> "") (requiredFields (Audit c));
  v_audit : all_or_nothing (Audit c);
  v_storage : all_or_nothing (StorageClient c);
  v_alg : j_Algorithm (JWT c) ∈ ["RS256"; "EdDSA"];
  v_passkeys : pk_Enabled (Passkeys c) = true -> passkeys_ok (Passkeys c);
  v_qr : 0 < q_TTL (QRLogin c) /\ 0 < q_MaxPendingPerIP (QRLogin c) /\ 0 < q_CleanupInterval (QRLogin c);
  v_telegram : tg_Enabled (TelegramJWT (LegacyLogin c)) = true ->
               HMACSecret (TelegramJWT (LegacyLogin c)) <> "" /\ 0 <= MaxTokenAge (TelegramJWT (LegacyLogin c));
  v_sync : ls_Enabled (LegacyUsersSync c) = true -> sync_ok uuid_Parse (LegacyUsersSync c);
  v_lock : Driver (Database c) = "postgres" -> ls_Enabled (LegacyUsersSync c) = true -> ap_Enabled (Apply (LegacyUsersSync c)) = true ->
           TrimSpace (LockDatabaseDSN (LegacyUsersSync c)) <> "";
  v_otp : forall o, EmailOTP c = Some o -> eo_Enabled o = true -> otp_ok url_Parse is_IP o;
  v_routes : map_Forall (fun name p => TrimSpace name <> "" /\ (RouteTokens.Enabled p = true -> profile_ok p)) (RouteTokens_ c) }.

(** *** Each check, as what it accepts *)

Lemma guard_ok b e : guard b e = Ok tt <-> b = true.
Proof. by destruct b. Qed.

Lemma nonempty_ok s : (s !=s "") = true <-> s <> "".
Proof. rewrite negb_true_iff. apply String.eqb_neq. Qed.

Lemma some_ok {A} (l : list A) : negb (Nat.eqb (length l) 0) = true <-> l <> [].
Proof. by destruct l. Qed.

Lemma oneof_ok s l : oneof s l = true <-> s ∈ l.
Proof.
  unfold oneof. rewrite existsb_exists, list_elem_of_In. split; [|by intros H; exists s; rewrite String.eqb_refl].
  by intros (x & Hx & ->%String.eqb_eq).
Qed.

Lemma if_ok (b : bool) (r : result cfg_error unit) : (if b then r else Ok tt) = Ok tt <-> (b = true -> r = Ok tt).
Proof. destruct b; [|done]. split; [done|auto]. Qed.

Ltac checks := repeat first [rewrite then_ok | rewrite guard_ok | rewrite nonempty_ok | rewrite some_ok | rewrite oneof_ok
                           | rewrite Z.ltb_lt | rewrite Z.leb_le | rewrite map_err_ok | rewrite andb_true_iff].

Lemma check_oauth_ok o :
  check_oauth o = Ok tt <-> (IsEnabled o = true -> Providers o <> [] /\ Forall provider_ok (Providers o)).
Proof.
  unfold check_oauth. rewrite if_ok. checks. rewrite (loop_ok _ provider_ok); [done|].
  intros i p. unfold check_provider, provider_ok. by checks.
Qed.

Lemma check_passkeys_ok p : check_passkeys p = Ok tt <-> (pk_Enabled p = true -> passkeys_ok p).
Proof. unfold check_passkeys, passkeys_ok. rewrite if_ok. by checks. Qed.

Lemma LegacyLogin_ok c :
  LegacyLogin_validate c = Ok tt <->
  (tg_Enabled (TelegramJWT c) = true -> HMACSecret (TelegramJWT c) <> "" /\ 0 <= MaxTokenAge (TelegramJWT c)).
Proof. unfold LegacyLogin_validate. rewrite if_ok. by checks. Qed.

(** The delivery of an enabled section has its defaults. *)
Lemma delivery_defaults o :
  eo_Enabled (default_otp o) = true -> Email.ApplyDefaults (EmailDelivery (default_otp o)) = EmailDelivery (default_otp o).
Proof.
  unfold default_otp. destruct (eo_Enabled o) eqn:E; [|by rewrite E]. intros _. unfold EmailDelivery. cbn.
  destruct (Delivery o) as [d|]; cbn; [apply Email_ApplyDefaults_idem|]. unfold Email.ApplyDefaults. cbn.
  by rewrite Postbox.ApplyDefaults_idem.
Qed.

(** A valid configuration with its defaults makes a sender. *)
Lemma sender_made {Res} url_Parse is_IP (NewIAMTokenResolver : AuthConfig -> result YErr Res) d http :
  Email.ApplyDefaults d = d -> Email.Validate url_Parse is_IP d = Ok tt ->
  is_ok (NewSender url_Parse is_IP NewIAMTokenResolver d http) = true \/
  exists e, NewSender url_Parse is_IP NewIAMTokenResolver d http = Err (BadResolver e).
Proof.
  intros Hd Hv. pose proof (NewSender_no_nil url_Parse is_IP NewIAMTokenResolver d http) as Hn.
  unfold NewSender in *. rewrite Hd, Hv in *. cbn in *.
  destruct (_ ==s _); [destruct (Selectel d); [by left|done]|]. destruct (c_Postbox d) as [pb|]; [|done].
  destruct (NewClient _ _ _) as [x|e]; cbn; [by left|right; by eexists].
Qed.

Section accepted.
Context (uuid_Parse : string -> bool).
Context (iter : forall A, gmap string A -> list (string * A)).
Context (iterZ : gmap Z string -> list (Z * string)).
Context (url_Parse : string -> option URL) (is_IP : string -> bool).
Hypothesis iter_perm : forall A (m : gmap string A), iter A m ≡ₚ map_to_list m.
Hypothesis iterZ_perm : forall m, iterZ m ≡ₚ map_to_list m.

Lemma LegacyUsersSync_ok c :
  LegacyUsersSync_validate uuid_Parse iterZ c = Ok tt <-> (ls_Enabled c = true -> sync_ok uuid_Parse c).
Proof.
  unfold LegacyUsersSync_validate, sync_ok. rewrite if_ok. checks. rewrite !first_err_ok, iterZ_perm, map_Forall_to_list.
  rewrite (Forall_iff (fun o => guard (uuid_Parse o.2) (EOverride o.1 o.2) = Ok tt) _ (uncurry (fun (_ : Z) u => uuid_Parse u = true)))
    by (intros [k u]; apply guard_ok).
  assert (forall a, (a ==s LegacyUsersSyncActionLink) || (a ==s LegacyUsersSyncActionCreate) = true <-> a = "link" \/ a = "create") as Ha
    by (intros a; by rewrite orb_true_iff, !String.eqb_eq).
  setoid_rewrite guard_ok. by setoid_rewrite Ha.
Qed.

Lemma EmailOTP_ok o :
  EmailOTP_validate url_Parse is_IP (Some o) = Ok tt <-> (eo_Enabled o = true -> otp_ok url_Parse is_IP o).
Proof.
  unfold EmailOTP_validate, otp_ok, EmailDelivery. rewrite if_ok. checks.
  destruct (Delivery o) as [d|]; checks; naive_solver.
Qed.

Lemma validate_valid {V} (c : Config V) :
  validate uuid_Parse iter iterZ url_Parse is_IP c = Ok tt <-> valid uuid_Parse url_Parse is_IP c.
Proof.
  unfold validate. checks. rewrite check_oauth_ok, check_passkeys_ok, LegacyLogin_ok, LegacyUsersSync_ok.
  rewrite (validateRouteTokens_ok iter iter_perm).
  assert (EmailOTP_validate url_Parse is_IP (EmailOTP c) = Ok tt <->
          forall o, EmailOTP c = Some o -> eo_Enabled o = true -> otp_ok url_Parse is_IP o) as ->.
  { destruct (EmailOTP c) as [o|]; [|by split]. rewrite EmailOTP_ok. naive_solver. }
  split.
  - intros (Ht & Hl & Hd & Hb & Hs & Ho & Ha & Hst & Hoa & Halg & Hpk & Hq1 & Hq2 & Hq3 & Htg & Hsy & Hlk & Hotp & Hr).
    pose proof (proj1 (outbox_ok _ _ _ _ Ha) Ho). apply service_auth_ok in Ha, Hst. constructor; try done.
    + intros Hen. rewrite Hen in Hs. cbn in Hs. by apply nonempty_ok in Hs; auto.
    + intros H1 H2 H3 H4. rewrite H1, H2, H3, H4 in Hlk. done.
  - intros []. assert (StsClient.Validate (Audit c) = Ok tt) as Ha by (by apply service_auth_ok).
    assert (StsClient.Validate (StorageClient c) = Ok tt) by (by apply service_auth_ok).
    destruct v_qr0 as (? & ? & ?). split_and!; try done.
    + destruct (IsEnabled (OAuth c)); [|done]. destruct v_oauth0 as [Hs _]; [done|]. by apply nonempty_ok.
    + by apply (proj2 (outbox_ok _ _ _ _ Ha)).
    + intros Hen. by destruct (v_oauth0 Hen) as (_ & ? & ?).
    + destruct (eqb_cases (Driver (Database c)) "postgres") as [[-> E]|[-> _]]; [|done].
      destruct (ls_Enabled _); [|done]. destruct (ap_Enabled _); [|done]. cbn. apply nonempty_ok. auto.
Qed.

(** Loading accepts exactly the documents whose configuration, with its
    defaults, is valid, in whatever order maps are ranged over: complete OAuth
    providers with a session secret, complete passkey settings, a known signing
    algorithm, positive QR limits, all-or-nothing service blocks, the outbox
    only on PostgreSQL with the audit transport, bounded legacy bridges, a
    single valid mail delivery and usable route tokens. *)
Theorem authn_LoadFromBytes_exact {V} (Unmarshal : string -> option (Config V)) data c :
  LoadFromBytes uuid_Parse iter iterZ url_Parse is_IP Unmarshal data = Ok c <->
  exists c0, Unmarshal data = Some c0 /\ c = apply_defaults c0 /\ valid uuid_Parse url_Parse is_IP c.
Proof.
  unfold LoadFromBytes. destruct (Unmarshal data) as [c0|]; [|naive_solver].
  rewrite then_ok, validate_valid. naive_solver.
Qed.

(** The components agree on mail delivery: when the service accepts its
    configuration with one-time codes by email on, making the sender from the
    effective delivery configuration succeeds, or fails only because the cloud
    token resolver could not be made; the accepted sections are exactly the ones
    the sender uses (filling in the defaults again changes nothing). *)
Theorem accepted_delivery_sends {V Res} (Unmarshal : string -> option (Config V)) data c o
    (NewIAMTokenResolver : AuthConfig -> result YErr Res) http :
  LoadFromBytes uuid_Parse iter iterZ url_Parse is_IP Unmarshal data = Ok c ->
  EmailOTP c = Some o -> eo_Enabled o = true ->
  Email.ApplyDefaults (EmailDelivery o) = EmailDelivery o /\
  (is_ok (NewSender url_Parse is_IP NewIAMTokenResolver (EmailDelivery o) http) = true \/
   exists e, NewSender url_Parse is_IP NewIAMTokenResolver (EmailDelivery o) http = Err (BadResolver e)).
Proof.
  unfold LoadFromBytes. destruct (Unmarshal data) as [c0|]; [|done]. rewrite then_ok, validate_valid.
  intros [Hv [= <-]] Ho He. assert (Email.ApplyDefaults (EmailDelivery o) = EmailDelivery o) as Hid.
  { cbn in Ho. destruct (EmailOTP c0) as [o0|]; [|done]. injection Ho as <-. by apply delivery_defaults. }
  split; [done|]. apply sender_made; [done|]. by apply (v_otp _ _ _ _ Hv o Ho He).
Qed.
End accepted.

(** The defaults are stable: loading what was loaded fills in nothing more. *)
Lemma or_Z_idem z d : or_Z (or_Z z d) d = or_Z z d.
Proof. unfold or_Z. destruct (z =? 0) eqn:E; [by destruct (d =? 0)|by rewrite E]. Qed.

Lemma default_otp_idem o : default_otp (default_otp o) = default_otp o.
Proof.
  unfold default_otp. destruct (eo_Enabled o) eqn:E; [|by rewrite E]. cbn. rewrite !or_Z_idem, or_string_idem. f_equal.
  - destruct (Delivery o); cbn; [done|]. apply Postbox.ApplyDefaults_idem.
  - destruct (Delivery o); cbn; [|done]. by rewrite Email_ApplyDefaults_idem.
Qed.

Lemma apply_defaults_idempotent {V} (c : Config V) : apply_defaults (apply_defaults c) = apply_defaults c.
Proof.
  unfold apply_defaults. cbn. unfold default_jwt, default_session, default_qr, default_sync, default_passkeys, Health_WithDefaults.
  cbn. change or_default with or_string. rewrite !or_string_idem, !or_Z_idem. f_equal.
  - f_equal. destruct (st_Enabled (STS c)) eqn:E; cbn; [|done]. destruct (AssertionMaxAge (STS c) =? 0) eqn:E2; [done|by rewrite E2].
  - destruct (BotVerify c) as [b|]; cbn; [|done]. f_equal. unfold default_bot. destruct (bv_Enabled b) eqn:E; [|by rewrite E].
    cbn. by rewrite !or_Z_idem.
  - destruct (EmailOTP c) as [o|]; cbn; [|done]. by rewrite default_otp_idem.
  - unfold applyRouteTokenDefaults. rewrite <- map_fmap_compose. apply map_fmap_ext. intros i p _. apply default_profile_idempotent.
Qed.

(** ** An example *)

Module Demo.
Definition no_service : ServiceAuthConfig := MkServiceAuth "" "" "" "" "" 0 "" "".
Definition no_secret : Secret.t := Secret.NewSecret "".
Definition no_postbox : Postbox.Config := Postbox.MkConfig "" "" (MkAuthConfig "" no_secret no_secret "" no_secret no_secret).
Definition otp (d : option Email.Config) : EmailOTPConfig := MkEmailOTP true 0 0 0 0 0 "no-reply@x.ru" "" "" no_postbox d.

Definition config (o : EmailOTPConfig) : Config Z :=
  MkConfig "" "https://x.ru" "" [] {| CertFile := ""; KeyFile := ""; ClientCAFile := ""; MinVersion := "" |}
    {| Sections.Enabled := true; LivenessPath := ""; ReadinessPath := "" |} {| Sections.Addr := "" |}
    {| Level := ""; Format := ""; Redact := true |} (MkDatabase "" "postgres://db") (MkJWT "" "" "" "" "" 0 true "")
    (MkOAuth None "secret" [MkProvider "yandex" "id" "s" "" [] true]) (MkPasskey false "" "" [] 0 "" "" "" "")
    (MkCookie "" "" true "") (MkSession 0 0 0 0) (MkQR 0 0 0) None (MkSTS false 0 []) (MkAuthz false "" (MkAuthzTLS false "" "" ""))
    no_service false no_service None (Some o) (MkLegacyLogin (MkTelegram false "" "" "" 0 0))
    (MkSync "" false [] 0 ∅ (MkApply false [] 0 0)) ∅.

Definition by_smtp : option Email.Config := Some (Email.Demo.config "").
Abbreviation load c := (LoadFromBytes (fun _ => true) (fun A => map_to_list) map_to_list (fun _ => None) (fun _ => false) (fun _ => Some c) "").

Example smtp_accepted : is_ok (load (config (otp by_smtp))) = true.
Proof. vm_compute. reflexivity. Qed.

(** Without a delivery block the legacy Postbox block must be complete. *)
Example legacy_incomplete : load (config (otp None)) = Err (EDelivery BadEndpoint).
Proof. vm_compute. reflexivity. Qed.

Lemma authn_LoadFromBytes_exact_witness :
  load (config (otp by_smtp)) = Ok (apply_defaults (config (otp by_smtp))) <->
  exists c0, Some (config (otp by_smtp)) = Some c0 /\ apply_defaults (config (otp by_smtp)) = apply_defaults c0 /\
    valid (fun _ => true) (fun _ => None) (fun _ => false) (apply_defaults (config (otp by_smtp))).
Proof.
  refine (authn_LoadFromBytes_exact (fun _ => true) (fun A => map_to_list) map_to_list (fun _ => None) (fun _ => false) _ _
            (fun _ => Some (config (otp by_smtp))) "" (apply_defaults (config (otp by_smtp)))); intros; reflexivity.
Defined.

Lemma accepted_delivery_sends_witness :
  Email.ApplyDefaults (EmailDelivery (default_otp (otp by_smtp))) = EmailDelivery (default_otp (otp by_smtp)) /\
  (is_ok (NewSender (fun _ => None) (fun _ => false) (fun _ => Ok tt) (EmailDelivery (default_otp (otp by_smtp))) None) = true \/
   exists e, NewSender (fun _ => None) (fun _ => false) (fun _ => Ok tt) (EmailDelivery (default_otp (otp by_smtp))) None = Err (BadResolver e)).
Proof.
  refine (accepted_delivery_sends (fun _ => true) (fun A => map_to_list) map_to_list (fun _ => None) (fun _ => false) _ _
            (fun _ => Some (config (otp by_smtp))) "" (apply_defaults (config (otp by_smtp))) (default_otp (otp by_smtp))
            (fun _ => Ok tt) None _ _ _); [intros; reflexivity..| | |]; vm_compute; reflexivity.
Defined.
End Demo.
