(* ===== verification/Tlsx.v ===== *)
(** * TLS configurations (src/tlsx/tlsx.go)

    The file system, certificate loading and PEM parsing are arguments. *)
From S2P Require Import Prelude GoStrings Duration.
Import Sections.
Local Open Scope string_scope.
Local Open Scope Z_scope.

Record ServerConfig := MkServerConfig { s_CertFile : string; s_KeyFile : string; s_ClientCAFile : string; s_MinVersion : string }.
Record ClientConfig := MkClientConfig {
  c_CAFile : string; c_CertFile : string; c_KeyFile : string; c_ServerName : string; c_InsecureSkipVerify : bool }.

Definition VersionTLS12 : Z := 771.
Definition VersionTLS13 : Z := 772.

Inductive tls_error := PairMismatch | KeyPair | ReadCA | EmptyCA.

(** The policy towards client certificates. *)
Inductive ClientAuthType := NoClientCert | RequireAndVerifyClientCert.

Section tls.
Context {Cert Pool : Type}.
Context (LoadX509KeyPair : string -> string -> option Cert).
Context (ReadFile : string -> option string).
Context (CertsFromPEM : string -> option Pool).

(** The fields of [tls.Config] the code sets. *)
Record TLSConfig := MkTLS {
  Certificates : list Cert; t_MinVersion : Z; ClientCAs : option Pool; ClientAuth : ClientAuthType;
  RootCAs : option Pool; t_ServerName : string; t_InsecureSkipVerify : bool }.

Definition parseMinVersion (v : string) : Z := if v ==s "1.3" then VersionTLS13 else VersionTLS12.

Definition validatePair (a b : string) : result tls_error unit :=
  if negb (Bool.eqb (a ==s "") (b ==s "")) then Err PairMismatch else Ok tt.

Definition LoadCertPool (path : string) : result tls_error Pool :=
  match ReadFile path with
  | None => Err ReadCA
  | Some data => match CertsFromPEM data with None => Err EmptyCA | Some pool => Ok pool end
  end.

Definition load_pair (cert key : string) : result tls_error (list Cert) :=
  if (cert !=s "") && (key !=s "")
  then match LoadX509KeyPair cert key with None => Err KeyPair | Some c => Ok [c] end
  else Ok [].

Definition load_pool (path : string) : result tls_error (option Pool) :=
  if path !=s "" then let? pool := LoadCertPool path in Ok (Some pool) else Ok None.

Definition NewServerTLSConfig (cfg : ServerConfig) : result tls_error TLSConfig :=
  let? _ := validatePair (s_CertFile cfg) (s_KeyFile cfg) in
  let? certs := load_pair (s_CertFile cfg) (s_KeyFile cfg) in
  let? pool := load_pool (s_ClientCAFile cfg) in
  Ok (MkTLS certs (parseMinVersion (s_MinVersion cfg)) pool
        (match pool with Some _ => RequireAndVerifyClientCert | None => NoClientCert end) None "" false).

Definition NewClientTLSConfig (cfg : ClientConfig) : result tls_error TLSConfig :=
  let? _ := validatePair (c_CertFile cfg) (c_KeyFile cfg) in
  let? pool := load_pool (c_CAFile cfg) in
  let? certs := load_pair (c_CertFile cfg) (c_KeyFile cfg) in
  Ok (MkTLS certs VersionTLS12 None NoClientCert pool (c_ServerName cfg) (c_InsecureSkipVerify cfg)).

(** A clone of the default transport with this TLS configuration. *)
Definition NewHTTPTransport {Tr} (with_tls : TLSConfig -> Tr) (cfg : ClientConfig) : result tls_error Tr :=
  let? tc := NewClientTLSConfig cfg in Ok (with_tls tc).

(** ** What a configuration guarantees *)

Lemma validatePair_ok a b : validatePair a b = Ok tt <-> (a = "" <-> b = "").
Proof.
  unfold validatePair. destruct (eqb_cases a "") as [[-> ->]|[-> ?]], (eqb_cases b "") as [[-> ->]|[-> ?]]; cbn; split; done || tauto.
Qed.

Lemma load_pool_some path pool : load_pool path = Ok pool -> (is_Some pool <-> path <> "").
Proof.
  unfold load_pool. destruct (eqb_cases path "") as [[-> ->]|[-> ?]]; cbn [negb].
  - intros [= <-]. by split; [intros []|].
  - destruct (LoadCertPool path); intros [= <-]. split; [done|by eexists].
Qed.

(** A server configuration that was made verifies client certificates exactly
    when a client CA was named, never speaks anything below TLS 1.2, and has a
    certificate exactly when both files were named. *)
Lemma NewServerTLSConfig_sound cfg tc :
  NewServerTLSConfig cfg = Ok tc ->
  (ClientAuth tc = RequireAndVerifyClientCert <-> s_ClientCAFile cfg <> "") /\
  (ClientAuth tc = RequireAndVerifyClientCert -> is_Some (ClientCAs tc)) /\
  VersionTLS12 <= t_MinVersion tc /\ (s_MinVersion cfg = "1.3" -> t_MinVersion tc = VersionTLS13) /\
  (Certificates tc = [] <-> s_CertFile cfg = "") /\ (s_CertFile cfg = "" <-> s_KeyFile cfg = "").
Proof.
  unfold NewServerTLSConfig. rewrite then_ok. intros [Hp H]. apply validatePair_ok in Hp.
  apply bind_ok in H as (certs & Hc & H). apply bind_ok in H as (pool & Hpool & [= <-]). cbn.
  pose proof (load_pool_some _ _ Hpool) as Hs. split_and!; try done.
  - rewrite <- Hs. by destruct pool; split.
  - by destruct pool.
  - unfold parseMinVersion. by destruct (_ ==s _).
  - unfold parseMinVersion. by intros ->.
  - unfold load_pair in Hc. destruct (eqb_cases (s_CertFile cfg) "") as [[E ?]|[E ?]]; rewrite E in Hc; cbn in Hc; [by simplify_eq|].
    destruct (eqb_cases (s_KeyFile cfg) "") as [[E2 ?]|[E2 ?]]; rewrite E2 in Hc; cbn in Hc; [tauto|].
    destruct (LoadX509KeyPair _ _); simplify_eq. by split.
Qed.

(** A TLS section that passed its validation is never refused for its pair. *)
Lemma section_pair s v :
  TLS_Validate s = Ok tt -> NewServerTLSConfig (MkServerConfig (CertFile s) (KeyFile s) (ClientCAFile s) v) <> Err PairMismatch.
Proof.
  intros [Hs _]%TLS_valid_sound. unfold NewServerTLSConfig. cbn.
  assert (validatePair (CertFile s) (KeyFile s) = Ok tt) as ->.
  { apply validatePair_ok. unfold TLS_IsEnabled in Hs. destruct Hs as [Hs|[-> ->]]; [|done]. bprop.
    destruct (eqb_cases (CertFile s) "") as [[E ?]|[E ?]], (eqb_cases (KeyFile s) "") as [[E2 ?]|[E2 ?]];
      rewrite ?E, ?E2 in Hs; try done; naive_solver. }
  unfold load_pair, load_pool, LoadCertPool. by repeat (case_match; simplify_eq/=).
Qed.
End tls.
