(* ===== verification/HttpServer.v ===== *)
(** * The HTTP server's lifecycle (src/httpserver/server.go)

    Callers of [ListenAndServe], [Serve] and [Shutdown] are threads that share
    the atomic lifecycle state and the [http.Server].  Each atomic operation on
    the state, each call into the [http.Server] and each outcome of the network
    is one step; steps of different threads interleave in any order.  Of the
    [http.Server] the model has what its documentation promises: after Shutdown
    began, Serve and a failing Accept return ErrServerClosed. *)
From S2P Require Import Prelude GoStrings Tlsx.
Local Open Scope string_scope.
Local Open Scope Z_scope.

(** ** Configuration *)

Record Config := MkConfig {
  Addr : string; c_TLS : option ServerConfig; ReadTimeout : Z; WriteTimeout : Z; IdleTimeout : Z; MaxHeaderBytes : Z;
  ShutdownTimeout : Z }.

Definition or_Z (z d : Z) : Z := if z =? 0 then d else z.

Definition applyDefaults (c : Config) : Config :=
  MkConfig (Addr c) (c_TLS c) (or_Z (ReadTimeout c) (30 * Second)) (or_Z (WriteTimeout c) (60 * Second))
    (or_Z (IdleTimeout c) (120 * Second)) (or_Z (MaxHeaderBytes c) (Z.shiftl 1 20)) (or_Z (ShutdownTimeout c) (30 * Second)).

Inductive lifecycle := stateIdle | stateStarting | stateServing | stateDraining | stateStopped.

#[global] Instance lifecycle_eq_dec : EqDecision lifecycle.
Proof. solve_decision. Defined.

(** What a server keeps besides its state. *)
Record Server (TC : Type) := MkServer { srv_cfg : Config; TLSConfig : option TC; isTLS : bool }.
Arguments MkServer {TC}. Arguments srv_cfg {TC}. Arguments TLSConfig {TC}. Arguments isTLS {TC}.

(** [New]: the TLS configuration is built first, by [tlsx.NewServerTLSConfig]. *)
Definition New {TC} (NewServerTLSConfig : ServerConfig -> result tls_error TC) (cfg : Config) : result tls_error (Server TC) :=
  let cfg := applyDefaults cfg in
  match c_TLS cfg with
  | None => Ok (MkServer cfg None false)
  | Some t => let? tc := NewServerTLSConfig t in Ok (MkServer cfg (Some tc) true)
  end.

(** ** Threads *)

Inductive serve_error := ErrServerClosed | BindError | ServeError.

Inductive pc :=
| AtListenAndServe       (** before the first compare-and-swap *)
| AtServe                (** the same, with a bound listener *)
| Binding                (** before [net.Listen] *)
| BindFailed             (** before the state is set to stopped *)
| Entering               (** [serve]: before [http.Server] registers the listener *)
| Looping                (** in the accept loop, before [servingListener.Accept] *)
| Accepting              (** inside the listener's Accept *)
| Leaving (e : serve_error)   (** Serve returned, the deferred store is pending *)
| Returned (e : serve_error)
| AtShutdown             (** before the state is set to draining *)
| Draining               (** before [http.Server.Shutdown] *)
| ShutDown.

(** The lifecycle, whether the [http.Server] is shutting down, the threads; and
    as ghosts the thread that won the start and whether a shutdown was asked. *)
Record Sys := MkSys {
  state : lifecycle; inShutdown : bool; threads : list pc; owner : option nat; asked : bool }.

Definition start : Sys := MkSys stateIdle false [] None false.

Definition IsServing (s : Sys) : bool := bool_decide (state s = stateServing).

Inductive action := CallListenAndServe | CallServe | CallShutdown | Step (t : nat) (ok : bool).

Definition move (t : nat) (p : pc) (s : Sys) : Sys :=
  MkSys (state s) (inShutdown s) (<[t := p]> (threads s)) (owner s) (asked s).
Definition store (st : lifecycle) (s : Sys) : Sys := MkSys st (inShutdown s) (threads s) (owner s) (asked s).
Definition spawn (p : pc) (s : Sys) : Sys := MkSys (state s) (inShutdown s) (threads s ++ [p])%list (owner s) (asked s).

(** [CompareAndSwap(stateIdle, stateStarting)] by thread [t], which goes on at
    [p], or returns ErrServerClosed (Serve closes its listener). *)
Definition try_start (t : nat) (p : pc) (s : Sys) : Sys :=
  if decide (state s = stateIdle)
  then move t p (MkSys stateStarting (inShutdown s) (threads s) (Some t) (asked s))
  else move t (Returned ErrServerClosed) s.

(** [servingListener.Accept], up to the call of the listener's own Accept. *)
Definition Accept (s : Sys) : Sys := if decide (state s = stateStarting) then store stateServing s else s.

(** One step of a thread; [ok] is the outcome of what it asked of the network
    or of TLS set-up, where it asks. *)
Definition step (t : nat) (ok : bool) (p : pc) (s : Sys) : option Sys :=
  match p with
  | AtListenAndServe => Some (try_start t Binding s)
  | AtServe => Some (try_start t Entering s)
  | Binding => Some (move t (if ok then Entering else BindFailed) s)
  | BindFailed => Some (move t (Returned BindError) (store stateStopped s))
  | Entering =>
      Some (move t (if inShutdown s then Leaving ErrServerClosed else if ok then Looping else Leaving ServeError) s)
  | Looping => Some (move t Accepting (Accept s))
  | Accepting =>
      Some (move t (if ok then Looping else if inShutdown s then Leaving ErrServerClosed else Leaving ServeError) s)
  | Leaving e => Some (move t (Returned e) (store stateStopped s))
  | AtShutdown => Some (move t Draining (MkSys stateDraining (inShutdown s) (threads s) (owner s) true))
  | Draining => Some (move t ShutDown (MkSys (state s) true (threads s) (owner s) (asked s)))
  | Returned _ | ShutDown => None
  end.

Definition act (a : action) (s : Sys) : option Sys :=
  match a with
  | CallListenAndServe => Some (spawn AtListenAndServe s)
  | CallServe => Some (spawn AtServe s)
  | CallShutdown => Some (spawn AtShutdown s)
  | Step t ok => p ← threads s !! t; step t ok p s
  end.

Fixpoint run (l : list action) (s : Sys) : option Sys :=
  match l with
  | [] => Some s
  | a :: l => s' ← act a s; run l s'
  end.

(** ** Run *)

(** What [Run] wakes up on: a signal, an error of the server, or the server
    having been closed elsewhere. *)
Inductive wake := Signal | ServerErr | ServerClosed.
Inductive run_error := ServerError | ShutdownFailed.

Definition Run (w : wake) (shutdown_ok : bool) : bool * result run_error unit :=
  match w with
  | ServerErr => (false, Err ServerError)
  | Signal | ServerClosed => (true, if shutdown_ok then Ok tt else Err ShutdownFailed)
  end.

(** ** The invariant *)

(** A thread between winning the start and storing stopped. *)
Definition owning (p : pc) : bool :=
  match p with Binding | BindFailed | Entering | Looping | Accepting | Leaving _ => true | _ => false end.
(** A thread whose listener is, or was just, in the accept loop. *)
Definition in_loop (p : pc) : bool := match p with Looping | Accepting | Leaving _ => true | _ => false end.

Record inv (s : Sys) : Prop := {
  i_idle : state s = stateIdle -> owner s = None;
  i_owner : forall t p, threads s !! t = Some p -> owning p = true -> owner s = Some t;
  i_starting : state s = stateStarting -> exists t p, owner s = Some t /\ threads s !! t = Some p /\ owning p = true;
  i_serving : state s = stateServing -> exists t p, owner s = Some t /\ threads s !! t = Some p /\ in_loop p = true;
  i_asked : asked s = true -> state s = stateDraining \/ state s = stateStopped }.

Lemma in_loop_owning p : in_loop p = true -> owning p = true.
Proof. by destruct p. Qed.

Lemma inv_started : inv start.
Proof. by constructor. Qed.

(** A new thread holds nothing. *)
Lemma inv_spawn p s : owning p = false -> inv s -> inv (spawn p s).
Proof.
  intros Hp [H1 H2 H3 H4 H5]. constructor; cbn; try done.
  - intros t q Hq Ho. apply lookup_app_Some in Hq as [Hq|[_ Hq]]; [by eapply H2|].
    destruct (t - _)%nat; [|done]. injection Hq as <-. congruence.
  - intros E. destruct (H3 E) as (t & q & ? & Hq & ?). exists t, q. split_and!; [done| |done]. by apply lookup_app_l_Some.
  - intros E. destruct (H4 E) as (t & q & ? & Hq & ?). exists t, q. split_and!; [done| |done]. by apply lookup_app_l_Some.
Qed.

(** A thread that holds nothing moves, or the owner does. *)
Lemma threads_move t p s i q :
  threads (move t p s) !! i = Some q -> (i = t /\ q = p) \/ (i <> t /\ threads s !! i = Some q).
Proof.
  cbn. intros H. destruct (decide (i = t)) as [->|Hne]; [|right; by rewrite list_lookup_insert_ne in H].
  left. apply list_lookup_insert_Some in H as [(_ & <- & _)|[? _]]; done.
Qed.

Lemma threads_moved t p s q : threads s !! t = Some q -> threads (move t p s) !! t = Some p.
Proof. intros H. cbn. rewrite list_lookup_insert_eq; [done|]. by eapply lookup_lt_Some. Qed.

(** The owner goes on holding the listener, in the loop if it is serving. *)
Lemma inv_owner_move t p p' s :
  inv s -> threads s !! t = Some p -> owning p = true -> owning p' = true ->
  (state s = stateServing -> in_loop p' = true) -> inv (move t p' s).
Proof.
  intros [H1 H2 H3 H4 H5] Ht Hp Hp' Hl. pose proof (H2 _ _ Ht Hp) as Ho. constructor; cbn [state move owner asked]; try done.
  - intros i q [[-> ->]|[_ Hq]]%threads_move Hq'; [done|by eapply H2].
  - intros _. exists t, p'. split_and!; [done| |done]. by eapply threads_moved.
  - intros E. exists t, p'. split_and!; [done| |by apply Hl]. by eapply threads_moved.
Qed.

(** A thread stores draining or stopped and holds nothing afterwards. *)
Lemma inv_down t p p' st b b' s :
  inv s -> threads s !! t = Some p -> owning p' = false -> st = stateDraining \/ st = stateStopped ->
  inv (move t p' (MkSys st b (threads s) (owner s) b')).
Proof.
  intros [H1 H2 H3 H4 H5] Ht Hp' Hst. constructor; cbn [state move owner asked]; try (destruct Hst as [-> | ->]; done).
  - intros i q Hq Hq'. apply threads_move in Hq as [[-> ->]|[_ Hq]]; [by rewrite Hp' in Hq'|by eapply H2].
  - done.
Qed.

Lemma inv_try_start t p p' s :
  inv s -> threads s !! t = Some p -> owning p = false -> owning p' = true -> inv (try_start t p' s).
Proof.
  intros I Ht Hp Hp'. pose proof I as [H1 H2 H3 H4 H5]. unfold try_start. case_decide as Hi.
  - pose proof (H1 Hi) as Hn. constructor; cbn [state move owner asked]; try done.
    + intros i q [[-> ->]|[_ Hq]]%threads_move Hq'; [done|]. pose proof (H2 _ _ Hq Hq'). congruence.
    + intros _. exists t, p'. split_and!; [done| |done]. by eapply (threads_moved _ _ (MkSys _ _ _ _ _)).
    + intros Ha. destruct (H5 Ha); congruence.
  - constructor; cbn [state move owner asked]; try done.
    + intros i q [[-> ->]|[_ Hq]]%threads_move Hq'; [done|by eapply H2].
    + intros E. destruct (H3 E) as (i & q & ? & Hq & ?). exists i, q. split_and!; [done| |done].
      cbn. rewrite list_lookup_insert_ne; [done|]. intros <-. congruence.
    + intros E. destruct (H4 E) as (i & q & ? & Hq & Hl). exists i, q. split_and!; [done| |done].
      cbn. rewrite list_lookup_insert_ne; [done|]. intros <-. apply in_loop_owning in Hl. congruence.
Qed.

Lemma inv_accept t s : inv s -> threads s !! t = Some Looping -> inv (move t Accepting (Accept s)).
Proof.
  intros I Ht. unfold Accept. case_decide as Hst; [|by eapply inv_owner_move].
  pose proof I as [H1 H2 H3 H4 H5]. pose proof (H2 _ _ Ht eq_refl) as Ho. constructor; cbn [state move owner asked store]; try done.
  - intros i q Hq Hq'. apply threads_move in Hq as [[-> _]|[_ Hq]]; [done|by eapply H2].
  - intros _. exists t, Accepting. split_and!; [done| |done]. by eapply (threads_moved _ _ (store stateServing s)).
  - intros Ha. destruct (H5 Ha); congruence.
Qed.

(** The rest of a shutdown touches neither the state nor the owner. *)
Lemma inv_frame t p p' b s :
  inv s -> threads s !! t = Some p -> owning p = false -> owning p' = false ->
  inv (move t p' (MkSys (state s) b (threads s) (owner s) (asked s))).
Proof.
  intros [H1 H2 H3 H4 H5] Ht Hp Hp'. constructor; cbn [state move owner asked]; try done.
  - intros i q Hq Hq'. apply threads_move in Hq as [[-> ->]|[_ Hq]]; [by rewrite Hp' in Hq'|by eapply H2].
  - intros E. destruct (H3 E) as (i & q & ? & Hq & ?). exists i, q. split_and!; [done| |done].
    cbn. rewrite list_lookup_insert_ne; [done|]. intros <-. congruence.
  - intros E. destruct (H4 E) as (i & q & ? & Hq & Hl). exists i, q. split_and!; [done| |done].
    cbn. rewrite list_lookup_insert_ne; [done|]. intros <-. apply in_loop_owning in Hl. congruence.
Qed.

(** While the owner has not reached its loop the server is not serving. *)
Lemma not_in_loop t p s : inv s -> threads s !! t = Some p -> owning p = true -> in_loop p = false -> state s <> stateServing.
Proof.
  intros [H1 H2 H3 H4 H5] Ht Hp Hl E. destruct (H4 E) as (i & q & Hi & Hq & Hql). pose proof (H2 _ _ Ht Hp). simplify_eq. congruence.
Qed.

Lemma inv_act a s s' : inv s -> act a s = Some s' -> inv s'.
Proof.
  intros I. destruct a as [| | |t ok]; cbn [act]; [intros [= <-]; by apply inv_spawn..|].
  destruct (threads s !! t) as [p|] eqn:Ht; [|done]. cbn [mbind option_bind].
  destruct p; cbn [step]; intros [= <-].
  - by eapply inv_try_start.
  - by eapply inv_try_start.
  - eapply inv_owner_move; [done|done|done|by destruct ok|]. intros E. by destruct (not_in_loop _ _ _ I Ht eq_refl eq_refl).
  - eapply (inv_down _ _ _ _ _ _ _ I Ht); [done|by right].
  - eapply inv_owner_move; [done|done|done|by destruct (inShutdown s), ok|].
    intros E. by destruct (not_in_loop _ _ _ I Ht eq_refl eq_refl).
  - by apply inv_accept.
  - eapply inv_owner_move; [done|done|done|by destruct ok, (inShutdown s)|]. by destruct ok, (inShutdown s).
  - eapply (inv_down _ _ _ _ _ _ _ I Ht); [done|by right].
  - eapply (inv_down _ _ _ _ _ _ _ I Ht); [done|by left].
  - by eapply (inv_frame _ _ _ true).
Qed.

Lemma server_inv_run l s s' : inv s -> run l s = Some s' -> inv s'.
Proof.
  revert s; induction l as [|a l IH]; intros s I; cbn [run]; [by intros [= <-]|].
  intros (s1 & Ha & Hr)%bind_Some. eapply IH; [|done]. by eapply inv_act.
Qed.

(** The request for a shutdown is not forgotten. *)
Lemma asked_act a s s' : act a s = Some s' -> asked s = true -> asked s' = true.
Proof.
  destruct a as [| | |t ok]; cbn [act]; [by intros [= <-]..|]. destruct (threads s !! t) as [p|]; [|done]. cbn [mbind option_bind].
  destruct p; cbn [step]; intros [= <-]; try done; unfold try_start, Accept; by case_decide.
Qed.

Lemma asked_run l s s' : run l s = Some s' -> asked s = true -> asked s' = true.
Proof.
  revert s; induction l as [|a l IH]; intros s; cbn [run]; [by intros [= <-]|].
  intros (s1 & Ha & Hr)%bind_Some Hs. eapply IH; [done|]. by eapply asked_act.
Qed.

(** C22. In every interleaving of any number of callers: at most one of them ever
    runs the server (the others get ErrServerClosed); the server reports ready
    only while the accept loop of that one has been entered and its end not yet
    recorded; and once a Shutdown has begun, also one that races with the first
    Accept or comes before the start, it never reports ready again. *)
Theorem readiness_sound l s :
  run l start = Some s ->
  (forall t t' p p', threads s !! t = Some p -> threads s !! t' = Some p' -> owning p = true -> owning p' = true -> t = t') /\
  (IsServing s = true -> exists t p, threads s !! t = Some p /\ in_loop p = true) /\
  (asked s = true -> forall l' s', run l' s = Some s' -> IsServing s' = false).
Proof.
  intros Hr. pose proof (server_inv_run _ _ _ inv_started Hr) as I. split_and!.
  - intros t t' p p' H1 H2 Hp Hp'. pose proof (i_owner _ I _ _ H1 Hp). pose proof (i_owner _ I _ _ H2 Hp'). congruence.
  - intros E%bool_decide_eq_true. destruct (i_serving _ I E) as (t & p & _ & ? & ?). eauto.
  - intros Ha l' s' Hr'. pose proof (server_inv_run _ _ _ I Hr') as I'. pose proof (asked_run _ _ _ Hr' Ha) as Ha'.
    unfold IsServing. apply bool_decide_eq_false. intros E. destruct (i_asked _ I' Ha'); congruence.
Qed.

(** ** An example: a shutdown between binding and the first Accept *)
Module Demo.
Definition race : list action :=
  [CallListenAndServe; CallListenAndServe; Step 0 true; Step 1 true; Step 0 true; Step 0 true;
   CallShutdown; Step 2 true; Step 0 true].
Definition final : Sys := default start (run race start).

Example race_ends : threads final = [Accepting; Returned ErrServerClosed; Draining] /\ IsServing final = false.
Proof. vm_compute. split; reflexivity. Qed.

Example serves : exists s, run [CallServe; Step 0 true; Step 0 true; Step 0 true] start = Some s /\ IsServing s = true.
Proof. eexists. split; vm_compute; reflexivity. Qed.

Lemma readiness_sound_witness :
  run race start = Some final /\ (forall l' s', run l' final = Some s' -> IsServing s' = false).
Proof.
  split; [vm_compute; reflexivity|].
  refine (proj2 (proj2 (readiness_sound race final _)) _); vm_compute; reflexivity.
Defined.
End Demo.
