(* ===== verification/Confirm.v ===== *)
(** * Publisher confirmations (src/amqpconfirm/confirm.go)

    [Await] against a broker that fills and closes its two channels at any time,
    with a [select] that may take any ready case.  The AMQP rule the code relies
    on is a guard of the broker's steps: the return of a mandatory message comes
    before its confirmation. *)
From S2P Require Import Prelude.
Local Open Scope Z_scope.

(** ** Channels *)

Record chan (A : Type) := MkChan { is_nil : bool; buf : list A; closed : bool }.
Arguments MkChan {A}. Arguments is_nil {A}. Arguments buf {A}. Arguments closed {A}.

Inductive received (A : Type) := Got (x : A) | WasClosed | NotReady.
Arguments Got {A}. Arguments WasClosed {A}. Arguments NotReady {A}.

Definition receive {A} (c : chan A) : received A :=
  if is_nil c then NotReady
  else match buf c with x :: _ => Got x | [] => if closed c then WasClosed else NotReady end.

Definition nil_chan {A} : chan A := MkChan true [] false.
Definition open_chan {A} : chan A := MkChan false [] false.
Definition send {A} (x : A) (c : chan A) : chan A := MkChan (is_nil c) (buf c ++ [x])%list (closed c).
Definition close {A} (c : chan A) : chan A := MkChan (is_nil c) (buf c) true.

Record Return := MkReturn { ReplyCode : Z; ReplyText : string }.

Inductive outcome := WasReturned (r : Return) | ConfirmsClosed | Nacked | Success | Cancelled.

(** The variables of [Await]: its channels (a closed [returns] is set to nil) and
    whether the context is done. *)
Record St := MkSt { confirms : chan bool; returns : chan Return; ctxDone : bool }.

Inductive case := CReturns | CConfirms | CDone.

(** One turn of the loop taking a case: the loop goes on, or the result; [None]
    when the case is not ready. *)
Definition Await (c : case) (st : St) : option (St + outcome) :=
  match c with
  | CReturns =>
      match receive (returns st) with
      | Got r => Some (inr (WasReturned r))
      | WasClosed => Some (inl (MkSt (confirms st) nil_chan (ctxDone st)))
      | NotReady => None
      end
  | CConfirms =>
      match receive (confirms st) with
      | Got ack =>
          Some (inr (if negb ack then Nacked
                     else match receive (returns st) with Got r => WasReturned r | _ => Success end))
      | WasClosed => Some (inr ConfirmsClosed)
      | NotReady => None
      end
  | CDone => if ctxDone st then Some (inr Cancelled) else None
  end.

(** ** The broker, the connection and the caller *)

Inductive event := EReturn (r : Return) | EConfirm (ack : bool) | ECloseReturns | ECloseConfirms | ECancel.

(** One outstanding publish: what the broker said about it, and the result. *)
Record Sys := MkSys { vars : St; returned : option Return; confirmed : option bool; result_ : option outcome }.

Definition start : Sys := MkSys (MkSt open_chan open_chan false) None None None.

Definition env (e : event) (s : Sys) : option Sys :=
  let st := vars s in
  match e with
  | EReturn r =>
      match returned s, confirmed s with
      | None, None =>
          if closed (returns st) || is_nil (returns st) then None
          else Some (MkSys (MkSt (confirms st) (send r (returns st)) (ctxDone st)) (Some r) None (result_ s))
      | _, _ => None
      end
  | EConfirm ack =>
      match confirmed s with
      | None =>
          if closed (confirms st) then None
          else Some (MkSys (MkSt (send ack (confirms st)) (returns st) (ctxDone st)) (returned s) (Some ack) (result_ s))
      | Some _ => None
      end
  | ECloseReturns => Some (MkSys (MkSt (confirms st) (close (returns st)) (ctxDone st)) (returned s) (confirmed s) (result_ s))
  | ECloseConfirms => Some (MkSys (MkSt (close (confirms st)) (returns st) (ctxDone st)) (returned s) (confirmed s) (result_ s))
  | ECancel => Some (MkSys (MkSt (confirms st) (returns st) true) (returned s) (confirmed s) (result_ s))
  end.

Definition act (a : event + case) (s : Sys) : option Sys :=
  match a with
  | inl e => env e s
  | inr c =>
      match result_ s with
      | Some _ => None
      | None =>
          match Await c (vars s) with
          | None => None
          | Some (inl st) => Some (MkSys st (returned s) (confirmed s) None)
          | Some (inr o) => Some (MkSys (vars s) (returned s) (confirmed s) (Some o))
          end
      end
  end.

Fixpoint run (l : list (event + case)) (s : Sys) : option Sys :=
  match l with
  | [] => Some s
  | a :: l => s' ← act a s; run l s'
  end.

(** ** What a success means *)

Record inv (s : Sys) : Prop := {
  i_returned : result_ s = None -> buf (returns (vars s)) = option_list (returned s);
  i_nil : result_ s = None -> is_nil (returns (vars s)) = true -> returned s = None;
  i_confirmed : result_ s = None -> buf (confirms (vars s)) = option_list (confirmed s);
  i_success : result_ s = Some Success -> returned s = None /\ confirmed s = Some true }.

Lemma inv_start_confirm : inv start.
Proof. by constructor. Qed.

Lemma inv_env e s s' : inv s -> env e s = Some s' -> inv s'.
Proof.
  intros [H1 H2 H3 H4]. destruct e; cbn [env]; intros He.
  - destruct (returned s) eqn:Hr; [done|]. destruct (confirmed s) eqn:Hc; [done|].
    destruct (closed _) eqn:Hcl; [done|]. destruct (is_nil (returns (vars s))) eqn:Hn; [done|]. injection He as <-.
    constructor; cbn; try done.
    + intros E. by rewrite H1.
    + intros E. by rewrite Hn.
    + intros E. destruct (H4 E); congruence.
  - destruct (confirmed s) eqn:Hc; [done|]. destruct (closed _); [done|]. injection He as <-. constructor; cbn; try done.
    + intros E. by rewrite H3.
    + intros E. destruct (H4 E); congruence.
  - injection He as <-. by constructor.
  - injection He as <-. by constructor.
  - injection He as <-. by constructor.
Qed.

Lemma inv_await c s s' : inv s -> act (inr c) s = Some s' -> inv s'.
Proof.
  intros [H1 H2 H3 H4]. cbn [act]. destruct (result_ s) eqn:Hres; [done|]. specialize (H1 eq_refl). specialize (H3 eq_refl).
  unfold Await, receive. destruct c.
  - destruct (is_nil (returns (vars s))) eqn:Hn; [done|]. destruct (buf (returns (vars s))) as [|r l] eqn:Hb.
    + destruct (closed _); [|done]. intros [= <-]. constructor; cbn; try done; intros _; by destruct (returned s).
    + intros [= <-]. by constructor.
  - destruct (is_nil (confirms (vars s))); [done|]. destruct (buf (confirms (vars s))) as [|a l] eqn:Hb.
    + destruct (closed _); [|done]. intros [= <-]. by constructor.
    + assert (confirmed s = Some a) as Hc by (destruct (confirmed s); simplify_eq/=; done).
      intros [= <-]. constructor; cbn; try done. destruct a; [|done]. cbn [negb].
      destruct (is_nil (returns (vars s))) eqn:Hn; [by auto|]. rewrite H1. destruct (returned s); [done|]. by destruct (closed _).
  - destruct (ctxDone _); [|done]. intros [= <-]. by constructor.
Qed.

Lemma inv_run_confirm l s s' : inv s -> run l s = Some s' -> inv s'.
Proof.
  revert s; induction l as [|[e|c] l IH]; intros s I; cbn [run]; [by intros [= <-]| |];
    intros (s1 & Ha & Hr)%bind_Some; (eapply IH; [|done]); [by eapply inv_env|by eapply inv_await].
Qed.

(** C23. However the broker's frames, closing channels, cancellation and the
    random choice of the select interleave, [Await] succeeds only for a message
    that the broker confirmed positively and did not return as unroutable. *)
Theorem await_success_routed l s :
  run l start = Some s -> result_ s = Some Success -> confirmed s = Some true /\ returned s = None.
Proof. intros Hr Hs. by destruct (i_success _ (inv_run_confirm _ _ _ inv_start_confirm Hr) Hs). Qed.

(** The loop turns at most once more: [continue] leaves a nil channel, which is
    never ready again. *)
Lemma await_continue c st st' :
  Await c st = Some (inl st') -> is_nil (returns st) = false /\ is_nil (returns st') = true /\ confirms st' = confirms st.
Proof.
  unfold Await, receive. destruct c; cbn.
  - destruct (is_nil (returns st)); [done|]. destruct (buf (returns st)); [|done]. destruct (closed _); [|done]. by intros [= <-].
  - destruct (is_nil _); [done|]. destruct (buf _); [destruct (closed _)|]; done.
  - by destruct (ctxDone st).
Qed.

(** ** Examples *)
Module Demo.
Definition unroutable : Return := MkReturn 312 "NO_ROUTE".

(** The acknowledgement is chosen although a return is buffered. *)
Example return_wins :
  (s ← run [inl (EReturn unroutable); inl (EConfirm true); inr CConfirms] start; result_ s) = Some (WasReturned unroutable).
Proof. reflexivity. Qed.

Definition routed : list (event + case) := [inl ECloseReturns; inr CReturns; inl (EConfirm true); inr CConfirms].
Definition final : Sys := default start (run routed start).

Lemma await_success_routed_witness : confirmed final = Some true /\ returned final = None.
Proof. refine (await_success_routed routed final _ _); vm_compute; reflexivity. Defined.
End Demo.
