(* ===== verification/PgUtil.v ===== *)
(** * PostgreSQL helpers (src/pgutil)

    Identifier quoting, transactions, error mapping, pool options, and the
    migration runner with any number of runners on one database.  A transaction
    collects its writes and publishes them when it commits; an INSERT of a row
    whose key another open transaction holds waits for it, and fails when the
    key is committed (the primary key of the tracking table); every statement
    may fail, and a failed COMMIT may or may not have taken effect.  [pgx] and
    the SQL of a migration are outside. *)
From S2P Require Import Prelude GoStrings.
Local Open Scope string_scope.

(** ** errors.go *)

Inductive error := ErrNoRows | PgError (code : string) | Wrapped (msg : string) (cause : error) | OtherError (msg : string).

(** [errors.Is] and [errors.As] follow the chain. *)
Fixpoint IsNotFound (e : error) : bool :=
  match e with ErrNoRows => true | Wrapped _ c => IsNotFound c | _ => false end.
Fixpoint IsDuplicateKey (e : error) : bool :=
  match e with PgError code => code ==s "23505" | Wrapped _ c => IsDuplicateKey c | _ => false end.

(** ** pool.go *)

Record poolConfig := MkPool { maxConns : Z; minConns : Z; maxConnLifetime : Z }.
Inductive PoolOption := WithMaxConns (n : Z) | WithMinConns (n : Z) | WithMaxConnLifetime (d : Z).

Definition apply_option (c : poolConfig) (o : PoolOption) : poolConfig :=
  match o with
  | WithMaxConns n => MkPool n (minConns c) (maxConnLifetime c)
  | WithMinConns n => MkPool (maxConns c) n (maxConnLifetime c)
  | WithMaxConnLifetime d => MkPool (maxConns c) (minConns c) d
  end.

Inductive pool_error := BadDSN | CreateFailed | PingFailed.

(** The limits of the DSN unless a positive option overrides them; a pool that
    does not answer is closed. *)
Definition NewPool {Pool} (ParseConfig : string -> option poolConfig) (NewWithConfig : poolConfig -> option Pool)
    (Ping : Pool -> bool) (dsn : string) (opts : list PoolOption) : result pool_error Pool :=
  let cfg := fold_left apply_option opts (MkPool 0 0 0) in
  let over n d := if (0 <? n)%Z then n else d in
  match ParseConfig dsn with
  | None => Err BadDSN
  | Some d =>
      match NewWithConfig (MkPool (over (maxConns cfg) (maxConns d)) (over (minConns cfg) (minConns d))
                             (over (maxConnLifetime cfg) (maxConnLifetime d))) with
      | None => Err CreateFailed
      | Some pool => if Ping pool then Ok pool else Err PingFailed
      end
  end.

(** ** tx.go *)

Inductive tx_end := FnOk | FnError | FnPanic.
Inductive tx_error := BeginFailed | FnFailed | CommitFailed.

(** What becomes of the database [d] when [fn] has turned it into [d'] inside the
    transaction: the new database and the error; [None] for the error when the
    panic goes on.  The deferred rollback runs in every case. *)
Definition WithTx {D} (begins : bool) (f : tx_end) (commits : bool) (d d' : D) : D * option (result tx_error unit) :=
  if negb begins then (d, Some (Err BeginFailed))
  else
    match f with
    | FnError => (d, Some (Err FnFailed))
    | FnPanic => (d, None)
    | FnOk => if commits then (d', Some (Ok tt)) else (d, Some (Err CommitFailed))
    end.

(** ** quoteIdent *)

#[local] Arguments Ascii.eqb : simpl never.

Definition dquote : ascii := "034".

Fixpoint double_quotes (s : string) : string :=
  match s with
  | "" => ""
  | String c s => if Ascii.eqb c dquote then String dquote (String dquote (double_quotes s)) else String c (double_quotes s)
  end.

Definition quoteIdent (s : string) : string := String dquote (double_quotes s +:+ String dquote "").

(** How SQL reads a quoted identifier, after its opening quote: a doubled quote
    stands for one, a single one ends it. *)
Fixpoint read_ident (s : string) : option (string * string) :=
  match s with
  | "" => None
  | String c s' =>
      if Ascii.eqb c dquote then
        match s' with
        | String c' s'' =>
            if Ascii.eqb c' dquote then match read_ident s'' with Some (i, r) => Some (String dquote i, r) | None => None end
            else Some ("", s')
        | "" => Some ("", "")
        end
      else match read_ident s' with Some (i, r) => Some (String c i, r) | None => None end
  end.

Definition starts_quote (s : string) : bool := match s with String c _ => Ascii.eqb c dquote | "" => false end.

(** Whatever the table name, SQL reads it back as one identifier and goes on
    after it. *)
Lemma quoteIdent_read s rest : starts_quote rest = false ->
  exists q, quoteIdent s +:+ rest = String dquote q /\ read_ident q = Some (s, rest).
Proof.
  intros Hr. exists (double_quotes s +:+ String dquote rest). split.
  { unfold quoteIdent. change (String dquote ?x +:+ rest) with (String dquote (x +:+ rest)). f_equal.
    by rewrite append_assoc. }
  assert (Ascii.eqb dquote dquote = true) as Hq by done. induction s as [|c s IH].
  - change ("" +:+ ?x) with x. cbn [read_ident double_quotes]. change ("" +:+ ?x) with x. cbn [read_ident]. rewrite Hq.
    destruct rest as [|c rest]; [done|]. cbn [starts_quote] in Hr. by rewrite Hr.
  - cbn [double_quotes]. destruct (Ascii.eqb c dquote) eqn:Hc.
    + apply Ascii.eqb_eq in Hc as ->. rewrite !append_cons. cbn [read_ident]. rewrite !Hq. by rewrite IH.
    + rewrite append_cons. cbn [read_ident]. by rewrite Hc, IH.
Qed.

(** ** migrate.go *)

Record Migration := MkMigration { Name : string; Up : string }.

Inductive migrate_error := ECreate | ECheck (n : string) | EBegin (n : string) | EApply (n : string) | ERecord (n : string) | ECommit (n : string).

(** The tracking table and the migrations whose statements are in effect, both
    in the order they were committed. *)
Record DB := MkDB { tracked : list string; schema : list string }.
Record Tx := MkTx { ups : list string; rows : list string }.
Definition no_tx : Tx := MkTx [] [].
Definition commit (t : Tx) (d : DB) : DB := MkDB (tracked d ++ rows t) (schema d ++ ups t).

Inductive pc :=
| Creating | Checking (i : nat) | Beginning (i : nat) | Applying (i : nat) | Recording (i : nat) | Committing (i : nat)
| Done (r : result migrate_error unit) | Crashed.

Record Runner := MkRunner { at_ : pc; txn : Tx }.
Record Sys := MkSys { db : DB; runners : list Runner }.

(** The outcome of a statement; [Lost] is a commit whose answer was lost. *)
Inductive answer := Success | Failure | Lost.

Section migrations.
Context (migrations : list Migration).

(** Another transaction has an uncommitted row of this name. *)
Definition row_locked (n : string) (r : nat) (rs : list Runner) : bool :=
  existsb id (imap (fun j x => negb (Nat.eqb j r) && existsb (String.eqb n) (rows (txn x))) rs).

(** RunMigrations, one statement of a runner. *)
Definition RunMigrations (r : nat) (a : answer) (s : Sys) : option Sys :=
  match runners s !! r with
  | None => None
  | Some (MkRunner p t) =>
      let go p t := Some (MkSys (db s) (<[r := MkRunner p t]> (runners s))) in
      let fail e := go (Done (Err e)) no_tx in
      match p with
      | Creating => match a with Success => go (Checking 0) no_tx | _ => fail ECreate end
      | Checking i =>
          match migrations !! i with
          | None => go (Done (Ok tt)) no_tx
          | Some m =>
              match a with
              | Success => if decide (Name m ∈ tracked (db s)) then go (Checking (S i)) no_tx else go (Beginning i) no_tx
              | _ => fail (ECheck (Name m))
              end
          end
      | Beginning i =>
          m ← migrations !! i;
          match a with Success => go (Applying i) no_tx | _ => fail (EBegin (Name m)) end
      | Applying i =>
          m ← migrations !! i;
          match a with Success => go (Recording i) (MkTx (ups t ++ [Name m]) (rows t)) | _ => fail (EApply (Name m)) end
      | Recording i =>
          m ← migrations !! i;
          match a with
          | Success =>
              if decide (Name m ∈ tracked (db s)) then fail (ERecord (Name m))
              else if row_locked (Name m) r (runners s) then None
              else go (Committing i) (MkTx (ups t) (rows t ++ [Name m]))
          | _ => fail (ERecord (Name m))
          end
      | Committing i =>
          m ← migrations !! i;
          match a with
          | Success => Some (MkSys (commit t (db s)) (<[r := MkRunner (Checking (S i)) no_tx]> (runners s)))
          | Failure => fail (ECommit (Name m))
          | Lost => Some (MkSys (commit t (db s)) (<[r := MkRunner (Done (Err (ECommit (Name m)))) no_tx]> (runners s)))
          end
      | Done _ | Crashed => None
      end
  end.

(** A new process starts, or a runner executes a statement; or a
    process dies, and its open transaction is rolled back. *)
Inductive action := NewRunner | Statement (r : nat) (a : answer) | Crash (r : nat).

Definition act (a : action) (s : Sys) : option Sys :=
  match a with
  | NewRunner => Some (MkSys (db s) (runners s ++ [MkRunner Creating no_tx])%list)
  | Statement r a => RunMigrations r a s
  | Crash r => _ ← runners s !! r; Some (MkSys (db s) (<[r := MkRunner Crashed no_tx]> (runners s)))
  end.

Fixpoint run (l : list action) (s : Sys) : option Sys :=
  match l with
  | [] => Some s
  | a :: l => s' ← act a s; run l s'
  end.

Definition start (d : DB) : Sys := MkSys d [].

(** ** The schema is always a prefix of the migrations *)

Hypothesis names_unique : NoDup (map Name migrations).

Definition prefix_db (k : nat) (d : DB) : Prop :=
  tracked d = map Name (firstn k migrations) /\ schema d = map Name (firstn k migrations).

(** A runner while the first [k] migrations are committed. *)
Definition runner_ok (k : nat) (x : Runner) : Prop :=
  match at_ x with
  | Creating | Crashed => txn x = no_tx
  | Checking i | Beginning i | Applying i => (i <= k)%nat /\ txn x = no_tx
  | Recording i => (i <= k)%nat /\ exists m, migrations !! i = Some m /\ txn x = MkTx [Name m] []
  | Committing i => i = k /\ exists m, migrations !! i = Some m /\ txn x = MkTx [Name m] [Name m]
  | Done r => txn x = no_tx /\ (r = Ok tt -> (length migrations <= k)%nat)
  end.

Definition committing (x : Runner) : bool := match at_ x with Committing _ => true | _ => false end.

Record inv (k : nat) (s : Sys) : Prop := {
  i_db : prefix_db k (db s);
  i_len : (k <= length migrations)%nat;
  i_runners : forall r x, runners s !! r = Some x -> runner_ok k x;
  i_single : forall r r' x x', runners s !! r = Some x -> runners s !! r' = Some x' ->
             committing x = true -> committing x' = true -> r = r' }.

Lemma name_in_prefix i k m :
  migrations !! i = Some m -> Name m ∈ map Name (firstn k migrations) <-> (i < k)%nat.
Proof.
  intros Hi. split.
  - intros (m' & Hn & (j & Hj)%list_elem_of_lookup)%list_elem_of_fmap. apply lookup_take_Some in Hj as [Hj Hlt].
    assert (i = j) as ->; [|done]. eapply (NoDup_lookup (map Name migrations)); [done| |].
    + by rewrite list_lookup_fmap, Hi.
    + rewrite list_lookup_fmap, Hj. cbn. by rewrite Hn.
  - intros Hlt. apply list_elem_of_fmap. exists m. split; [done|]. apply list_elem_of_lookup. exists i. by apply lookup_take_Some.
Qed.

Lemma row_locked_false n r rs r' x :
  row_locked n r rs = false -> rs !! r' = Some x -> r' <> r -> n ∉ rows (txn x).
Proof.
  unfold row_locked. intros Hl Hx Hne Hn. apply not_true_iff_false in Hl. apply Hl, existsb_exists. exists true. split; [|done].
  apply list_elem_of_In, list_elem_of_lookup. exists r'. rewrite list_lookup_imap, Hx. cbn. f_equal.
  apply andb_true_iff; split; [by apply negb_true_iff, Nat.eqb_neq|]. apply existsb_exists. exists n.
  split; [by apply list_elem_of_In|apply String.eqb_refl].
Qed.

(** A runner takes a step that leaves the database alone. *)
Lemma inv_go k s r x p t :
  inv k s -> runners s !! r = Some x -> runner_ok k (MkRunner p t) ->
  (committing (MkRunner p t) = true -> forall r' x', runners s !! r' = Some x' -> committing x' = true -> r' = r) ->
  inv k (MkSys (db s) (<[r := MkRunner p t]> (runners s))).
Proof.
  intros [H1 H2 H3 H4] Hr Hok Hc. constructor; cbn; try done.
  - intros r' x' [(_ & <- & _)|[_ Hx]]%list_lookup_insert_Some; [done|by eapply H3].
  - intros r1 r2 x1 x2 [(<- & <- & _)|[Hn1 Hx1]]%list_lookup_insert_Some [(<- & <- & _)|[Hn2 Hx2]]%list_lookup_insert_Some C1 C2;
      [done|symmetry; by eapply Hc|by eapply Hc|by eapply H4].
Qed.

Lemma runner_ok_mono k x : runner_ok k x -> committing x = false -> runner_ok (S k) x.
Proof.
  unfold runner_ok, committing. destruct (at_ x); try done.
  all: try (intros [? ?] _; split; [lia|done]). intros [? H] _. split; [done|]. intros E. specialize (H E). lia.
Qed.

(** The committing runner commits. *)
Lemma migrate_inv_commit k s r x p :
  inv k s -> runners s !! r = Some x -> committing x = true ->
  runner_ok (S k) (MkRunner p no_tx) -> committing (MkRunner p no_tx) = false ->
  inv (S k) (MkSys (commit (txn x) (db s)) (<[r := MkRunner p no_tx]> (runners s))).
Proof.
  intros [[Ht Hs] H2 H3 H4] Hr Hx Hok Hp. pose proof (H3 _ _ Hr) as Hxok. unfold runner_ok in Hxok. unfold committing in Hx.
  destruct (at_ x) eqn:Ep; try done. destruct Hxok as (-> & m & Hm & Et). constructor.
  - unfold prefix_db, commit. cbn. rewrite Et, Ht, Hs, (take_S_r _ _ m Hm), map_app. done.
  - apply lookup_lt_Some in Hm. lia.
  - cbn. intros r' x' Hx'. apply list_lookup_insert_Some in Hx' as [(_ & <- & _)|[Hne Hx']]; [done|].
    apply runner_ok_mono; [by eapply H3|]. apply not_true_iff_false. intros C. apply Hne. eapply (H4 r r'); try done.
    unfold committing. by rewrite Ep.
  - cbn. intros r1 r2 x1 x2 Hx1 Hx2 C1 C2.
    apply list_lookup_insert_Some in Hx1 as [(_ & <- & _)|[Hn1 Hx1]]; [congruence|].
    apply list_lookup_insert_Some in Hx2 as [(_ & <- & _)|[Hn2 Hx2]]; [congruence|]. by eapply H4.
Qed.

(** Ending a run without success, or going on without a transaction. *)
Lemma inv_quiet k s r x p :
  inv k s -> runners s !! r = Some x -> runner_ok k (MkRunner p no_tx) -> committing (MkRunner p no_tx) = false ->
  inv k (MkSys (db s) (<[r := MkRunner p no_tx]> (runners s))).
Proof. intros I Hr Hok Hc. eapply inv_go; [done..|]. intros E. congruence. Qed.

Lemma inv_statement k s r a s' : inv k s -> RunMigrations r a s = Some s' -> exists k', (k <= k')%nat /\ inv k' s'.
Proof.
  intros I. pose proof I as [[Ht Hs] H2 H3 H4]. unfold RunMigrations. destruct (runners s !! r) as [[p t]|] eqn:Hr; [|done].
  pose proof (H3 _ _ Hr) as Hok. unfold runner_ok in Hok. cbn [at_ txn] in Hok.
  assert (forall e, inv k (MkSys (db s) (<[r := MkRunner (Done (Err e)) no_tx]> (runners s)))) as Hfail
    by (intros e; by eapply inv_quiet).
  assert (forall q, runner_ok k (MkRunner q no_tx) -> committing (MkRunner q no_tx) = false ->
            exists k', (k <= k')%nat /\ inv k' (MkSys (db s) (<[r := MkRunner q no_tx]> (runners s)))) as Hgo
    by (intros q ? ?; exists k; split; [done|by eapply inv_quiet]).
  destruct p as [|i|i|i|i|i|res|]; try done.
  - destruct a; intros [= <-]; eauto. apply Hgo; [|done]. cbn. split; [lia|done].
  - destruct Hok as [Hi _]. destruct (migrations !! i) as [m|] eqn:Hm.
    + destruct a; [|intros [= <-]; eauto..]. rewrite Ht. case_decide as Hin; intros [= <-]; apply Hgo; try done.
      apply (name_in_prefix _ _ _ Hm) in Hin. by split.
    + intros [= <-]. apply lookup_ge_None in Hm. apply Hgo; [|done]. split; [done|]. intros _. cbn. lia.
  - destruct Hok as [Hi ->]. intros (m & Hm & Ha)%bind_Some. destruct a; simplify_eq; eauto. apply Hgo; [by split|done].
  - destruct Hok as [Hi ->]. intros (m & Hm & Ha)%bind_Some. destruct a; simplify_eq; eauto. exists k. split; [done|].
    eapply inv_go; [done..| |done]. split; [done|]. by exists m.
  - destruct Hok as (Hi & m & Hm & ->). rewrite Hm. cbn. destruct a; [|intros [= <-]; eauto..]. rewrite Ht.
    case_decide as Hin; [intros [= <-]; eauto|]. destruct (row_locked _ _ _) eqn:Hl; intros [= <-]. exists k. split; [done|].
    rewrite (name_in_prefix _ _ _ Hm) in Hin. assert (i = k) as -> by lia.
    eapply inv_go; [done..| |].
    + split; [done|]. by exists m.
    + intros _ r' x' Hx' C. destruct (decide (r' = r)) as [|Hne]; [done|exfalso].
      pose proof (row_locked_false _ _ _ _ _ Hl Hx' Hne) as Hn. pose proof (H3 _ _ Hx') as Hx. unfold runner_ok in Hx.
      unfold committing in C. destruct (at_ x'); try done. destruct Hx as (-> & m' & Hm' & Et). simplify_eq. rewrite Et in Hn.
      apply Hn. by constructor.
  - destruct Hok as (-> & m & Hm & ->). rewrite Hm. cbn. set (x := MkRunner (Committing k) (MkTx [Name m] [Name m])) in Hr.
    destruct a; intros [= <-]; [|by eauto|]; (exists (S k); split; [lia|]).
    + by eapply (migrate_inv_commit k s r x).
    + by eapply (migrate_inv_commit k s r x).
Qed.

Lemma migrate_inv_act k s a s' : inv k s -> act a s = Some s' -> exists k', (k <= k')%nat /\ inv k' s'.
Proof.
  intros I. destruct a as [|r a|r]; cbn [act].
  - intros [= <-]. exists k. split; [done|]. destruct I as [H1 H2 H3 H4]. constructor; cbn; try done.
    + intros r x [Hx|[_ Hx]]%lookup_app_Some; [by eapply H3|]. by apply list_lookup_singleton_Some in Hx as [_ <-].
    + intros r r' x x' [Hx|[_ Hx]]%lookup_app_Some [Hx'|[_ Hx']]%lookup_app_Some C C'; [by eapply H4|..];
        repeat match goal with H : [_] !! _ = Some _ |- _ => apply list_lookup_singleton_Some in H as [_ <-] end; done.
  - by apply inv_statement.
  - destruct (runners s !! r) as [x|] eqn:Hr; [|done]. intros [= <-]. exists k. split; [done|]. by eapply inv_quiet.
Qed.

Lemma migrate_inv_run k l s s' : inv k s -> run l s = Some s' -> exists k', (k <= k')%nat /\ inv k' s'.
Proof.
  revert k s; induction l as [|a l IH]; intros k s I; cbn [run]; [intros [= <-]; eauto|].
  intros (s1 & Ha & Hr)%bind_Some. destruct (migrate_inv_act _ _ _ _ I Ha) as (k1 & Hk1 & I1).
  destruct (IH _ _ I1 Hr) as (k2 & Hk2 & I2). exists k2. split; [lia|done].
Qed.

(** C21. Any number of processes migrate one database, in any interleaving and
    with statements, commits and processes failing anywhere: what is in effect
    is always exactly a prefix of the migrations, in order and each once, the
    tracking table says so, it only grows, and a run that reports success leaves
    all of them in effect. *)
Theorem migrations_exactly_once k0 l s :
  (k0 <= length migrations)%nat ->
  run l (start (MkDB (map Name (firstn k0 migrations)) (map Name (firstn k0 migrations)))) = Some s ->
  exists k, (k0 <= k <= length migrations)%nat /\ schema (db s) = map Name (firstn k migrations) /\
    tracked (db s) = schema (db s) /\
    (forall r t, runners s !! r = Some (MkRunner (Done (Ok tt)) t) -> schema (db s) = map Name migrations).
Proof.
  intros Hk Hr. assert (inv k0 (start (MkDB (map Name (firstn k0 migrations)) (map Name (firstn k0 migrations))))) as I0.
  { constructor; cbn; try done; intros r; by rewrite lookup_nil. }
  destruct (migrate_inv_run _ _ _ _ I0 Hr) as (k & Hkk & [[Ht Hs] Hlen H3 _]). exists k. split_and!; try done; [congruence|].
  intros r t Hd. destruct (H3 _ _ Hd) as [_ Hall]. rewrite Hs, take_ge; [done|]. by apply Hall.
Qed.
End migrations.

(** ** An example: two processes race for the first migration *)
Module Demo.
Definition two : list Migration := [MkMigration "001" "create table a"; MkMigration "002" "create table b"].
Definition ok (r : nat) : action := Statement r Success.
Definition race : list action :=
  [NewRunner; NewRunner; ok 0; ok 1; ok 0; ok 1; ok 0; ok 1; ok 0; ok 1; ok 0; ok 0; ok 1;
   ok 0; ok 0; ok 0; ok 0; Statement 0 Lost; NewRunner; ok 2; ok 2; ok 2; ok 2].
Definition final : Sys := default (start (MkDB [] [])) (run two race (start (MkDB [] []))).

Example two_runners :
  map at_ (runners final) = [Done (Err (ECommit "002")); Done (Err (ERecord "001")); Done (Ok tt)] /\ schema (db final) = ["001"; "002"].
Proof. vm_compute. split; reflexivity. Qed.

Lemma migrations_exactly_once_witness :
  exists k, (0 <= k <= 2)%nat /\ schema (db final) = map Name (firstn k two) /\ tracked (db final) = schema (db final) /\
    (forall r t, runners final !! r = Some (MkRunner (Done (Ok tt)) t) -> schema (db final) = map Name two).
Proof.
  refine (migrations_exactly_once two _ 0 race final _ _); [|vm_compute; lia|vm_compute; reflexivity].
  apply (bool_decide_eq_true_1 (NoDup (map Name two))). vm_compute. reflexivity.
Defined.
End Demo.
