(* ===== verification/ApiError.v ===== *)
(** * Errors and their HTTP form (src/errors, src/apierror, src/httpx/response.go)

    Domain errors with their causes, and what of them a client may see.  A Go
    error is a chain: a domain error, a wrapped error or a plain one.  JSON
    encoding is left out: a response is its status, headers and the encoded
    value; decoding is an argument. *)
From S2P Require Import Prelude GoStrings.
Local Open Scope string_scope.
Local Open Scope Z_scope.

(** ** errors.go *)

Definition CodeValidation : string := "VALIDATION_ERROR".
Definition CodeNotFound : string := "NOT_FOUND".
Definition CodeConflict : string := "CONFLICT".
Definition CodeInternal : string := "INTERNAL".
Definition CodeUnavailable : string := "UNAVAILABLE".
Definition CodeRateLimited : string := "RATE_LIMITED".
Definition CodeForbidden : string := "FORBIDDEN".
Definition CodeUnauthorized : string := "UNAUTHORIZED".

Inductive error :=
| Domain (Code Message : string) (Status : Z) (Cause : option error)
| Wrapped (text : string) (cause : error)
| Plain (text : string).

(** [Error()]; [text] of a wrapped error is what its own method returns. *)
Fixpoint Error_ (e : error) : string :=
  match e with
  | Domain _ m _ (Some c) => m +:+ ": " +:+ Error_ c
  | Domain _ m _ None => m
  | Wrapped t _ => t
  | Plain t => t
  end.

Definition Unwrap (e : error) : option error :=
  match e with Domain _ _ _ c => c | Wrapped _ c => Some c | Plain _ => None end.

(** The method [Is] of a domain error, and [errors.Is] for a domain target. *)
Definition Is_code (e target : error) : bool :=
  match e, target with Domain c _ _ _, Domain c' _ _ _ => c ==s c' | _, _ => false end.
Fixpoint errors_Is (e target : error) : bool :=
  Is_code e target ||
  match e with Domain _ _ _ (Some c) => errors_Is c target | Wrapped _ c => errors_Is c target | _ => false end.

(** [errors.As] into a domain error: the first of the chain. *)
Fixpoint As_domain (e : error) : option (string * string * Z) :=
  match e with
  | Domain c m s _ => Some (c, m, s)
  | Wrapped _ c => As_domain c
  | Plain _ => None
  end.

(** The constructors; the message is already formatted. *)
Definition NotFound (m : string) := Domain CodeNotFound m 404 None.
Definition Validation (m : string) := Domain CodeValidation m 400 None.
Definition Conflict (m : string) := Domain CodeConflict m 409 None.
Definition Internal (cause : error) := Domain CodeInternal "internal error" 500 (Some cause).
Definition Internalf (m : string) := Domain CodeInternal m 500 None.
Definition Unavailable (m : string) := Domain CodeUnavailable m 503 None.
Definition RateLimited (m : string) := Domain CodeRateLimited m 429 None.
Definition Forbidden (m : string) := Domain CodeForbidden m 403 None.
Definition Unauthorized (m : string) := Domain CodeUnauthorized m 401 None.

(** A copy with another cause; the argument is a domain error. *)
Definition Wrap (e cause : error) : error :=
  match e with Domain c m s _ => Domain c m s (Some cause) | e => e end.

(** ** apierror *)

Record Response := MkResponse {
  r_Code : string; r_Status : Z; r_Message : string; RetryAfterMS : option Z; RequestID : string; Detail : string }.

Definition New (code : string) (status : Z) (message : string) : Response := MkResponse code status message None "" "".
Definition WithRetryAfterMS (ms : Z) (r : Response) : Response :=
  MkResponse (r_Code r) (r_Status r) (r_Message r) (Some ms) (RequestID r) (Detail r).
Definition WithRequestID (id : string) (r : Response) : Response :=
  MkResponse (r_Code r) (r_Status r) (r_Message r) (RetryAfterMS r) id (Detail r).
Definition WithDetail (d : string) (r : Response) : Response :=
  MkResponse (r_Code r) (r_Status r) (r_Message r) (RetryAfterMS r) (RequestID r) d.

(** What a handler wrote: the content type, the status and the encoded value. *)
Record written (V : Type) := MkWritten { ctype : string; status : Z; payload : V }.
Arguments MkWritten {V}. Arguments ctype {V}. Arguments status {V}. Arguments payload {V}.

Definition Write (r : Response) : written Response := MkWritten "application/json" (r_Status r) r.

(** ** httpx/response.go *)

Definition WriteJSON {V} (st : Z) (v : V) : written V := MkWritten "application/json" st v.

Record errorDetail := MkDetail { d_Code : string; d_Message : string }.

Definition WriteError (e : error) : written errorDetail :=
  match As_domain e with
  | Some (c, m, s) => MkWritten "application/json" s (MkDetail c m)
  | None => MkWritten "application/json" 500 (MkDetail CodeInternal "internal error")
  end.

(** Two errors a client may not tell apart: the same first domain error up to
    its cause, under any wrapping text, or no domain error at all. *)
Inductive same_public : error -> error -> Prop :=
| sp_domain c m s x y : same_public (Domain c m s x) (Domain c m s y)
| sp_wrapped t t' e e' : same_public e e' -> same_public (Wrapped t e) (Wrapped t' e')
| sp_none e e' : As_domain e = None -> As_domain e' = None -> same_public e e'.

(** Causes and the text of wrapping never reach the client. *)
Lemma WriteError_hides_causes e e' : same_public e e' -> WriteError e = WriteError e'.
Proof. unfold WriteError. induction 1 as [|t t' e e' _ IH|e e' H H']; cbn; [done|done|by rewrite H, H']. Qed.

(** Wrapping keeps the class and the public part, and matches the same targets. *)
Lemma Wrap_public e cause : WriteError (Wrap e cause) = WriteError e.
Proof. by destruct e. Qed.

Lemma Wrap_Is c m s x cause target :
  Is_code (Domain c m s x) target = true -> errors_Is (Wrap (Domain c m s x) cause) target = true.
Proof. cbn. by intros ->. Qed.

Lemma Wrap_reaches_cause e cause target :
  is_Some (As_domain e) -> (forall t x, e <> Wrapped t x) -> errors_Is cause target = true -> errors_Is (Wrap e cause) target = true.
Proof. intros Hd Hw Hc. destruct e; cbn; [|by destruct (Hw text e)|by destruct Hd]. rewrite Hc. apply orb_true_r. Qed.

(** *** ReadJSON *)

Definition maxReadJSONBytes : Z := Z.shiftl 1 20.

Definition json_space (c : ascii) : bool := existsb (Ascii.eqb c) [" "%char; "009"%char; "010"%char; "013"%char].

(** [Decoder.More] on what is left after a value: a byte that is not white space
    and closes nothing. *)
Fixpoint More (rest : string) : bool :=
  match rest with
  | "" => false
  | String c rest => if json_space c then More rest else negb (Ascii.eqb c "]" || Ascii.eqb c "}")
  end.

Section read.
Context {V : Type}.
(** The first value of the input with unknown fields refused, and what is left;
    the flag tells whether the input ended or was cut off by the limit. *)
Context (Decode : string -> bool -> option (V * string)).

Definition ReadJSON (body : string) : result error V :=
  let data := String.substring 0 (Z.to_nat maxReadJSONBytes) body in
  match Decode data (Len body <=? maxReadJSONBytes) with
  | None => Err (Validation "invalid JSON")
  | Some (v, rest) => if More rest then Err (Validation "request body must contain a single JSON object") else Ok v
  end.

(** What can follow an accepted value: white space, or a closing bracket and
    then anything. *)
Lemma More_false rest :
  More rest = false ->
  all_bytes json_space rest = true \/
  exists w c tail, rest = w +:+ String c tail /\ all_bytes json_space w = true /\ (c = "]"%char \/ c = "}"%char).
Proof.
  induction rest as [|c rest IH]; cbn [More all_bytes]; [by left|]. destruct (json_space c) eqn:Hc.
  - intros H. destruct (IH H) as [Ha|(w & d & tail & -> & Hw & Hd)]; [by left|right].
    exists (String c w), d, tail. split_and!; [done| |done]. cbn [all_bytes]. by rewrite Hc.
  - intros H%negb_false_iff%orb_true_iff. right. exists "", c, rest. split_and!; [done|done|].
    destruct H as [H|H]; apply Ascii.eqb_eq in H; auto.
Qed.
End read.

(** A body with a second document is accepted when a closing brace or bracket
    comes first, although the check is there to refuse it. *)
Lemma trailing_brace_accepted :
  ReadJSON (fun s _ => if s ==s "{}}{1}" then Some (tt, "}{1}") else None) "{}}{1}" = Ok tt.
Proof. vm_compute. reflexivity. Qed.

(** ** [Drain] (src/httpx/response.go) *)

(** What the reads of a request body will yield, and whether it is closed. *)
Inductive body_read := RChunk (n : Z) | REnd | RFail.
Record RequestBody := MkBody { reads : list body_read; body_closed : bool }.

(** [io.Copy(io.Discard, r)]: reads to the end or to the first error. *)
Fixpoint copy_discard (l : list body_read) : list body_read :=
  match l with RChunk _ :: l' => copy_discard l' | _ => l end.

(** Neither the error of the copy nor that of the close is reported. *)
Definition Drain (b : RequestBody) : RequestBody := MkBody (copy_discard (reads b)) true.

(** Afterwards the body is closed and nothing is left before its end, so that
    the connection can be reused, unless a read failed. *)
Lemma Drain_leaves_nothing b :
  body_closed (Drain b) = true /\
  match reads (Drain b) with
  | RChunk _ :: _ => False
  | RFail :: _ => In RFail (reads b)
  | _ => True
  end.
Proof.
  split; [done|]. cbn. induction (reads b) as [|[n| |] l IH]; cbn; auto.
  destruct (copy_discard l) as [|[]]; auto.
Qed.
