(* ===== verification/ConfigLoad.v ===== *)
(** * Loading configuration from flags (src/configload)

    The flags with their environment defaults, what they become (source
    parameters, HTTP headers, watcher options), the first load and the
    validating watcher.  The environment is a function; the sources and the
    watcher are those of ConfigSource.v, Manifest.v and Watcher.v. *)
From S2P Require Import Prelude GoStrings Sha256 ConfigSource Watcher Manifest Duration.
Import Sha256.
Local Open Scope string_scope.
Local Open Scope Z_scope.

(** ** flags.go *)

Record SourceFlags := MkFlags {
  f_Source : string; f_File : string;
  f_S3Bucket : string; f_S3Key : string; f_S3Endpoint : string; f_S3Region : string; f_S3AuthMode : string;
  f_S3AccessKeyID : string; f_S3SecretKey : string; f_S3IAMToken : string; f_S3OAuthToken : string; f_S3SAKeyFile : string;
  f_HTTPURL : string; httpHeader : string; httpBearer : string;
  f_ManifestService : string; f_ManifestBootstrap : string; f_ManifestFile : string;
  RefreshInterval : string; HashPolicy : string; PinnedHash : string }.

Section environment.
Context (Getenv : string -> string).

Definition EnvOrDefault (key d : string) : string := if Getenv key !=s "" then Getenv key else d.

Definition NewSourceFlags : SourceFlags :=
  {| f_Source := EnvOrDefault "CONFIG_SOURCE" "file";
     f_File := EnvOrDefault "CONFIG_FILE" "config.yaml";
     f_S3Bucket := EnvOrDefault "CONFIG_S3_BUCKET" "";
     f_S3Key := EnvOrDefault "CONFIG_S3_KEY" "config.yaml";
     f_S3Endpoint := EnvOrDefault "CONFIG_S3_ENDPOINT" "https://storage.yandexcloud.net";
     f_S3Region := EnvOrDefault "CONFIG_S3_REGION" "ru-central1";
     f_S3AuthMode := EnvOrDefault "CONFIG_S3_AUTH_MODE" "static";
     f_S3AccessKeyID := EnvOrDefault "CONFIG_S3_ACCESS_KEY_ID" "";
     f_S3SecretKey := EnvOrDefault "CONFIG_S3_SECRET_ACCESS_KEY" "";
     f_S3IAMToken := EnvOrDefault "CONFIG_S3_IAM_TOKEN" "";
     f_S3OAuthToken := EnvOrDefault "CONFIG_S3_OAUTH_TOKEN" "";
     f_S3SAKeyFile := EnvOrDefault "CONFIG_S3_SA_KEY_FILE" "";
     f_HTTPURL := EnvOrDefault "CONFIG_HTTP_URL" "";
     httpHeader := ""; httpBearer := "";
     f_ManifestService := EnvOrDefault "CONFIG_MANIFEST_SERVICE" "";
     f_ManifestBootstrap := EnvOrDefault "CONFIG_MANIFEST_BOOTSTRAP" "";
     f_ManifestFile := EnvOrDefault "CONFIG_MANIFEST_FILE" "";
     RefreshInterval := EnvOrDefault "CONFIG_REFRESH_INTERVAL" "0";
     HashPolicy := EnvOrDefault "CONFIG_HASH_POLICY" "";
     PinnedHash := EnvOrDefault "CONFIG_PINNED_HASH" "" |}.
End environment.

(** [RegisterFlags] and parsing the arguments: a flag replaces the value of its
    field, the last one wins. *)
Definition RegisterFlags (args : list (string * string)) (f : SourceFlags) : SourceFlags :=
  let v name d := fold_left (fun cur a => if fst a ==s name then snd a else cur) args d in
  {| f_Source := v "config-source" (f_Source f); f_File := v "config-file" (f_File f);
     f_S3Bucket := v "config-s3-bucket" (f_S3Bucket f); f_S3Key := v "config-s3-key" (f_S3Key f);
     f_S3Endpoint := v "config-s3-endpoint" (f_S3Endpoint f); f_S3Region := v "config-s3-region" (f_S3Region f);
     f_S3AuthMode := v "config-s3-auth-mode" (f_S3AuthMode f);
     f_S3AccessKeyID := v "config-s3-access-key-id" (f_S3AccessKeyID f);
     f_S3SecretKey := v "config-s3-secret-access-key" (f_S3SecretKey f);
     f_S3IAMToken := v "config-s3-iam-token" (f_S3IAMToken f); f_S3OAuthToken := v "config-s3-oauth-token" (f_S3OAuthToken f);
     f_S3SAKeyFile := v "config-s3-sa-key-file" (f_S3SAKeyFile f);
     f_HTTPURL := v "config-url" (f_HTTPURL f); httpHeader := v "config-http-header" (httpHeader f);
     httpBearer := v "config-http-bearer" (httpBearer f);
     f_ManifestService := v "config-manifest-service" (f_ManifestService f);
     f_ManifestBootstrap := v "config-manifest-bootstrap" (f_ManifestBootstrap f);
     f_ManifestFile := v "config-manifest-file" (f_ManifestFile f);
     RefreshInterval := v "config-refresh-interval" (RefreshInterval f);
     HashPolicy := v "config-hash-policy" (HashPolicy f); PinnedHash := v "config-pinned-hash" (PinnedHash f) |}.

(** A pair of the header flag; text without [=] is dropped. *)
Definition header_pair (pair : string) : option (string * string) :=
  '(k, v) ← SplitN2 "=" (TrimSpace pair); Some (TrimSpace k, TrimSpace v).

Definition parseHTTPHeaders (f : SourceFlags) : gmap string string :=
  let headers : gmap string string := if httpBearer f !=s "" then {["Authorization" := "Bearer " +:+ httpBearer f]} else ∅ in
  if httpHeader f !=s ""
  then fold_left (fun h pair => match header_pair pair with Some (k, v) => <[k := v]> h | None => h end)
         (Split "," (httpHeader f)) headers
  else headers.

(** The parameters; the headers are ranged over in some order, [iter]. *)
Definition SourceParams_ (iter : gmap string string -> list (string * string)) (f : SourceFlags) : SourceParams :=
  MkParams (f_Source f) (f_File f) (f_S3Bucket f) (f_S3Key f) (f_S3Endpoint f) (f_S3Region f) (f_S3AuthMode f)
    (f_S3AccessKeyID f) (f_S3SecretKey f) (f_S3IAMToken f) (f_S3OAuthToken f) (f_S3SAKeyFile f)
    (f_HTTPURL f) (iter (parseHTTPHeaders f)) (f_ManifestService f) (f_ManifestBootstrap f) (f_ManifestFile f).

Definition ParseInterval (s : string) : Z :=
  if (s ==s "") || (s ==s "0") then 0
  else match ParseDuration s with Ok d => d | Err _ => 0 end.

Definition ParseRefreshInterval (f : SourceFlags) : Z := ParseInterval (RefreshInterval f).

Definition WatcherOptions {S} (f : SourceFlags) : list (ConfigWatcher S -> ConfigWatcher S) :=
  if HashPolicy f ==s "pinned" then
    WithHashPolicy HashPinned :: (if PinnedHash f !=s "" then [WithPinnedHash (PinnedHash f)] else [])
  else if (HashPolicy f ==s "tofu") || (HashPolicy f ==s "") then [WithHashPolicy HashTOFU]
  else [].

(** ** load.go *)

Inductive load_error (E PE : Type) := BuildFailed (e : BuilderErr) | FetchFailed (e : E) | EmptyData | ParseFailed (e : PE).
Arguments BuildFailed {E PE}. Arguments FetchFailed {E PE}. Arguments EmptyData {E PE}. Arguments ParseFailed {E PE}.

(** [fetch] is the first [Fetch] of the source that was built. *)
Definition LoadInitial {T E PE} (s3_new : S3Config -> bool) (fetch : Built -> result E FetchedConfig)
    (parse : string -> result PE T) (params : SourceParams) : result (load_error E PE) T :=
  match BuildSource s3_new 2 params with
  | Err e => Err (BuildFailed e)
  | Ok src =>
      match fetch src with
      | Err e => Err (FetchFailed e)
      | Ok fc => match Data fc with None => Err EmptyData | Some d => map_err ParseFailed (parse d) end
      end
  end.

(** ** watcher.go *)

(** The apply function of the validating watcher: it changes nothing. *)
Definition validating {A VE} (validate : string -> result VE unit) (a : A) (data : string) : result VE bool * A :=
  (match validate data with Ok _ => Ok false | Err e => Err e end, a).

Definition NewValidatingWatcher {S} (source : S) (opts : list (ConfigWatcher S -> ConfigWatcher S)) : ConfigWatcher S :=
  NewConfigWatcher source opts.

(** ** What the flags mean for the watcher *)

(** The policy of a watcher made from the flags: pinned only if asked for by that
    name, trust on first use otherwise, misspelt policies included; never off. *)
Lemma WatcherOptions_policy {S} (source : S) f :
  hashPolicy (NewValidatingWatcher source (WatcherOptions f)) = (if HashPolicy f ==s "pinned" then HashPinned else HashTOFU) /\
  pinnedHash (NewValidatingWatcher source (WatcherOptions f)) = (if HashPolicy f ==s "pinned" then PinnedHash f else "").
Proof.
  unfold NewValidatingWatcher, NewConfigWatcher, WatcherOptions. destruct (HashPolicy f ==s "pinned"); cbn.
  - destruct (eqb_cases (PinnedHash f) "") as [[-> ->]|[-> ?]]; done.
  - by destruct (_ || _).
Qed.

Section watch.
Context {W S E A VE : Type} {src : ConfigSource W S E}.
Context (validate : string -> result VE unit).

(** A validating watch leaves the service alone, whatever is fetched. *)
Lemma validating_watch_inert (ticks : list W) (st : ConfigWatcher S) (a : A) (tr : list (event E VE)) : (RunPeriodicWatch (validating validate) ticks st a tr).2 = a.
Proof.
  revert st tr; induction ticks as [|w ticks IH]; intros st tr; cbn [RunPeriodicWatch]; [done|].
  destruct (Apply (validating validate) w st a) as [[ev st'] a'] eqn:Ha. assert (a' = a) as ->; [|apply IH].
  unfold Apply, validating in Ha. repeat (case_match; simplify_eq/=; try done).
Qed.

(** With the policy flag set to pinned, through every tick of the watch and
    whatever the source delivers, only documents with the SHA-256 given in the
    flag are ever validated, none at all when the flag is empty; and the watch
    never changes the service. *)
Theorem pinned_flag_enforced f (source : S) (a : A) (ticks : list W) (tr : list (event E VE)) st a' :
  HashPolicy f = "pinned" ->
  RunPeriodicWatch (validating validate) ticks (NewValidatingWatcher source (WatcherOptions f)) a [] = (tr, st, a') ->
  Forall (fun d => ComputeSHA256 d = PinnedHash f) (calls tr) /\ (PinnedHash f = "" -> calls tr = []) /\ a' = a.
Proof.
  intros Hp Hr. destruct (WatcherOptions_policy source f) as [H1 H2]. rewrite Hp in H1, H2. cbn in H1, H2.
  pose proof (pinned_only _ _ _ _ _ _ _ H1 Hr) as Hall. rewrite H2 in Hall. split_and!; [done| |].
  - intros He. rewrite He in Hall. destruct (calls tr) as [|d l]; [done|]. apply Forall_cons in Hall as [Hd _].
    by apply ComputeSHA256_nonempty in Hd.
  - pose proof (validating_watch_inert ticks (NewValidatingWatcher source (WatcherOptions f)) a []) as Hi. by rewrite Hr in Hi.
Qed.
End watch.

(** ** Examples *)
Module Demo.
Definition flags : SourceFlags :=
  RegisterFlags [("config-hash-policy", "pinned"); ("config-pinned-hash", ComputeSHA256 "x"); ("config-http-bearer", "t");
                 ("config-http-header", " X-Env = prod=1 ,junk, Authorization=Basic b")]
    (NewSourceFlags (fun k => if k ==s "CONFIG_SOURCE" then "http" else "")).

(** An explicit Authorization header replaces the bearer token. *)
Example headers : parseHTTPHeaders flags = {["Authorization" := "Basic b"; "X-Env" := "prod=1"]}.
Proof. vm_compute. reflexivity. Qed.

(** A source that delivers whatever the world holds. *)
Instance src : ConfigSource string unit unit := fun w s => (Ok (MkFetched (Some w) ""), s).
Definition accept (_ : string) : result unit unit := Ok tt.
Definition watch := RunPeriodicWatch (src := src) (validating (A := Z) accept) ["y"; "x"; "z"] (NewValidatingWatcher tt (WatcherOptions flags)) 7 [].

Lemma pinned_flag_enforced_witness :
  calls watch.1.1 = ["x"] /\ (PinnedHash flags = "" -> calls watch.1.1 = []) /\ watch.2 = 7.
Proof.
  split; [vm_compute; reflexivity|].
  refine (proj2 (pinned_flag_enforced (src := src) accept flags tt 7 ["y"; "x"; "z"] watch.1.1 watch.1.2 watch.2 _ _)); vm_compute; reflexivity.
Defined.
End Demo.
