(* ===== verification/Middleware.v ===== *)
(** * HTTP middleware (src/httpmiddleware)

    A handler turns a request into the calls it makes on the response writer and
    the log, in order, the request as it leaves it (the request is shared, and a
    handler may change it) and returns or panics.  [client_sees] is what
    [net/http] makes of the calls: the first final status goes out with the
    headers as they are then, an informational status changes nothing, output or
    a flush without a status sends 200, and nothing is sent once the connection
    is hijacked.  Handlers use the writer they are given, not what [Unwrap]
    returns.  [http.TimeoutHandler] and the random source are arguments. *)
From S2P Require Import Prelude GoStrings Sha256.
Local Open Scope string_scope.
Local Open Scope Z_scope.

(** Header names are canonical; [header] holds the first value. *)
Record Request := MkRequest { Method : string; Path : string; header : gmap string string; bodyLimit : option Z }.

Definition Get (r : Request) (k : string) : string := default "" (header r !! k).
Definition SetHeader (k v : string) (r : Request) : Request := MkRequest (Method r) (Path r) (<[k := v]> (header r)) (bodyLimit r).

Inductive effect :=
| Set_ (k v : string) | Add (k v : string) | Del (k : string)
| WriteHeader (code : Z) | Write (b : string) | Flush | Hijack | ReadFrom (src : string)
| LogRequest (method path : string) (status : Z) (id : string) | LogPanic (method path id : string).

Inductive ending := Returned | Panicked.

Abbreviation Handler := (Request -> list effect * Request * ending).
Abbreviation Middleware := (Handler -> Handler).

Definition effects_of (x : list effect * Request * ending) : list effect := fst (fst x).

(** ** What the client sees *)

Record Reply := MkReply {
  headers : gmap string (list string); sent : option (Z * gmap string (list string)); hijacked : bool; body : string }.

Definition informational (code : Z) : bool := (100 <=? code) && (code <? 200) && negb (code =? 101).
(** [net/http] panics on other codes. *)
Definition valid_code (code : Z) : bool := (100 <=? code) && (code <=? 999).

Definition send (code : Z) (r : Reply) : Reply :=
  match sent r with
  | Some _ => r
  | None =>
      if hijacked r || informational code || negb (valid_code code) then r
      else MkReply (headers r) (Some (code, headers r)) (hijacked r) (body r)
  end.

Definition with_headers (h : gmap string (list string)) (r : Reply) : Reply := MkReply h (sent r) (hijacked r) (body r).
Definition output (b : string) (r : Reply) : Reply :=
  let r := send 200 r in if hijacked r then r else MkReply (headers r) (sent r) (hijacked r) (body r +:+ b).

(** A copy from an empty source writes nothing. *)
Definition apply_effect (r : Reply) (e : effect) : Reply :=
  match e with
  | Set_ k v => with_headers (<[k := [v]]> (headers r)) r
  | Add k v => with_headers (<[k := (default [] (headers r !! k) ++ [v])%list]> (headers r)) r
  | Del k => with_headers (delete k (headers r)) r
  | WriteHeader code => send code r
  | Write b => output b r
  | ReadFrom src => if src ==s "" then r else output src r
  | Flush => send 200 r
  | Hijack => MkReply (headers r) (sent r) true (body r)
  | LogRequest _ _ _ _ | LogPanic _ _ _ => r
  end.

Definition no_reply : Reply := MkReply ∅ None false "".
Definition client_sees (effs : list effect) : Reply := fold_left apply_effect effs no_reply.

(** Status and headers; a handler that returns without writing sends 200, and
    after a hijack without a status the server sends nothing. *)
Definition client_reply (effs : list effect) : option (Z * gmap string (list string)) :=
  let r := client_sees effs in
  match sent r with
  | Some x => Some x
  | None => if hijacked r then None else Some (200, headers r)
  end.

(** ** middleware.go *)

Definition headerRequestID : string := "X-Request-Id".

Definition Chain (mws : list Middleware) : Middleware := fun next => fold_left (fun next mw => mw next) (rev mws) next.

(** generateID: 16 random bytes in hexadecimal. *)
Definition generateID (rnd : list N) : string := Sha256.hex rnd.

(** [fresh] is what generateID returns for this request. *)
Definition RequestID (fresh : string) : Middleware := fun next r =>
  let id0 := Get r headerRequestID in
  let '(id, r) := if id0 ==s "" then (fresh, SetHeader headerRequestID fresh r) else (id0, r) in
  let '(effs, r, e) := next r in (Set_ headerRequestID id :: effs, r, e).

(** *** [responseRecorder]

    Each method gives the recorder it leaves and the calls on the underlying
    writer, which has the optional interfaces [caps]. *)

Record responseRecorder := MkRecorder { statusCode : Z; written : bool }.
Definition wrapRecorder : responseRecorder := MkRecorder 200 false.

Record Caps := MkCaps { isFlusher : bool; isHijacker : bool; isReaderFrom : bool }.

Definition rec_WriteHeader (code : Z) (rec : responseRecorder) : responseRecorder * list effect :=
  (if written rec then rec else MkRecorder code true, [WriteHeader code]).

Definition rec_Write (b : string) (rec : responseRecorder) : responseRecorder * list effect :=
  (MkRecorder (statusCode rec) true, [Write b]).

Definition rec_Flush (caps : Caps) (rec : responseRecorder) : responseRecorder * list effect :=
  (rec, if isFlusher caps then [Flush] else []).

(** No call means [http.ErrNotSupported]. *)
Definition rec_Hijack (caps : Caps) (rec : responseRecorder) : responseRecorder * list effect :=
  (rec, if isHijacker caps then [Hijack] else []).

(** Without [io.ReaderFrom], [io.Copy] writes the data, if there is any. *)
Definition rec_ReadFrom (caps : Caps) (src : string) (rec : responseRecorder) : responseRecorder * list effect :=
  (MkRecorder (statusCode rec) true,
   if isReaderFrom caps then [ReadFrom src] else if src ==s "" then [] else [Write src]).

(** The header map and the log are not the recorder's. *)
Definition record (caps : Caps) (rec : responseRecorder) (e : effect) : responseRecorder * list effect :=
  match e with
  | WriteHeader code => rec_WriteHeader code rec
  | Write b => rec_Write b rec
  | Flush => rec_Flush caps rec
  | Hijack => rec_Hijack caps rec
  | ReadFrom src => rec_ReadFrom caps src rec
  | _ => (rec, [e])
  end.

Fixpoint records (caps : Caps) (rec : responseRecorder) (effs : list effect) : responseRecorder * list effect :=
  match effs with
  | [] => (rec, [])
  | e :: effs => let '(rec, l) := record caps rec e in let '(rec, l') := records caps rec effs in (rec, (l ++ l')%list)
  end.

(** [caps] are those of the writer the middleware is given. *)
Definition AccessLog (caps : Caps) : Middleware := fun next r =>
  let '(effs, r, e) := next r in
  let '(rec, out) := records caps wrapRecorder effs in
  match e with
  | Returned => ((out ++ [LogRequest (Method r) (Path r) (statusCode rec) (Get r headerRequestID)])%list, r, Returned)
  | Panicked => (out, r, Panicked)
  end.

(** [http.Error] with status 500. *)
Definition http_Error500 : list effect :=
  [Del "Content-Length"; Set_ "Content-Type" "text/plain; charset=utf-8"; Set_ "X-Content-Type-Options" "nosniff";
   WriteHeader 500; Write ("Internal Server Error" +:+ String "010" "")].

Definition Recover : Middleware := fun next r =>
  let '(effs, r, e) := next r in
  match e with
  | Returned => (effs, r, Returned)
  | Panicked => ((effs ++ LogPanic (Method r) (Path r) (Get r headerRequestID) :: http_Error500)%list, r, Returned)
  end.

Definition Timeout (TimeoutHandler : Handler -> Z -> string -> Handler) (d : Z) : Middleware :=
  fun next => TimeoutHandler next d "Service Unavailable".

(** [http.MaxBytesReader] on the request's body; nested limits both hold. *)
Definition MaxBodySize (n : Z) : Middleware := fun next r =>
  next (MkRequest (Method r) (Path r) (header r) (Some (match bodyLimit r with Some m => Z.min m n | None => n end))).

(** ** cors.go *)

Record CORSConfig := MkCORS {
  AllowedOrigins : list string; AllowedMethods : list string; AllowedHeaders : list string; ExposedHeaders : list string;
  AllowCredentials : bool; MaxAge : Z }.

(** The first occurrence of each name, ignoring case. *)
Definition dedupHeaders (hs : list string) : list string :=
  fst (fold_left (fun acc h => let '(out, seen) := acc in
                               if existsb (String.eqb (ToLower h)) seen then (out, seen)
                               else ((out ++ [h])%list, ToLower h :: seen)) hs ([], [])).

Definition or_list (l d : list string) : list string := match l with [] => d | _ => l end.
Definition Join (l : list string) : string := String.concat ", " l.

Definition allowed (c : CORSConfig) (origin : string) : bool :=
  existsb (String.eqb "*") (AllowedOrigins c) || existsb (String.eqb origin) (AllowedOrigins c).

(** The headers of an allowed request. *)
Definition cors_headers (c : CORSConfig) (origin : string) : list effect :=
  ((if existsb (String.eqb "*") (AllowedOrigins c) && negb (AllowCredentials c)
    then [Set_ "Access-Control-Allow-Origin" "*"]
    else [Set_ "Access-Control-Allow-Origin" origin; Add "Vary" "Origin"]) ++
   (if AllowCredentials c then [Set_ "Access-Control-Allow-Credentials" "true"] else []) ++
   (let exposed := Join (dedupHeaders (ExposedHeaders c)) in
    if exposed !=s "" then [Set_ "Access-Control-Expose-Headers" exposed] else []))%list.

Definition CORS (c : CORSConfig) : Middleware := fun next r =>
  let methods := Join (or_list (AllowedMethods c) ["GET"; "POST"; "PUT"; "DELETE"; "OPTIONS"; "PATCH"]) in
  let hs := Join (or_list (AllowedHeaders c) ["Authorization"; "Content-Type"; "Accept"; "X-Request-ID"]) in
  let origin := Get r "Origin" in
  if (origin ==s "") || negb (allowed c origin) then next r
  else if Method r ==s "OPTIONS" then
    ((cors_headers c origin ++
      [Set_ "Access-Control-Allow-Methods" methods; Set_ "Access-Control-Allow-Headers" hs] ++
      (if 0 <? MaxAge c then [Set_ "Access-Control-Max-Age" (FormatInt (MaxAge c))] else []) ++ [WriteHeader 204])%list, r, Returned)
  else let '(effs, r, e) := next r in ((cors_headers c origin ++ effs)%list, r, e).

(** ** Composition *)

Lemma Chain_cons mw mws next : Chain (mw :: mws) next = mw (Chain mws next).
Proof. unfold Chain. cbn [rev]. by rewrite fold_left_app. Qed.

Lemma Chain_app mws mws' next : Chain (mws ++ mws') next = Chain mws (Chain mws' next).
Proof. unfold Chain. by rewrite rev_app_distr, fold_left_app. Qed.

(** ** The access log *)

Definition final_code (code : Z) : bool := valid_code code && negb (informational code).

(** The response begins with a final status or with output: there is no
    informational or invalid status, no copy from an empty source, and no flush
    or hijack that the writer supports before it. *)
Fixpoint orderly (caps : Caps) (effs : list effect) : bool :=
  match effs with
  | [] => true
  | WriteHeader code :: _ => final_code code
  | Write _ :: _ => true
  | ReadFrom src :: _ => src !=s ""
  | Flush :: effs => negb (isFlusher caps) && orderly caps effs
  | Hijack :: effs => negb (isHijacker caps) && orderly caps effs
  | _ :: effs => orderly caps effs
  end.

Lemma orderly_app caps a b : orderly caps a = true -> orderly caps b = true -> orderly caps (a ++ b) = true.
Proof.
  intros Ha Hb. induction a as [|e a IH]; [done|]. destruct e; cbn in *; auto;
    apply andb_prop in Ha as [-> Ha]; auto.
Qed.

Lemma send_sent code r x : sent r = Some x -> send code r = r.
Proof. unfold send. by intros ->. Qed.

(** Once a status is sent, it stays and so does the recorder's. *)
Lemma record_sent caps rec r e x :
  sent r = Some x -> written rec = true ->
  let '(rec', l) := record caps rec e in
  written rec' = true /\ statusCode rec' = statusCode rec /\ sent (fold_left apply_effect l r) = Some x.
Proof.
  intros Hs Hw. pose proof (send_sent) as Hk.
  assert (forall b, sent (output b r) = Some x) as Ho.
  { intros b. unfold output. rewrite (Hk _ _ _ Hs). by destruct (hijacked r). }
  destruct e; cbn; rewrite ?Hw, ?(Hk _ _ _ Hs); try done.
  - destruct (isFlusher caps); cbn; by rewrite ?(Hk _ _ _ Hs).
  - by destruct (isHijacker caps).
  - destruct (isReaderFrom caps); cbn; destruct (src ==s ""); cbn; auto.
Qed.

Lemma records_sent caps effs rec r x :
  sent r = Some x -> written rec = true ->
  let '(rec', l) := records caps rec effs in
  statusCode rec' = statusCode rec /\ sent (fold_left apply_effect l r) = Some x.
Proof.
  revert rec r; induction effs as [|e effs IH]; intros rec r Hs Hw; [done|]. cbn [records].
  pose proof (record_sent caps rec r e x Hs Hw) as H1. destruct (record caps rec e) as [rec1 l1].
  destruct H1 as (Hw1 & Hc1 & Hs1). specialize (IH rec1 _ Hs1 Hw1). destruct (records caps rec1 effs) as [rec2 l2].
  rewrite fold_left_app, <-Hc1. done.
Qed.

Lemma output_fresh b r : sent r = None -> hijacked r = false -> sent (output b r) = Some (200, headers r).
Proof. intros Hs Hh. unfold output, send. rewrite Hs, Hh. cbn. done. Qed.

Lemma records_agree caps effs r :
  orderly caps effs = true -> sent r = None -> hijacked r = false ->
  let '(rec, l) := records caps wrapRecorder effs in
  let r' := fold_left apply_effect l r in
  match sent r' with
  | Some (code, _) => statusCode rec = code
  | None => rec = wrapRecorder /\ hijacked r' = false
  end.
Proof.
  revert r; induction effs as [|e effs IH]; intros r Ho Hs Hh; [by cbn; rewrite Hs|]. cbn [records].
  assert (forall rec l x, sent (fold_left apply_effect l r) = Some x -> written rec = true -> statusCode rec = x.1 ->
    let '(rec', l') := (let '(rec0, l') := records caps rec effs in (rec0, (l ++ l')%list)) in
    let r' := fold_left apply_effect l' r in
    match sent r' with Some (code, _) => statusCode rec' = code | None => rec' = wrapRecorder /\ hijacked r' = false end) as Hdone.
  { intros rec l x Hx Hw Hc. pose proof (records_sent caps effs rec _ x Hx Hw) as Hr.
    destruct (records caps rec effs) as [rec' l']. cbv zeta. rewrite fold_left_app. destruct Hr as [Hr ->]. destruct x as [c h]. by rewrite Hr. }
  assert (forall r1, sent r1 = None -> hijacked r1 = false -> forall l, fold_left apply_effect l r = r1 -> orderly caps effs = true ->
    let '(rec', l') := (let '(rec0, l') := records caps wrapRecorder effs in (rec0, (l ++ l')%list)) in
    let r' := fold_left apply_effect l' r in
    match sent r' with Some (code, _) => statusCode rec' = code | None => rec' = wrapRecorder /\ hijacked r' = false end) as Hgo.
  { intros r1 Hs1 Hh1 l Hl Ho'. specialize (IH r1 Ho' Hs1 Hh1). destruct (records caps wrapRecorder effs) as [rec' l'].
    cbv zeta. by rewrite fold_left_app, Hl. }
  destruct e as [k v|k v|k|code|b| | |src|m p s i|m p i]; cbn [record rec_WriteHeader rec_Write rec_Flush rec_Hijack rec_ReadFrom orderly] in *;
    try (by eapply Hgo; [..|reflexivity|]).
  - apply (Hdone _ _ (code, headers r)); [|done|done]. cbn. unfold send, final_code in *. rewrite Hs, Hh.
    apply andb_prop in Ho as [-> ->%negb_true_iff]. done.
  - apply (Hdone _ _ (200, headers r)); [|done|done]. by apply output_fresh.
  - apply andb_prop in Ho as [->%negb_true_iff Ho]. by eapply Hgo; [..|reflexivity|].
  - apply andb_prop in Ho as [->%negb_true_iff Ho]. by eapply Hgo; [..|reflexivity|].
  - apply (Hdone _ _ (200, headers r)); [|done|done]. apply negb_true_iff in Ho. rewrite Ho.
    destruct (isReaderFrom caps); cbn; rewrite ?Ho; by apply output_fresh.
Qed.

Lemma records_app caps rec a b :
  records caps rec (a ++ b) =
  let '(rec1, l1) := records caps rec a in let '(rec2, l2) := records caps rec1 b in (rec2, (l1 ++ l2)%list).
Proof.
  revert rec; induction a as [|e a IH]; intros rec; cbn [app records]; [by destruct (records caps rec b)|].
  destruct (record caps rec e) as [rec1 l1]. rewrite IH. destruct (records caps rec1 a) as [rec2 l2].
  destruct (records caps rec2 b) as [rec3 l3]. by rewrite app_assoc.
Qed.

(** A handler that panics before anything is sent: the recorder gets the 500. *)
Lemma panic_recorded caps r effs rec out :
  orderly caps effs = true -> sent (client_sees (snd (records caps wrapRecorder effs))) = None ->
  records caps wrapRecorder (effs ++ LogPanic (Method r) (Path r) (Get r headerRequestID) :: http_Error500) = (rec, out) ->
  statusCode rec = 500.
Proof.
  intros Ho Hs. rewrite records_app. pose proof (records_agree caps effs no_reply Ho eq_refl eq_refl) as Ha.
  unfold client_sees in Hs. destruct (records caps wrapRecorder effs) as [rec1 l1]. cbn [snd] in Hs. cbv zeta in Ha.
  rewrite Hs in Ha. destruct Ha as [-> _]. by intros [= <- _].
Qed.

(** The requests that are logged: method, path, status and identifier. *)
Definition logged (effs : list effect) : list (string * string * Z * string) :=
  flat_map (fun e => match e with LogRequest m p s i => [(m, p, s, i)] | _ => [] end) effs.

Lemma logged_app a b : logged (a ++ b) = (logged a ++ logged b)%list.
Proof. apply flat_map_app. Qed.

Lemma logged_records caps rec effs : logged (snd (records caps rec effs)) = logged effs.
Proof.
  revert rec; induction effs as [|e effs IH]; intros rec; [done|]. cbn [records].
  destruct (record caps rec e) as [rec1 l] eqn:Hr. specialize (IH rec1). destruct (records caps rec1 effs) as [rec2 l2].
  cbn [snd] in *. rewrite logged_app, IH. destruct e; cbn in *; injection Hr as _ <-; try done.
  - by destruct (isFlusher caps).
  - by destruct (isHijacker caps).
  - by destruct (isReaderFrom caps), (src ==s "").
Qed.

(** *** The identifier *)

(** The header [k] of the response is left alone. *)
Definition leaves (k : string) (e : effect) : bool :=
  match e with Set_ k' _ | Add k' _ | Del k' => k' !=s k | _ => true end.

Lemma leaves_records k caps rec effs : forallb (leaves k) effs = true -> forallb (leaves k) (snd (records caps rec effs)) = true.
Proof.
  revert rec; induction effs as [|e effs IH]; intros rec; [done|]. cbn [forallb records]. intros [He Hf]%andb_prop.
  destruct (record caps rec e) as [rec1 l] eqn:Hr. specialize (IH rec1 Hf). destruct (records caps rec1 effs) as [rec2 l2].
  cbn [snd] in *. rewrite forallb_app, IH, andb_true_r. destruct e; cbn in *; injection Hr as _ <-; cbn; rewrite ?He; try done.
  - by destruct (isFlusher caps).
  - by destruct (isHijacker caps).
  - by destruct (isReaderFrom caps), (src ==s "").
Qed.

(** The header has this value, in the map and in what was sent. *)
Definition has_header (k v : string) (r : Reply) : Prop :=
  headers r !! k = Some [v] /\ match sent r with Some (_, h) => h !! k = Some [v] | None => True end.

Lemma leaves_send k v code r : has_header k v r -> has_header k v (send code r).
Proof.
  intros [H1 H2]. unfold send. destruct (sent r) as [[c h]|] eqn:Hs; [by split; [|rewrite Hs]|].
  destruct (hijacked r || informational code || negb (valid_code code)); split; cbn; rewrite ?Hs; done.
Qed.

Lemma leaves_output k v b r : has_header k v r -> has_header k v (output b r).
Proof. intros Hr. unfold output. destruct (leaves_send k v 200 r Hr) as [H1 H2]. destruct (hijacked (send 200 r)); by split. Qed.

Lemma leaves_headers k v h r : h !! k = headers r !! k -> has_header k v r -> has_header k v (with_headers h r).
Proof. intros Hh [H1 H2]. by split; [cbn; rewrite Hh|]. Qed.

Lemma leaves_keeps k v effs r : forallb (leaves k) effs = true -> has_header k v r -> has_header k v (fold_left apply_effect effs r).
Proof.
  revert r; induction effs as [|e effs IH]; intros r; [done|]. cbn [forallb fold_left]. intros [He Hf]%andb_prop Hr. apply IH; [done|].
  assert (forall k', (k' !=s k) = true -> k' <> k) as Hne by (intros k' H%negb_true_iff; by apply String.eqb_neq).
  destruct e; cbn in *; auto using leaves_send, leaves_output.
  - apply leaves_headers; [apply lookup_insert_ne|]; auto.
  - apply leaves_headers; [apply lookup_insert_ne|]; auto.
  - apply leaves_headers; [apply lookup_delete_ne|]; auto.
  - destruct (src ==s ""); auto using leaves_output.
Qed.

(** What the stack makes of the request it hands on. *)
Definition with_id (fresh : string) (r : Request) : Request :=
  if Get r headerRequestID ==s "" then SetHeader headerRequestID fresh r else r.

Lemma with_id_get fresh r :
  Get (with_id fresh r) headerRequestID = (if Get r headerRequestID ==s "" then fresh else Get r headerRequestID).
Proof. unfold with_id. destruct (_ ==s _) eqn:E; [|done]. unfold Get, SetHeader. cbn [header]. by rewrite lookup_insert_eq. Qed.

(** What [Recover] hands to the recorder. *)
Definition recovered (r : Request) (effs : list effect) (e : ending) : list effect :=
  match e with
  | Returned => effs
  | Panicked => (effs ++ LogPanic (Method r) (Path r) (Get r headerRequestID) :: http_Error500)%list
  end.

Lemma stack_unfold caps fresh (h : Handler) r :
  Chain [RequestID fresh; AccessLog caps; Recover] h r =
  let r0 := with_id fresh r in
  let '(effs, r1, e) := h r0 in
  let '(rec, out) := records caps wrapRecorder (recovered r1 effs e) in
  (Set_ headerRequestID (Get r0 headerRequestID) ::
     out ++ [LogRequest (Method r1) (Path r1) (statusCode rec) (Get r1 headerRequestID)], r1, Returned)%list.
Proof.
  rewrite !Chain_cons. unfold Chain. cbn [rev fold_left]. unfold RequestID.
  replace (if Get r headerRequestID ==s "" then (fresh, SetHeader headerRequestID fresh r) else (Get r headerRequestID, r))
    with (Get (with_id fresh r) headerRequestID, with_id fresh r)
    by (rewrite with_id_get; unfold with_id; by destruct (_ ==s _)).
  cbv zeta. unfold AccessLog, Recover. destruct (h (with_id fresh r)) as [[effs r1] e].
  destruct e; cbn [recovered]; by destruct (records caps wrapRecorder _).
Qed.

(** C33. Around any handler, panicking or not, whose response begins with a final
    status or output (not with a flush or hijack that the writer supports, an
    informational or invalid status, or a copy from an empty source) and that logs
    no request of its own, the standard stack (request identifier, access log,
    panic recovery) always returns and logs the request once, with the method,
    path and identifier that the handler leaves in the request and the status
    the client gets.  If the handler does not touch the X-Request-Id of the
    response, the client gets the inbound identifier, or the fresh one if there
    is none, and that is the one logged if the handler leaves the request's
    header alone too.  A panic before anything was sent gives 500. *)
Theorem stack_logs_truth caps fresh (h : Handler) r :
  orderly caps (effects_of (h (with_id fresh r))) = true -> logged (effects_of (h (with_id fresh r))) = [] ->
  let id := if Get r headerRequestID ==s "" then fresh else Get r headerRequestID in
  let '(heffs, r1, he) := h (with_id fresh r) in
  let '(effs, r', e) := Chain [RequestID fresh; AccessLog caps; Recover] h r in
  e = Returned /\ r' = r1 /\
  exists status hdrs, client_reply effs = Some (status, hdrs) /\
    logged effs = [(Method r1, Path r1, status, Get r1 headerRequestID)] /\
    (forallb (leaves headerRequestID) heffs = true -> hdrs !! headerRequestID = Some [id]) /\
    (header r1 = header (with_id fresh r) -> Get r1 headerRequestID = id) /\
    (he = Panicked -> sent (client_sees (snd (records caps wrapRecorder heffs))) = None -> status = 500).
Proof.
  intros Hf Hl. rewrite stack_unfold. cbv zeta. rewrite <-with_id_get. destruct (h (with_id fresh r)) as [[heffs r1] he].
  cbn [effects_of fst] in *. set (id := Get (with_id fresh r) headerRequestID).
  assert (orderly caps (recovered r1 heffs he) = true) as Hor by (destruct he; [done|by apply orderly_app]).
  assert (logged (recovered r1 heffs he) = []) as Hlo by (destruct he; [done|]; cbn; by rewrite logged_app, Hl).
  set (start := apply_effect no_reply (Set_ headerRequestID id)).
  pose proof (records_agree caps _ start Hor eq_refl eq_refl) as Ha.
  pose proof (logged_records caps wrapRecorder (recovered r1 heffs he)) as Hlr. rewrite Hlo in Hlr.
  pose proof (leaves_records headerRequestID caps wrapRecorder (recovered r1 heffs he)) as Hle.
  destruct (records caps wrapRecorder (recovered r1 heffs he)) as [rec out] eqn:Hrec. cbn [snd] in *.
  split; [done|]. split; [done|]. unfold client_reply, client_sees. cbn [fold_left]. fold start. rewrite fold_left_app. cbn [fold_left apply_effect].
  set (rep := fold_left apply_effect out start) in *.
  exists (statusCode rec), (match sent rep with Some (_, h) => h | None => headers rep end).
  split; [destruct (sent rep) as [[c hd]|]; [by rewrite Ha|by destruct Ha as [-> ->]]|].
  split; [cbn [logged flat_map app]; fold (logged (out ++ [LogRequest (Method r1) (Path r1) (statusCode rec) (Get r1 headerRequestID)])); by rewrite logged_app, Hlr|].
  split; [|split].
  - intros Hk. assert (has_header headerRequestID id rep) as [H1 H2].
    { apply leaves_keeps; [apply Hle; destruct he; [done|]; cbn; by rewrite forallb_app, Hk|]. split; [|done]. apply lookup_insert_eq. }
    by destruct (sent rep) as [[c hd]|].
  - intros Hh. unfold id, Get. by rewrite Hh.
  - intros -> Hs. exact (panic_recorded caps r1 heffs rec out Hf Hs Hrec).
Qed.

(** *** Responses that begin otherwise *)

(** What the stack logs and what the client gets, around a handler that makes
    these calls. *)
Definition logged_and_sent (caps : Caps) (effs : list effect) (e : ending) : list Z * option Z :=
  let out := effects_of (Chain [RequestID "id"; AccessLog caps; Recover] (fun r => (effs, r, e)) (MkRequest "GET" "/" ∅ None)) in
  (map (fun x => snd (fst x)) (logged out), fst <$> client_reply out).

(** Early hints are logged instead of the status. *)
Lemma early_hints_logged : logged_and_sent (MkCaps true true true) [WriteHeader 103; WriteHeader 404] Returned = ([103], Some 404).
Proof. done. Qed.

(** A flush sends 200, but the recorder does not notice: the status of a later
    panic is logged, which the client never gets. *)
Lemma flush_not_recorded : logged_and_sent (MkCaps true true true) [Flush] Panicked = ([500], Some 200).
Proof. done. Qed.

(** A copy from an empty source sends nothing, but the recorder takes the
    response for written. *)
Lemma empty_copy_recorded : logged_and_sent (MkCaps true true true) [ReadFrom ""; WriteHeader 404] Returned = ([200], Some 404).
Proof. done. Qed.

(** A hijacked connection is logged with 200; the server sends no status. *)
Lemma hijack_logged : logged_and_sent (MkCaps true true true) [Hijack] Returned = ([200], None).
Proof. done. Qed.

(** ** CORS *)

(** The origins a response invites. *)
Definition invites (effs : list effect) : list string :=
  flat_map (fun e => match e with Set_ k v => if k ==s "Access-Control-Allow-Origin" then [v] else [] | _ => [] end) effs.
Definition offers_credentials (effs : list effect) : bool :=
  existsb (fun e => match e with Set_ k _ => k ==s "Access-Control-Allow-Credentials" | _ => false end) effs.

(** Around a handler that sets no CORS headers: only an origin that is on the
    list, or any if the list has the wildcard, is invited; the wildcard itself
    is never sent with credentials; other origins get nothing; and a preflight
    never reaches the handler. *)
Lemma CORS_sound c (next : Handler) r :
  (forall r, invites (effects_of (next r)) = [] /\ offers_credentials (effects_of (next r)) = false) ->
  let effs := (effects_of (CORS c next r)) in
  (forall v, v ∈ invites effs ->
     (v = Get r "Origin" /\ (v ∈ AllowedOrigins c \/ "*" ∈ AllowedOrigins c)) \/
     (v = "*" /\ "*" ∈ AllowedOrigins c /\ offers_credentials effs = false)) /\
  (allowed c (Get r "Origin") = false -> CORS c next r = next r).
Proof.
  intros Hn. cbn. split; [|unfold CORS; intros ->; by rewrite orb_true_r].
  intros v. unfold CORS. destruct (Get r "Origin" ==s "") eqn:E0; [cbn; rewrite (proj1 (Hn r)); set_solver|].
  destruct (allowed c (Get r "Origin")) eqn:Ha; [|cbn; rewrite (proj1 (Hn r)); set_solver]. cbn [orb negb].
  assert (forall s, existsb (String.eqb s) (AllowedOrigins c) = true <-> s ∈ AllowedOrigins c) as Hin.
  { intros s. rewrite existsb_exists, list_elem_of_In. split; [by intros (x & Hx & ->%String.eqb_eq)|].
    intros Hx. exists s. by rewrite String.eqb_refl. }
  assert (forall effs, (invites effs = [] /\ offers_credentials effs = false) ->
    v ∈ invites (cors_headers c (Get r "Origin") ++ effs) ->
    (v = Get r "Origin" /\ (v ∈ AllowedOrigins c \/ "*" ∈ AllowedOrigins c)) \/
    (v = "*" /\ "*" ∈ AllowedOrigins c /\ offers_credentials (cors_headers c (Get r "Origin") ++ effs) = false)) as H.
  { intros effs [H1 H2]. unfold invites, offers_credentials. rewrite flat_map_app, existsb_app.
    fold (invites effs) (offers_credentials effs). rewrite H1, H2, app_nil_r, orb_false_r. unfold cors_headers.
    unfold allowed in Ha. rewrite orb_true_iff, !Hin in Ha.
    destruct (existsb (String.eqb "*") (AllowedOrigins c)) eqn:Hw, (AllowCredentials c); cbn [andb negb];
      destruct (_ !=s ""); cbn; rewrite list_elem_of_singleton; intros ->; try (apply Hin in Hw); tauto. }
  destruct (Method r ==s "OPTIONS"); cbn [effects_of fst].
  - apply H. by destruct (0 <? MaxAge c).
  - pose proof (Hn r) as Hr. destruct (next r) as [[effs r'] e]. cbn [effects_of fst] in *. by apply H.
Qed.

(** The wildcard with credentials invites every origin, with credentials. *)
Lemma wildcard_with_credentials c next r :
  "*" ∈ AllowedOrigins c -> AllowCredentials c = true -> Get r "Origin" <> "" -> Method r = "OPTIONS" ->
  Set_ "Access-Control-Allow-Origin" (Get r "Origin") ∈ (effects_of (CORS c next r)) /\
  Set_ "Access-Control-Allow-Credentials" "true" ∈ (effects_of (CORS c next r)).
Proof.
  intros Hw Hc Ho Hm. unfold CORS, allowed, cors_headers. apply String.eqb_neq in Ho. rewrite Ho, Hc, Hm.
  assert (existsb (String.eqb "*") (AllowedOrigins c) = true) as ->.
  { apply existsb_exists. exists "*". split; [by apply list_elem_of_In|done]. }
  cbn. split; set_solver.
Qed.

(** ** An example *)
Module Demo.
Definition caps : Caps := MkCaps true true true.
Definition crash : Handler := fun r => ([Set_ "X" "1"], r, Panicked).
Definition req : Request := MkRequest "GET" "/" ∅ None.
Definition stack : list effect * Request * ending := Chain [RequestID "abc"; AccessLog caps; Recover] crash req.

Lemma stack_logs_truth_witness :
  snd stack = Returned /\
  exists hdrs, client_reply (effects_of stack) = Some (500, hdrs) /\ hdrs !! headerRequestID = Some ["abc"] /\
    logged (effects_of stack) = [("GET", "/", 500, "abc")].
Proof.
  destruct (stack_logs_truth caps "abc" crash req) as (_ & _ & st & hdrs & H1 & H2 & H3 & _ & H5);
    [vm_compute; reflexivity|vm_compute; reflexivity|].
  specialize (H5 eq_refl ltac:(vm_compute; reflexivity)). subst st.
  split; [reflexivity|]. exists hdrs. split; [exact H1|]. split; [exact (H3 ltac:(vm_compute; reflexivity))|exact H2].
Defined.
End Demo.

(** generateID gives 32 characters. *)
Lemma generateID_length rnd : length rnd = 16%nat -> String.length (generateID rnd) = 32%nat.
Proof. intros Hr. unfold generateID. rewrite Sha256.hex_length. lia. Qed.
