(* ===== verification/JwtSign.v ===== *)
(** * Signing and key pairs (src/jwtx)

    sign.go and keys.go: key pairs generated in memory or read from PEM files,
    and compact tokens signed with them.  The signing library (golang-jwt) is
    the class [GolangJwt] with its documented behaviour in [GolangJwtLaws];
    PEM, X.509 and key generation are arguments. *)
From S2P Require Import Prelude GoStrings Sha256 HttpResponse TokenMint AuditList GatewayCtx Jwt.
Import Jwt.Std.
Local Open Scope string_scope.
Local Open Scope Z_scope.

(** ** keys.go *)

Section KeyPairs.
Context {PrivateKey : Type}.

Record KeyPair := MkKeyPair {
  kp_Private : PrivateKey; kp_Public : PublicKey; Algorithm : string; KID : string; PublicDER : string }.

(** What [x509.ParsePKCS8PrivateKey] returns: a signer, or a key that is not
    one (an X25519 key). *)
Inductive ParsedKey := IsSigner (k : PrivateKey) | NotSigner.

Inductive KeyErr :=
| UnsupportedAlgorithmName (alg : string) | GenerateFailed | MarshalPublic | MarshalPrivate
| ReadPrivate | ReadPublic | NoPrivateBlock | NoPublicBlock | ParsePrivate | ParsePublic | KeyNotSigner | UnsupportedPublicKey.

Record generateOpts := MkGenerate { rsaBits : Z }.
Definition GenerateOption := generateOpts -> generateOpts.
Definition WithRSABits (bits : Z) : GenerateOption := fun _ => MkGenerate bits.

Definition DetectAlgorithm (pub : PublicKey) : result KeyErr string :=
  match pub with
  | RSAKey _ _ => Ok "RS256"
  | EdKey _ => Ok "EdDSA"
  | _ => Err UnsupportedPublicKey
  end.

(** [crypto.Signer.Public], key generation, X.509, PEM and the file system. *)
Context (Public : PrivateKey -> PublicKey).
Context (ed25519_generate : option (string * PrivateKey)) (rsa_generate : Z -> option PrivateKey).
Context (MarshalPKIX : PublicKey -> option string) (ParsePKIX : string -> option PublicKey).
Context (MarshalPKCS8 : PrivateKey -> option string) (ParsePKCS8 : string -> option ParsedKey).
Context (pem_Encode : string -> string -> string) (pem_Decode : string -> option string).
Context (ReadFile : string -> option string).

Definition from_public (priv : PrivateKey) (pub : PublicKey) (alg : string) : result KeyErr KeyPair :=
  match MarshalPKIX pub with
  | None => Err MarshalPublic
  | Some der => Ok (MkKeyPair priv pub alg (ComputeKID der) der)
  end.

Definition generateEdDSA : result KeyErr KeyPair :=
  match ed25519_generate with
  | None => Err GenerateFailed
  | Some (pub, priv) => from_public priv (EdKey pub) "EdDSA"
  end.

Definition generateRSA (bits : Z) : result KeyErr KeyPair :=
  match rsa_generate bits with
  | None => Err GenerateFailed
  | Some key => from_public key (Public key) "RS256"
  end.

Definition GenerateKeyPair (algorithm : string) (opts : list GenerateOption) : result KeyErr KeyPair :=
  let o := fold_left (fun o fn => fn o) opts (MkGenerate 2048) in
  if algorithm ==s "EdDSA" then generateEdDSA
  else if algorithm ==s "RS256" then generateRSA (rsaBits o)
  else Err (UnsupportedAlgorithmName algorithm).

Definition ParseKeyPairPEM (privPEM pubPEM : string) : result KeyErr KeyPair :=
  match pem_Decode privPEM with
  | None => Err NoPrivateBlock
  | Some privDER =>
      match pem_Decode pubPEM with
      | None => Err NoPublicBlock
      | Some pubDER =>
          match ParsePKCS8 privDER with
          | None => Err ParsePrivate
          | Some privKey =>
              match ParsePKIX pubDER with
              | None => Err ParsePublic
              | Some pubKey =>
                  match privKey with
                  | NotSigner => Err KeyNotSigner
                  | IsSigner signer =>
                      let? alg := DetectAlgorithm pubKey in
                      Ok (MkKeyPair signer pubKey alg (ComputeKID pubDER) pubDER)
                  end
              end
          end
      end
  end.

Definition LoadKeyPairFromPEM (privPath pubPath : string) : result KeyErr KeyPair :=
  match ReadFile privPath with
  | None => Err ReadPrivate
  | Some privData => match ReadFile pubPath with None => Err ReadPublic | Some pubData => ParseKeyPairPEM privData pubData end
  end.

Definition MarshalKeyPairPEM (kp : KeyPair) : result KeyErr (string * string) :=
  match MarshalPKCS8 (kp_Private kp) with
  | None => Err MarshalPrivate
  | Some privDER => Ok (pem_Encode "PRIVATE KEY" privDER, pem_Encode "PUBLIC KEY" (PublicDER kp))
  end.

(** *** What a key pair is *)

(** The metadata fits the public key. *)
Definition keypair_ok (kp : KeyPair) : Prop :=
  DetectAlgorithm (kp_Public kp) = Ok (Algorithm kp) /\ KID kp = ComputeKID (PublicDER kp) /\
  ParsePKIX (PublicDER kp) = Some (kp_Public kp).

Context (PKIX_roundtrip : forall pub der, MarshalPKIX pub = Some der -> ParsePKIX der = Some pub).
Context (generate_ed : forall pub priv, ed25519_generate = Some (pub, priv) -> Public priv = EdKey pub).
Context (generate_rsa : forall bits key, rsa_generate bits = Some key -> exists n e, Public key = RSAKey n e).

(** A generated pair: both halves belong together and its identifier is that
    of the public key. *)
Definition generated (kp : KeyPair) : Prop :=
  keypair_ok kp /\ kp_Public kp = Public (kp_Private kp) /\ MarshalPKIX (kp_Public kp) = Some (PublicDER kp).

Lemma from_public_ok priv pub alg kp :
  DetectAlgorithm pub = Ok alg -> pub = Public priv -> from_public priv pub alg = Ok kp -> generated kp.
Proof.
  unfold from_public. intros Hd Hp. destruct (MarshalPKIX pub) as [der|] eqn:Hm; [|done]. intros [= <-].
  repeat split; cbn; eauto.
Qed.

Lemma GenerateKeyPair_ok algorithm opts kp :
  GenerateKeyPair algorithm opts = Ok kp -> generated kp /\ Algorithm kp = algorithm.
Proof.
  unfold GenerateKeyPair.
  destruct (String.eqb_spec algorithm "EdDSA") as [->|_].
  - unfold generateEdDSA. destruct ed25519_generate as [[pub priv]|] eqn:Hg; [|done]. intros H. split.
    + eapply from_public_ok; [..|exact H]; [done|]. by rewrite (generate_ed pub priv).
    + unfold from_public in H. destruct (MarshalPKIX _); [|done]. by injection H as <-.
  - destruct (String.eqb_spec algorithm "RS256") as [->|_]; [|done].
    unfold generateRSA. destruct (rsa_generate _) as [key|] eqn:Hg; [|done]. intros H.
    destruct (generate_rsa _ _ Hg) as (n & e & Hp). split.
    + eapply from_public_ok; [..|exact H]; [|done]. by rewrite Hp.
    + unfold from_public in H. destruct (MarshalPKIX _); [|done]. by injection H as <-.
Qed.

Lemma ParseKeyPairPEM_ok privPEM pubPEM kp : ParseKeyPairPEM privPEM pubPEM = Ok kp -> keypair_ok kp.
Proof.
  unfold ParseKeyPairPEM. repeat case_match; try done. intros [= <-]. by repeat split.
Qed.

(** Keys survive their files: a key pair that was generated, or read before, is written as two
    PEM texts from which exactly the same pair is read back, with the same
    algorithm and key identifier; so a restart changes neither. *)
Theorem keypair_roundtrip
    (pem_roundtrip : forall ty der, pem_Decode (pem_Encode ty der) = Some der)
    (PKCS8_roundtrip : forall key der, MarshalPKCS8 key = Some der -> ParsePKCS8 der = Some (IsSigner key))
    kp privDER privPath pubPath :
  (exists algorithm opts, GenerateKeyPair algorithm opts = Ok kp) \/ (exists a b, ParseKeyPairPEM a b = Ok kp) ->
  MarshalPKCS8 (kp_Private kp) = Some privDER ->
  exists privPEM pubPEM, MarshalKeyPairPEM kp = Ok (privPEM, pubPEM) /\ ParseKeyPairPEM privPEM pubPEM = Ok kp /\
    (ReadFile privPath = Some privPEM -> ReadFile pubPath = Some pubPEM -> LoadKeyPairFromPEM privPath pubPath = Ok kp).
Proof.
  intros Hfrom Hm.
  assert (keypair_ok kp) as (Ha & Hk & Hp).
  { destruct Hfrom as [(alg & opts & H)|(a & b & H)]; [by apply GenerateKeyPair_ok in H as [[? _] _]|].
    by apply ParseKeyPairPEM_ok in H. }
  set (privPEM := pem_Encode "PRIVATE KEY" privDER). set (pubPEM := pem_Encode "PUBLIC KEY" (PublicDER kp)).
  assert (ParseKeyPairPEM privPEM pubPEM = Ok kp) as Hback.
  { unfold ParseKeyPairPEM, privPEM, pubPEM. rewrite !pem_roundtrip, (PKCS8_roundtrip _ _ Hm), Hp, Ha, <- Hk. by destruct kp. }
  exists privPEM, pubPEM. split; [unfold MarshalKeyPairPEM; by rewrite Hm|]. split; [done|].
  intros H1 H2. unfold LoadKeyPairFromPEM. by rewrite H1, H2.
Qed.

End KeyPairs.
Arguments KeyPair : clear implicits.
Arguments ParsedKey : clear implicits.

(** ** Texts of the compact form *)

Lemma Encode_no_dot s : all_bytes (fun c => negb (Ascii.eqb c ".")) (Base64.EncodeToString s) = true.
Proof.
  unfold Base64.EncodeToString. pose proof (Base64.sextets_small s) as H. induction H as [|v l Hv _ IH]; [done|].
  cbn [map String.string_of_list_ascii all_bytes]. rewrite IH, andb_true_r.
  assert (forallb (fun i => negb (Ascii.eqb (Base64.sextet (N.of_nat i)) ".")) (seq 0 64) = true) as Hall
    by (vm_compute; reflexivity).
  rewrite forallb_forall in Hall. specialize (Hall (N.to_nat v) ltac:(apply in_seq; lia)). by rewrite N2Nat.id in Hall.
Qed.

Lemma split3_compact hb cb sig :
  split3 (Base64.EncodeToString hb +:+ "." +:+ Base64.EncodeToString cb +:+ "." +:+ Base64.EncodeToString sig) =
  Some (Base64.EncodeToString hb, Base64.EncodeToString cb, Base64.EncodeToString sig).
Proof.
  unfold split3. change ("." +:+ ?t) with (String "." t). rewrite SplitN2_app by apply Encode_no_dot. cbn [mbind option_bind].
  change ("." +:+ ?t) with (String "." t). by rewrite SplitN2_app by apply Encode_no_dot.
Qed.

Lemma be_bytes_small k n : Forall (fun b => b < 256)%N (Sha256.be_bytes k n).
Proof.
  revert n; induction k as [|k IH]; intros n; cbn [Sha256.be_bytes]; [constructor|]. apply Forall_app. split; [done|].
  repeat constructor. change 255%N with (N.ones 8). rewrite N.land_ones. by apply N.mod_lt.
Qed.

Lemma hex_digit_ascii n : (n < 16)%N -> byte_in 0 127 (Sha256.hex_digit n) = true.
Proof.
  intros Hn. assert (forallb (fun i => byte_in 0 127 (Sha256.hex_digit (N.of_nat i))) (seq 0 16) = true) as Hall
    by (vm_compute; reflexivity).
  rewrite forallb_forall in Hall. specialize (Hall (N.to_nat n) ltac:(apply in_seq; lia)). by rewrite N2Nat.id in Hall.
Qed.

Lemma hex_ascii l : Forall (fun b => b < 256)%N l -> all_bytes (byte_in 0 127) (Sha256.hex l) = true.
Proof.
  induction 1 as [|b l Hb _ IH]; [done|]. change (Sha256.hex (b :: l)) with
    (String (Sha256.hex_digit (N.shiftr b 4)) (String (Sha256.hex_digit (N.land b 15)) (Sha256.hex l))).
  cbn [all_bytes]. rewrite IH, !hex_digit_ascii; [done| |].
  - change 15%N with (N.ones 4). rewrite N.land_ones. by apply N.mod_lt.
  - rewrite N.shiftr_div_pow2. apply N.Div0.div_lt_upper_bound. lia.
Qed.

(** A key identifier is plain text. *)
Lemma ComputeKID_valid der : ValidString (ComputeKID der) = true.
Proof.
  apply ascii_valid, hex_ascii, Forall_take. unfold Sha256.sum256. destruct (Sha256.blocks _ _ _).
  cbn [flat_map]. repeat (apply Forall_app; split; [apply be_bytes_small|]). constructor.
Qed.

(** ** sign.go *)

Inductive SigningMethod := SigningMethodEdDSA | SigningMethodRS256 | SigningMethodHS256.

(** A claim as the code puts it into the map: text, a list of texts, an int64,
    a [*jwt.NumericDate] (the instant it wraps) or a value of the caller's. *)
Inductive any := Text (s : string) | Texts (l : list string) | Int64 (z : Z) | NumericDate (t : Time) | Other (v : value).
Abbreviation MapClaims := (gmap string any).

Record Token := MkJwt { Method : SigningMethod; t_Header : MapClaims; t_Claims : MapClaims }.

(** The key a method is given: [crypto.Signer] or a secret. *)
Inductive SigningKey (K : Type) := SignerKey (k : K) | SecretKey (secret : string).
Arguments SignerKey {K} _.
Arguments SecretKey {K} _.

(** What the code uses of github.com/golang-jwt/jwt. *)
Class GolangJwt (K : Type) := {
  NewNumericDate : Time -> Time;
  NewWithClaims : SigningMethod -> MapClaims -> Token;
  SignedString : Token -> SigningKey K -> option string }.

Record SigningConfig := MkSigning { s_Issuer : string; s_Audience : list string; s_TTL : Z }.

(** [NilPointer] is the run-time panic of a nil configuration. *)
Inductive SignErr :=
| UnsupportedSigning (alg : string) | UnsupportedHMAC (alg : string) | SigningFailed | EmptySecret | NilConfig | NilPointer.

Section Sign.
Context {K : Type} `{GolangJwt K}.

Definition signingMethodAndKey (kp : KeyPair K) : result SignErr (SigningMethod * SigningKey K) :=
  if Algorithm kp ==s "EdDSA" then Ok (SigningMethodEdDSA, SignerKey (kp_Private kp))
  else if Algorithm kp ==s "RS256" then Ok (SigningMethodRS256, SignerKey (kp_Private kp))
  else Err (UnsupportedSigning (Algorithm kp)).

Definition hmacSigningMethod (alg : string) : result SignErr SigningMethod :=
  if alg ==s "HS256" then Ok SigningMethodHS256 else Err (UnsupportedHMAC alg).

Definition signed (o : option string) : result SignErr string :=
  match o with Some s => Ok s | None => Err SigningFailed end.

Definition Sign (kp : KeyPair K) (claims : MapClaims) : result SignErr string :=
  let? mk := signingMethodAndKey kp in
  let '(method, key) := mk in
  let token := NewWithClaims method claims in
  let token := MkJwt (Method token) (<["kid" := Text (KID kp)]> (t_Header token)) (t_Claims token) in
  signed (SignedString token key).

(** The claims of both [...WithConfig] functions: the standard ones, then the
    caller's on top. *)
Definition config_claims (now : Time) (cfg : SigningConfig) (extraClaims : MapClaims) : MapClaims :=
  let claims : MapClaims :=
    <["iat" := NumericDate (NewNumericDate now)]>
    (<["nbf" := NumericDate (NewNumericDate now)]>
    (<["exp" := NumericDate (NewNumericDate (Add now (s_TTL cfg)))]> ∅)) in
  let claims := if s_Issuer cfg !=s "" then <["iss" := Text (s_Issuer cfg)]> claims else claims in
  let claims := match s_Audience cfg with [] => claims | aud => <["aud" := Texts aud]> claims end in
  extraClaims ∪ claims.

Definition SignWithConfig (now : Time) (kp : KeyPair K) (cfg : option SigningConfig) (extraClaims : MapClaims)
  : result SignErr string :=
  match cfg with
  | None => Err NilPointer
  | Some cfg => Sign kp (config_claims now cfg extraClaims)
  end.

Definition SignHMAC (secret alg : string) (claims : MapClaims) : result SignErr string :=
  let? method := hmacSigningMethod alg in
  if Len secret =? 0 then Err EmptySecret
  else signed (SignedString (NewWithClaims method claims) (SecretKey secret)).

Definition SignHMACWithConfig (now : Time) (secret alg : string) (cfg : option SigningConfig) (extraClaims : MapClaims)
  : result SignErr string :=
  match cfg with
  | None => Err NilConfig
  | Some cfg => SignHMAC secret alg (config_claims now cfg extraClaims)
  end.

(** *** The library's promises *)

Context (Public : K -> PublicKey).
Context (Unmarshal : string -> option object) (digest : Hash -> string -> string).
Context (rsa_verify : N -> Z -> Hash -> string -> string -> bool).
Context (ecdsa_verify : Curve -> N -> N -> string -> N -> N -> bool) (ed25519_verify : string -> string -> string -> bool).

Definition method_alg (m : SigningMethod) : string :=
  match m with SigningMethodEdDSA => "EdDSA" | SigningMethodRS256 => "RS256" | SigningMethodHS256 => "HS256" end.

(** Seconds since the epoch, rounded down. *)
Definition unix (t : Time) : Z := ext t - unixToInternal.

(** The signature is one the method makes with this key: the primitive of the
    key's public half accepts it. *)
Definition signs (m : SigningMethod) (key : SigningKey K) (input sig : string) : Prop :=
  match m, key with
  | SigningMethodEdDSA, SignerKey k =>
      match Public k with EdKey p => ed25519_verify p input sig = true | _ => False end
  | SigningMethodRS256, SignerKey k =>
      match Public k with RSAKey n e => rsa_verify n e SHA256 (digest SHA256 input) sig = true | _ => False end
  | SigningMethodHS256, SecretKey _ => True
  | _, _ => False
  end.

(** Names that JSON keeps as they are. *)
Definition json_names (m : MapClaims) : Prop := forall k, is_Some (m !! k) -> ValidString k = true.

(** Values that always have a JSON text. *)
Definition plain_any (a : any) : Prop := match a with Other _ => False | _ => True end.

(** Documented behaviour: the compact form, the initial header, dates cut to
    the second, and JSON texts that decode to the same values.  [decoded] is
    what a value's JSON text decodes to and [can_sign] says that the primitive
    accepts the key. *)
Class GolangJwtLaws (decoded : any -> value) (can_sign : K -> SigningMethod -> Prop) : Prop := {
  new_token m c :
    NewWithClaims m c = MkJwt m (<["typ" := Text "JWT"]> (<["alg" := Text (method_alg m)]> ∅)) c;
  compact_form tok key s :
    SignedString tok key = Some s -> json_names (t_Header tok) -> json_names (t_Claims tok) ->
    exists hb cb sig,
      s = Base64.EncodeToString hb +:+ "." +:+ Base64.EncodeToString cb +:+ "." +:+ Base64.EncodeToString sig /\
      Unmarshal hb = Some (decoded <$> t_Header tok) /\ Unmarshal cb = Some (decoded <$> t_Claims tok) /\
      signs (Method tok) key (Base64.EncodeToString hb +:+ "." +:+ Base64.EncodeToString cb) sig;
  sign_total tok k :
    can_sign k (Method tok) -> (forall name a, t_Header tok !! name = Some a \/ t_Claims tok !! name = Some a -> plain_any a) ->
    is_Some (SignedString tok (SignerKey k));
  decoded_text s : ValidString s = true -> decoded (Text s) = VString s;
  decoded_texts l : Forall (fun s => ValidString s = true) l -> decoded (Texts l) = VList (VString <$> l);
  decoded_int z : 0 <= z < 2 ^ 53 -> exists f, decoded (Int64 z) = VFloat f /\ Float64.trunc f = z;
  decoded_date t : time_ok t -> 0 <= unix t < 2 ^ 53 ->
    exists f, decoded (NumericDate (NewNumericDate t)) = VFloat f /\ Float64.trunc f = unix t }.


(** *** Issued tokens are accepted *)

Context {decoded : any -> value} {can_sign : K -> SigningMethod -> Prop} {laws : GolangJwtLaws decoded can_sign}.

(** The two halves belong together and the metadata fits. *)
Definition pair_ok (kp : KeyPair K) : Prop :=
  DetectAlgorithm (kp_Public kp) = Ok (Algorithm kp) /\ kp_Public kp = Public (kp_Private kp) /\ ValidString (KID kp) = true.

Definition verify {E} := Verify (E := E) Unmarshal digest rsa_verify ecdsa_verify ed25519_verify.

Definition issued_header (m : SigningMethod) (kid : string) : MapClaims :=
  <["kid" := Text kid]> (<["typ" := Text "JWT"]> (<["alg" := Text (method_alg m)]> ∅)).

Lemma initial_header_names m : json_names (<["typ" := Text "JWT"]> (<["alg" := Text (method_alg m)]> ∅)).
Proof. intros k [a Ha]. rewrite !lookup_insert_Some, lookup_empty in Ha. naive_solver. Qed.

Lemma issued_header_names m kid : json_names (issued_header m kid).
Proof.
  unfold issued_header. intros k [a [[<- _]|[_ Ha]]%lookup_insert_Some]; [done|]. apply (initial_header_names m). by exists a.
Qed.

(** What [Sign] returns: the library's token for the method of the key. *)
Lemma Sign_unfold kp claims :
  pair_ok kp -> exists m, method_alg m = Algorithm kp /\
    (m = SigningMethodEdDSA \/ m = SigningMethodRS256) /\
    Sign kp claims = signed (SignedString (MkJwt m (issued_header m (KID kp)) claims) (SignerKey (kp_Private kp))).
Proof.
  intros (Hd & _ & _). unfold Sign, signingMethodAndKey, issued_header.
  destruct (kp_Public kp); try done; injection Hd as <-.
  - exists SigningMethodRS256. cbn. rewrite new_token. auto.
  - exists SigningMethodEdDSA. cbn. rewrite new_token. auto.
Qed.

Lemma signs_verifySig kp m input sig :
  pair_ok kp -> method_alg m = Algorithm kp -> signs m (SignerKey (kp_Private kp)) input sig ->
  verifySig digest rsa_verify ecdsa_verify ed25519_verify (Algorithm kp) (kp_Public kp) input sig = Ok tt.
Proof.
  intros (Hd & Hp & _) Hm Hs. rewrite Hp in *. destruct m; cbn [signs] in Hs; [| |done].
  - rewrite <- Hm. destruct (Public _) as [| |k|]; try done. unfold verifySig, verifyEdDSA. by rewrite Hs.
  - rewrite <- Hm. destruct (Public _) as [n e| | |]; try done. unfold verifySig, verifyRSA. cbn. by rewrite Hs.
Qed.

(** A token in compact form is accepted when each check of [Verify] is. *)
Lemma Verify_complete {E} hb cb sig header claims alg kid (keyFunc : string -> string -> result E PublicKey) pub cfg now :
  Unmarshal hb = Some header -> Unmarshal cb = Some claims ->
  as_string (header !! "alg") = alg -> as_string (header !! "kid") = kid -> EqualFold alg "none" = false ->
  AllowedAlgorithms cfg = [] \/ alg ∈ AllowedAlgorithms cfg -> keyFunc kid alg = Ok pub ->
  verifySig digest rsa_verify ecdsa_verify ed25519_verify alg pub
    (Base64.EncodeToString hb +:+ "." +:+ Base64.EncodeToString cb) sig = Ok tt ->
  @check_times E claims now (ClockSkew cfg) = Ok tt -> @check_parties E claims cfg = Ok tt ->
  verify (Base64.EncodeToString hb +:+ "." +:+ Base64.EncodeToString cb +:+ "." +:+ Base64.EncodeToString sig)
    keyFunc (Some cfg) now = Ok (MkToken header claims).
Proof.
  intros Hh Hc Ha Hk Hn Hal Hf Hv Ht Hp. unfold verify, Verify, or_err. cbn [default from_option]. unfold id.
  rewrite split3_compact, !base64URLDecode_Encode, Hh. cbn match. rewrite Ha, Hk, Hn.
  assert ((match AllowedAlgorithms cfg with [] => true | l => existsb (fun a => a ==s alg) l end) = true) as ->.
  { destruct Hal as [->|Hin]; [done|]. destruct (AllowedAlgorithms cfg) as [|a l]; [done|].
    apply existsb_exists. exists alg. rewrite String.eqb_refl. by apply list_elem_of_In in Hin. }
  cbn [negb]. rewrite Hf. cbn match. rewrite Hv. cbn match. rewrite Hc. cbn match. by rewrite Ht, Hp.
Qed.

(** The claims both [...WithConfig] functions set, when the caller's do not
    replace them. *)
Definition reserved : list string := ["exp"; "nbf"; "iss"; "aud"].

Lemma config_claims_lookup now cfg extra name :
  extra !! name = None -> name ∈ reserved ->
  config_claims now cfg extra !! name =
  (if name ==s "exp" then Some (NumericDate (NewNumericDate (Add now (s_TTL cfg))))
   else if name ==s "nbf" then Some (NumericDate (NewNumericDate now))
   else if name ==s "iss" then (if s_Issuer cfg !=s "" then Some (Text (s_Issuer cfg)) else None)
   else match s_Audience cfg with [] => None | aud => Some (Texts aud) end).
Proof.
  intros He Hn. unfold config_claims. rewrite lookup_union_r by done. unfold reserved in Hn. set_unfold in Hn.
  destruct (s_Issuer cfg !=s ""), (s_Audience cfg) as [|a l]; destruct_or? Hn; subst name; reflexivity.
Qed.

Lemma config_claims_names now cfg extra : json_names extra -> json_names (config_claims now cfg extra).
Proof.
  intros He k [a Ha]. unfold config_claims in Ha. apply lookup_union_Some_raw in Ha as [Ha|[_ Ha]]; [by apply He; eauto|].
  assert (k ∈ ["iat"; "nbf"; "exp"; "iss"; "aud"]) as Hk.
  { destruct (s_Issuer cfg !=s ""), (s_Audience cfg); rewrite ?lookup_insert_Some, lookup_empty in Ha; set_solver. }
  set_unfold in Hk. by destruct_or? Hk; subst k.
Qed.

Lemma config_claims_plain now cfg extra name a :
  (forall n b, extra !! n = Some b -> plain_any b) -> config_claims now cfg extra !! name = Some a -> plain_any a.
Proof.
  intros He Ha. unfold config_claims in Ha. apply lookup_union_Some_raw in Ha as [Ha|[_ Ha]]; [by eapply He|].
  destruct (s_Issuer cfg !=s ""), (s_Audience cfg); rewrite ?lookup_insert_Some, lookup_empty in Ha; naive_solver.
Qed.

(** An instant in the range that dates of tokens have. *)
Definition dated (t : Time) : Prop := time_ok t /\ 0 <= unix t < 2 ^ 52.

Lemma unix_ns t : time_ok t -> unix t * Second <= ns t < (unix t + 1) * Second.
Proof. unfold time_ok, unix, ns, Second. lia. Qed.

Lemma Add_dated now ttl :
  dated now -> 0 <= ttl <= maxInt64 ->
  time_ok (Add now ttl) /\ ns (Add now ttl) = ns now + ttl /\ 0 <= unix (Add now ttl) < 2 ^ 53.
Proof.
  intros [Hok Hu] Ht. destruct (Add_ns now ttl Hok) as [Hn Ho].
  { unfold int64_range, maxInt64 in *. lia. }
  { unfold unix, unixToInternal in Hu. lia. }
  split; [done|]. split; [done|]. pose proof (unix_ns _ Ho). pose proof (unix_ns _ Hok).
  unfold Second, maxInt64 in *. nia.
Qed.

Lemma date_claim claims key t :
  claims !! key = Some (NumericDate (NewNumericDate t)) -> time_ok t -> 0 <= unix t < 2 ^ 53 ->
  numericClaim (decoded <$> claims) key = Some (unix t).
Proof.
  intros Hc Ht Hu. destruct (decoded_date t Ht Hu) as (f & Hd & Hf). unfold numericClaim.
  rewrite lookup_fmap, Hc. cbn [fmap option_fmap option_map]. by rewrite Hd, Hf.
Qed.

Lemma check_times_complete {E} claims now skew exp nbf :
  time_ok now -> 0 <= skew <= maxInt64 -> numericClaim claims "exp" = Some exp -> numericClaim claims "nbf" = Some nbf ->
  sane exp -> sane nbf -> nbf * Second - skew <= ns now <= exp * Second + skew -> @check_times E claims now skew = Ok tt.
Proof.
  intros Hnow Hs He Hb Hse Hsb Hn. assert (int64_range skew) as Hr by (unfold int64_range, maxInt64 in *; lia).
  assert (int64_range (- skew)) as Hr' by (unfold int64_range, maxInt64 in *; lia).
  unfold check_times, Before. rewrite (wrap64_id (- skew)), He, Hb by done.
  destruct (deadline_ns exp skew Hse Hr) as [H1 Ho1]. destruct (deadline_ns nbf (- skew) Hsb Hr') as [H2 Ho2].
  destruct (After now _) eqn:Ha; [apply After_ns in Ha; [lia|done..]|].
  destruct (After _ now) eqn:Hc; [apply After_ns in Hc; [lia|done..]|]. done.
Qed.

Definition parties_fit (cfg : SigningConfig) (vcfg : VerifyConfig) : Prop :=
  (RequiredIssuer vcfg = "" \/ RequiredIssuer vcfg = s_Issuer cfg) /\
  (RequiredAudience vcfg = "" \/ RequiredAudience vcfg ∈ s_Audience cfg).

Definition utf8_config (cfg : SigningConfig) : Prop :=
  ValidString (s_Issuer cfg) = true /\ Forall (fun s => ValidString s = true) (s_Audience cfg).

Lemma audience_accepted cfg now extra aud :
  extra !! "aud" = None -> Forall (fun s => ValidString s = true) (s_Audience cfg) -> aud ∈ s_Audience cfg ->
  audienceContains ((decoded <$> config_claims now cfg extra) !! "aud") aud = true.
Proof.
  intros Hx Hv Hin. rewrite lookup_fmap, config_claims_lookup by (done || unfold reserved; set_solver).
  change ("aud" ==s "exp") with false. change ("aud" ==s "nbf") with false. change ("aud" ==s "iss") with false. cbn match.
  destruct (s_Audience cfg) as [|a l]; [set_solver|]. cbn [fmap option_fmap option_map]. rewrite decoded_texts by done.
  apply existsb_exists. exists (VString aud). rewrite String.eqb_refl. split; [|done].
  apply list_elem_of_In, list_elem_of_fmap. eauto.
Qed.

Lemma parties_accepted {E} now cfg vcfg extra :
  parties_fit cfg vcfg -> utf8_config cfg -> (forall name, name ∈ reserved -> extra !! name = None) ->
  @check_parties E (decoded <$> config_claims now cfg extra) vcfg = Ok tt.
Proof.
  intros [Hi Ha] [Hvi Hva] Hx. unfold check_parties.
  assert ((RequiredIssuer vcfg !=s "") && (as_string ((decoded <$> config_claims now cfg extra) !! "iss") !=s RequiredIssuer vcfg) = false) as ->.
  { destruct (String.eqb_spec (RequiredIssuer vcfg) "") as [|Hne]; [done|]. destruct Hi as [|Hi]; [done|].
    rewrite lookup_fmap, config_claims_lookup by (apply Hx || idtac; unfold reserved; set_solver).
    change ("iss" ==s "exp") with false. change ("iss" ==s "nbf") with false. cbn match.
    rewrite <- Hi. apply String.eqb_neq in Hne. rewrite Hne. cbn. rewrite decoded_text by congruence. cbn.
    by rewrite String.eqb_refl. }
  destruct (String.eqb_spec (RequiredAudience vcfg) "") as [|Hne]; [done|]. destruct Ha as [|Ha]; [done|].
  rewrite audience_accepted by (try apply Hx; unfold reserved; set_solver || done). done.
Qed.

(** Signing and verification fit together. *)
Lemma Sign_Verify {E} kp claims vcfg (keyFunc : string -> string -> result E PublicKey) now' token :
  pair_ok kp -> json_names claims -> keyFunc (KID kp) (Algorithm kp) = Ok (kp_Public kp) ->
  AllowedAlgorithms vcfg = [] \/ Algorithm kp ∈ AllowedAlgorithms vcfg ->
  @check_times E (decoded <$> claims) now' (ClockSkew vcfg) = Ok tt -> @check_parties E (decoded <$> claims) vcfg = Ok tt ->
  Sign kp claims = Ok token ->
  exists header, verify token keyFunc (Some vcfg) now' = Ok (MkToken header (decoded <$> claims)).
Proof.
  intros Hkp Hj Hk Hal Ht Hp Hsign. destruct (Sign_unfold kp claims Hkp) as (m & Hm & Hmm & HS). rewrite HS in Hsign.
  destruct (SignedString _ _) as [s|] eqn:Hss; [|done]. injection Hsign as ->.
  apply compact_form in Hss as (hb & cb & sig & -> & Hhb & Hcb & Hsig); [|apply issued_header_names|done].
  exists (decoded <$> issued_header m (KID kp)). cbn [Method t_Header t_Claims] in *.
  eapply Verify_complete with (alg := Algorithm kp) (kid := KID kp) (pub := kp_Public kp); try done.
  - rewrite lookup_fmap. change (issued_header m (KID kp) !! "alg") with (Some (Text (method_alg m))).
    cbn [fmap option_fmap option_map]. rewrite decoded_text, Hm; [done|]. by destruct m.
  - rewrite lookup_fmap. change (issued_header m (KID kp) !! "kid") with (Some (Text (KID kp))).
    cbn [fmap option_fmap option_map]. rewrite decoded_text; [done|]. apply Hkp.
  - rewrite <- Hm. by destruct m.
  - by eapply signs_verifySig.
Qed.

Lemma SignWithConfig_Verify {E} kp cfg extra vcfg (keyFunc : string -> string -> result E PublicKey) now now' token :
  pair_ok kp -> utf8_config cfg -> json_names extra -> (forall name, name ∈ reserved -> extra !! name = None) ->
  dated now -> 0 <= s_TTL cfg <= maxInt64 -> time_ok now' ->
  keyFunc (KID kp) (Algorithm kp) = Ok (kp_Public kp) -> parties_fit cfg vcfg ->
  AllowedAlgorithms vcfg = [] \/ Algorithm kp ∈ AllowedAlgorithms vcfg -> 0 <= ClockSkew vcfg <= maxInt64 ->
  unix now * Second - ClockSkew vcfg <= ns now' <= unix (Add now (s_TTL cfg)) * Second + ClockSkew vcfg ->
  SignWithConfig now kp (Some cfg) extra = Ok token ->
  exists header, verify token keyFunc (Some vcfg) now' = Ok (MkToken header (decoded <$> config_claims now cfg extra)).
Proof.
  intros Hkp Hu Hj Hx Hd Ht Hn' Hk Hp Hal Hs Hwin Hsign. apply (Sign_Verify kp); try done.
  - by apply config_claims_names.
  - destruct (Add_dated _ _ Hd Ht) as (Ho & Hns & Hb). destruct Hd as [Hok Hu'].
    eapply check_times_complete; [done|done|eapply date_claim| eapply date_claim|..|exact Hwin]; try done.
    + by rewrite config_claims_lookup by (try apply Hx; unfold reserved; set_solver).
    + by rewrite config_claims_lookup by (try apply Hx; unfold reserved; set_solver).
    + lia.
    + unfold sane. lia.
    + unfold sane. lia.
  - by apply parties_accepted.
Qed.

(** Signing succeeds with a key the primitive accepts and claims that have a
    JSON text. *)
Lemma Sign_total kp claims :
  pair_ok kp -> (forall m, method_alg m = Algorithm kp -> can_sign (kp_Private kp) m) ->
  (forall name a, claims !! name = Some a -> plain_any a) -> exists token, Sign kp claims = Ok token.
Proof.
  intros Hkp Hcan Hx. destruct (Sign_unfold kp claims Hkp) as (m & Hm & _ & ->).
  destruct (sign_total (MkJwt m (issued_header m (KID kp)) claims) (kp_Private kp)) as [s ->].
  - by apply Hcan.
  - intros name a [Ha|Ha]; cbn in Ha; [|by eapply Hx].
    unfold issued_header in Ha. rewrite !lookup_insert_Some, lookup_empty in Ha. naive_solver.
  - eauto.
Qed.

Lemma SignWithConfig_total kp cfg extra now :
  pair_ok kp -> (forall m, method_alg m = Algorithm kp -> can_sign (kp_Private kp) m) ->
  (forall name a, extra !! name = Some a -> plain_any a) ->
  exists token, SignWithConfig now kp (Some cfg) extra = Ok token.
Proof. intros Hkp Hcan Hx. apply Sign_total; [done..|]. intros name a. by apply config_claims_plain. Qed.

(** A token made with a shared secret is not a credential for a public key: whatever key a
    verifier resolves for it, and whatever algorithms it allows, [Verify]
    refuses every token that [SignHMAC] issues.  So a public key used as an
    HMAC secret forges nothing. *)
Theorem hmac_token_refused {E} secret alg claims token (keyFunc : string -> string -> result E PublicKey) cfg now tok :
  json_names claims -> SignHMAC secret alg claims = Ok token -> ~ verify token keyFunc cfg now = Ok tok.
Proof.
  intros Hj. unfold SignHMAC, hmacSigningMethod. destruct (String.eqb_spec alg "HS256"); [|done].
  destruct (Len secret =? 0); [done|]. rewrite new_token. destruct (SignedString _ _) as [s|] eqn:Hs; [|done]. intros [= ->].
  apply compact_form in Hs as (hb & cb & sig & -> & Hhb & Hcb & _); [|by apply initial_header_names|done].
  unfold verify, Verify, or_err. rewrite split3_compact, !base64URLDecode_Encode, Hhb. cbn match. cbn [t_Header].
  rewrite !lookup_fmap.
  change ((<["typ" := Text "JWT"]> (<["alg" := Text (method_alg SigningMethodHS256)]> ∅) : MapClaims) !! "alg") with (Some (Text "HS256")).
  cbn [fmap option_fmap option_map]. rewrite decoded_text by done. cbn [as_string].
  change (EqualFold "HS256" "none") with false. cbn match. destruct (negb _); [done|]. by destruct (keyFunc _ _).
Qed.

End Sign.

(** ** Issuing, publishing and verifying *)

(** The key set that [NewJWKS] publishes holds each key under the identifier of
    its encoding. *)
Lemma NewJWKS_find marshal pubs jwks pub der alg :
  NewJWKS marshal pubs = Ok jwks -> pub ∈ pubs -> marshal pub = Some der -> signing_key pub ->
  DetectAlgorithm pub = Ok alg ->
  (forall pub' der', pub' ∈ pubs -> marshal pub' = Some der' -> ComputeKID der' = ComputeKID der -> pub' = pub) ->
  exists jwk, Remote.matchKey jwks (ComputeKID der) alg = Some jwk /\ JWKToPublicKey jwk = Ok pub.
Proof.
  intros HJ Hin Hm Hk Hd. revert jwks HJ. induction pubs as [|p pubs IH]; [by apply not_elem_of_nil in Hin|].
  intros jwks HJ Huniq. cbn [NewJWKS] in HJ. unfold ComputeKIDFromPublicKey in HJ.
  destruct (marshal p) as [der'|] eqn:Hp; [|done]. destruct (NewJWKFromPublicKey p (ComputeKID der')) as [jwk|] eqn:Hj; [|done].
  destruct (NewJWKS marshal pubs) as [rest|] eqn:Hr; [|done]. injection HJ as <-.
  destruct (decide (ComputeKID der' = ComputeKID der)) as [He|Hne].
  - assert (p = pub) as -> by (eapply Huniq; [left|done|done]). exists jwk.
    destruct (JWK_roundtrip pub (ComputeKID der') Hk) as (j & Hj' & Hkid & Hback). rewrite Hj in Hj'. injection Hj' as ->.
    split; [|done]. unfold Remote.matchKey. cbn [List.find].
    assert (Remote.matches (ComputeKID der) alg j = true) as ->; [|done].
    unfold Remote.matches. rewrite Hkid, He, String.eqb_refl, andb_false_r. cbn [negb andb].
    destruct pub; try done; injection Hd as <-; injection Hj as <-; done.
  - apply elem_of_cons in Hin as [->|Hin]; [congruence|].
    destruct (IH Hin rest eq_refl) as (j & Hf & Hback); [by intros p' d' Hp' ? ?; eapply Huniq; [right| |]|].
    exists j. split; [|done]. unfold Remote.matchKey in *. cbn [List.find].
    assert (Remote.matches (ComputeKID der) alg jwk = false) as ->; [|done].
    unfold Remote.matches. assert (Kid jwk = ComputeKID der') as -> by (destruct p; try done; injection Hj as <-; done).
    assert ((ComputeKID der !=s "") = true) as ->.
    { apply negb_true_iff, String.eqb_neq. intros E. assert (String.length (ComputeKID der) = 16%nat) as Hl; [|by rewrite E in Hl].
      unfold ComputeKID. rewrite Sha256.hex_length, length_take. unfold Sha256.sum256. destruct (Sha256.blocks _ _ _).
      cbn [flat_map]. by rewrite !length_app, !Sha256.be_bytes_length. }
    apply String.eqb_neq in Hne. by rewrite Hne.
Qed.

(** The endpoint delivers this key set. *)
Definition serving (jwks : list JWK) (at_ : Z) : Remote.Turn := Remote.MkTurn at_ (Remote.Reply 200 (Some jwks)) at_.

Lemma KeyFunc_finds ttl jwks kid alg jwk pub at_ t2 :
  Remote.matchKey jwks kid alg = Some jwk -> JWKToPublicKey jwk = Ok pub ->
  fst (fst (Remote.KeyFunc ttl (serving jwks at_) t2 None kid alg)) = Ok pub.
Proof. intros Hm Hp. unfold Remote.KeyFunc, Remote.findKey. cbn. by rewrite Hm, Hp. Qed.

Section EndToEnd.
Context {K : Type} `{GolangJwt K}.
Context (Public : K -> PublicKey).
Context (ed25519_generate : option (string * K)) (rsa_generate : Z -> option K).
Context (MarshalPKIX : PublicKey -> option string) (ParsePKIX : string -> option PublicKey).
Context (Unmarshal : string -> option object) (digest : Hash -> string -> string).
Context (rsa_verify : N -> Z -> Hash -> string -> string -> bool).
Context (ecdsa_verify : Curve -> N -> N -> string -> N -> N -> bool) (ed25519_verify : string -> string -> string -> bool).
Context (decoded : any -> value) (can_sign : K -> SigningMethod -> Prop).

(** C8. A key pair is generated, its public key published in a key set, and a token issued: a verifier
    that fetches the set accepts the token from its first second until its
    last, with the claims it was issued with, provided issuer, audience and
    allowed algorithms fit and no two published keys share an identifier.  The
    signer, the publisher and the verifier meet only in the key identifier,
    which each computes for itself. *)
Theorem issue_publish_verify
    (laws : GolangJwtLaws Public Unmarshal digest rsa_verify ed25519_verify decoded can_sign)
    (PKIX_roundtrip : forall pub der, MarshalPKIX pub = Some der -> ParsePKIX der = Some pub)
    (generate_ed : forall pub priv, ed25519_generate = Some (pub, priv) -> Public priv = EdKey pub)
    (generate_rsa : forall bits key, rsa_generate bits = Some key -> exists n e, Public key = RSAKey n e)
    algorithm opts kp pubs jwks cfg extra vcfg ttl at_ t2 now now' :
  GenerateKeyPair Public ed25519_generate rsa_generate MarshalPKIX algorithm opts = Ok kp ->
  signing_key (kp_Public kp) -> (forall m, method_alg m = algorithm -> can_sign (kp_Private kp) m) ->
  NewJWKS MarshalPKIX pubs = Ok jwks -> kp_Public kp ∈ pubs ->
  (forall pub der, pub ∈ pubs -> MarshalPKIX pub = Some der -> ComputeKID der = KID kp -> pub = kp_Public kp) ->
  utf8_config cfg -> parties_fit cfg vcfg -> AllowedAlgorithms vcfg = [] \/ algorithm ∈ AllowedAlgorithms vcfg ->
  json_names extra -> (forall name a, extra !! name = Some a -> plain_any a) ->
  (forall name, name ∈ reserved -> extra !! name = None) ->
  dated now -> 0 <= s_TTL cfg <= maxInt64 -> time_ok now' -> 0 <= ClockSkew vcfg <= maxInt64 ->
  unix now * Second - ClockSkew vcfg <= ns now' <= unix (Add now (s_TTL cfg)) * Second + ClockSkew vcfg ->
  exists token header,
    SignWithConfig now kp (Some cfg) extra = Ok token /\
    verify Unmarshal digest rsa_verify ecdsa_verify ed25519_verify token
      (fun kid alg => fst (fst (Remote.KeyFunc ttl (serving jwks at_) t2 None kid alg))) (Some vcfg) now' =
    Ok (MkToken header (decoded <$> config_claims now cfg extra)).
Proof.
  intros HG Hsk Hcan HJ Hin Huniq Hu Hp Hal Hj Hpl Hx Hd Ht Hn' Hs Hwin.
  apply (GenerateKeyPair_ok _ _ _ _ ParsePKIX) in HG as [[(Hda & Hkid & _) [Hpub Hder]] <-]; [|done..].
  assert (pair_ok Public kp) as Hkp by (repeat split; [done..|rewrite Hkid; apply ComputeKID_valid]).
  destruct (SignWithConfig_total Public Unmarshal digest rsa_verify ed25519_verify kp cfg extra now Hkp Hcan Hpl) as [token Htok].
  assert (fst (fst (Remote.KeyFunc ttl (serving jwks at_) t2 None (KID kp) (Algorithm kp))) = Ok (kp_Public kp)) as Hkey.
  { destruct (NewJWKS_find MarshalPKIX pubs jwks (kp_Public kp) (PublicDER kp) (Algorithm kp)) as (jwk & Hm & Hb); try done.
    { intros pub' der' Hi Hm He. eapply Huniq; [done..|]. congruence. }
    rewrite Hkid. by eapply KeyFunc_finds. }
  destruct (SignWithConfig_Verify Public Unmarshal digest rsa_verify ecdsa_verify ed25519_verify
              (E := Remote.RemoteErr) kp cfg extra vcfg
              (fun kid alg => fst (fst (Remote.KeyFunc ttl (serving jwks at_) t2 None kid alg))) now now' token)
    as [header Hv]; try done.
  exists token, header. done.
Qed.

End EndToEnd.

(** ** A library that keeps the promises

    Keys are their public halves, a signature is the key and the input, and
    texts are encoded as bits. *)
Module DemoLib.

(** What values decode to, as a countable type. *)
Definition code_of (a : any) : string + (list string + (Z + ())) :=
  match a with
  | Text s => inl s | Texts l => inr (inl l) | Int64 z => inr (inr (inl z)) | NumericDate t => inr (inr (inl (unix t)))
  | Other _ => inr (inr (inr ()))
  end.

Definition number (z : Z) : Float64.t := match z with Zpos p => SpecFloat.S754_finite false p 0 | _ => SpecFloat.S754_zero false end.

Definition value_of (c : string + (list string + (Z + ()))) : value :=
  match c with
  | inl s => VString s | inr (inl l) => VList (VString <$> l) | inr (inr (inl z)) => VFloat (number z) | inr (inr (inr _)) => VOther
  end.

Fixpoint bits (p : positive) : string :=
  match p with xH => "" | xO p => String "0" (bits p) | xI p => String "1" (bits p) end.
Fixpoint unbits (s : string) : positive :=
  match s with "" => xH | String c s => if Ascii.eqb c "0" then xO (unbits s) else xI (unbits s) end.

Lemma key_unbits_bits p : unbits (bits p) = p.
Proof. induction p as [p IH|p IH|]; cbn; by rewrite ?IH. Qed.

Definition text_of (m : MapClaims) : string := bits (countable.encode (code_of <$> m)).
Definition unmarshal (s : string) : option object := (fun m : gmap string _ => value_of <$> m) <$> countable.decode (unbits s).
Definition decoded (a : any) : value := value_of (code_of a).

Lemma unmarshal_text m : unmarshal (text_of m) = Some (decoded <$> m).
Proof.
  unfold unmarshal, text_of. rewrite key_unbits_bits, decode_encode. cbn. f_equal. rewrite <- map_fmap_compose. done.
Qed.

Definition ed (k m s : string) : bool := s ==s k +:+ m.
Definition input (tok : Token) : string :=
  Base64.EncodeToString (text_of (t_Header tok)) +:+ "." +:+ Base64.EncodeToString (text_of (t_Claims tok)).
Definition compact (tok : Token) (sig : string) : string :=
  Base64.EncodeToString (text_of (t_Header tok)) +:+ "." +:+ Base64.EncodeToString (text_of (t_Claims tok)) +:+ "." +:+
  Base64.EncodeToString sig.

Lemma number_trunc z : 0 <= z < 2 ^ 53 -> Float64.trunc (number z) = z.
Proof.
  intros Hz. destruct z as [|p|p]; [done| |lia]. cbn. rewrite Z.shiftl_0_r.
  unfold in_int64. destruct (_ && _) eqn:E; [done|]. unfold minInt64, maxInt64 in *. bprop; lia.
Qed.

#[export] Instance lib : GolangJwt string := {
  NewNumericDate t := MkTime (ext t) 0;
  NewWithClaims m c := MkJwt m (<["typ" := Text "JWT"]> (<["alg" := Text (method_alg m)]> ∅)) c;
  SignedString tok key :=
    match Method tok, key with
    | SigningMethodEdDSA, SignerKey k => Some (compact tok (k +:+ input tok))
    | SigningMethodHS256, SecretKey s => Some (compact tok s)
    | _, _ => None
    end }.

Definition can_sign (k : string) (m : SigningMethod) : Prop := m = SigningMethodEdDSA.

#[export] Instance lib_laws :
  GolangJwtLaws EdKey unmarshal (fun _ s => s) (fun _ _ _ _ _ => false) ed decoded can_sign.
Proof.
  split.
  - done.
  - intros tok key s Hs _ _. exists (text_of (t_Header tok)), (text_of (t_Claims tok)). rewrite !unmarshal_text.
    destruct tok as [m h c], m, key; try done; injection Hs as <-; eexists; (split; [reflexivity|]); repeat split.
    cbn. unfold ed, input. apply String.eqb_refl.
  - intros [m h c] k Hm _. cbn in Hm. rewrite Hm. cbn. eauto.
  - done.
  - done.
  - intros z Hz. exists (number z). split; [done|]. by apply number_trunc.
  - intros t _ Ht. exists (number (unix t)). split; [done|]. by apply number_trunc.
Qed.

Definition key32 : string := "0123456789abcdef0123456789abcdef".
Definition marshal (pub : PublicKey) : option string := match pub with EdKey k => Some k | _ => None end.
Definition parse (der : string) : option PublicKey := Some (EdKey der).
Definition pair : KeyPair string := MkKeyPair key32 (EdKey key32) "EdDSA" (ComputeKID key32) key32.

Lemma keypair_roundtrip_witness :
  exists privPEM pubPEM,
    MarshalKeyPairPEM Some (fun _ d => d) pair = Ok (privPEM, pubPEM) /\
    ParseKeyPairPEM parse (fun s => Some (IsSigner s)) Some privPEM pubPEM = Ok pair /\
    (Some key32 = Some privPEM -> Some key32 = Some pubPEM ->
     LoadKeyPairFromPEM parse (fun s => Some (IsSigner s)) Some (fun _ => Some key32) "a" "b" = Ok pair).
Proof.
  refine (keypair_roundtrip EdKey (Some (key32, key32)) (fun _ => None) marshal parse Some (fun s => Some (IsSigner s))
    (fun _ d => d) Some (fun _ => Some key32) _ _ _ _ _ pair key32 "a" "b" _ _).
  - intros [| | |] der [= <-]. reflexivity.
  - intros pub priv [= <- <-]. reflexivity.
  - intros bits key [=].
  - reflexivity.
  - intros key der [= <-]. reflexivity.
  - left. exists "EdDSA", []. vm_compute. reflexivity.
  - reflexivity.
Defined.

Definition claims0 : MapClaims := <["sub" := Text "svc:a"]> ∅.

Lemma claims0_names : json_names claims0.
Proof. intros k [a Ha]. unfold claims0 in Ha. rewrite lookup_insert_Some, lookup_empty in Ha. naive_solver. Qed.

Definition hmac_token : string := match SignHMAC key32 "HS256" claims0 with Ok t => t | Err _ => "" end.

Lemma hmac_token_refused_witness :
  ~ verify unmarshal (fun _ s => s) (fun _ _ _ _ _ => false) (fun _ _ _ _ _ _ => false) ed hmac_token
      (fun _ _ => Ok (E := unit) (EdKey key32)) None (MkTime 0 0) = Ok (MkToken ∅ ∅).
Proof.
  refine (hmac_token_refused EdKey unmarshal (fun _ s => s) (fun _ _ _ _ _ => false) (fun _ _ _ _ _ _ => false) ed
    key32 "HS256" claims0 hmac_token _ _ _ _ _ _).
  - exact claims0_names.
  - reflexivity.
Defined.

Definition epoch (sec : Z) : Time := MkTime (sec + unixToInternal) 5.

Lemma issue_publish_verify_witness :
  exists token header,
    SignWithConfig (epoch 1000) pair (Some (MkSigning "sts" ["orders"] (60 * Second))) claims0 = Ok token /\
    verify unmarshal (fun _ s => s) (fun _ _ _ _ _ => false) (fun _ _ _ _ _ _ => false) ed token
      (fun kid alg => fst (fst (Remote.KeyFunc Remote.defaultTTL
         (serving [MkJWK "OKP" (ComputeKID key32) "sig" "EdDSA" "" "" "Ed25519" (Base64.EncodeToString key32) ""] 0)
         (Remote.down 0) None kid alg)))
      (Some (MkVerify ["EdDSA"] "sts" "orders" 0)) (epoch 1059) =
    Ok (MkToken header (decoded <$> config_claims (epoch 1000) (MkSigning "sts" ["orders"] (60 * Second)) claims0)).
Proof.
  refine (issue_publish_verify EdKey (Some (key32, key32)) (fun _ => None) marshal parse unmarshal (fun _ s => s)
    (fun _ _ _ _ _ => false) (fun _ _ _ _ _ _ => false) ed decoded can_sign lib_laws _ _ _ "EdDSA" [] pair [EdKey key32] _
    _ _ _ _ _ _ _ _ _ _ _ _ _ _ _ _ _ _ _ _ _ _ _ _ _).
  - intros [| | |] der [= <-]. reflexivity.
  - intros pub priv [= <- <-]. reflexivity.
  - intros bits key [=].
  - vm_compute. reflexivity.
  - vm_compute. reflexivity.
  - intros [| |] Hm; done.
  - vm_compute. reflexivity.
  - left.
  - intros pub der Hin _ _. by apply list_elem_of_singleton in Hin.
  - split; [reflexivity|repeat constructor].
  - split; right; [reflexivity|left].
  - right. left.
  - exact claims0_names.
  - intros name a Ha. unfold claims0 in Ha. rewrite lookup_insert_Some, lookup_empty in Ha. naive_solver.
  - intros name Hn. unfold reserved in Hn. set_unfold in Hn. by destruct_or? Hn; subst name.
  - split; split; vm_compute; (reflexivity || discriminate).
  - split; vm_compute; discriminate.
  - split; vm_compute; (reflexivity || discriminate).
  - split; vm_compute; discriminate.
  - split; vm_compute; discriminate.
Defined.

End DemoLib.
