(* ===== verification/GrpcJwt.v ===== *)
(** * Tokens of gRPC calls (src/grpcjwt)

    validator.go, interceptor.go and token_source.go: the validator with its
    key source, the server's interceptor and the client's source of
    self-signed tokens.  What [Verify] and signing need is as in [Jwt] and
    [JwtSign]; the file system, PEM and X.509 are arguments. *)
From S2P Require Import Prelude GoStrings HttpResponse TokenMint AuditList GatewayCtx Jwt JwtSign.
Import Jwt.Std.
Local Open Scope string_scope.
Local Open Scope Z_scope.

Definition TrimPrefix (s p : string) : string := match strip_prefix p s with Some t => t | None => s end.

(** ** interceptor.go: the context of a call *)

(** The incoming metadata, if any, and the subject the interceptor stored. *)
Record Context := MkCtx { incoming : option (gmap string (list string)); subject : option string }.

Definition SubjectFromContext (ctx : Context) : option string := subject ctx.
Definition TestContextWithSubject (ctx : Context) (s : string) : Context := MkCtx (incoming ctx) (Some s).

Section Validator.
Context {C : Type}.
Context (Unmarshal : string -> option object) (digest : Hash -> string -> string).
Context (rsa_verify : N -> Z -> Hash -> string -> string -> bool).
Context (ecdsa_verify : Curve -> N -> N -> string -> N -> N -> bool) (ed25519_verify : string -> string -> string -> bool).
Context (ReadFile : string -> option string) (pem_Decode : string -> option string) (ParsePKIX : string -> option PublicKey).

(** ** validator.go *)

Record Config := MkConfig {
  JWKSURL : string; PublicKeyFile : string; c_Issuer : string; c_Audience : string; c_ClockSkew : Z;
  SubjectClaim : string; CacheTTL : Z; c_HTTPClient : option C }.

(** Where [keyFunc] finds keys. *)
Inductive KeySource := RemoteKeys (r : Remote.RemoteJWKS C) | StaticKey (pub : PublicKey).

Record Validator := MkValidator { keyFunc : KeySource; verifyCfg : VerifyConfig; subjectClaim : string }.

Inductive KeyFileErr := KeyFileRead | KeyFileNoBlock | KeyFileParse.
Inductive NewErr := LoadingKey (e : KeyFileErr) | NoKeySource.

Definition loadPublicKey (path : string) : result KeyFileErr PublicKey :=
  match ReadFile path with
  | None => Err KeyFileRead
  | Some data =>
      match pem_Decode data with
      | None => Err KeyFileNoBlock
      | Some der => match ParsePKIX der with Some pub => Ok pub | None => Err KeyFileParse end
      end
  end.

(** The validator, and the configuration, in which the default subject claim
    is written back. *)
Definition NewValidator (cfg : Config) : result NewErr Validator * Config :=
  let claim := if SubjectClaim cfg ==s "" then "sub" else SubjectClaim cfg in
  let cfg := MkConfig (JWKSURL cfg) (PublicKeyFile cfg) (c_Issuer cfg) (c_Audience cfg) (c_ClockSkew cfg) claim (CacheTTL cfg)
               (c_HTTPClient cfg) in
  let v ks := MkValidator ks (MkVerify [] (c_Issuer cfg) (c_Audience cfg) (c_ClockSkew cfg)) (SubjectClaim cfg) in
  (if JWKSURL cfg !=s "" then
     let jwksOpts := [Remote.WithCacheTTL (CacheTTL cfg); Remote.WithLogger] ++
                     match c_HTTPClient cfg with Some c => [Remote.WithHTTPClient c] | None => [] end in
     Ok (v (RemoteKeys (Remote.NewRemoteJWKS (JWKSURL cfg) jwksOpts)))
   else if PublicKeyFile cfg !=s "" then
     match loadPublicKey (PublicKeyFile cfg) with
     | Err e => Err (LoadingKey e)
     | Ok pub => Ok (v (StaticKey pub))
     end
   else Err NoKeySource, cfg)%list.

(** The surroundings of one validation: the clock, and the endpoint for up to
    two fetches of the key set. *)
Record Serve := MkServe { v_now : Time; v_t1 : Remote.Turn; v_t2 : Remote.Turn }.

Definition lookup_key (ks : KeySource) (e : Serve) (cache : Remote.Cache) (kid alg : string)
  : result Remote.RemoteErr PublicKey * Remote.Cache :=
  match ks with
  | StaticKey pub => (Ok pub, cache)
  | RemoteKeys r => fst (Remote.KeyFunc (Remote.r_ttl r) (v_t1 e) (v_t2 e) cache kid alg)
  end.

Inductive ValidateErr := VerifyFailed (e : VerifyErr Remote.RemoteErr) | ClaimMissing | ClaimNotString.

(** The kid and algorithm [Verify] asks a key for, when it gets that far. *)
Definition asked (tokenString : string) (cfg : VerifyConfig) : option (string * string) :=
  '(p0, _, _) ← split3 tokenString;
  headerBytes ← base64URLDecode p0;
  header ← Unmarshal headerBytes;
  let alg := as_string (header !! "alg") in
  if EqualFold alg "none" then None
  else if negb (match AllowedAlgorithms cfg with [] => true | l => existsb (fun a => a ==s alg) l end) then None
  else Some (as_string (header !! "kid"), alg).

Definition ValidateToken (v : Validator) (e : Serve) (cache : Remote.Cache) (tokenString : string)
  : result ValidateErr string * Remote.Cache :=
  let keys kid alg := lookup_key (keyFunc v) e cache kid alg in
  (match Verify Unmarshal digest rsa_verify ecdsa_verify ed25519_verify tokenString (fun kid alg => fst (keys kid alg))
           (Some (verifyCfg v)) (v_now e) with
   | Err err => Err (VerifyFailed err)
   | Ok vt =>
       match Claims vt !! subjectClaim v with
       | None => Err ClaimMissing
       | Some (VString s) => Ok s
       | Some _ => Err ClaimNotString
       end
   end,
   match asked tokenString (verifyCfg v) with
   | Some (kid, alg) => snd (keys kid alg)
   | None => cache
   end).

(** ** interceptor.go: [UnaryInterceptor] *)

(** Both refusals have the status Unauthenticated. *)
Inductive Refusal := EmptyToken | InvalidToken (e : ValidateErr).

(** The context the handler is called with, unless the call is refused. *)
Definition intercept (v : Validator) (e : Serve) (cache : Remote.Cache) (ctx : Context)
  : result Refusal Context * Remote.Cache :=
  match incoming ctx with
  | None => (Ok ctx, cache)
  | Some md =>
      match default [] (md !! "authorization") with
      | [] => (Ok ctx, cache)
      | value :: _ =>
          let token := TrimPrefix value "Bearer " in
          if token ==s "" then (Err EmptyToken, cache)
          else
            let '(r, cache) := ValidateToken v e cache token in
            (match r with Err err => Err (InvalidToken err) | Ok s => Ok (MkCtx (incoming ctx) (Some s)) end, cache)
      end
  end.

Definition UnaryInterceptor {Req Resp} (v : Validator) (e : Serve) (cache : Remote.Cache) (ctx : Context) (req : Req)
    (handler : Context -> Req -> result Refusal Resp) : result Refusal Resp * Remote.Cache :=
  let '(r, cache) := intercept v e cache ctx in
  (match r with Err refusal => Err refusal | Ok ctx => handler ctx req end, cache).

(** *** A subject is an authenticated one *)

(** [Verify] asks for a key at most once. *)
Lemma Verify_asks {E} token cfg now (f g : string -> string -> result E PublicKey) :
  match asked token cfg with Some (kid, alg) => f kid alg = g kid alg | None => True end ->
  Verify Unmarshal digest rsa_verify ecdsa_verify ed25519_verify token f (Some cfg) now =
  Verify Unmarshal digest rsa_verify ecdsa_verify ed25519_verify token g (Some cfg) now.
Proof.
  unfold asked, Verify, or_err. cbn [default from_option]. unfold id. destruct (split3 token) as [[[p0 p1] p2]|]; [|done].
  cbn [mbind option_bind]. destruct (base64URLDecode p0) as [hb|]; [|done]. cbn [mbind option_bind].
  destruct (Unmarshal hb) as [h|]; [|done]. cbn [mbind option_bind]. destruct (EqualFold _ _); [done|].
  destruct (negb _); [done|]. by intros ->.
Qed.

Abbreviation accepted_token := (accepted Unmarshal digest rsa_verify ecdsa_verify ed25519_verify).

(** The subject is the claim of a token that is authentic and current under
    the validator's configuration. *)
Definition authenticated (v : Validator) (e : Serve) (cache : Remote.Cache) (token s : string) : Prop :=
  exists tok, Claims tok !! subjectClaim v = Some (VString s) /\
    accepted_token token (fun kid alg => fst (lookup_key (keyFunc v) e cache kid alg)) (verifyCfg v) (v_now e) tok.

Lemma ValidateToken_sound v e cache token s :
  time_ok (v_now e) -> 0 <= ClockSkew (verifyCfg v) <= maxInt64 ->
  fst (ValidateToken v e cache token) = Ok s -> authenticated v e cache token s.
Proof.
  intros Hn Hs. unfold ValidateToken, authenticated. cbn [fst].
  destruct (Verify _ _ _ _ _ _ _ _ _) as [tok|] eqn:Hv; [|done]. apply Verify_accepted in Hv; [|done..].
  destruct (Claims tok !! subjectClaim v) as [[]|] eqn:Hc; try done. intros [= <-]. eauto.
Qed.

(** The first authorization value of a call. *)
Definition authorization (ctx : Context) : option string :=
  md ← incoming ctx; head (default [] (md !! "authorization")).

(** C24. A handler behind the interceptor sees a subject only if the caller presented a token for it:
    a call without authorization reaches the handler unchanged and without
    subject; one with authorization is refused, whatever the handler, or
    reaches it with the subject claim of a token that [Verify] accepted, with
    a key of the validator's source, at that moment. *)
Theorem subject_authenticated v e cache ctx :
  time_ok (v_now e) -> 0 <= ClockSkew (verifyCfg v) <= maxInt64 -> subject ctx = None ->
  (authorization ctx = None /\ SubjectFromContext ctx = None /\
   forall Req Resp (req : Req) (handler : Context -> Req -> result Refusal Resp),
     UnaryInterceptor v e cache ctx req handler = (handler ctx req, cache)) \/
  exists value, authorization ctx = Some value /\
    ((exists refusal, forall Req Resp (req : Req) (handler : Context -> Req -> result Refusal Resp),
        fst (UnaryInterceptor v e cache ctx req handler) = Err refusal) \/
     (exists s, authenticated v e cache (TrimPrefix value "Bearer ") s /\
        forall Req Resp (req : Req) (handler : Context -> Req -> result Refusal Resp),
          fst (UnaryInterceptor v e cache ctx req handler) = handler (TestContextWithSubject ctx s) req)).
Proof.
  intros Hn Hs Hsub. unfold UnaryInterceptor, intercept, authorization, SubjectFromContext.
  destruct (incoming ctx) as [md|] eqn:Hi; [|by left]. cbn [mbind option_bind].
  destruct (default [] (md !! "authorization")) as [|value l]; [by left|]. right. exists value. split; [done|].
  destruct (String.eqb_spec (TrimPrefix value "Bearer ") "") as [|_]; [left; by exists EmptyToken|].
  pose proof (ValidateToken_sound v e cache (TrimPrefix value "Bearer ")) as Hv.
  destruct (ValidateToken _ _ _ _) as [[s|err] cache']; cbn in *; [right|left; by eexists].
  exists s. split; [by apply Hv|]. intros. unfold TestContextWithSubject. by rewrite Hi.
Qed.

(** A lifetime that was not configured replaces the resolver's default of five
    minutes: each validation fetches the key set. *)
Lemma unset_lifetime_disables_cache cfg v :
  JWKSURL cfg <> "" -> CacheTTL cfg = 0 -> fst (NewValidator cfg) = Ok v ->
  exists r, keyFunc v = RemoteKeys r /\
    forall ks at_ t, 0 <= Remote.t_now t - at_ <= maxInt64 -> snd (Remote.getJWKS (Remote.r_ttl r) t (Some (ks, at_))) = true.
Proof.
  unfold NewValidator. intros Hu%String.eqb_neq Ht. cbn [JWKSURL fst]. rewrite Hu, Ht. cbn [negb].
  intros [= <-]. eexists. split; [reflexivity|]. intros ks at_ t Hb. unfold Remote.getJWKS.
  assert (Remote.r_ttl (Remote.NewRemoteJWKS (JWKSURL cfg) ([Remote.WithCacheTTL 0; Remote.WithLogger] ++
    match c_HTTPClient cfg with Some c => [Remote.WithHTTPClient c] | None => [] end)%list) = 0) as Hz
    by (by destruct (c_HTTPClient cfg)).
  unfold keyFunc in *. cbn in Hz |- *. rewrite Hz. rewrite Sub_small by (unfold int64_range, maxInt64 in *; lia).
  destruct (Z.ltb_spec (Remote.t_now t - at_) 0); [lia|done].
Qed.

End Validator.
Arguments Config : clear implicits.
Arguments Validator : clear implicits.
Arguments KeySource : clear implicits.

(** ** token_source.go *)

Definition tokenRefreshBuffer : Z := 30 * Second.

Section Source.
Context {K : Type} `{GolangJwt K}.

Record ServiceTokenSource := MkSource {
  src_kp : KeyPair K; src_cfg : SigningConfig; src_subject : string; src_token : string; src_expiry : Time }.

Definition zeroTime : Time := MkTime 0 0.

Definition NewServiceTokenSource (kp : KeyPair K) (subject : string) (cfg : SigningConfig) : ServiceTokenSource :=
  MkSource kp cfg subject "" zeroTime.

(** The three times a call reads the clock: the check, inside signing, and for
    the expiry. *)
Record Clocks := MkClocks { at_check : Time; at_sign : Time; at_expiry : Time }.

Definition subject_claims (s : string) : MapClaims := <["sub" := Text s]> ∅.

(** Runs under the mutex. *)
Definition cachedToken (s : ServiceTokenSource) (c : Clocks) : result SignErr string * ServiceTokenSource :=
  if (src_token s !=s "") && Before (at_check c) (src_expiry s) then (Ok (src_token s), s)
  else
    match SignWithConfig (at_sign c) (src_kp s) (Some (src_cfg s)) (subject_claims (src_subject s)) with
    | Err e => (Err e, s)
    | Ok tok =>
        (Ok tok, MkSource (src_kp s) (src_cfg s) (src_subject s) tok
                   (Add (at_expiry c) (wrap64 (s_TTL (src_cfg s) - tokenRefreshBuffer))))
    end.

Definition GetRequestMetadata (s : ServiceTokenSource) (c : Clocks) : result SignErr (gmap string string) * ServiceTokenSource :=
  let '(r, s) := cachedToken s c in
  (match r with Err e => Err e | Ok tok => Ok (<["authorization" := "Bearer " +:+ tok]> ∅) end, s).

Definition RequireTransportSecurity (_ : ServiceTokenSource) : bool := true.

Fixpoint calls (s : ServiceTokenSource) (cs : list Clocks) : ServiceTokenSource :=
  match cs with [] => s | c :: cs => calls (snd (GetRequestMetadata s c)) cs end.

(** *** Tokens on the wire are current *)

(** The clock does not go back, and one call takes at most [slack]. *)
Definition clocks_ok (slack : Z) (c : Clocks) : Prop :=
  dated (at_check c) /\ dated (at_sign c) /\ dated (at_expiry c) /\
  ns (at_check c) <= ns (at_sign c) <= ns (at_expiry c) /\ ns (at_expiry c) <= ns (at_check c) + slack.

Fixpoint in_order (slack : Z) (last : Z) (cs : list Clocks) : Prop :=
  match cs with
  | [] => True
  | c :: cs => last <= ns (at_check c) /\ clocks_ok slack c /\ in_order slack (ns (at_expiry c)) cs
  end.

Definition signed_at (s : ServiceTokenSource) (t : Time) (tok : string) : Prop :=
  dated t /\ SignWithConfig t (src_kp s) (Some (src_cfg s)) (subject_claims (src_subject s)) = Ok tok.

(** A cached token was signed a moment before its refresh time was set. *)
Definition source_inv (slack : Z) (last : Z) (s : ServiceTokenSource) : Prop :=
  src_token s = "" \/
  exists ts te, signed_at s ts (src_token s) /\ dated te /\ ns ts <= ns te <= ns ts + slack /\ ns te <= last /\
    src_expiry s = Add te (wrap64 (s_TTL (src_cfg s) - tokenRefreshBuffer)).

Lemma cachedToken_keeps s c :
  let s' := snd (cachedToken s c) in src_kp s' = src_kp s /\ src_cfg s' = src_cfg s /\ src_subject s' = src_subject s.
Proof. unfold cachedToken. destruct (_ && _); [done|]. by destruct (SignWithConfig _ _ _ _). Qed.

Lemma source_inv_mono slack a b s : a <= b -> source_inv slack a s -> source_inv slack b s.
Proof. intros Hab [?|(ts & te & ? & ? & ? & ? & ?)]; [by left|]. right. exists ts, te. repeat (split; [done|]). split; [lia|done]. Qed.

Lemma cachedToken_inv slack last s c :
  last <= ns (at_check c) -> clocks_ok slack c -> source_inv slack last s ->
  source_inv slack (ns (at_expiry c)) (snd (cachedToken s c)).
Proof.
  intros Hl (Hd1 & Hd2 & Hd3 & Ho & Hsl) Hinv. unfold cachedToken. destruct (_ && _); cbn [snd].
  { eapply source_inv_mono; [|done]. lia. }
  destruct (SignWithConfig _ _ _ _) as [tok|] eqn:Hs; cbn [snd]; [|eapply source_inv_mono; [|done]; lia].
  right. exists (at_sign c), (at_expiry c). cbn. unfold signed_at. repeat (split; [done|]). split; [lia|]. split; [lia|done].
Qed.

Lemma calls_inv slack last s cs :
  in_order slack last cs -> source_inv slack last s -> 0 <= slack ->
  exists last', source_inv slack last' (calls s cs) /\ last <= last' /\
    (forall c, in_order slack last (cs ++ [c]) -> last' <= ns (at_check c) /\ clocks_ok slack c).
Proof.
  revert last s. induction cs as [|c cs IH]; intros last s Hord Hinv Hs; cbn [calls].
  { exists last. split; [done|]. split; [lia|]. by intros c (? & ? & _). }
  destruct Hord as (Hl & Hc & Hord). specialize (IH (ns (at_expiry c)) (snd (GetRequestMetadata s c)) Hord).
  destruct IH as (last' & Hi & Hle & Hn); [|done|].
  { unfold GetRequestMetadata. pose proof (cachedToken_inv slack last s c Hl Hc Hinv) as Hx. by destruct (cachedToken s c). }
  destruct Hc as (? & ? & ? & ? & ?). exists last'. split; [done|]. split; [lia|]. intros c' (_ & _ & Ho). by apply Hn.
Qed.

Lemma calls_keeps s cs :
  src_kp (calls s cs) = src_kp s /\ src_cfg (calls s cs) = src_cfg s /\ src_subject (calls s cs) = src_subject s.
Proof.
  revert s; induction cs as [|c cs IH]; intros s; [done|]. cbn [calls]. destruct (IH (snd (GetRequestMetadata s c))) as (-> & -> & ->).
  pose proof (cachedToken_keeps s c) as Hk. unfold GetRequestMetadata. by destruct (cachedToken s c).
Qed.

(** How long the token of a call is good. *)
Lemma cachedToken_current slack last s c tok :
  last <= ns (at_check c) -> clocks_ok slack c -> source_inv slack last s ->
  tokenRefreshBuffer <= s_TTL (src_cfg s) <= maxInt64 ->
  fst (cachedToken s c) = Ok tok ->
  exists ts, signed_at s ts tok /\ ns ts <= ns (at_expiry c) /\
    ns (at_check c) + 29 * Second - slack < unix (Add ts (s_TTL (src_cfg s))) * Second.
Proof.
  intros Hl (Hd1 & Hd2 & Hd3 & Ho & Hsl) Hinv Httl. assert (tokenRefreshBuffer = 30 * Second) as Hbuf by done.
  assert (forall t, dated t -> ns t + s_TTL (src_cfg s) < unix (Add t (s_TTL (src_cfg s))) * Second + Second) as Hexp.
  { intros t Ht. destruct (Add_dated t (s_TTL (src_cfg s)) Ht) as (Hok & Hn & _); [unfold tokenRefreshBuffer, Second in *; lia|].
    pose proof (unix_ns _ Hok). unfold Second in *. lia. }
  unfold cachedToken. destruct (_ && _) eqn:Hfresh; cbn [fst].
  - intros [= <-]. apply andb_true_iff in Hfresh as [Hne Hb]. apply negb_true_iff, String.eqb_neq in Hne.
    destruct Hinv as [|(ts & te & Hsig & Hdt & Hts & Hte & Hx)]; [done|]. exists ts. split; [done|]. split; [lia|].
    unfold Before in Hb. rewrite Hx, wrap64_id in Hb by (unfold int64_range, tokenRefreshBuffer, maxInt64, Second in *; lia).
    destruct (Add_dated te (s_TTL (src_cfg s) - tokenRefreshBuffer) Hdt) as (Hok & Hn & _); [unfold tokenRefreshBuffer, Second in *; lia|].
    apply After_ns in Hb; [|done|apply Hd1]. specialize (Hexp ts (proj1 Hsig)). unfold tokenRefreshBuffer, Second in *. lia.
  - destruct (SignWithConfig _ _ _ _) as [t|] eqn:Hs; [|done]. intros [= <-]. exists (at_sign c). split; [done|]. split; [lia|].
    specialize (Hexp _ Hd2). unfold tokenRefreshBuffer, Second in *. lia.
Qed.

End Source.
Arguments ServiceTokenSource : clear implicits.

(** ** A service calls another *)

Lemma subject_claims_lookup s name a : subject_claims s !! name = Some a -> name = "sub" /\ a = Text s.
Proof. unfold subject_claims. rewrite lookup_insert_Some, lookup_empty. naive_solver. Qed.

Lemma subject_claims_names s : json_names (subject_claims s).
Proof. intros k [a [-> _]%subject_claims_lookup]. done. Qed.

Lemma subject_claims_reserved s name : name ∈ reserved -> subject_claims s !! name = None.
Proof.
  intros Hn. destruct (subject_claims s !! name) as [a|] eqn:Ha; [|done]. apply subject_claims_lookup in Ha as [-> _].
  unfold reserved in Hn. set_solver.
Qed.

(** The metadata of a call as the server receives it. *)
Definition received (md : gmap string string) : Context := MkCtx (Some ((fun v => [v]) <$> md)) None.

Section ServiceCall.
Context {K C : Type} `{GolangJwt K}.
Context (Public : K -> PublicKey).
Context (Unmarshal : string -> option object) (digest : Hash -> string -> string).
Context (rsa_verify : N -> Z -> Hash -> string -> string -> bool).
Context (ecdsa_verify : Curve -> N -> N -> string -> N -> N -> bool) (ed25519_verify : string -> string -> string -> bool).
Context (decoded : any -> value) (can_sign : K -> SigningMethod -> Prop).
Context {laws : GolangJwtLaws Public Unmarshal digest rsa_verify ed25519_verify decoded can_sign}.

(** A verified token with the service's claims names the service. *)
Lemma intercept_service (v : Validator C) e cache now cfg tok subj header :
  subjectClaim v = "sub" -> ValidString subj = true ->
  Verify Unmarshal digest rsa_verify ecdsa_verify ed25519_verify tok
    (fun kid alg => fst (lookup_key (keyFunc v) e cache kid alg)) (Some (verifyCfg v)) (v_now e) =
    Ok (MkToken header (decoded <$> config_claims now cfg (subject_claims subj))) ->
  forall Req Resp (req : Req) (handler : Context -> Req -> result Refusal Resp),
    let ctx := received (<["authorization" := "Bearer " +:+ tok]> ∅) in
    fst (UnaryInterceptor Unmarshal digest rsa_verify ecdsa_verify ed25519_verify v e cache ctx req handler) =
    handler (TestContextWithSubject ctx subj) req.
Proof.
  intros Hc Hu Hv Req Resp req handler ctx. unfold UnaryInterceptor, intercept, ctx, received. cbn [incoming].
  change (((fun v => [v]) <$> (<["authorization" := "Bearer " +:+ tok]> ∅ : gmap string string)) !! "authorization")
    with (Some ["Bearer " +:+ tok]). cbn [default from_option]. unfold id.
  change (TrimPrefix ("Bearer " +:+ tok) "Bearer ") with tok.
  destruct (String.eqb_spec tok "") as [->|_]; [done|]. unfold ValidateToken. rewrite Hv, Hc. cbn [Claims].
  rewrite lookup_fmap. unfold config_claims. rewrite (lookup_union_Some_l _ _ "sub" (Text subj)) by done.
  cbn [fmap option_fmap option_map].
  by rewrite (decoded_text Public Unmarshal digest rsa_verify ed25519_verify _ Hu).
Qed.

(** C25. Calls between services are authenticated end to end, for tokens whose
    lifetime is at least 30 seconds: whatever calls a token source served
    before, the metadata of the next one, received by a server that trusts the
    service's key and expects its issuer and audience, gets the call to the
    handler with the service as its subject, at any moment from the end of
    that call until 29 seconds after its start (less the time a call takes):
    the margin of refreshing 30 seconds early, with dates cut to the second.  A
    token with a shorter lifetime is valid for that lifetime only. *)
Theorem service_call_authenticated kp subj cfg cs c slack v e cache :
  pair_ok Public kp -> utf8_config cfg -> ValidString subj = true ->
  (forall m, method_alg m = Algorithm kp -> can_sign (kp_Private kp) m) ->
  tokenRefreshBuffer <= s_TTL cfg <= maxInt64 -> 0 <= slack -> in_order slack 0 (cs ++ [c]) ->
  fst (lookup_key (keyFunc v) e cache (KID kp) (Algorithm kp)) = Ok (kp_Public kp) -> subjectClaim v = "sub" ->
  parties_fit cfg (verifyCfg v) -> AllowedAlgorithms (verifyCfg v) = [] \/ Algorithm kp ∈ AllowedAlgorithms (verifyCfg v) ->
  0 <= ClockSkew (verifyCfg v) <= maxInt64 -> time_ok (v_now e) ->
  ns (at_expiry c) <= ns (v_now e) <= ns (at_check c) + 29 * Second - slack ->
  exists md, fst (GetRequestMetadata (calls (NewServiceTokenSource kp subj cfg) cs) c) = Ok md /\
    forall Req Resp (req : Req) (handler : Context -> Req -> result Refusal Resp),
      fst (UnaryInterceptor (C := C) Unmarshal digest rsa_verify ecdsa_verify ed25519_verify v e cache (received md) req handler) =
      handler (TestContextWithSubject (received md) subj) req.
Proof.
  intros Hkp Hu Hsubj Hcan Httl Hsl Hord Hkey Hclaim Hp Hal Hsk Hnow Hwin.
  set (s0 := NewServiceTokenSource kp subj cfg). assert (in_order slack 0 cs) as Hord'.
  { clear -Hord. revert Hord. generalize 0. induction cs as [|d cs IH]; intros l; [done|]. intros (? & ? & ?). cbn. eauto. }
  destruct (calls_inv slack 0 s0 cs Hord') as (last & Hinv & _ & Hnext); [by left|done|].
  destruct (Hnext c Hord) as [Hl Hc]. destruct (calls_keeps s0 cs) as (Hk1 & Hk2 & Hk3).
  change (src_kp s0) with kp in Hk1. change (src_cfg s0) with cfg in Hk2. change (src_subject s0) with subj in Hk3.
  set (s := calls s0 cs) in *.
  assert (exists tok, fst (cachedToken s c) = Ok tok) as [tok Htok].
  { unfold cachedToken. destruct (_ && _); [by eexists|]. rewrite Hk1, Hk2, Hk3.
    destruct (SignWithConfig_total Public Unmarshal digest rsa_verify ed25519_verify kp cfg (subject_claims subj) (at_sign c) Hkp Hcan)
      as [t ->]; [|by eexists]. by intros n a [_ ->]%subject_claims_lookup. }
  destruct (cachedToken_current slack last s c tok Hl Hc Hinv) as (ts & [Hd Hsig] & Hts & Hexp); [by rewrite Hk2|done|].
  rewrite Hk1, Hk2, Hk3 in Hsig. rewrite Hk2 in Hexp.
  destruct (SignWithConfig_Verify Public Unmarshal digest rsa_verify ecdsa_verify ed25519_verify (E := Remote.RemoteErr)
    kp cfg (subject_claims subj) (verifyCfg v) (fun kid alg => fst (lookup_key (keyFunc v) e cache kid alg)) ts (v_now e) tok)
    as [header Hv]; try done.
  - apply subject_claims_names.
  - apply subject_claims_reserved.
  - unfold tokenRefreshBuffer, Second in *. lia.
  - pose proof (unix_ns ts (proj1 Hd)). lia.
  - exists (<["authorization" := "Bearer " +:+ tok]> ∅). split.
    { unfold GetRequestMetadata. destruct (cachedToken s c) as [r s'] eqn:E. cbn in Htok. by rewrite Htok. }
    by eapply intercept_service.
Qed.

End ServiceCall.

Module ServiceDemo.
Import JwtSign.DemoLib.

Definition sec (n : Z) : Time := MkTime (n + unixToInternal) 0.
Definition clocks (n : Z) : Clocks := MkClocks (sec n) (sec n) (sec n).
Definition cfg : SigningConfig := MkSigning "svc" ["authz"] (60 * Second).
Definition validator : Validator unit := MkValidator (StaticKey (EdKey key32)) (MkVerify [] "svc" "authz" 0) "sub".
Definition serve (n : Z) : Serve := MkServe (sec n) (Remote.down 0) (Remote.down 0).

Lemma sec_dated n : 0 <= n < 2 ^ 52 -> dated (sec n).
Proof. unfold dated, time_ok, sec, unix. cbn. unfold unixToInternal, Second. lia. Qed.

Lemma clocks_demo n : 0 <= n < 2 ^ 52 -> clocks_ok 0 (clocks n).
Proof. intros Hn%sec_dated. unfold clocks_ok. cbn. repeat (split; [done|]). lia. Qed.

(** The second call is served from the cache, 28 seconds after the first. *)
Lemma service_call_authenticated_witness :
  exists md, fst (GetRequestMetadata (calls (NewServiceTokenSource pair "svc:a" cfg) [clocks 1000]) (clocks 1028)) = Ok md /\
    forall Req Resp (req : Req) (handler : Context -> Req -> result Refusal Resp),
      fst (UnaryInterceptor (C := unit) unmarshal (fun _ s => s) (fun _ _ _ _ _ => false) (fun _ _ _ _ _ _ => false) ed
             validator (serve 1057) None (received md) req handler) =
      handler (TestContextWithSubject (received md) "svc:a") req.
Proof.
  refine (service_call_authenticated EdKey unmarshal (fun _ s => s) (fun _ _ _ _ _ => false) (fun _ _ _ _ _ _ => false) ed
    decoded can_sign pair "svc:a" cfg [clocks 1000] (clocks 1028) 0 validator (serve 1057) None _ _ _ _ _ _ _ _ _ _ _ _ _ _).
  - split; [reflexivity|]. split; [reflexivity|]. apply ComputeKID_valid.
  - split; [reflexivity|repeat constructor].
  - reflexivity.
  - intros [| |] Hm; done.
  - split; vm_compute; discriminate.
  - lia.
  - split; [vm_compute; discriminate|]. split; [apply clocks_demo; lia|].
    split; [vm_compute; discriminate|]. split; [apply clocks_demo; lia|exact I].
  - reflexivity.
  - reflexivity.
  - split; right; [reflexivity|left].
  - left. reflexivity.
  - split; vm_compute; discriminate.
  - split; vm_compute; [discriminate|reflexivity].
  - split; vm_compute; discriminate.
Defined.

(** A token that lives 10 seconds is refused 20 seconds after the call. *)
Example short_lifetime_refused :
  match fst (GetRequestMetadata (NewServiceTokenSource pair "svc:a" (MkSigning "svc" ["authz"] (10 * Second))) (clocks 1000)) with
  | Ok md => is_ok (fst (UnaryInterceptor (C := unit) unmarshal (fun _ s => s) (fun _ _ _ _ _ => false) (fun _ _ _ _ _ _ => false) ed
               validator (serve 1020) None (received md) tt (fun _ _ => Ok tt)))
  | Err _ => true
  end = false.
Proof. vm_compute. reflexivity. Qed.

(** Within the first half of the lifetime the token is reused, at 30 seconds
    before its end it is replaced; a lifetime of 30 seconds is never cached. *)
Example reused : snd (cachedToken (calls (NewServiceTokenSource pair "svc:a" cfg) [clocks 1000]) (clocks 1029)) =
  calls (NewServiceTokenSource pair "svc:a" cfg) [clocks 1000].
Proof. reflexivity. Qed.

Example replaced : src_expiry (snd (cachedToken (calls (NewServiceTokenSource pair "svc:a" cfg) [clocks 1000]) (clocks 1030))) = sec 1060.
Proof. vm_compute. reflexivity. Qed.

Definition half : SigningConfig := MkSigning "svc" ["authz"] (30 * Second).
Example not_cached : src_expiry (calls (NewServiceTokenSource pair "svc:a" half) [clocks 1000; clocks 1000]) = sec 1000.
Proof. vm_compute. reflexivity. Qed.

Lemma subject_authenticated_witness :
  let ctx := MkCtx (Some ∅) None in
  (authorization ctx = None /\ SubjectFromContext ctx = None /\
   forall Req Resp (req : Req) (handler : Context -> Req -> result Refusal Resp),
     UnaryInterceptor (C := unit) unmarshal (fun _ s => s) (fun _ _ _ _ _ => false) (fun _ _ _ _ _ _ => false) ed
       validator (serve 1057) None ctx req handler = (handler ctx req, None)) \/
  exists value, authorization ctx = Some value /\
    ((exists refusal, forall Req Resp (req : Req) (handler : Context -> Req -> result Refusal Resp),
        fst (UnaryInterceptor unmarshal (fun _ s => s) (fun _ _ _ _ _ => false) (fun _ _ _ _ _ _ => false) ed
          validator (serve 1057) None ctx req handler) = Err refusal) \/
     (exists s, authenticated unmarshal (fun _ s => s) (fun _ _ _ _ _ => false) (fun _ _ _ _ _ _ => false) ed
          validator (serve 1057) None (TrimPrefix value "Bearer ") s /\
        forall Req Resp (req : Req) (handler : Context -> Req -> result Refusal Resp),
          fst (UnaryInterceptor unmarshal (fun _ s => s) (fun _ _ _ _ _ => false) (fun _ _ _ _ _ _ => false) ed
            validator (serve 1057) None ctx req handler) = handler (TestContextWithSubject ctx s) req)).
Proof.
  refine (subject_authenticated unmarshal (fun _ s => s) (fun _ _ _ _ _ => false) (fun _ _ _ _ _ _ => false) ed
    validator (serve 1057) None (MkCtx (Some ∅) None) _ _ _).
  - split; vm_compute; [discriminate|reflexivity].
  - split; vm_compute; discriminate.
  - reflexivity.
Defined.

End ServiceDemo.
