(* ===== verification/GrpcDial.v ===== *)
(** * gRPC connections (src/grpcdial, src/authzclient)

    [Dial] with its TLS configuration, per-call credentials and default
    timeout, and the client of csar-authz.  [grpc.NewClient] is an argument. *)
From S2P Require Import Prelude GoStrings Tlsx.
Local Open Scope string_scope.
Local Open Scope Z_scope.

Section Dial.
(** Per-call credentials, and connections. *)
Context {Creds Conn : Type}.
Context {Cert Pool : Type}.
Context (LoadX509KeyPair : string -> string -> option Cert) (ReadFile : string -> option string)
  (CertsFromPEM : string -> option Pool).

Record Config := MkConfig {
  Address : string; Insecure : bool; RequireCA : bool; CAFile : string; CertFile : string; KeyFile : string;
  DefaultTimeout : Z; TokenSource : option Creds }.

Inductive TransportCredentials := InsecureCredentials | TLSCredentials (tc : TLSConfig (Cert := Cert) (Pool := Pool)).

Inductive DialOption :=
| WithTransportCredentials (t : TransportCredentials) | WithPerRPCCredentials (c : Creds) | WithUnaryInterceptor (timeout : Z).

Inductive DialErr := NilConfig | NoAddress | CARequired | TLSFailed (e : tls_error) | NewClientFailed.

Context (NewClient : string -> list DialOption -> option Conn).

Definition transport_options (cfg : Config) : result DialErr (list DialOption) :=
  if Insecure cfg then Ok [WithTransportCredentials InsecureCredentials]
  else if RequireCA cfg && (CAFile cfg ==s "") then Err CARequired
  else match NewClientTLSConfig LoadX509KeyPair ReadFile CertsFromPEM
               (MkClientConfig (CAFile cfg) (CertFile cfg) (KeyFile cfg) "" false) with
       | Err e => Err (TLSFailed e)
       | Ok tc => Ok [WithTransportCredentials (TLSCredentials tc)]
       end.

(** The options [Dial] passes on. *)
Definition dial_options (cfg : Config) : result DialErr (list DialOption) :=
  let? opts := transport_options cfg in
  let opts := (opts ++ match TokenSource cfg with Some c => [WithPerRPCCredentials c] | None => [] end)%list in
  Ok (opts ++ if 0 <? DefaultTimeout cfg then [WithUnaryInterceptor (DefaultTimeout cfg)] else [])%list.

Definition Dial (cfg : option Config) : result DialErr Conn :=
  match cfg with
  | None => Err NilConfig
  | Some cfg =>
      if Address cfg ==s "" then Err NoAddress
      else
        let? opts := dial_options cfg in
        match NewClient (Address cfg) opts with Some conn => Ok conn | None => Err NewClientFailed end
  end.

(** [timeoutInterceptor]: the deadline of the context a call is made with. *)
Definition timeoutInterceptor {R} (d : Z) (now : Z) (deadline : option Z) (invoker : option Z -> R) : R :=
  invoker (Some (match deadline with Some t => Z.min t (now + d) | None => now + d end)).

(** ** authzclient/client.go *)

Record AuthzConfig := MkAuthz {
  z_Address : string; z_Insecure : bool; z_CAFile : string; z_CertFile : string; z_KeyFile : string;
  z_TokenSource : option Creds; z_DefaultTimeout : Z }.

Definition authz_Dial {Service} (NewAuthzServiceClient : Conn -> Service) (cfg : AuthzConfig) : result DialErr (Conn * Service) :=
  match Dial (Some (MkConfig (z_Address cfg) (z_Insecure cfg) false (z_CAFile cfg) (z_CertFile cfg) (z_KeyFile cfg)
                     (z_DefaultTimeout cfg) (z_TokenSource cfg))) with
  | Err e => Err e
  | Ok conn => Ok (conn, NewAuthzServiceClient conn)
  end.

(** ** What a connection guarantees *)

Context (RequireTransportSecurity : Creds -> bool).
(** Documented: a client whose per-call credentials require transport security
    is not made without it. *)
Context (NewClient_secure : forall addr opts c,
  WithTransportCredentials InsecureCredentials ∈ opts -> WithPerRPCCredentials c ∈ opts -> RequireTransportSecurity c = true ->
  NewClient addr opts = None).

(** Tokens that require transport security are only sent over TLS 1.2 or
    later to a verified server, whose authority is the configured one. *)
Lemma tokens_over_tls cfg conn c :
  Dial (Some cfg) = Ok conn -> TokenSource cfg = Some c -> RequireTransportSecurity c = true ->
  exists tc, dial_options cfg = Ok (WithTransportCredentials (TLSCredentials tc) :: WithPerRPCCredentials c ::
      (if 0 <? DefaultTimeout cfg then [WithUnaryInterceptor (DefaultTimeout cfg)] else [])) /\
    VersionTLS12 <= t_MinVersion tc /\ t_InsecureSkipVerify tc = false /\ (is_Some (RootCAs tc) <-> CAFile cfg <> "").
Proof.
  unfold Dial. destruct (Address cfg ==s ""); [done|]. destruct (dial_options cfg) as [opts|] eqn:Ho; [|done].
  destruct (NewClient _ opts) as [conn'|] eqn:Hc; [|done]. intros _ Ht Hr.
  unfold dial_options, transport_options in Ho. rewrite Ht in Ho. destruct (Insecure cfg).
  - injection Ho as <-. rewrite (NewClient_secure _ _ c) in Hc; [done| | |done]; set_solver.
  - destruct (RequireCA cfg && _); [done|]. destruct (NewClientTLSConfig _ _ _ _) as [tc|] eqn:Htc; [|done].
    injection Ho as <-. exists tc. split; [done|]. unfold NewClientTLSConfig in Htc. rewrite then_ok in Htc. destruct Htc as [_ Htc].
    apply bind_ok in Htc as (pool & Hp & Htc). apply bind_ok in Htc as (certs & _ & [= <-]). cbn. split; [done|]. split; [done|].
    by apply (load_pool_some ReadFile CertsFromPEM _ _ Hp).
Qed.

(** A call never waits past the default timeout nor past its caller's deadline. *)
Lemma timeout_bounds d now deadline :
  timeoutInterceptor d now deadline (fun t => match t with Some t => t <= now + d /\ (forall u, deadline = Some u -> t <= u) | None => False end).
Proof. unfold timeoutInterceptor. destruct deadline as [u|]; split; try lia; intros ? [= <-]; lia. Qed.

End Dial.
