(* ===== verification/RouterClient.v ===== *)
(** * Authenticated calls through the router
    (src/stsclient/service.go, src/stsclient/client.go, src/audit/router_client.go)

    The assertion a service signs for the token exchange, the construction of a
    router client from its configuration (keys, TLS, token source, retries) and
    what a request sends, and the audit transport over it.  Files, X.509 and the
    signing library are as in [JwtSign] and [Tlsx]. *)
From S2P Require Import Prelude GoStrings HttpResponse TokenMint AuditList GatewayCtx Jwt JwtSign AuditEvent AsyncClient Transport StsClient Tlsx.
Import Jwt.Std.
Local Open Scope string_scope.
Local Open Scope Z_scope.

(** ** client.go: [signAssertion] *)

Section Assertion.
Context {K : Type} `{GolangJwt K}.

Definition assertion_map (ts : TokenSource) (now : Time) (jti : string) : MapClaims :=
  <["iss" := JwtSign.Text (ServiceName (cfg ts))]>
  (<["aud" := JwtSign.Text (AssertionAudience (cfg ts))]>
  (<["sub" := JwtSign.Text (ServiceName (cfg ts))]>
  (<["iat" := Int64 (unix now)]>
  (<["nbf" := Int64 (unix now)]>
  (<["exp" := Int64 (unix (Add now (assertTTL ts)))]>
  (<["jti" := JwtSign.Text jti]> ∅)))))).

Inductive AssertErr := JTIFailed | AssertSign (e : SignErr).

(** [jti] is the random identifier, if there was enough randomness. *)
Definition signAssertion (ts : TokenSource) (kp : JwtSign.KeyPair K) (now : Time) (jti : option string) : result AssertErr string :=
  match jti with
  | None => Err JTIFailed
  | Some jti => match Sign kp (assertion_map ts now jti) with Ok tok => Ok tok | Err e => Err (AssertSign e) end
  end.

(** The form [Token] posts to the endpoint. *)
Definition sts_form (ts : TokenSource) (assertion : string) : list (string * string) :=
  [("grant_type", "urn:ietf:params:oauth:grant-type:jwt-bearer"); ("assertion", assertion); ("audience", Audience (cfg ts))].

(** The exchange of one call of [Token]: [post] answers the form. *)
Definition exchange_of (ts : TokenSource) (assertion : result AssertErr string) (post : list (string * string) -> exchange) : exchange :=
  match assertion with Err _ => XSign | Ok a => post (sts_form ts a) end.

(** *** The endpoint can verify the assertion *)

Context (Public : K -> PublicKey).
Context (Unmarshal : string -> option object) (digest : Hash -> string -> string).
Context (rsa_verify : N -> Z -> Hash -> string -> string -> bool).
Context (ecdsa_verify : Curve -> N -> N -> string -> N -> N -> bool) (ed25519_verify : string -> string -> string -> bool).
Context (decoded : any -> value) (can_sign : K -> SigningMethod -> Prop).
Context {laws : GolangJwtLaws Public Unmarshal digest rsa_verify ed25519_verify decoded can_sign}.

Definition names7 : list string := ["iss"; "aud"; "sub"; "iat"; "nbf"; "exp"; "jti"].

Lemma assertion_map_Some ts now jti k a : assertion_map ts now jti !! k = Some a -> k ∈ names7 /\ plain_any a.
Proof. unfold assertion_map, names7. rewrite !lookup_insert_Some, lookup_empty. intros Ha. split; [set_solver|naive_solver]. Qed.

Lemma assertion_names ts now jti : json_names (assertion_map ts now jti).
Proof. intros k [a [Hk _]%assertion_map_Some]. unfold names7 in Hk. set_unfold in Hk. by destruct_or? Hk; subst k. Qed.

Lemma int_claim claims key z :
  claims !! key = Some (Int64 z) -> 0 <= z < 2 ^ 53 -> numericClaim (decoded <$> claims) key = Some z.
Proof.
  intros Hc Hz. destruct (decoded_int Public Unmarshal digest rsa_verify ed25519_verify z Hz) as (f & Hd & Hf).
  unfold numericClaim. rewrite lookup_fmap, Hc. cbn [fmap option_fmap option_map]. by rewrite Hd, Hf.
Qed.

Lemma assertion_parties {E} ts now jti vcfg :
  ValidString (ServiceName (cfg ts)) = true -> ValidString (AssertionAudience (cfg ts)) = true ->
  RequiredIssuer vcfg = ServiceName (cfg ts) -> RequiredAudience vcfg = AssertionAudience (cfg ts) ->
  @check_parties E (decoded <$> assertion_map ts now jti) vcfg = Ok tt.
Proof.
  intros Hs Ha Hi Hr. unfold check_parties. rewrite !lookup_fmap.
  change (assertion_map ts now jti !! "iss") with (Some (JwtSign.Text (ServiceName (cfg ts)))).
  change (assertion_map ts now jti !! "aud") with (Some (JwtSign.Text (AssertionAudience (cfg ts)))).
  cbn [fmap option_fmap option_map]. rewrite !(decoded_text Public Unmarshal digest rsa_verify ed25519_verify) by done.
  cbn [as_string audienceContains]. by rewrite Hi, Hr, !String.eqb_refl, !andb_false_r.
Qed.

(** A signed assertion is accepted by an endpoint that knows the service's key
    and expects the service as issuer and itself as audience, for the
    assertion's lifetime. *)
Lemma assertion_accepted {E} ts kp now jti now' vcfg (keys : string -> string -> result E PublicKey) :
  pair_ok Public kp -> (forall m, method_alg m = Algorithm kp -> can_sign (kp_Private kp) m) ->
  ValidString (ServiceName (cfg ts)) = true -> ValidString (AssertionAudience (cfg ts)) = true ->
  dated now -> 0 <= assertTTL ts <= maxInt64 -> time_ok now' ->
  keys (KID kp) (Algorithm kp) = Ok (kp_Public kp) -> AllowedAlgorithms vcfg = [] \/ Algorithm kp ∈ AllowedAlgorithms vcfg ->
  RequiredIssuer vcfg = ServiceName (cfg ts) -> RequiredAudience vcfg = AssertionAudience (cfg ts) ->
  0 <= ClockSkew vcfg <= maxInt64 ->
  unix now * Second - ClockSkew vcfg <= ns now' <= unix (Add now (assertTTL ts)) * Second + ClockSkew vcfg ->
  exists assertion header, signAssertion ts kp now (Some jti) = Ok assertion /\
    verify Unmarshal digest rsa_verify ecdsa_verify ed25519_verify assertion keys (Some vcfg) now' =
      Ok (MkToken header (decoded <$> assertion_map ts now jti)).
Proof.
  intros Hkp Hcan Hs Ha Hd Ht Hn' Hk Hal Hi Hr Hsk Hwin.
  destruct (Sign_total Public Unmarshal digest rsa_verify ed25519_verify kp (assertion_map ts now jti) Hkp Hcan) as [tok Htok].
  { intros k a Hka. by apply assertion_map_Some in Hka as [_ ?]. }
  destruct (Add_dated _ _ Hd Ht) as (_ & _ & Hb). destruct Hd as [Hok Hu].
  destruct (Sign_Verify Public Unmarshal digest rsa_verify ecdsa_verify ed25519_verify kp (assertion_map ts now jti) vcfg keys now' tok)
    as [header Hv]; try done.
  - apply assertion_names.
  - eapply check_times_complete; [done|done|by apply int_claim|eapply int_claim; [reflexivity|]|..|exact Hwin]; unfold sane; lia.
  - by apply assertion_parties.
  - exists tok, header. split; [|done]. unfold signAssertion. by rewrite Htok.
Qed.

End Assertion.

(** ** service.go: [NewRouterClient] *)

Record RouterTLSConfig := MkRouterTLS { rt_CAFile : string; rt_ServerName : string }.
Record STSTLSConfig := MkSTSTLS { st_CAFile : string; st_CertFile : string; st_KeyFile : string }.

(** The whole block: [ServiceAuthConfig] with its two TLS sections. *)
Record ServiceAuth := MkAuth { sa : ServiceAuthConfig; RouterTLS : RouterTLSConfig; STSTLS : STSTLSConfig }.

Definition stsInternalTimeout : Z := 30 * Second.

Section Router.
Context {K Cert Pool : Type}.
Context (ReadFile : string -> option string) (pem_Decode : string -> option string).
Context (ParsePKIX : string -> option PublicKey) (ParsePKCS8 : string -> option (ParsedKey K)).
Context (LoadX509KeyPair : string -> string -> option Cert) (CertsFromPEM : string -> option Pool).

(** The transports in the order a request passes them: bearer tokens of the
    source, retries with their budget, TLS.  A zero timeout is none. *)
Record RouterClient := MkRouterClient {
  rc_KeyPair : JwtSign.KeyPair K; rc_Source : TokenSource; rc_STS_TLS : TLSConfig (Cert := Cert) (Pool := Pool); rc_STS_Timeout : Z;
  rc_Budget : retryBudget; rc_TLS : TLSConfig (Cert := Cert) (Pool := Pool); rc_Timeout : Z; rc_BaseURL : string }.

Inductive RouterErr := LoadingKeys (e : KeyErr) | STSTransport (e : tls_error) | RouterTransport (e : tls_error) | SourceFailed (e : StsErr).

Definition tls_for (c : ClientConfig) : result tls_error (TLSConfig (Cert := Cert) (Pool := Pool)) :=
  Tlsx.NewHTTPTransport LoadX509KeyPair ReadFile CertsFromPEM (fun tc => tc) c.

(** [newRetryTransport]: a full budget from [now]. *)
Definition newRetryTransport (now : Z) : retryBudget := new_budget now.

Definition NewRouterClient (now : Z) (c : ServiceAuth) : result RouterErr RouterClient :=
  let? kp := map_err LoadingKeys (LoadKeyPairFromPEM ParsePKIX ParsePKCS8 pem_Decode ReadFile (PrivateKeyFile (sa c)) (PublicKeyFile (sa c))) in
  let? stsTransport := map_err STSTransport (tls_for (MkClientConfig (st_CAFile (STSTLS c)) (st_CertFile (STSTLS c)) (st_KeyFile (STSTLS c)) "" false)) in
  let? routerTransport := map_err RouterTransport (tls_for (MkClientConfig (rt_CAFile (RouterTLS c)) "" "" (rt_ServerName (RouterTLS c)) false)) in
  let? ts := map_err SourceFailed (New (Some (StsClient.MkConfig (sa_STSEndpoint (sa c)) (sa_Audience (sa c)) (sa_ServiceName (sa c))
                                    (sa_AssertionAudience (sa c)) true (4 * Minute)))) in
  Ok (MkRouterClient kp ts stsTransport stsInternalTimeout (newRetryTransport now) routerTransport
        (if 0 <? RouterTimeout (sa c) then RouterTimeout (sa c) else 0) (RouterBaseURL (sa c))).

(** A filled block that passed its validation fails only because of its files. *)
Lemma NewRouterClient_complete now c :
  Validate (sa c) = Ok tt -> IsConfigured (sa c) = true ->
  match NewRouterClient now c with Err (SourceFailed _) => False | _ => True end.
Proof.
  intros [Hv|Hv]%service_auth_ok Hc; unfold IsConfigured in Hc; apply negb_true_iff, String.eqb_neq in Hc.
  { by apply Forall_cons in Hv as [_ [? _]%Forall_cons]. }
  unfold requiredFields in Hv. rewrite !Forall_cons in Hv. cbn in Hv. destruct Hv as (_ & He & Ha & Hn & Hd & _).
  apply String.eqb_neq in He, Ha, Hn, Hd. unfold NewRouterClient. unfold New. cbn [STSEndpoint Audience ServiceName AssertionAudience HasKeyPair].
  rewrite He, Ha, Hn, Hd. cbn [negb]. unfold map_err. by repeat (case_match; simplify_eq/=).
Qed.

(** Both connections verify the peer and speak TLS 1.2 or later; authorities,
    server name and client certificate are the configured ones. *)
Lemma NewRouterClient_tls now c rc :
  NewRouterClient now c = Ok rc ->
  (VersionTLS12 <= t_MinVersion (rc_TLS rc) /\ t_InsecureSkipVerify (rc_TLS rc) = false /\
   t_ServerName (rc_TLS rc) = rt_ServerName (RouterTLS c) /\ (is_Some (RootCAs (rc_TLS rc)) <-> rt_CAFile (RouterTLS c) <> "")) /\
  (VersionTLS12 <= t_MinVersion (rc_STS_TLS rc) /\ t_InsecureSkipVerify (rc_STS_TLS rc) = false /\
   (is_Some (RootCAs (rc_STS_TLS rc)) <-> st_CAFile (STSTLS c) <> "")) /\
  rc_STS_Timeout rc = 30 * Second /\ rc_BaseURL rc = RouterBaseURL (sa c) /\ assertTTL (rc_Source rc) = 4 * Minute /\
  token (rc_Source rc) = "".
Proof.
  unfold NewRouterClient. intros H. apply bind_ok in H as (kp & _ & H). apply bind_ok in H as (st & Hst%map_err_ok & H).
  apply bind_ok in H as (rt & Hrt%map_err_ok & H). apply bind_ok in H as (ts & Hts%map_err_ok & [= <-]). cbn.
  assert (forall cc tc, tls_for cc = Ok tc -> VersionTLS12 <= t_MinVersion tc /\ t_InsecureSkipVerify tc = c_InsecureSkipVerify cc /\
    t_ServerName tc = c_ServerName cc /\ (is_Some (RootCAs tc) <-> c_CAFile cc <> "")) as Htls.
  { intros cc tc Ht. unfold tls_for, Tlsx.NewHTTPTransport, NewClientTLSConfig in Ht. apply bind_ok in Ht as (t & Ht & [= <-]).
    rewrite then_ok in Ht. destruct Ht as [_ Ht]. apply bind_ok in Ht as (pool & Hp & Ht). apply bind_ok in Ht as (certs & _ & [= <-]).
    cbn. repeat (split; [done|]). by apply (load_pool_some ReadFile CertsFromPEM _ _ Hp). }
  apply Htls in Hst as (? & ? & ? & ?), Hrt as (? & ? & ? & ?). unfold New in Hts. cbn in Hts.
  repeat (case_match; simplify_eq/=; try done).
Qed.

(** [sleepContext], entered at [now]: the pause is completed unless the
    context ends first; [timer_first] is the choice of select when both are
    ready together.  It is what [slept] of an attempt stands for. *)
Definition sleepContext (cancelled : option Z) (now delay : Z) (timer_first : bool) : bool :=
  match cancelled with
  | None => true
  | Some t => if Z.max now t <? now + delay then false else if now + delay <? Z.max now t then true else timer_first
  end.

(** ** Requests *)

(** The parts of a URL that matter for where and how a request goes. *)
Record URL := MkURL { u_scheme : string; u_host : string; u_path : string }.

(** One request: the instants and exchange of its token, its address, the
    request with its header, and what each attempt meets. *)
Record Req := MkReq { q_token : call; q_url : URL; q_request : Request; q_header : gmap string string; q_env : nat -> Env }.

(** How a request travels: in clear, or over TLS with a configuration. *)
Inductive channel := Clear | OverTLS (tc : TLSConfig (Cert := Cert) (Pool := Pool)).

(** [http.Transport] goes by the scheme and refuses any but these two. *)
Definition channel_for (rc : RouterClient) (u : URL) : option channel :=
  if u_scheme u ==s "https" then Some (OverTLS (rc_TLS rc))
  else if u_scheme u ==s "http" then Some Clear else None.

Record Sent := MkSent { s_req : Req; s_header : gmap string string; s_channel : channel }.

(** The token source with its history, the budget, and the requests that
    were sent. *)
Record RSys := MkRSys { r_tokens : TSys; r_budget : retryBudget; r_sent : list Sent }.

Definition unsupported_scheme : outcome := Err (MkNetError false "unsupported protocol scheme").

(** The bearer and the retry transport on one request. *)
Definition send (rc : RouterClient) (q : Req) (s : RSys) : option (result StsErr Final * RSys) :=
  match texec (q_token q) (r_tokens s) with
  | None => None
  | Some (res, t') =>
      match bearer_header res (q_header q) with
      | Err e => Some (Err e, MkRSys t' (r_budget s) (r_sent s))
      | Ok h =>
          match channel_for rc (q_url q) with
          | None => Some (Ok (Answer unsupported_scheme), MkRSys t' (r_budget s) (r_sent s))
          | Some ch =>
              let '(f, n, b) := RoundTrip (q_request q) (q_env q) (r_budget s) in
              Some (Ok f, MkRSys t' b (replicate n (MkSent q h ch) ++ r_sent s))
          end
      end
  end.

Definition redirects (f : result StsErr Final) : bool :=
  match f with Ok (Answer (Ok code)) => existsb (Z.eqb code) [301; 302; 303; 307; 308] | _ => false end.

(** [client.Do]: the request, and while the answer is a redirect the request for
    its target ([hops], as the answers name them), through the same transports;
    ten requests at most. *)
Fixpoint follow (rc : RouterClient) (q : Req) (hops : list Req) (s : RSys) : option (result StsErr Final * RSys) :=
  match send rc q s with
  | None => None
  | Some (f, s') =>
      match hops with
      | q' :: hops' => if redirects f then follow rc q' hops' s' else Some (f, s')
      | [] => Some (f, s')
      end
  end.

Definition Do (rc : RouterClient) (q : Req) (hops : list Req) (s : RSys) : option (result StsErr Final * RSys) :=
  follow rc q (firstn 9 hops) s.

Fixpoint requests (rc : RouterClient) (qs : list (Req * list Req)) (s : RSys) : option RSys :=
  match qs with
  | [] => Some s
  | (q, hops) :: qs => match Do rc q hops s with Some (_, s') => requests rc qs s' | None => None end
  end.

Definition started (rc : RouterClient) (t0 : Z) : RSys := MkRSys (MkTSys (rc_Source rc) t0 []) (rc_Budget rc) [].

(** What a request carries: the caller's header with a token the endpoint
    issued, obtained for this request or, when it was fetched for it, cached
    within its refresh window. *)
Definition authorized (s : RSys) (q : Req) (h : gmap string string) : Prop :=
  exists tok t e, h = <[HeaderCsarAuthorization := "Bearer " ++ tok]> (q_header q) /\
    In (tok, (t, e)) (issued (r_tokens s)) /\
    (t = done_at (q_token q) \/ (t <= at_ (q_token q) /\ at_ (q_token q) < t + refreshWindowForExpiresIn e)).

Definition sent_ok (rc : RouterClient) (s : RSys) (x : Sent) : Prop :=
  authorized s (s_req x) (s_header x) /\ channel_for rc (q_url (s_req x)) = Some (s_channel x).

Definition RInv (rc : RouterClient) (s : RSys) : Prop := TInv (r_tokens s) /\ forall x, In x (r_sent s) -> sent_ok rc s x.

Lemma texec_issued c s res s' x : texec c s = Some (res, s') -> In x (issued s) -> In x (issued s').
Proof.
  unfold texec. destruct (_ || _); [done|]. destruct (Token _ _ _ _) as [r ts]. intros [= _ <-] Hx. cbn. apply in_or_app. by right.
Qed.

Lemma send_inv rc q s res s' : RInv rc s -> send rc q s = Some (res, s') -> RInv rc s'.
Proof.
  intros [HT HS]. unfold send. destruct (texec (q_token q) (r_tokens s)) as [[r t']|] eqn:Ht; [|done].
  pose proof (fun x => texec_issued _ _ _ _ x Ht) as Hmono. destruct (texec_inv _ _ _ _ HT Ht) as [HT' Hok].
  assert (forall b l x, In x (r_sent s) -> sent_ok rc (MkRSys t' b l) x) as Hold.
  { intros b l x Hin. destruct (HS _ Hin) as [(tok & t & e & H1 & H2 & H3) Hc]. split; [|done]. exists tok, t, e. auto. }
  destruct r as [tok|e]; cbn [bearer_header]; [|intros [= _ <-]; split; [done|intros x; apply Hold]].
  destruct (channel_for rc (q_url q)) as [ch|] eqn:Hch; [|intros [= _ <-]; split; [done|intros x; apply Hold]].
  destruct (RoundTrip _ _ _) as [[f n] b]. intros [= _ <-]. split; [done|]. intros x [Hin|Hin]%in_app_or; [|by apply Hold].
  apply list_elem_of_In, elem_of_replicate in Hin as [-> _]. split; [|done].
  destruct (Hok tok eq_refl) as (t & e & Hi & Hw). by exists tok, t, e.
Qed.

Lemma follow_inv rc q hops s res s' : RInv rc s -> follow rc q hops s = Some (res, s') -> RInv rc s'.
Proof.
  revert q s; induction hops as [|q' hops IH]; intros q s HI; cbn [follow];
    (destruct (send rc q s) as [[f s1]|] eqn:Hd; [|done]); pose proof (send_inv _ _ _ _ _ HI Hd) as HI1.
  - by intros [= _ <-].
  - destruct (redirects f); [by apply IH|by intros [= _ <-]].
Qed.

Lemma requests_inv rc qs s s' : RInv rc s -> requests rc qs s = Some s' -> RInv rc s'.
Proof.
  revert s; induction qs as [|[q hops] qs IH]; cbn; intros s HI; [by intros [= <-]|].
  destruct (Do rc q hops s) as [[r s1]|] eqn:Hd; [|done]. apply IH. by eapply follow_inv.
Qed.

(** C27. No request goes out unauthenticated: from a router client made of a
    configuration block, over any sequence of requests, retries and redirects and
    whatever the token endpoint and the servers answer, each request that is sent
    carries the caller's header with a bearer token the endpoint issued, just
    obtained, or within its refresh window when it was fetched for the request (a
    retry repeats it later).  A request for an https URL goes over TLS 1.2 or later
    to a server verified against the configured authorities and name; one for an
    http URL, be it the configured base URL or a redirect's target, goes in clear
    with the token. *)
Theorem router_calls_authorized now c rc t0 qs s x :
  NewRouterClient now c = Ok rc -> requests rc qs (started rc t0) = Some s -> In x (r_sent s) ->
  authorized s (s_req x) (s_header x) /\
  match s_channel x with
  | Clear => u_scheme (q_url (s_req x)) = "http"
  | OverTLS tc => u_scheme (q_url (s_req x)) = "https" /\
      VersionTLS12 <= t_MinVersion tc /\ t_InsecureSkipVerify tc = false /\
      t_ServerName tc = rt_ServerName (RouterTLS c) /\ (is_Some (RootCAs tc) <-> rt_CAFile (RouterTLS c) <> "")
  end.
Proof.
  intros Hn Hr Hx. destruct (NewRouterClient_tls _ _ _ Hn) as (Htls & _ & _ & _ & _ & Htok).
  assert (RInv rc (started rc t0)) as HI by (split; [by intros []|done]).
  apply (requests_inv _ _ _ _ HI) in Hr as [_ Hs]. destruct (Hs x Hx) as [Ha Hc]. split; [done|].
  unfold channel_for in Hc. destruct (String.eqb_spec (u_scheme (q_url (s_req x))) "https"); [by injection Hc as <-|].
  destruct (String.eqb_spec (u_scheme (q_url (s_req x))) "http"); [by injection Hc as <-|done].
Qed.

(** ** audit/router_client.go *)

Inductive AuditRouterErr := NeedsSTS | RouterFailed (e : RouterErr) | ClientFailed.

(** The HTTP transport: its client and the address events are posted to. *)
Definition NewRouterTransport (now : Z) (c : option ServiceAuth) : result AuditRouterErr (RouterClient * string) :=
  match c with
  | None => Err NeedsSTS
  | Some c =>
      if negb (IsConfigured (sa c)) then Err NeedsSTS
      else match NewRouterClient now c with
           | Err e => Err (RouterFailed e)
           | Ok rc => Ok (rc, HTTPTransport.NewHTTPTransport (rc_BaseURL rc))
           end
  end.

(** No client when the block is missing or not configured. *)
Definition audit_NewRouterClient (now : Z) (c : option ServiceAuth)
  : result AuditRouterErr (option (RouterClient * string * AsyncClient.Client Event)) :=
  match c with
  | None => Ok None
  | Some c' =>
      if negb (IsConfigured (sa c')) then Ok None
      else
        let? tr := NewRouterTransport now c in
        match AsyncClient.NewClient (AsyncClient.MkClientConfig true 0 0 0 None) with
        | None => Err ClientFailed
        | Some cl => Ok (Some (tr, cl))
        end
  end.

(** An audit client is made exactly when the block is configured and its files
    load; it has the default sizes, and falls back to the log. *)
Lemma audit_NewRouterClient_spec now c :
  match audit_NewRouterClient now c with
  | Ok None => forall c', c = Some c' -> IsConfigured (sa c') = false
  | Ok (Some (rc, url, cl)) =>
      NewRouterTransport now c = Ok (rc, url) /\ evCap cl = 1000%nat /\ length (workers cl) = 2%nat /\ fallbackLog cl = true
  | Err e => NewRouterTransport now c = Err e
  end.
Proof.
  unfold audit_NewRouterClient. destruct c as [c|]; [|done]. destruct (IsConfigured (sa c)) eqn:Hc; cbn [negb]; [|by intros c' [= <-]].
  destruct (NewRouterTransport now (Some c)) as [[rc url]|e] eqn:Hn; [|done]. vm_compute AsyncClient.NewClient. done.
Qed.

End Router.

Module RouterDemo.
Definition files (path : string) : option string := if path ==s "none" then None else Some path.
Definition auth : ServiceAuth :=
  MkAuth (MkServiceAuth "https://router" "https://authn/sts/token" "aud" "svc:x" "https://authn" 0 "priv" "pub")
    (MkRouterTLS "ca" "router") (MkSTSTLS "ca" "cert" "key").
Definition client : RouterClient (K := string) (Cert := unit) (Pool := string) :=
  Eval vm_compute in
  match NewRouterClient files Some (fun s => Some (EdKey s)) (fun s => Some (IsSigner s)) (fun _ _ => Some tt) Some 0 auth with
  | Ok rc => rc
  | Err _ => MkRouterClient (MkKeyPair "" OtherKey "" "" "") (MkTokenSource demo_cfg "" 0 0) (MkTLS [] 0 None NoClientCert None "" false) 0
               (MkBudget 0 0) (MkTLS [] 0 None NoClientCert None "" false) 0 ""
  end.
Definition to (u : URL) (env : nat -> Env) (t : Z) : Req :=
  MkReq (demo_call t) u (MkRequest "GET" "" false false) (<["Authorization" := "upstream"]> ∅) env.
Definition router : URL := MkURL "https" "router" "/v1".
Definition elsewhere : URL := MkURL "http" "elsewhere" "/".
Definition answers (code : Z) (_ : nat) : Env := MkEnv true (Ok code) 0 true.

(** Two requests, the first retried twice, the second redirected. *)
Definition two : list (Req * list Req) :=
  [(to router flaky 10, []); (to router (answers 302) 20, [to elsewhere (answers 200) 21])].
Definition after : RSys :=
  match requests client two (started client 0) with Some s => s | None => started client 0 end.

Example five_sent : map (fun x => u_host (q_url (s_req x))) (r_sent after) = ["elsewhere"; "router"; "router"; "router"; "router"].
Proof. vm_compute. reflexivity. Qed.

Definition first_sent : Sent (Cert := unit) (Pool := string) :=
  match List.rev (r_sent after) with x :: _ => x | [] => MkSent (to router flaky 0) ∅ Clear end.

Lemma router_calls_authorized_witness :
  authorized after (s_req first_sent) (s_header first_sent) /\
  match s_channel first_sent with
  | Clear => u_scheme (q_url (s_req first_sent)) = "http"
  | OverTLS tc => u_scheme (q_url (s_req first_sent)) = "https" /\
      VersionTLS12 <= t_MinVersion tc /\ t_InsecureSkipVerify tc = false /\
      t_ServerName tc = rt_ServerName (RouterTLS auth) /\ (is_Some (RootCAs tc) <-> rt_CAFile (RouterTLS auth) <> "")
  end.
Proof.
  refine (router_calls_authorized files Some (fun s => Some (EdKey s)) (fun s => Some (IsSigner s)) (fun _ _ => Some tt) Some
    0 auth client 0 two after first_sent _ _ _).
  - vm_compute. reflexivity.
  - reflexivity.
  - apply in_rev. unfold first_sent. destruct (List.rev (r_sent after)) eqn:E; [vm_compute in E; discriminate|by left].
Defined.

(** A redirect takes the token to another host, and in clear: the bearer
    transport adds it to every hop. *)
Lemma redirect_leaks_token :
  match r_sent after with
  | x :: _ => u_host (q_url (s_req x)) = "elsewhere" /\ s_channel x = Clear /\
              s_header x !! HeaderCsarAuthorization = Some "Bearer tok"
  | [] => False
  end.
Proof. vm_compute. done. Qed.

(** A base URL with scheme http passes validation and construction. *)
Definition plain_auth : ServiceAuth :=
  MkAuth (MkServiceAuth "http://router" "https://authn/sts/token" "aud" "svc:x" "https://authn" 0 "priv" "pub")
    (RouterTLS auth) (STSTLS auth).
Lemma plain_base_accepted :
  Validate (sa plain_auth) = Ok tt /\
  is_ok (NewRouterClient (Cert := unit) files Some (fun s => Some (EdKey s)) (fun s => Some (IsSigner s)) (fun _ _ => Some tt) Some 0 plain_auth) = true.
Proof. vm_compute. done. Qed.

End RouterDemo.
