(* ===== verification/Relay.v ===== *)
(** * The outbox relay of a service (src/audit/outbox_relay.go)

    [StartRouterRelay] with its worker goroutine, the stop function it returns
    (called any number of times, concurrently), and the metrics collector.  The
    worker is the loop of [PGOutbox.Run] at the granularity of its uses of the
    transport; what a turn does to the table is in [Outbox]. *)
From S2P Require Import Prelude GoStrings Outbox RouterClient.
Local Open Scope Z_scope.

(** ** The collector *)

Inductive Metric := ScrapeSuccess (v : Z) | PendingEvents (v : Z) | OldestAge (ns : Z).

Definition Describe : list string := ["audit_outbox_pending_events"; "audit_outbox_oldest_age_seconds"; "audit_outbox_scrape_success"]%string.

(** [backlog] is the result of the query. *)
Definition Collect (backlog : option (Z * Z)) : list Metric :=
  match backlog with
  | None => [ScrapeSuccess 0]
  | Some (count, age) => [ScrapeSuccess 1; PendingEvents count; OldestAge age]
  end.

(** A scrape that reports no pending events proves the service's outbox empty;
    a failed query reports no number at all. *)
Lemma Collect_drained service now tbl ok :
  PendingEvents 0 ∈ Collect (if ok : bool then Some (Backlog service now tbl) else None) -> ok = true /\ own_rows service tbl = [].
Proof.
  destruct ok; [|cbn; set_solver]. unfold Collect, Backlog. intros Hin. split; [done|].
  destruct (own_rows service tbl) as [|r l]; [done|]. set_unfold in Hin. cbn [length] in Hin.
  destruct_or? Hin; simplify_eq; lia.
Qed.

(** ** The relay and its stop function *)

(** The worker: at the test of the context, in [DeliverOne] before, during and
    after the use of the transport (with whether to go on at once), in the
    pause of a second, returned from [Run], and after closing [done]. *)
Inductive wpc := WTest | WClaim | WSending | WFinish (go_on : bool) | WPause | WReturned | WDone.

(** A caller of stop: not yet, inside the once (before each of its four
    statements, and leaving it), waiting for another's once, returned. *)
Inductive spc := SIdle | SCancel | SWait | SClose | SUnregister | SLeave | SBlocked | SReturned.

#[export] Instance wpc_eq_dec : EqDecision wpc.
Proof. solve_decision. Defined.
#[export] Instance spc_eq_dec : EqDecision spc.
Proof. solve_decision. Defined.

Inductive once_state := ONew | ORunning (i : nat) | ODone.

Inductive effect := ESend | EClose | EUnregister.

Record RelayState := MkRelay {
  ctx_done : bool; worker : wpc; once : once_state; callers : list spc;
  transport_closed : nat; registered : bool; effects : list effect (* latest first *) }.

Inductive StartErr := TransportErr | RegisterErr.

(** [StartRouterRelay]: [transport] says whether the transport was made,
    [registry] whether there is one and whether it takes the collector, [n]
    bounds the number of calls of stop.  On an error nothing runs; the number
    is of transports made and not closed. *)
Definition StartRouterRelay (transport : bool) (registry : option bool) (n : nat) : result StartErr RelayState * nat :=
  if negb transport then (Err TransportErr, 0%nat)
  else match registry with
       | Some false => (Err RegisterErr, 0%nat)
       | Some true => (Ok (MkRelay false WTest ONew (replicate n SIdle) 0 true []), 1%nat)
       | None => (Ok (MkRelay false WTest ONew (replicate n SIdle) 0 false []), 1%nat)
       end.

Inductive action :=
| AParent                               (* the service's own context ends *)
| ATest | AClaim (found : bool) | ASent (go_on : bool) | AFinish | ATimer | ADoneSeen | ACloseDone
| ACall (i : nat) | AStop (i : nat).

Definition set_w (w : wpc) (s : RelayState) : RelayState :=
  MkRelay (ctx_done s) w (once s) (callers s) (transport_closed s) (registered s) (effects s).
Definition set_c (i : nat) (p : spc) (s : RelayState) : RelayState :=
  MkRelay (ctx_done s) (worker s) (once s) (<[i := p]> (callers s)) (transport_closed s) (registered s) (effects s).
Definition set_once (o : once_state) (s : RelayState) : RelayState :=
  MkRelay (ctx_done s) (worker s) o (callers s) (transport_closed s) (registered s) (effects s).
Definition cancel (s : RelayState) : RelayState :=
  MkRelay true (worker s) (once s) (callers s) (transport_closed s) (registered s) (effects s).
Definition send (s : RelayState) : RelayState :=
  MkRelay (ctx_done s) WSending (once s) (callers s) (transport_closed s) (registered s) (ESend :: effects s).
Definition close (s : RelayState) : RelayState :=
  MkRelay (ctx_done s) (worker s) (once s) (callers s) (S (transport_closed s)) (registered s) (EClose :: effects s).
Definition unregister (s : RelayState) : RelayState :=
  MkRelay (ctx_done s) (worker s) (once s) (callers s) (transport_closed s) false
    (if registered s then EUnregister :: effects s else effects s).

Definition exec (a : action) (s : RelayState) : option RelayState :=
  match a with
  | AParent => if ctx_done s then None else Some (cancel s)
  | ATest => match worker s with WTest => Some (set_w (if ctx_done s then WReturned else WClaim) s) | _ => None end
  | AClaim found => match worker s with WClaim => Some (if found then send s else set_w (WFinish false) s) | _ => None end
  | ASent go_on => match worker s with WSending => Some (set_w (WFinish go_on) s) | _ => None end
  | AFinish => match worker s with WFinish go_on => Some (set_w (if go_on then WTest else WPause) s) | _ => None end
  | ATimer => match worker s with WPause => Some (set_w WTest s) | _ => None end
  | ADoneSeen => match worker s with WPause => if ctx_done s then Some (set_w WReturned s) else None | _ => None end
  | ACloseDone => match worker s with WReturned => Some (set_w WDone s) | _ => None end
  | ACall i =>
      match callers s !! i with
      | Some SIdle =>
          match once s with
          | ONew => Some (set_c i SCancel (set_once (ORunning i) s))
          | ORunning _ => Some (set_c i SBlocked s)
          | ODone => Some (set_c i SReturned s)
          end
      | _ => None
      end
  | AStop i =>
      match callers s !! i with
      | Some SCancel => Some (set_c i SWait (cancel s))
      | Some SWait => match worker s with WDone => Some (set_c i SClose s) | _ => None end
      | Some SClose => Some (set_c i SUnregister (close s))
      | Some SUnregister => Some (set_c i SLeave (unregister s))
      | Some SLeave => Some (set_c i SReturned (set_once ODone s))
      | Some SBlocked => match once s with ODone => Some (set_c i SReturned s) | _ => None end
      | _ => None
      end
  end.

Fixpoint run_relay (acts : list action) (s : RelayState) : option RelayState :=
  match acts with [] => Some s | a :: acts => match exec a s with Some s' => run_relay acts s' | None => None end end.

(** *** Invariant *)

(** A caller inside the once. *)
Definition inside (p : spc) : bool := match p with SCancel | SWait | SClose | SUnregister | SLeave => true | _ => false end.

(** What holds when the caller inside has got so far. *)
Definition stage_ok (s : RelayState) (p : spc) : Prop :=
  match p with
  | SCancel => transport_closed s = 0%nat
  | SWait => ctx_done s = true /\ transport_closed s = 0%nat
  | SClose => ctx_done s = true /\ worker s = WDone /\ transport_closed s = 0%nat
  | SUnregister => ctx_done s = true /\ worker s = WDone /\ transport_closed s = 1%nat
  | SLeave => ctx_done s = true /\ worker s = WDone /\ transport_closed s = 1%nat /\ registered s = false
  | _ => True
  end.

(** Sends come before the transport is closed. *)
Fixpoint sends_first (l : list effect) : Prop :=
  match l with
  | [] => True
  | ESend :: l => (EClose ∉ l) /\ sends_first l
  | _ :: l => sends_first l
  end.

Record RInv (s : RelayState) : Prop := {
  ri_inside i p : callers s !! i = Some p -> inside p = true -> once s = ORunning i;
  ri_stage i p : callers s !! i = Some p -> stage_ok s p;
  ri_new : once s = ONew -> transport_closed s = 0%nat /\ forall i p, callers s !! i = Some p -> p = SIdle;
  ri_running i : once s = ORunning i -> exists p, callers s !! i = Some p /\ inside p = true;
  ri_done : once s = ODone -> ctx_done s = true /\ worker s = WDone /\ transport_closed s = 1%nat /\ registered s = false;
  ri_returned i : callers s !! i = Some SReturned -> once s = ODone;
  ri_closed : (EClose ∈ effects s) <-> transport_closed s <> 0%nat;
  ri_order : sends_first (effects s) }.

Lemma closed_joined s : RInv s -> transport_closed s <> 0%nat -> worker s = WDone.
Proof.
  intros HI Hc. destruct (once s) as [|i|] eqn:Ho.
  - by destruct (ri_new s HI Ho).
  - destruct (ri_running s HI i Ho) as (p & Hp & Hin). pose proof (ri_stage s HI i p Hp) as Hs. destruct p; try done; cbn in Hs; tauto.
  - by destruct (ri_done s HI Ho) as (_ & ? & _).
Qed.

(** A step of the worker, which has not closed [done] yet. *)
Lemma inv_worker w effs s :
  RInv s -> worker s <> WDone -> effs = effects s \/ effs = ESend :: effects s ->
  RInv (MkRelay (ctx_done s) w (once s) (callers s) (transport_closed s) (registered s) effs).
Proof.
  intros HI Hw He. pose proof (closed_joined s HI) as Hj. destruct HI as [H1 H2 H3 H4 H5 H6 H7 H8].
  assert (transport_closed s = 0%nat) as Hz by (destruct (decide (transport_closed s = 0%nat)); [done|by exfalso; auto]).
  split; cbn; auto.
  - intros i p Hp. specialize (H2 i p Hp). destruct p; cbn in *; tauto.
  - intros Ho. destruct (H5 Ho) as (_ & ? & _). done.
  - destruct He as [-> | ->]; [done|]. rewrite elem_of_cons, H7. naive_solver.
  - destruct He as [-> | ->]; [done|]. cbn. split; [|done]. intros Hin. by apply H7 in Hin.
Qed.

Lemma inv_cancel s : RInv s -> RInv (cancel s).
Proof.
  intros [H1 H2 H3 H4 H5 H6 H7 H8]. split; cbn; auto.
  - intros i p Hp. specialize (H2 i p Hp). destruct p; cbn in *; tauto.
  - intros Ho. destruct (H5 Ho) as (_ & ? & ? & ?). auto.
Qed.

(** Of a caller at [i] moving to [p']. *)
Lemma lookup_set_c (l : list spc) i p' j p : <[i := p']> l !! j = Some p -> (j = i /\ p = p') \/ (j <> i /\ l !! j = Some p).
Proof. intros [(-> & -> & _)|[? ?]]%list_lookup_insert_Some; auto. Qed.

(** A call of stop that another one keeps waiting, or finds done. *)
Lemma inv_outside i q s p :
  RInv s -> callers s !! i = Some q -> inside q = false -> inside p = false -> once s <> ONew -> p <> SIdle ->
  (p = SReturned -> once s = ODone) -> RInv (set_c i p s).
Proof.
  intros [H1 H2 H3 H4 H5 H6 H7 H8] Hq Hiq Hip Hn Hid Hr. split; cbn; auto.
  - intros j r [[-> ->]|[? ?]]%lookup_set_c ?; [congruence|eauto].
  - intros j r [[-> ->]|[? Hj]]%lookup_set_c; [by destruct p|]. by apply (H2 j r Hj).
  - done.
  - intros j Ho. destruct (H4 j Ho) as (r & Hj & Hir). exists r. split; [|done]. rewrite list_lookup_insert_ne; [done|congruence].
  - intros j [[-> Hp]|[? ?]]%lookup_set_c; [auto|eauto].
Qed.

(** The caller inside moves on to a stage that holds after the state change. *)
Lemma inv_inside i q s s' p :
  RInv s -> callers s !! i = Some q -> inside q = true -> inside p = true ->
  once s' = once s -> callers s' = <[i := p]> (callers s) -> stage_ok s' p ->
  ((EClose ∈ effects s') <-> transport_closed s' <> 0%nat) -> sends_first (effects s') -> RInv s'.
Proof.
  intros [H1 H2 H3 H4 H5 H6 H7 H8] Hq Hiq Hip Ho Hc Hst He1 He2. pose proof (H1 i q Hq Hiq) as Hrun.
  split; rewrite ?Ho, ?Hc, ?Hrun; auto; try done.
  - intros j r [[-> ->]|[? Hj]]%lookup_set_c Hr; [done|]. specialize (H1 j r Hj Hr). congruence.
  - intros j r [[-> ->]|[? Hj]]%lookup_set_c; [done|]. specialize (H1 j r Hj). destruct r; cbn in *; try done; specialize (H1 eq_refl); congruence.
  - intros j [= <-]. exists p. split; [|done]. apply list_lookup_insert_eq. by apply lookup_lt_Some in Hq.
  - intros j [[-> Hp]|[? Hj]]%lookup_set_c; [by rewrite <- Hp in Hip|]. specialize (H6 j Hj). congruence.
Qed.

Lemma inv_call i s s' : RInv s -> exec (ACall i) s = Some s' -> RInv s'.
Proof.
  intros HI. cbn [exec]. destruct (callers s !! i) as [[]|] eqn:Hq; try done. destruct (once s) as [|k|] eqn:Ho; intros [= <-].
  - destruct HI as [H1 H2 H3 H4 H5 H6 H7 H8]. destruct (H3 Ho) as [Hz Hall]. split; cbn; auto; try done.
    + intros j r [[-> ->]|[? Hj]]%lookup_set_c Hr; [done|]. apply Hall in Hj as ->. done.
    + intros j r [[-> ->]|[? Hj]]%lookup_set_c; [done|]. by apply Hall in Hj as ->.
    + intros j [= <-]. exists SCancel. split; [|done]. apply list_lookup_insert_eq. by apply lookup_lt_Some in Hq.
    + intros j [[_ ?]|[? Hj]]%lookup_set_c; [done|]. by apply Hall in Hj.
  - eapply inv_outside; try done. by rewrite Ho.
  - eapply inv_outside; try done. by rewrite Ho.
Qed.

Lemma inv_stop i s s' : RInv s -> exec (AStop i) s = Some s' -> RInv s'.
Proof.
  intros HI. pose proof (ri_closed s HI) as He1. pose proof (ri_order s HI) as He2. cbn [exec].
  destruct (callers s !! i) as [q|] eqn:Hq; [|done]. pose proof (ri_stage s HI i q Hq) as Hst.
  destruct q; try done; cbn in Hst.
  - intros [= <-]. eapply (inv_inside i SCancel s _ SWait); try done.
  - destruct (worker s) eqn:Hw; try done. intros [= <-]. eapply (inv_inside i SWait s _ SClose); try done. cbn. tauto.
  - intros [= <-]. eapply (inv_inside i SClose s _ SUnregister); try done; cbn.
    + destruct Hst as (? & ? & ->). done.
    + split; [done|set_solver].
  - intros [= <-]. destruct Hst as (? & ? & Hz). eapply (inv_inside i SUnregister s _ SLeave); try done; cbn; destruct (registered s); try done.
    rewrite elem_of_cons, He1. naive_solver.
  - intros [= <-]. destruct Hst as (Ha & Hb & Hc & Hd). destruct HI as [H1 H2 H3 H4 H5 H6 H7 H8]. pose proof (H1 i SLeave Hq eq_refl) as Hrun.
    split; cbn; auto; try done.
    + intros j r [[-> ->]|[? Hj]]%lookup_set_c Hr; [done|]. specialize (H1 j r Hj Hr). congruence.
    + intros j r [[-> ->]|[? Hj]]%lookup_set_c; [done|]. specialize (H2 j r Hj). by destruct r.
  - destruct (once s) eqn:Ho; try done. intros [= <-]. eapply inv_outside; try done. by rewrite Ho.
Qed.

Lemma relay_inv_exec a s s' : RInv s -> exec a s = Some s' -> RInv s'.
Proof.
  intros HI. destruct a; [|..|apply inv_call|apply inv_stop]; try done; cbn [exec].
  - destruct (ctx_done s); [done|]. intros [= <-]. by apply inv_cancel.
  - destruct (worker s) eqn:Hw; try done. intros [= <-]. apply inv_worker; [done|congruence|auto].
  - destruct (worker s) eqn:Hw; try done. destruct found; intros [= <-]; apply inv_worker; auto; congruence.
  - destruct (worker s) eqn:Hw; try done. intros [= <-]. apply inv_worker; [done|congruence|auto].
  - destruct (worker s) eqn:Hw; try done. intros [= <-]. apply inv_worker; [done|congruence|auto].
  - destruct (worker s) eqn:Hw; try done. intros [= <-]. apply inv_worker; [done|congruence|auto].
  - destruct (worker s) eqn:Hw; try done. destruct (ctx_done s) eqn:Hd; [|done]. intros [= <-]. apply inv_worker; [done|congruence|auto].
  - destruct (worker s) eqn:Hw; try done. intros [= <-]. apply inv_worker; [done|congruence|auto].
Qed.

Lemma inv_run_relay acts s s' : RInv s -> run_relay acts s = Some s' -> RInv s'.
Proof.
  revert s; induction acts as [|a acts IH]; cbn; intros s HI; [by intros [= <-]|].
  destruct (exec a s) as [s1|] eqn:He; [|done]. apply IH. by eapply relay_inv_exec.
Qed.

Lemma relay_inv_start transport registry n s k : StartRouterRelay transport registry n = (Ok s, k) -> RInv s.
Proof.
  unfold StartRouterRelay. destruct transport; [|done]. cbn [negb].
  assert (forall r, RInv (MkRelay false WTest ONew (replicate n SIdle) 0 r [])) as Hi.
  { intros r. assert (forall i p, replicate n SIdle !! i = Some p -> p = SIdle) as Hall by (by intros i p [-> _]%lookup_replicate).
    split; cbn; try done.
    - by intros i p ->%Hall.
    - by intros i p ->%Hall.
    - intros i Hp. by apply Hall in Hp.
    - split; [set_solver|done]. }
  destruct registry as [[]|]; intros [= <- _]; apply Hi.
Qed.

(** *** Stopping ends *)

Definition wrank (w : wpc) : nat :=
  match w with WClaim => 6 | WSending => 5 | WFinish _ => 4 | WPause => 3 | WTest => 2 | WReturned => 1 | WDone => 0 end.
Definition srank (p : spc) : nat :=
  match p with SIdle => 6 | SCancel => 5 | SWait => 4 | SClose => 3 | SUnregister => 2 | SLeave | SBlocked => 1 | SReturned => 0 end.
Fixpoint total (l : list spc) : nat := match l with [] => 0%nat | p :: l => (srank p + total l)%nat end.
Definition rank (s : RelayState) : nat := (wrank (worker s) + total (callers s))%nat.

Lemma rank_set (l : list spc) i q p :
  l !! i = Some q -> (total (<[i := p]> l) + srank q = total l + srank p)%nat.
Proof.
  revert i; induction l as [|r l IH]; intros [|i] Hq; try done; [injection Hq as ->; cbn; lia|].
  change (<[S i := p]> (r :: l)) with (r :: <[i := p]> l). cbn [total]. specialize (IH i Hq). lia.
Qed.

Ltac caller_moves := match goal with Hq : callers ?s !! ?i = Some _ |- context [<[?i := ?p]> (callers ?s)] =>
  pose proof (rank_set _ _ _ p Hq); cbn in *; lia end.

(** Once the context is cancelled each step brings the end nearer. *)
Lemma exec_rank a s s' : ctx_done s = true -> exec a s = Some s' -> ctx_done s' = true /\ (rank s' < rank s)%nat.
Proof.
  intros Hd. unfold rank. destruct a as [| |found|go_on| | | | |i|i]; cbn [exec]; rewrite ?Hd; try done.
  1,3,5,6,7: destruct (worker s); try done; intros [= <-]; cbn; rewrite ?Hd; cbn; split; [done|lia].
  - destruct (worker s); try done. destruct found; intros [= <-]; cbn; (split; [done|lia]).
  - destruct (worker s) as [| | |g| | |]; try done. intros [= <-]. destruct g; cbn; (split; [done|lia]).
  - destruct (callers s !! i) as [q|] eqn:Hq; [|done]. destruct q; try done.
    destruct (once s); intros [= <-]; cbn [ctx_done callers worker set_c set_once]; (split; [done|]); caller_moves.
  - destruct (callers s !! i) as [q|] eqn:Hq; [|done]. destruct q; try done.
    1,3,4,5: intros [= <-]; cbn [ctx_done callers worker set_c set_once cancel close unregister]; (split; [done|]); caller_moves.
    + destruct (worker s) eqn:Hw; try done. intros [= <-]. cbn [ctx_done callers worker set_c]. rewrite Hw. split; [done|]. caller_moves.
    + destruct (once s); try done. intros [= <-]. cbn [ctx_done callers worker set_c]. split; [done|]. caller_moves.
Qed.

Lemma run_relay_rank acts s s' :
  ctx_done s = true -> run_relay acts s = Some s' -> (length acts + rank s' <= rank s)%nat /\ ctx_done s' = true.
Proof.
  revert s; induction acts as [|a acts IH]; cbn; intros s Hd; [by intros [= <-]|].
  destruct (exec a s) as [s1|] eqn:He; [|done]. apply exec_rank in He as [Hd1 Hr]; [|done].
  intros Hrun. apply IH in Hrun as [? ?]; [|done]. split; [lia|done].
Qed.

(** While the worker has not closed [done] it can take a step. *)
Lemma worker_enabled s : worker s <> WDone -> exists a, is_Some (exec a s).
Proof.
  intros Hw. destruct (worker s) eqn:E; [exists ATest|exists (AClaim false)|exists (ASent true)|exists AFinish|exists ATimer|exists ACloseDone|done];
    cbn; rewrite E; eauto.
Qed.

(** While somebody is in stop, some step is possible. *)
Lemma stop_enabled s i p : RInv s -> callers s !! i = Some p -> p <> SIdle -> p <> SReturned -> exists a, is_Some (exec a s).
Proof.
  intros HI Hp Hi Hr. destruct (decide (worker s = WDone)) as [Hw|Hw]; [|by apply worker_enabled].
  assert (forall j q, callers s !! j = Some q -> inside q = true -> exists a, is_Some (exec a s)) as Hin.
  { intros j q Hj Hq. exists (AStop j). cbn. rewrite Hj. destruct q; try done; eauto. rewrite Hw. eauto. }
  destruct (inside p) eqn:Hip; [by eapply Hin|]. destruct p; try done. destruct (once s) as [|j|] eqn:Ho.
  - by destruct (ri_new s HI Ho) as [_ ?%(fun h => h i SBlocked Hp)].
  - destruct (ri_running s HI j Ho) as (q & Hj & Hq). by eapply Hin.
  - exists (AStop i). cbn. rewrite Hp, Ho. eauto.
Qed.

(** C26. The relay's stop function does what its callers rely on, in every interleaving of the worker,
    the end of the service's context and any number of concurrent calls: when a
    call has returned the worker is gone, the transport was closed exactly
    once and the collector is no longer registered; the transport is never
    closed twice nor under the worker, and nothing is sent after its close. *)
Theorem stop_joins transport registry n acts s0 k s :
  StartRouterRelay transport registry n = (Ok s0, k) -> run_relay acts s0 = Some s ->
  (forall i, callers s !! i = Some SReturned -> worker s = WDone /\ transport_closed s = 1%nat /\ registered s = false) /\
  (transport_closed s <= 1)%nat /\ (worker s <> WDone -> transport_closed s = 0%nat) /\ sends_first (effects s).
Proof.
  intros Hs0 Hrun. pose proof (inv_run_relay acts s0 s (relay_inv_start _ _ _ _ _ Hs0) Hrun) as HI. split_and!.
  - intros i Hi%(ri_returned s HI). by destruct (ri_done s HI Hi) as (_ & ? & ? & ?).
  - destruct (once s) as [|i|] eqn:Ho.
    + destruct (ri_new s HI Ho). lia.
    + destruct (ri_running s HI i Ho) as (p & Hp & Hin). pose proof (ri_stage s HI i p Hp) as Hst. destruct p; try done; cbn in Hst; lia.
    + destruct (ri_done s HI Ho) as (_ & _ & -> & _). lia.
  - intros Hw. destruct (decide (transport_closed s = 0%nat)) as [|Hc]; [done|]. by apply closed_joined in Hc.
  - apply ri_order, HI.
Qed.

(** A failed start leaves no transport open. *)
Lemma failed_start_releases transport registry n e j : StartRouterRelay transport registry n = (Err e, j) -> j = 0%nat.
Proof. unfold StartRouterRelay. destruct transport; cbn; [|by intros [= _ <-]]. destruct registry as [[]|]; intros [=]; done. Qed.

(** Stopping ends: once the context is cancelled, by stop or by the service, the worker and all
    callers of stop together take at most [rank] more steps whatever the
    interleaving, some step is possible as long as a call has not returned,
    and when none is, every call has returned. *)
Theorem stop_returns transport registry n acts s0 k s acts' s' :
  StartRouterRelay transport registry n = (Ok s0, k) -> run_relay acts s0 = Some s -> ctx_done s = true ->
  run_relay acts' s = Some s' ->
  (length acts' <= rank s)%nat /\
  ((exists i p, callers s' !! i = Some p /\ p <> SIdle /\ p <> SReturned) -> exists a, is_Some (exec a s')) /\
  ((forall a, exec a s' = None) -> forall i p, callers s' !! i = Some p -> p = SReturned).
Proof.
  intros Hs0 Hrun Hd Hrun'. pose proof (inv_run_relay acts s0 s (relay_inv_start _ _ _ _ _ Hs0) Hrun) as HI.
  pose proof (inv_run_relay acts' s s' HI Hrun') as HI'. apply run_relay_rank in Hrun' as [Hr _]; [|done].
  split; [lia|]. split; [intros (i & p & Hp & H1 & H2); by eapply stop_enabled|].
  intros Hstuck i p Hp. destruct (decide (p = SReturned)) as [|Hr']; [done|]. exfalso.
  destruct p; try (destruct (stop_enabled s' i _ HI' Hp) as [a [x Hx]]; [done..|]; by rewrite Hstuck in Hx).
  specialize (Hstuck (ACall i)). cbn in Hstuck. rewrite Hp in Hstuck. by destruct (once s').
Qed.

Module RelayDemo.
Definition start : RelayState := MkRelay false WTest ONew [SIdle; SIdle] 0 true [].
(** Two calls of stop while the worker sends. *)
Definition two_stops : list action :=
  [ATest; AClaim true; ACall 0; AStop 0; ACall 1; ASent true; AFinish; ATest; ACloseDone; AStop 0; AStop 0; AStop 0; AStop 0; AStop 1].
Definition stopped : RelayState := match run_relay two_stops start with Some s => s | None => start end.

Lemma stop_joins_witness :
  (forall i, callers stopped !! i = Some SReturned -> worker stopped = WDone /\ transport_closed stopped = 1%nat /\ registered stopped = false) /\
  (transport_closed stopped <= 1)%nat /\ (worker stopped <> WDone -> transport_closed stopped = 0%nat) /\ sends_first (effects stopped).
Proof. refine (stop_joins true (Some true) 2 two_stops start 1 stopped _ _); vm_compute; reflexivity. Defined.

Example both_returned : callers stopped = [SReturned; SReturned] /\ effects stopped = [EUnregister; EClose; ESend].
Proof. vm_compute. done. Qed.

Definition cancelled : RelayState := match run_relay (take 4 two_stops) start with Some s => s | None => start end.

Lemma stop_returns_witness :
  (length (drop 4 two_stops) <= rank cancelled)%nat /\
  ((exists i p, callers stopped !! i = Some p /\ p <> SIdle /\ p <> SReturned) -> exists a, is_Some (exec a stopped)) /\
  ((forall a, exec a stopped = None) -> forall i p, callers stopped !! i = Some p -> p = SReturned).
Proof.
  refine (stop_returns true (Some true) 2 (take 4 two_stops) start 1 cancelled (drop 4 two_stops) stopped _ _ _ _);
    vm_compute; reflexivity.
Defined.
End RelayDemo.
