(* ===== verification/Sidecar.v ===== *)
(** * The probe sidecar (src/health/sidecar.go)

    [NewSidecar] wires the liveness probe, the readiness checker of [Health] and
    a metrics handler into a server of [HttpServer]; its start and shutdown are
    that server's. *)
From S2P Require Import Prelude GoStrings Tlsx Health HttpServer.
Local Open Scope string_scope.
Local Open Scope Z_scope.

(** health.go: the body of the liveness probe. *)
Record LiveStatus := MkLive { l_Status : string; l_Version : string }.

Section Sidecar.
(** Metrics handlers, TLS configurations, and the mux's [cleanPath]. *)
Context {M TC : Type} (NewServerTLSConfig : ServerConfig -> result tls_error TC) (cleanPath : string -> string).

Record SidecarConfig := MkSidecarConfig {
  sc_Addr : string; sc_Version : string; sc_Readiness : option ReadinessChecker; sc_Metrics : option M }.

Inductive Route := Liveness (version : string) | Readiness (rc : ReadinessChecker) | Metrics (m : M).

Record Sidecar := MkSidecar { srv : Server TC; mux : gmap string Route }.

Inductive SidecarErr := AddrRequired | ServerFailed (e : tls_error).

Definition NewSidecar (cfg : SidecarConfig) : result SidecarErr Sidecar :=
  if TrimSpace (sc_Addr cfg) ==s "" then Err AddrRequired
  else
    let mux : gmap string Route := <["/health" := Liveness (sc_Version cfg)]> ∅ in
    let mux := match sc_Readiness cfg with Some rc => <["/readiness" := Readiness rc]> mux | None => mux end in
    let mux := match sc_Metrics cfg with Some m => <["/metrics" := Metrics m]> mux | None => mux end in
    match HttpServer.New NewServerTLSConfig (MkConfig (sc_Addr cfg) None (10 * Second) (10 * Second) 0 0 0) with
    | Err e => Err (ServerFailed e)
    | Ok s => Ok (MkSidecar s mux)
    end.

(** What a request to a path gets: a redirect to the clean path, one of the
    probes, the metrics handler or 404.  [Check_] is the relation of [Health]:
    a readiness probe may give any status the checks can arrive at. *)
Inductive Reply := Redirect (to : string) | Live (code : Z) (body : LiveStatus) | Ready (code : Z) (body : ReadinessStatus)
| MetricsPage (m : M) | NotFound.

Definition Handler (version : string) : Reply := Live 200 (MkLive "ok" version).

Inductive serves (timer_first : string -> bool) (s : Sidecar) (path : string) : Reply -> Prop :=
| serves_redirect : cleanPath path <> path -> serves timer_first s path (Redirect (cleanPath path))
| serves_live v : cleanPath path = path -> mux s !! path = Some (Liveness v) -> serves timer_first s path (Handler v)
| serves_ready rc rs : cleanPath path = path -> mux s !! path = Some (Readiness rc) -> Check_ timer_first rc rs ->
    serves timer_first s path (Ready (fst (ready_Handler rs)) (snd (ready_Handler rs)))
| serves_metrics m : cleanPath path = path -> mux s !! path = Some (Metrics m) -> serves timer_first s path (MetricsPage m)
| serves_nothing : cleanPath path = path -> mux s !! path = None -> serves timer_first s path NotFound.

(** [ListenAndServe] and [Shutdown]: a thread of the server's. *)
Definition ListenAndServe (s : Sys) : Sys := spawn AtListenAndServe s.
Definition Shutdown (s : Sys) : Sys := spawn AtShutdown s.

(** *** What the sidecar promises to the orchestrator *)

Lemma NewSidecar_plain cfg s :
  NewSidecar cfg = Ok s ->
  isTLS (srv s) = false /\ TLSConfig (srv s) = None /\ Addr (srv_cfg (srv s)) = sc_Addr cfg /\
  ReadTimeout (srv_cfg (srv s)) = 10 * Second /\ WriteTimeout (srv_cfg (srv s)) = 10 * Second.
Proof. unfold NewSidecar. destruct (_ ==s _); [done|]. cbn. by intros [= <-]. Qed.

(** It is made whenever an address is given. *)
Lemma NewSidecar_total cfg : TrimSpace (sc_Addr cfg) <> "" -> exists s, NewSidecar cfg = Ok s.
Proof. unfold NewSidecar. intros ->%String.eqb_neq. cbn. eauto. Qed.

Lemma NewSidecar_routes cfg s path :
  NewSidecar cfg = Ok s ->
  mux s !! path =
  (if path ==s "/metrics" then Metrics <$> sc_Metrics cfg
   else if path ==s "/readiness" then Readiness <$> sc_Readiness cfg
   else if path ==s "/health" then Some (Liveness (sc_Version cfg)) else None).
Proof.
  unfold NewSidecar. destruct (_ ==s _); [done|]. cbn. intros [= <-]. cbn [mux].
  destruct (String.eqb_spec path "/metrics") as [->|Hm]; [by destruct (sc_Metrics cfg), (sc_Readiness cfg)|].
  destruct (String.eqb_spec path "/readiness") as [->|Hr]; [by destruct (sc_Metrics cfg), (sc_Readiness cfg)|].
  destruct (String.eqb_spec path "/health") as [->|Hh]; [by destruct (sc_Metrics cfg), (sc_Readiness cfg)|].
  destruct (sc_Metrics cfg), (sc_Readiness cfg); rewrite ?lookup_insert_ne by done; done.
Qed.

(** The probes answer on their paths and nowhere else: liveness always 200,
    readiness 503 exactly when a check failed, nothing of what was not
    configured. *)
Lemma sidecar_probes timer_first cfg s path reply :
  (forall p, p ∈ ["/health"; "/readiness"; "/metrics"] -> cleanPath p = p) ->
  NewSidecar cfg = Ok s -> serves timer_first s path reply ->
  (path = "/health" -> reply = Live 200 (MkLive "ok" (sc_Version cfg))) /\
  (path = "/readiness" -> forall rc, sc_Readiness cfg = Some rc ->
     exists rs, Check_ timer_first rc rs /\ reply = Ready (if RStatus rs ==s "not_ready" then 503 else 200) rs) /\
  (path = "/readiness" -> sc_Readiness cfg = None -> reply = NotFound) /\
  (path ∉ ["/health"; "/readiness"; "/metrics"] -> reply = NotFound \/ reply = Redirect (cleanPath path)).
Proof.
  intros Hclean Hn Hs. pose proof (NewSidecar_routes cfg s path Hn) as Hr.
  split_and!; intros Hp; try subst path.
  - cbn in Hr. destruct Hs as [Hc|v _ Hm|rc rs _ Hm|m _ Hm|_ Hm]; [exfalso; apply Hc, Hclean; set_solver|..]; rewrite Hr in Hm; by simplify_eq.
  - intros rc Hrc. cbn in Hr. rewrite Hrc in Hr.
    destruct Hs as [Hc|v _ Hm|rc' rs _ Hm Hk|m _ Hm|_ Hm]; [exfalso; apply Hc, Hclean; set_solver|..]; rewrite Hr in Hm; simplify_eq/=; eauto.
  - intros Hrc. cbn in Hr. rewrite Hrc in Hr.
    destruct Hs as [Hc|v _ Hm|rc' rs _ Hm Hk|m _ Hm|_ Hm]; [exfalso; apply Hc, Hclean; set_solver|..]; rewrite Hr in Hm; by simplify_eq/=.
  - rewrite !not_elem_of_cons in Hp. destruct Hp as (H1 & H2 & H3 & _). apply String.eqb_neq in H1, H2, H3.
    rewrite H1, H2, H3 in Hr. destruct Hs as [Hc|v _ Hm|rc' rs _ Hm Hk|m _ Hm|_ Hm]; auto; by rewrite Hr in Hm.
Qed.

End Sidecar.
