(* ===== verification/MintPool.v ===== *)
(** * The minter's clients, limiters and configuration file (src/tokenmint)

    The parts of client.go, minter.go and profile.go around the grants that
    [TokenMint] models: the hardened HTTP client, one client and one rate
    limiter per profile, and the configuration file.  The limiter
    (golang.org/x/time/rate) is the class [Limiter]; the file system and the
    YAML decoder are arguments. *)
From S2P Require Import Prelude GoStrings ConfigUtil TokenMint NetGuard Tlsx.
Local Open Scope string_scope.
Local Open Scope Z_scope.

(** ** client.go: [newHTTPClient] *)

(** What the client is configured with. *)
Record HTTPClient := MkClient {
  cl_Timeout : Z; cl_FollowsRedirects : bool; cl_Proxy : option string; cl_AllowPrivate : bool; cl_MinVersion : Z;
  cl_HandshakeTimeout : Z }.

Definition newHTTPClient (cfg : TokenMint.Config) (timeout : Z) : HTTPClient :=
  MkClient timeout false None (AllowPrivate cfg) VersionTLS12 (10 * Second).

(** An error of the client: of the [*url.Error] kind, with operation, address
    and cause, or another. *)
Inductive TransportErr := URLError (op url err : string) | PlainErr (err : string).

Definition redactURLError (e : TransportErr) : string :=
  match e with
  | URLError op url err => op +:+ " " +:+ url +:+ ": " +:+ err
  | PlainErr err => err
  end.

(** A round trip: it fails, answers, or answers with a redirect. *)
Inductive Answer := AFailed (err : string) | AResponse (status : Z) | ARedirect (to : string).

(** [http.Client.Do]: the addresses that got the request, and the status; at
    most ten redirects are followed where the client follows them. *)
Fixpoint follow (n : nat) (c : HTTPClient) (serve : string -> Answer) (url : string) : list string * result TransportErr Z :=
  match serve url with
  | AFailed err => ([url], Err (URLError "Post" url err))
  | AResponse status => ([url], Ok status)
  | ARedirect to =>
      if cl_FollowsRedirects c then
        match n with
        | O => ([url], Err (URLError "Post" to "stopped after 10 redirects"))
        | S n => let '(l, r) := follow n c serve to in (url :: l, r)
        end
      else ([url], Err (URLError "Post" to "tokenmint: refusing to follow a redirect from a token endpoint"))
  end.

(** A client of the minter sends a request to its own address only, whatever
    the endpoint answers. *)
Lemma no_redirect cfg timeout serve url : fst (follow 10 (newHTTPClient cfg timeout) serve url) = [url].
Proof. cbn. by destruct (serve url). Qed.

(** The error text keeps the address and the cause of a transport error. *)
Lemma redaction_keeps_url op url err :
  GoStrings.Contains (redactURLError (URLError op url err)) url = true /\ GoStrings.Contains (redactURLError (URLError op url err)) err = true.
Proof.
  split; apply GoStrings.Contains_spec.
  - exists (op +:+ " "), (": " +:+ err). cbn [redactURLError]. by rewrite append_assoc.
  - exists (op +:+ " " +:+ url +:+ ": "), "". cbn [redactURLError]. by rewrite !append_assoc, append_nil_r.
Qed.

(** ** minter.go: one limiter and one client per profile *)

Definition Float64_div (a b : Float64.t) : Float64.t := SpecFloat.SFdiv 53 1024 a b.

Class Limiter (L : Type) := { NewLimiter : Float64.t -> Z -> L; Allow : Z -> L -> bool * L }.

Section Pool.
Context {L : Type} `{Limiter L}.

Record Pools := MkPools { limiters : gmap string L; clients : gmap string HTTPClient }.

Definition limiter_of (p : Profile) : L :=
  let burst := Float64.trunc (MaxMintsPerMinute p) in
  let burst := if burst <? 1 then 1 else burst in
  NewLimiter (Float64_div (MaxMintsPerMinute p) (Float64.of_Z 60)) burst.

Definition limiterFor (profileName : string) (p : Profile) (m : Pools) : L * Pools :=
  match limiters m !! profileName with
  | Some l => (l, m)
  | None => let l := limiter_of p in (l, MkPools (<[profileName := l]> (limiters m)) (clients m))
  end.

Definition clientFor (cfg : TokenMint.Config) (profileName : string) (p : Profile) (m : Pools) : HTTPClient * Pools :=
  match clients m !! profileName with
  | Some c => (c, m)
  | None => let c := newHTTPClient cfg (Timeout p) in (c, MkPools (limiters m) (<[profileName := c]> (clients m)))
  end.

(** The question [mintOne] asks: the limiter is shared, so its new state stays. *)
Definition allow (profileName : string) (p : Profile) (now : Z) (m : Pools) : bool * Pools :=
  let '(l, m) := limiterFor profileName p m in
  let '(ok, l) := Allow now l in
  (ok, MkPools (<[profileName := l]> (limiters m)) (clients m)).

Record Ask := MkAsk { a_name : string; a_profile : Profile; a_now : Z }.

Fixpoint asks (l : list Ask) (m : Pools) : list (string * bool) :=
  match l with
  | [] => []
  | a :: l => let '(ok, m) := allow (a_name a) (a_profile a) (a_now a) m in (a_name a, ok) :: asks l m
  end.

(** One limiter, asked at some instants. *)
Fixpoint asks_one (times : list Z) (l : L) : list bool :=
  match times with [] => [] | t :: times => let '(ok, l) := Allow t l in ok :: asks_one times l end.

Definition answers (name : string) (l : list (string * bool)) : list bool :=
  map snd (List.filter (fun r => fst r ==s name) l).
Definition instants (name : string) (l : list Ask) : list Z := map a_now (List.filter (fun a => a_name a ==s name) l).

Lemma asks_existing name l m lim :
  limiters m !! name = Some lim -> answers name (asks l m) = asks_one (instants name l) lim.
Proof.
  revert m lim. induction l as [|a l IH]; intros m lim Hm; [done|]. cbn [asks]. unfold allow, limiterFor.
  destruct (String.eqb_spec (a_name a) name) as [<-|Hne].
  - rewrite Hm. destruct (Allow (a_now a) lim) as [ok lim'] eqn:Ha. unfold answers, instants. cbn [List.filter fst].
    rewrite String.eqb_refl. cbn [map snd asks_one]. rewrite Ha. f_equal. apply IH. cbn. apply lookup_insert_eq.
  - unfold answers, instants. cbn [List.filter].
    rewrite (proj2 (String.eqb_neq (a_name a) name) Hne).
    destruct (limiters m !! a_name a) as [l0|]; destruct (Allow _ _) as [ok l1]; cbn [List.filter fst];
      rewrite (proj2 (String.eqb_neq (a_name a) name) Hne); apply IH; cbn; rewrite ?lookup_insert_ne by done; done.
Qed.

(** The rate limit holds per profile however attempts of several profiles
    interleave: the answers for one profile are those of a single limiter, made
    from the profile when it was first used. *)
Lemma one_limiter_per_profile name l m a rest :
  limiters m !! name = None -> List.filter (fun a => a_name a ==s name) l = a :: rest ->
  answers name (asks l m) = asks_one (instants name l) (limiter_of (a_profile a)).
Proof.
  revert m. induction l as [|b l IH]; intros m Hm Hf; [done|]. cbn [List.filter] in Hf.
  destruct (String.eqb_spec (a_name b) name) as [<-|Hne].
  - injection Hf as -> _. cbn [asks]. unfold allow, limiterFor. rewrite Hm.
    destruct (Allow (a_now a) (limiter_of (a_profile a))) as [ok lim'] eqn:Ha. unfold answers, instants. cbn [List.filter fst].
    rewrite String.eqb_refl. cbn [map snd asks_one]. rewrite Ha. f_equal. apply asks_existing. cbn. apply lookup_insert_eq.
  - cbn [asks]. unfold allow, limiterFor, answers, instants. cbn [List.filter].
    rewrite (proj2 (String.eqb_neq (a_name b) name) Hne).
    destruct (limiters m !! a_name b) as [l0|]; destruct (Allow _ _) as [ok l1]; cbn [List.filter fst];
      rewrite (proj2 (String.eqb_neq (a_name b) name) Hne); apply IH; try done; cbn; by rewrite !lookup_insert_ne by done.
Qed.

(** Each profile keeps its client; every client is hardened. *)
Definition pool_ok (cfg : TokenMint.Config) (m : Pools) : Prop := map_Forall (fun _ c => exists t, c = newHTTPClient cfg t) (clients m).

Lemma clientFor_hardened cfg name p m :
  pool_ok cfg m -> let '(c, m') := clientFor cfg name p m in
  (exists t, c = newHTTPClient cfg t) /\ pool_ok cfg m' /\ clientFor cfg name p m' = (c, m').
Proof.
  intros Hm. unfold clientFor. destruct (clients m !! name) as [c|] eqn:Hc.
  - split; [by apply (Hm name)|]. split; [done|]. by rewrite Hc.
  - split; [by eexists|]. split; [apply map_Forall_insert_2; [by eexists|done]|]. cbn. by rewrite lookup_insert_eq.
Qed.

End Pool.

(** ** profile.go: [LoadConfigFile] *)

(** [ExpandEnvInStruct] on this structure: its strings, in maps the values. *)
Definition expand_profile (ex : string -> string) (p : Profile) : Profile :=
  MkProfile (ex (TokenURL p)) (ex (BodyStyle p)) (ex <$> StaticParams p) (ex (ClientIDParam p)) (ex (ClientSecretParam p))
    (ex (AccessTokenPath p)) (ex (ExpiresInPath p)) (ex (TokenTypePath p)) (ex (ExpectedTokenType p))
    (DefaultExpiresIn p) (ExpiresInHaircut p) (RefreshMargin p) (MinRefreshInterval p) (ErrorBackoffBase p) (ErrorBackoffMax p)
    (AuthErrorBackoff p) (IdleTTL p) (Timeout p) (MaxResponseBytes p) (MaxMintsPerMinute p) (SecretRefScopeSegments p).

Definition expand_config (ex : string -> string) (c : TokenMint.Config) : TokenMint.Config :=
  TokenMint.MkConfig (map ex (AllowedHosts c)) (AllowPrivate c) (expand_profile ex <$> Profiles c) (allowedHosts c).

Inductive LoadErr := ReadConfig | ParseConfig | InvalidConfig (e : ConfigErr).

Definition LoadConfigFile (url_Parse : string -> option URL) (ReadFile : string -> option string)
    (Unmarshal : string -> option TokenMint.Config) (env : gmap string string) (path : string) : result LoadErr TokenMint.Config :=
  match ReadFile path with
  | None => Err ReadConfig
  | Some data =>
      match Unmarshal data with
      | None => Err ParseConfig
      | Some cfg =>
          match TokenMint.Validate url_Parse (expand_config (SafeExpandEnv env) cfg) with
          | Err e => Err (InvalidConfig e)
          | Ok cfg => Ok cfg
          end
      end
  end.

(** A loaded configuration makes a minter. *)
Lemma LoadConfigFile_New url_Parse ReadFile Unmarshal env path cfg :
  LoadConfigFile url_Parse ReadFile Unmarshal env path = Ok cfg -> TokenMint.New (Some cfg) = Ok empty_minter.
Proof.
  unfold LoadConfigFile. destruct (ReadFile path); [|done]. destruct (Unmarshal _) as [c|]; [|done].
  unfold TokenMint.Validate. destruct (decide _) as [|Hne]; [done|]. destruct (first_err _ _); [|done]. intros [= <-].
  cbn. unfold applyDefaults. cbn. destruct (Nat.eqb_spec (size (profile_defaults <$> (expand_profile (SafeExpandEnv env) <$> Profiles c))) 0) as [Hz|]; [|done].
  exfalso. apply Hne. apply map_size_empty_iff in Hz. cbn. by apply fmap_empty_inv in Hz.
Qed.
