(* ===== verification/AuditSchema.v ===== *)
(** * Schemas of the audit store and the outbox (src/audit)

    [PGOutbox.Migrate] (outbox.go) with any number of processes starting at
    once, and the migrations of the audit store (postgres.go).  A transaction
    publishes its table when it commits and holds its advisory lock until it
    ends; creating a table that another open transaction has created fails. *)
From S2P Require Import Prelude GoStrings PgUtil.
Local Open Scope string_scope.

(** ** outbox.go *)

Inductive NewOutboxErr := PoolAndServiceRequired.

Definition NewPGOutbox {Pool} (pool : option Pool) (service : string) : result NewOutboxErr (Pool * string) :=
  match pool with
  | None => Err PoolAndServiceRequired
  | Some p => if service ==s "" then Err PoolAndServiceRequired else Ok (p, service)
  end.

Definition outboxMigrationLock : Z := 839106410823.

(** Where a process is in [Migrate]: before BEGIN, the lock, the DDL and
    COMMIT (with whether its transaction created the table). *)
Inductive mpc :=
| MBegin | MLock | MCreate | MCommit (created : bool) | MDone (r : option merr) | MCrashed
with merr := StatementFailed | CommitFailed_ | Conflict.

(** The committed table, the holder of the lock, the processes. *)
Record Schema := MkSchema { table : bool; holder : option nat; procs : list mpc }.

Definition in_tx (p : mpc) : bool := match p with MCreate | MCommit _ => true | _ => false end.

(** Some other open transaction has created the table. *)
Definition creating_elsewhere (i : nat) (ps : list mpc) : bool :=
  existsb id (imap (fun j p => negb (Nat.eqb j i) && match p with MCommit true => true | _ => false end) ps).

(** The end of a process's transaction releases its lock. *)
Definition leave (i : nat) (p : mpc) (t : bool) (s : Schema) : Schema :=
  MkSchema t (match holder s with Some j => if Nat.eqb j i then None else Some j | None => None end) (<[i := p]> (procs s)).

(** One statement of process [i]. *)
Definition Migrate (i : nat) (a : answer) (s : Schema) : option Schema :=
  match procs s !! i with
  | Some MBegin =>
      Some (match a with
            | Success => MkSchema (table s) (holder s) (<[i := MLock]> (procs s))
            | _ => leave i (MDone (Some StatementFailed)) (table s) s
            end)
  | Some MLock =>
      match a with
      | Success => match holder s with None => Some (MkSchema (table s) (Some i) (<[i := MCreate]> (procs s))) | Some _ => None end
      | _ => Some (leave i (MDone (Some StatementFailed)) (table s) s)
      end
  | Some MCreate =>
      Some (match a with
            | Success =>
                if table s then MkSchema (table s) (holder s) (<[i := MCommit false]> (procs s))
                else if creating_elsewhere i (procs s) then leave i (MDone (Some Conflict)) (table s) s
                else MkSchema (table s) (holder s) (<[i := MCommit true]> (procs s))
            | _ => leave i (MDone (Some StatementFailed)) (table s) s
            end)
  | Some (MCommit created) =>
      Some (match a with
            | Success => leave i (MDone None) (table s || created) s
            | Failure => leave i (MDone (Some CommitFailed_)) (table s) s
            | Lost => leave i (MDone (Some CommitFailed_)) (table s || created) s
            end)
  | _ => None
  end.

Inductive maction := MStatement (i : nat) (a : answer) | MCrash (i : nat) | MNew.

Definition mact (a : maction) (s : Schema) : option Schema :=
  match a with
  | MStatement i a => Migrate i a s
  | MCrash i => match procs s !! i with Some _ => Some (leave i MCrashed (table s) s) | None => None end
  | MNew => Some (MkSchema (table s) (holder s) (procs s ++ [MBegin])%list)
  end.

Fixpoint mrun (l : list maction) (s : Schema) : option Schema :=
  match l with [] => Some s | a :: l => match mact a s with Some s' => mrun l s' | None => None end end.

Record SInv (s : Schema) : Prop := {
  si_lock i p : procs s !! i = Some p -> in_tx p = true -> holder s = Some i;
  si_holder i : holder s = Some i -> exists p, procs s !! i = Some p /\ in_tx p = true;
  si_commit i : procs s !! i = Some (MCommit false) -> table s = true;
  si_done i r : procs s !! i = Some (MDone r) -> r <> Some Conflict /\ (r = None -> table s = true) }.

Lemma msetup (l : list mpc) i p j q : <[i := p]> l !! j = Some q -> (j = i /\ q = p) \/ (j <> i /\ l !! j = Some q).
Proof. intros [(-> & -> & _)|[? ?]]%list_lookup_insert_Some; auto. Qed.

(** A process stays within its transaction, or takes the lock. *)
Lemma sinv_enter i p q s :
  SInv s -> procs s !! i = Some q -> holder s = None \/ holder s = Some i -> in_tx p = true -> (p = MCommit false -> table s = true) ->
  SInv (MkSchema (table s) (Some i) (<[i := p]> (procs s))).
Proof.
  intros [H1 H2 H3 H4] Hq Hh Hp Hc. split; cbn.
  - intros j r [[-> ->]|[? Hj]]%msetup Hr; [done|]. specialize (H1 j r Hj Hr). destruct Hh; congruence.
  - intros j [= <-]. exists p. split; [|done]. apply list_lookup_insert_eq. by apply lookup_lt_Some in Hq.
  - intros j [[-> Hp']|[? Hj]]%msetup; eauto.
  - intros j r [[-> Hp']|[? Hj]]%msetup; [by rewrite <- Hp' in Hp|eauto].
Qed.

(** A process ends, or begins, outside of the lock. *)
Lemma sinv_leave i p q t s :
  SInv s -> procs s !! i = Some q -> in_tx p = false -> (table s = true -> t = true) ->
  (forall r, p = MDone r -> r <> Some Conflict /\ (r = None -> t = true)) -> SInv (leave i p t s).
Proof.
  intros [H1 H2 H3 H4] Hq Hp Ht Hd. split; cbn.
  - intros j r [[-> ->]|[? Hj]]%msetup Hr; [congruence|]. rewrite (H1 j r Hj Hr). by destruct (Nat.eqb_spec j i).
  - intros j Hj. destruct (holder s) as [k|] eqn:Hk; [|done]. destruct (Nat.eqb_spec k i) as [|Hne]; [done|]. injection Hj as <-.
    destruct (H2 k eq_refl) as (r & Hr & Hi). exists r. split; [|done]. by rewrite list_lookup_insert_ne.
  - intros j [[-> Hj]|[? Hj]]%msetup; [by rewrite <- Hj in Hp|eauto].
  - intros j r [[-> Hj]|[? Hj]]%msetup; [by apply Hd|]. destruct (H4 j r Hj). auto.
Qed.

Lemma not_elsewhere i s : SInv s -> holder s = Some i -> creating_elsewhere i (procs s) = false.
Proof.
  intros HI Hh. unfold creating_elsewhere. apply not_true_iff_false. intros (b & Hb & Hid)%existsb_exists. unfold id in Hid. subst b.
  apply list_elem_of_In, list_elem_of_lookup in Hb as [j Hj]. rewrite list_lookup_imap in Hj.
  destruct (procs s !! j) as [p|] eqn:Hp; [|done]. cbn in Hj. injection Hj as Hj. apply andb_true_iff in Hj as [Hn Hc].
  destruct p as [| | |[]| |]; try done. pose proof (si_lock s HI j _ Hp eq_refl). assert (j = i) as -> by congruence. by rewrite Nat.eqb_refl in Hn.
Qed.

Lemma sinv_statement i a s s' : SInv s -> Migrate i a s = Some s' -> SInv s'.
Proof.
  intros HI. unfold Migrate. destruct (procs s !! i) as [p|] eqn:Hp; [|done].
  destruct p as [| | |created| |]; try done.
  - destruct a; intros [= <-]; [|by eapply sinv_leave; try done; intros r [= <-]..]. destruct HI as [H1 H2 H3 H4]. split; cbn.
    + intros j r [[-> ->]|[? Hj]]%msetup Hr; [done|eauto].
    + intros j Hj. destruct (H2 j Hj) as (r & Hr & Hi). exists r. split; [|done]. rewrite list_lookup_insert_ne; [done|]. intros ->. rewrite Hp in Hr. by injection Hr as <-.
    + intros j [[-> ?]|[? Hj]]%msetup; [done|eauto].
    + intros j r [[-> ?]|[? Hj]]%msetup; [done|eauto].
  - destruct a; [|intros [= <-]; by eapply sinv_leave; try done; intros r [= <-]..].
    destruct (holder s) eqn:Hh; [done|]. intros [= <-]. by eapply sinv_enter; eauto.
  - pose proof (si_lock s HI i _ Hp eq_refl) as Hh. destruct a; [|intros [= <-]; by eapply sinv_leave; try done; intros r [= <-]..].
    rewrite (not_elsewhere i s HI Hh). destruct (table s) eqn:Ht; intros [= <-]; rewrite Hh, <- Ht; eapply sinv_enter; eauto; done.
  - pose proof (si_lock s HI i _ Hp eq_refl) as Hh.
    assert (created = false -> table s = true) as Hc by (intros ->; by apply (si_commit s HI i)).
    destruct a; intros [= <-]; eapply sinv_leave; try done; try (intros r [= <-]); try (by intros ->); try (by split).
    split; [done|]. intros _. destruct created; [by rewrite orb_true_r|]. by rewrite Hc.
Qed.

Lemma sinv_act a s s' : SInv s -> mact a s = Some s' -> SInv s'.
Proof.
  intros HI. destruct a as [i a|i|]; cbn [mact].
  - by apply sinv_statement.
  - destruct (procs s !! i) as [q|] eqn:Hq; [|done]. intros [= <-]. by eapply sinv_leave.
  - intros [= <-]. destruct HI as [H1 H2 H3 H4]. assert (forall j p, (procs s ++ [MBegin])%list !! j = Some p -> procs s !! j = Some p \/ p = MBegin) as Hl.
    { intros j p Hj%lookup_app_Some. destruct Hj as [?|[_ Hj]]; [auto|]. apply list_lookup_singleton_Some in Hj as [_ <-]. auto. }
    split; cbn.
    + intros j p [Hj| ->]%Hl Hp; [eauto|done].
    + intros j Hj. destruct (H2 j Hj) as (p & Hp & Hi). exists p. split; [|done]. by apply lookup_app_l_Some.
    + intros j [Hj|?]%Hl; [eauto|done].
    + intros j r [Hj|?]%Hl; [eauto|done].
Qed.

Lemma sinv_run l s s' : SInv s -> mrun l s = Some s' -> SInv s'.
Proof.
  revert s; induction l as [|a l IH]; cbn; intros s HI; [by intros [= <-]|].
  destruct (mact a s) as [s1|] eqn:Ha; [|done]. apply IH. by eapply sinv_act.
Qed.

Lemma table_grows l s s' : mrun l s = Some s' -> table s = true -> table s' = true.
Proof.
  revert s; induction l as [|a l IH]; cbn; intros s; [by intros [= <-]|]. destruct (mact a s) as [s1|] eqn:Ha; [|done].
  intros Hr Ht. apply (IH _ Hr). destruct a as [i a|i|]; cbn in Ha.
  - unfold Migrate in Ha. destruct (procs s !! i) as [[]|]; try done; repeat case_match; simplify_eq/=; done || by rewrite Ht.
  - destruct (procs s !! i); [|done]. by injection Ha as <-.
  - by injection Ha as <-.
Qed.

(** Services that start together do not trip over each other: in every
    interleaving, with statements, commits and processes failing anywhere, no
    migration fails because of another, a successful one leaves the table in
    place, and the table never goes away. *)
Lemma outbox_migration_safe t l s :
  mrun l (MkSchema t None []) = Some s ->
  (forall i, procs s !! i <> Some (MDone (Some Conflict))) /\
  (forall i, procs s !! i = Some (MDone None) -> table s = true) /\ (t = true -> table s = true).
Proof.
  intros Hr. assert (SInv (MkSchema t None [])) as H0 by (split; cbn; try done; intros i; by rewrite lookup_nil).
  pose proof (sinv_run _ _ _ H0 Hr) as HI. split_and!.
  - intros i Hi. by destruct (si_done s HI i _ Hi).
  - intros i Hi. destruct (si_done s HI i _ Hi). auto.
  - intros Ht. by apply (table_grows _ _ _ Hr).
Qed.

(** A waiting process waits only for one that holds the lock and can go on. *)
Lemma outbox_migration_progress t l s i p :
  mrun l (MkSchema t None []) = Some s -> procs s !! i = Some p -> (forall r, p <> MDone r) -> p <> MCrashed ->
  exists j a, is_Some (Migrate j a s).
Proof.
  intros Hr Hp Hd Hc. assert (SInv (MkSchema t None [])) as H0 by (split; cbn; try done; intros k; by rewrite lookup_nil).
  pose proof (sinv_run _ _ _ H0 Hr) as HI.
  assert (forall j q, procs s !! j = Some q -> in_tx q = true -> is_Some (Migrate j Success s)) as Hin.
  { intros j q Hj Hq. unfold Migrate. rewrite Hj. destruct q; try done; eauto. }
  destruct p; try done; [exists i, Success; unfold Migrate; rewrite Hp; eauto| |exists i, Success; by eapply Hin..|by destruct (Hd r)].
  destruct (holder s) as [j|] eqn:Hh; [|exists i, Success; unfold Migrate; rewrite Hp, Hh; eauto].
  destruct (si_holder s HI j Hh) as (q & Hq & Hi). exists j, Success. by eapply Hin.
Qed.

(** ** postgres.go *)

(** The audit store's migrations, with the tables and indexes each creates. *)
Definition audit_migrations : list Migration :=
  [MkMigration "001_audit_events" "audit_events, idx_audit_scope, idx_audit_actor"].

Definition audit_migrations_table : string := "audit_migrations".

(** [PostgresStore.Migrate]: one statement of a process. *)
Definition store_Migrate : nat -> answer -> Sys -> option Sys := RunMigrations audit_migrations.

Lemma audit_migrations_unique : NoDup (map Name audit_migrations).
Proof. apply (bool_decide_eq_true_1 (NoDup (map Name audit_migrations))). reflexivity. Qed.

(** Without the lock of the outbox, two stores that start together can fail: the
    second one's record of the migration meets the first one's. *)
Example store_migration_can_conflict :
  exists l s, run audit_migrations l (start (MkDB [] [])) = Some s /\
    map at_ (runners s) = [Done (Ok tt); Done (Err (ERecord "001_audit_events"))].
Proof.
  exists (let ok r := Statement r Success in [NewRunner; NewRunner; ok 0%nat; ok 1%nat; ok 0%nat; ok 1%nat; ok 0%nat; ok 1%nat; ok 0%nat; ok 1%nat;
          ok 0%nat; ok 0%nat; ok 0%nat; ok 1%nat]). eexists. split; vm_compute; reflexivity.
Qed.
