(* ===== verification/Observe.v ===== *)
(** * Tracing, metrics and query strings (src/observe, src/httpx/url.go)

    [InitTracer] with the process-wide provider and propagator it installs, the
    shutdown helpers and the HTTP wrapper; OpenTelemetry and Prometheus are
    arguments.  [AppendQuery] on parsed query values; net/url is an argument. *)
From S2P Require Import Prelude GoStrings TokenMint.
Local Open Scope string_scope.
Local Open Scope Z_scope.

(** ** trace.go *)

Record TraceConfig := MkTrace {
  tc_ServiceName : string; tc_ServiceVersion : string; tc_Endpoint : string; tc_SampleRate : Float64.t; tc_Insecure : bool }.

Inductive Propagator := TraceContext | Baggage.
Inductive ExporterOption := WithEndpoint (addr : string) | WithInsecure.

Section Trace.
Context {Res Exp : Type}.
(** [resource.New] with its two attributes, and [otlptracegrpc.New]. *)
Context (resource_New : list (string * string) -> option Res) (otlp_New : list ExporterOption -> option Exp).

Inductive ProviderOption := WithResource (r : Res) | WithParentRatioSampler (rate : Float64.t) | WithBatcher (e : Exp).

(** An SDK provider: what it was made of, and whether it was shut down. *)
Record SDKProvider := MkProvider { p_opts : list ProviderOption; p_down : bool }.

(** [TracerProvider]: the wrapped provider, [None] for the nil ones. *)
Definition TracerProvider := option SDKProvider.

(** The globals of the otel package. *)
Record Globals := MkGlobals { g_provider : option SDKProvider; g_propagators : list Propagator }.

Inductive TraceErr := ResourceFailed | ExporterFailed.

Definition sample_rate (cfg : TraceConfig) : Float64.t :=
  if SpecFloat.SFeqb (tc_SampleRate cfg) Float64.zero then Float64.one else tc_SampleRate cfg.

Definition exporter_options (cfg : TraceConfig) : list ExporterOption :=
  (WithEndpoint (tc_Endpoint cfg) :: if tc_Insecure cfg then [WithInsecure] else [])%list.

Definition InitTracer (cfg : TraceConfig) (g : Globals) : result TraceErr TracerProvider * Globals :=
  match resource_New [("service.name", tc_ServiceName cfg); ("service.version", tc_ServiceVersion cfg)] with
  | None => (Err ResourceFailed, g)
  | Some res =>
      let opts := [WithResource res; WithParentRatioSampler (sample_rate cfg)] in
      let install opts := let tp := MkProvider opts false in (Ok (Some tp), MkGlobals (Some tp) [TraceContext; Baggage]) in
      if tc_Endpoint cfg !=s "" then
        match otlp_New (exporter_options cfg) with
        | None => (Err ExporterFailed, g)
        | Some exp => install (opts ++ [WithBatcher exp])%list
        end
      else install opts
  end.

Definition Provider (p : TracerProvider) : option SDKProvider := p.

(** [Shutdown]: [ok] is the answer of the SDK; a nil provider has none to ask. *)
Definition Shutdown (ok : bool) (p : TracerProvider) : bool * TracerProvider :=
  match p with
  | None => (true, None)
  | Some tp => (ok, Some (MkProvider (p_opts tp) true))
  end.

(** [Close]: the shutdown gets five seconds; [finishes] says whether the SDK
    answers within a time. *)
Definition Close (finishes : Z -> bool) (p : TracerProvider) : bool * TracerProvider := Shutdown (finishes (5 * Second)) p.

Definition Noop : TracerProvider := Some (MkProvider [] false).

Definition exports (tp : SDKProvider) : bool := existsb (fun o => match o with WithBatcher _ => true | _ => false end) (p_opts tp).

(** Tracing is set up completely or not at all: an error leaves the globals as
    they were; otherwise the provider returned is the one installed, it exports
    exactly when an endpoint is configured, over TLS unless told otherwise, and
    its sampling rate is the configured one or, if that is zero, everything. *)
Lemma InitTracer_all_or_nothing cfg g r g' :
  InitTracer cfg g = (r, g') ->
  match r with
  | Err _ => g' = g
  | Ok p => exists tp, p = Some tp /\ g_provider g' = Some tp /\ g_propagators g' = [TraceContext; Baggage] /\ p_down tp = false /\
      (exports tp = true <-> tc_Endpoint cfg <> "") /\ In (WithParentRatioSampler (sample_rate cfg)) (p_opts tp) /\
      (In WithInsecure (exporter_options cfg) <-> tc_Insecure cfg = true)
  end.
Proof.
  assert (In WithInsecure (exporter_options cfg) <-> tc_Insecure cfg = true) as Hi.
  { unfold exporter_options. destruct (tc_Insecure cfg); cbn; split; try done; [auto|by intros [|[]]]. }
  unfold InitTracer. destruct (resource_New _) as [res|]; [|by intros [= <- <-]].
  destruct (String.eqb_spec (tc_Endpoint cfg) "") as [He|He]; cbn [negb].
  - intros [= <- <-]. eexists. do 4 (split; [reflexivity|]). split; [done|]. split; [cbn; auto|done].
  - destruct (otlp_New _) as [exp|]; [|by intros [= <- <-]]. intros [= <- <-]. eexists. do 4 (split; [reflexivity|]).
    split; [done|]. split; [cbn; auto|done].
Qed.

(** A sampling rate of zero cannot be asked for. *)
Lemma zero_rate_samples_all cfg : tc_SampleRate cfg = Float64.zero -> sample_rate cfg = Float64.one.
Proof. unfold sample_rate. by intros ->. Qed.

(** Without an endpoint the provider still samples spans; it is not a no-op. *)
Lemma no_endpoint_not_noop cfg g p g' :
  tc_Endpoint cfg = "" -> InitTracer cfg g = (Ok p, g') -> p <> Noop /\ p <> None.
Proof. unfold InitTracer. intros ->. destruct (resource_New _); [|done]. cbn. by intros [= <- _]. Qed.

End Trace.

(** ** metrics.go and middleware.go *)

(** A registry of the service's own, empty at first. *)
Definition NewRegistry {Collector : Type} : list Collector := [].

(** [promhttp.HandlerFor] of that registry, with OpenMetrics on. *)
Definition MetricsHandler {Reg H} (HandlerFor : Reg -> bool -> H) (reg : Reg) : H := HandlerFor reg true.

(** [otelhttp.NewHandler] with this provider. *)
Definition HTTPMiddleware {P H} (NewHandler : H -> string -> P -> H) (tp : P) (operation : string) : H -> H :=
  fun next => NewHandler next operation tp.

(** ** httpx/url.go *)

Abbreviation Values := (gmap string (list string)).

Fixpoint set_pairs (kvs : list string) (q : Values) : Values :=
  match kvs with
  | k :: v :: kvs => set_pairs kvs (<[k := [v]]> q)
  | _ => q
  end.

Section Query.
Context {U : Type} (Parse : string -> option U) (Query : U -> Values) (WithQuery : U -> Values -> string).

Definition AppendQuery (base : string) (kvs : list string) : string :=
  match Parse base with
  | None => base
  | Some u => WithQuery u (set_pairs kvs (Query u))
  end.
End Query.

(** The pairs of the arguments, a trailing key without value left out. *)
Fixpoint pairs_of (kvs : list string) : list (string * string) :=
  match kvs with k :: v :: kvs => (k, v) :: pairs_of kvs | _ => [] end.

Fixpoint last_value (k : string) (l : list (string * string)) : option string :=
  match l with
  | [] => None
  | (a, v) :: l => match last_value k l with Some x => Some x | None => if a ==s k then Some v else None end
  end.

(** Each key has one value, its last one; other parameters stay. *)
Lemma set_pairs_spec kvs q k :
  set_pairs kvs q !! k = match last_value k (pairs_of kvs) with Some v => Some [v] | None => q !! k end.
Proof.
  assert (forall n kvs q, (length kvs <= n)%nat ->
    set_pairs kvs q !! k = match last_value k (pairs_of kvs) with Some v => Some [v] | None => q !! k end) as H by
    (clear; induction n as [|n IH]; intros [|a [|v kvs]] q Hn; cbn [length] in Hn; try done; try lia;
     cbn [set_pairs pairs_of last_value]; rewrite IH by lia; destruct (last_value k (pairs_of kvs)); [done|];
     destruct (String.eqb_spec a k) as [->|Hne]; [by rewrite lookup_insert_eq|by rewrite lookup_insert_ne]).
  by apply (H (length kvs)).
Qed.

(** A parameter that was there is replaced, not added to. *)
Example append_replaces : set_pairs ["page"; "2"] (<["page" := ["1"]]> ∅) !! "page" = Some ["2"].
Proof. reflexivity. Qed.
