(* ===== verification/AuthnTokens.v ===== *)
(** * Route tokens on the wire (src/authntokens)

    The requests and responses of POST /auth/validate as their JSON tags make
    them: what is written (with the empty fields left out) and what a peer with
    the same types reads.  A decoder takes the members it knows. *)
From S2P Require Import Prelude GoStrings.
Local Open Scope string_scope.

Inductive json := JString (s : string) | JArray (l : list json) | JObject (m : list (string * json)).

Definition ReasonMissingClaim : string := "missing_claim".
Definition ReasonUnknownProfile : string := "unknown_profile".
Definition ReasonSigningFailed : string := "signing_failed".

Record IssueTokenRequest := MkIssue { iq_Profile : string }.
Record ValidateRequest := MkValidate { IssueTokens : list IssueTokenRequest }.
Record IssuedToken := MkIssued { it_Profile : string; it_Token : string; ExpiresAt : Z }.
Record IssueTokenError := MkIssueError { ie_Profile : string; ie_Reason : string }.
Record ValidateResponse := MkResponse {
  Headers : gmap string string; Tokens : list IssuedToken; Errors : list IssueTokenError }.

(** ** Encoding *)

Section Wire.
(** [time.Time] as JSON text, and back. *)
Context (format : Z -> string) (parse : string -> option Z).

Definition omit {A} (name : string) (l : list A) (enc : list A -> json) : list (string * json) :=
  match l with [] => [] | _ => [(name, enc l)] end.

Definition enc_issue (r : IssueTokenRequest) : json := JObject [("profile", JString (iq_Profile r))].
Definition enc_request (r : ValidateRequest) : json :=
  JObject (omit "issue_tokens" (IssueTokens r) (fun l => JArray (map enc_issue l))).
Definition enc_token (t : IssuedToken) : json :=
  JObject [("profile", JString (it_Profile t)); ("token", JString (it_Token t)); ("expires_at", JString (format (ExpiresAt t)))].
Definition enc_error (e : IssueTokenError) : json := JObject [("profile", JString (ie_Profile e)); ("reason", JString (ie_Reason e))].
Definition enc_headers (h : list (string * string)) : json := JObject (map (fun kv => (fst kv, JString (snd kv))) h).
Definition enc_response (r : ValidateResponse) : json :=
  JObject (omit "headers" (map_to_list (Headers r)) enc_headers ++ omit "tokens" (Tokens r) (fun l => JArray (map enc_token l)) ++
           omit "errors" (Errors r) (fun l => JArray (map enc_error l)))%list.

(** ** Decoding: a missing member leaves the zero value *)

Definition member (name : string) (m : list (string * json)) : option json :=
  snd <$> List.find (fun kv => fst kv ==s name) m.

Definition get_string (name : string) (m : list (string * json)) : option string :=
  match member name m with None => Some "" | Some (JString s) => Some s | Some _ => None end.

Definition get_list {A} (name : string) (dec : json -> option A) (m : list (string * json)) : option (list A) :=
  match member name m with None => Some [] | Some (JArray l) => mapM dec l | Some _ => None end.

Definition dec_issue (j : json) : option IssueTokenRequest :=
  match j with JObject m => p ← get_string "profile" m; Some (MkIssue p) | _ => None end.
Definition dec_request (j : json) : option ValidateRequest :=
  match j with JObject m => l ← get_list "issue_tokens" dec_issue m; Some (MkValidate l) | _ => None end.
Definition dec_token (j : json) : option IssuedToken :=
  match j with
  | JObject m =>
      p ← get_string "profile" m; t ← get_string "token" m;
      e ← match member "expires_at" m with None => Some 0%Z | Some (JString s) => parse s | Some _ => None end;
      Some (MkIssued p t e)
  | _ => None
  end.
Definition dec_error (j : json) : option IssueTokenError :=
  match j with JObject m => p ← get_string "profile" m; r ← get_string "reason" m; Some (MkIssueError p r) | _ => None end.
Definition dec_headers (j : option json) : option (list (string * string)) :=
  match j with
  | None => Some []
  | Some (JObject m) => mapM (fun kv => match snd kv with JString v => Some (fst kv, v) | _ => None end) m
  | Some _ => None
  end.
Definition dec_response (j : json) : option ValidateResponse :=
  match j with
  | JObject m =>
      h ← dec_headers (member "headers" m); t ← get_list "tokens" dec_token m; e ← get_list "errors" dec_error m;
      Some (MkResponse (list_to_map h) t e)
  | _ => None
  end.

(** ** Both sides agree *)

Lemma mapM_map {A B C} (f : A -> B) (g : B -> option C) (h : A -> C) l :
  (forall x, x ∈ l -> g (f x) = Some (h x)) -> mapM g (map f l) = Some (map h l).
Proof.
  induction l as [|x l IH]; intros Hx; [done|]. cbn. rewrite Hx by set_solver. cbn. rewrite IH by set_solver. done.
Qed.

Lemma mapM_back {A B} (f : A -> B) (g : B -> option A) l : (forall x, g (f x) = Some x) -> mapM g (map f l) = Some l.
Proof. intros Hg. rewrite (mapM_map f g id) by auto. by rewrite map_id. Qed.

Lemma request_roundtrip r : dec_request (enc_request r) = Some r.
Proof.
  destruct r as [[|q l]]; [done|]. unfold enc_request, dec_request, omit, get_list. cbn [IssueTokens member].
  change (member "issue_tokens" [("issue_tokens", JArray (map enc_issue (q :: l)))]) with (Some (JArray (map enc_issue (q :: l)))).
  cbn match. rewrite (mapM_back enc_issue dec_issue) by (by intros []). done.
Qed.

Context (time_roundtrip : forall t, parse (format t) = Some t).

(** What csar-authn writes is what the router reads: headers, tokens with
    their instants, and errors, in their order, present or not. *)
Lemma response_roundtrip r : dec_response (enc_response r) = Some r.
Proof.
  assert (forall t, dec_token (enc_token t) = Some t) as Ht.
  { intros [p t e]. unfold dec_token, enc_token, get_string. cbn. by rewrite time_roundtrip. }
  assert (forall h : list (string * string),
    mapM (fun kv => match snd kv with JString v => Some (fst kv, v) | _ => None end) (map (fun kv => (fst kv, JString (snd kv))) h) = Some h) as Hh.
  { intros h. apply (mapM_back (fun kv => (fst kv, JString (snd kv)))). by intros []. }
  assert (forall l, mapM dec_token (map enc_token l) = Some l) as Hts by (intros l; by apply mapM_back).
  assert (forall l, mapM dec_error (map enc_error l) = Some l) as Hes by (intros l; apply mapM_back; by intros []).
  destruct r as [m ts es]. rewrite <- (list_to_map_to_list m) at 2. unfold dec_response, enc_response, get_list, dec_headers, omit, enc_headers, member.
  cbn [Headers Tokens Errors]. generalize (map_to_list m) as h. clear m. intros h.
  destruct h as [|kv h], ts as [|t ts], es as [|e es]; cbn [app List.find fst snd fmap option_fmap option_map String.eqb Ascii.eqb Bool.eqb];
    rewrite ?Hh; cbn [mbind option_bind]; rewrite ?Hts; cbn [mbind option_bind]; rewrite ?Hes; done.
Qed.

End Wire.
