(* ===== verification/Ownership.v ===== *)
(** * Copies of what producers hand over
    (src/notify/types.go, src/audit/client.go, src/audit/identity.go)

    A producer keeps its reference to the notification or event it has
    recorded, and to the maps and slices inside, while the client's goroutines
    read the copy later.  Here the objects live in a shared heap and the
    producer is any sequence of loads, stores and allocations through the
    references it holds.  [Notify] and [AuditEvent] take copies to be values;
    this file shows when that is so, and OwnedClient.v runs the audit client on
    this heap. *)
From Stdlib Require String.
From S2P Require Import Prelude GoStrings AuditEvent Notify.
Local Open Scope Z_scope.

(** ** The heap *)

Abbreviation loc := positive.

(** A slice header; a nil slice has no array. *)
Record slice := MkSlice { arr : option loc; off : nat; len : nat }.
Definition nil_slice : slice := MkSlice None 0 0.

(** Objects: maps, backing arrays of strings and of bytes, and the structs of
    type [S]. *)
Inductive cell (S : Type) :=
| CMap (m : gmap string string) | CStrings (a : list string) | CBytes (b : list ascii) | CStruct (s : S).
Arguments CMap {S}. Arguments CStrings {S}. Arguments CBytes {S}. Arguments CStruct {S}.

(** The references inside a struct. *)
Class Refs (S : Type) := refs : S -> gset loc.

Definition slice_refs (s : slice) : gset loc := option_to_set (arr s).

Section Mem.
Context {S : Type} `{Refs S}.

Abbreviation heap := (gmap loc (cell S)).

Definition cell_refs (c : cell S) : gset loc := match c with CStruct s => refs s | _ => ∅ end.

(** No dangling references. *)
Definition closed_heap (h : heap) : Prop := map_Forall (fun _ c => cell_refs c ⊆ dom h) h.

#[global] Instance closed_heap_dec h : Decision (closed_heap h).
Proof. unfold closed_heap. apply _. Defined.

Definition alloc (c : cell S) (h : heap) : heap * loc := let l := fresh (dom h) in (<[l := c]> h, l).

Definition strings_of (c : cell S) : option (list string) := match c with CStrings a => Some a | _ => None end.
Definition bytes_of (c : cell S) : option (list ascii) := match c with CBytes b => Some b | _ => None end.

(** The elements of a slice; an empty slice is read without its array. *)
Definition read_slice {A} (sel : cell S -> option (list A)) (h : heap) (s : slice) : option (list A) :=
  match len s with
  | O => Some []
  | n => l ← arr s; c ← h !! l; a ← sel c;
         if Nat.leb (off s + n) (length a) then Some (take n (drop (off s) a)) else None
  end.

(** The contents of a map; a nil map reads as empty. *)
Definition read_map (h : heap) (m : option loc) : option (gmap string string) :=
  match m with
  | None => Some ∅
  | Some l => match h !! l with Some (CMap m) => Some m | _ => None end
  end.

(** [append([]T(nil), s...)]. *)
Definition append_nil {A} (sel : cell S -> option (list A)) (mk : list A -> cell S) (s : slice) (h : heap)
  : option (heap * slice) :=
  match read_slice sel h s with
  | None => None
  | Some [] => Some (h, nil_slice)
  | Some xs => let '(h', l) := alloc (mk xs) h in Some (h', MkSlice (Some l) 0 (length xs))
  end.

(** [make] and the loop that fills the new map, in the order of the range. *)
Definition fill (kvs : list (string * string)) : gmap string string :=
  foldl (fun m kv => <[kv.1 := kv.2]> m) ∅ kvs.

Definition copy_map (order : gmap string string -> list (string * string)) (m : option loc) (h : heap)
  : option (heap * option loc) :=
  match read_map h m with
  | None => None
  | Some x => if decide (x = ∅) then Some (h, m)
              else let '(h', l) := alloc (CMap (fill (order x))) h in Some (h', Some l)
  end.

(** *** The producer *)

Inductive act :=
| Load (l : loc) | SetKey (l : loc) (k : string) (v : option string) | SetString (l : loc) (i : nat) (v : string)
| SetByte (l : loc) (i : nat) (b : ascii) | SetStruct (l : loc) (s : S) | New (c : cell S).

(** The heap and the references that the producer holds. *)
Record world := MkWorld { mem : heap; known : gset loc }.

Definition store (l : loc) (c : cell S) (w : world) : world := MkWorld (<[l := c]> (mem w)) (known w).

(** A producer reaches an object only through a reference it holds and stores
    only references it holds. *)
Definition produce (a : act) (w : world) : option world :=
  match a with
  | Load l => c ← mem w !! l; if decide (l ∈ known w) then Some (MkWorld (mem w) (known w ∪ cell_refs c)) else None
  | SetKey l k v =>
      match mem w !! l with
      | Some (CMap m) => if decide (l ∈ known w) then Some (store l (CMap (partial_alter (fun _ => v) k m)) w) else None
      | _ => None
      end
  | SetString l i v =>
      match mem w !! l with
      | Some (CStrings a) => if decide (l ∈ known w /\ (i < length a)%nat) then Some (store l (CStrings (<[i := v]> a)) w) else None
      | _ => None
      end
  | SetByte l i b =>
      match mem w !! l with
      | Some (CBytes a) => if decide (l ∈ known w /\ (i < length a)%nat) then Some (store l (CBytes (<[i := b]> a)) w) else None
      | _ => None
      end
  | SetStruct l s =>
      match mem w !! l with
      | Some (CStruct _) => if decide (l ∈ known w /\ refs s ⊆ known w) then Some (store l (CStruct s) w) else None
      | _ => None
      end
  | New c =>
      if decide (cell_refs c ⊆ known w)
      then let '(h, l) := alloc c (mem w) in Some (MkWorld h ({[l]} ∪ known w)) else None
  end.

Fixpoint produce_all (acts : list act) (w : world) : option world :=
  match acts with
  | [] => Some w
  | a :: acts' => w' ← produce a w; produce_all acts' w'
  end.

(** *** What the producer cannot reach stays as it is *)

(** The cells of [F] are those of [h0], and nothing the producer can reach
    refers to them. *)
Record apart (F : gset loc) (h0 : heap) (w : world) : Prop := {
  a_known : known w ## F;
  a_refs : forall l c, l ∉ F -> mem w !! l = Some c -> cell_refs c ## F;
  a_dom : F ⊆ dom (mem w);
  a_same : forall l, l ∈ F -> mem w !! l = h0 !! l }.

Lemma apart_store F h0 w l c :
  apart F h0 w -> l ∈ known w -> cell_refs c ## F -> apart F h0 (store l c w).
Proof.
  intros [h1 h2 h3 h4] Hl Hc. constructor; cbn; [done| | |].
  - intros l' c' Hl' Hs. destruct (decide (l' = l)) as [->|Hne].
    + rewrite lookup_insert_eq in Hs. by injection Hs as <-.
    + rewrite lookup_insert_ne in Hs by done. eauto.
  - set_solver.
  - intros l' Hl'. rewrite lookup_insert_ne by set_solver. auto.
Qed.

Lemma apart_produce F h0 a w w' : apart F h0 w -> produce a w = Some w' -> apart F h0 w'.
Proof.
  intros HA Hp. pose proof HA as [h1 h2 h3 h4].
  destruct a as [l|l k v|l i v|l i b|l s|c]; cbn in Hp.
  - destruct (mem w !! l) as [c|] eqn:Hc; [|done]. cbn in Hp. case_decide; [|done]. injection Hp as <-.
    assert (cell_refs c ## F) by (apply (h2 l); [set_solver|done]). constructor; cbn; [set_solver|done..].
  - destruct (mem w !! l) as [[]|] eqn:Hc; try done. case_decide; [|done]. injection Hp as <-.
    by apply apart_store; [..|apply disjoint_empty_l].
  - destruct (mem w !! l) as [[]|] eqn:Hc; try done. case_decide as Hd; [|done]. injection Hp as <-.
    destruct Hd as [Hl _]. by apply apart_store; [..|apply disjoint_empty_l].
  - destruct (mem w !! l) as [[]|] eqn:Hc; try done. case_decide as Hd; [|done]. injection Hp as <-.
    destruct Hd as [Hl _]. by apply apart_store; [..|apply disjoint_empty_l].
  - destruct (mem w !! l) as [[]|] eqn:Hc; try done. case_decide as Hd; [|done]. injection Hp as <-.
    destruct Hd as [Hl Hr]. apply apart_store; [done..|]. cbn. set_solver.
  - case_decide as Hd; [|done]. injection Hp as <-. pose proof (is_fresh (dom (mem w))) as Hf.
    constructor; cbn; [set_solver| |set_solver|].
    + intros l' c' Hl' Hs. destruct (decide (l' = fresh (dom (mem w)))) as [->|Hne].
      * rewrite lookup_insert_eq in Hs. injection Hs as <-. set_solver.
      * rewrite lookup_insert_ne in Hs by done. eauto.
    + intros l' Hl'. rewrite lookup_insert_ne by set_solver. auto.
Qed.

Lemma apart_produce_all F h0 acts w w' : apart F h0 w -> produce_all acts w = Some w' -> apart F h0 w'.
Proof.
  revert w; induction acts as [|a acts IH]; intros w HA; cbn; [by intros [= <-]|].
  destruct (produce a w) as [w1|] eqn:E; [|done]. cbn. eauto using apart_produce.
Qed.

(** *** Facts about what is new in a heap *)

(** [P] holds of every heap that has the cells of [h'] that are not in [h]. *)
Definition fixed_by_new (h h' : heap) (P : heap -> Prop) : Prop :=
  h ⊆ h' /\ forall g : heap, (forall l, l ∈ dom h' ∖ dom h -> g !! l = h' !! l) -> P g.

Lemma fixed_and h h1 h2 P Q :
  fixed_by_new h h1 P -> fixed_by_new h1 h2 Q -> fixed_by_new h h2 (fun g => P g /\ Q g).
Proof.
  intros [H1 HP] [H2 HQ]. pose proof (subseteq_dom _ _ H1). pose proof (subseteq_dom _ _ H2).
  split; [by etrans|]. intros g Hg. split.
  - apply HP. intros l Hl. rewrite Hg by set_solver. apply elem_of_difference in Hl as [[c Hc]%elem_of_dom _].
    rewrite Hc. by eapply lookup_weaken.
  - apply HQ. intros l Hl. apply Hg. set_solver.
Qed.

Lemma fixed_impl h h' (P Q : heap -> Prop) : (forall g, P g -> Q g) -> fixed_by_new h h' P -> fixed_by_new h h' Q.
Proof. intros HPQ [H1 HP]. split; auto. Qed.

Lemma insert_fixed c h l : (l ∉ dom h) -> fixed_by_new h (<[l := c]> h) (fun g => g !! l = Some c).
Proof.
  intros Hf. split; [by apply insert_subseteq, not_elem_of_dom|]. intros g Hg.
  rewrite Hg by set_solver. apply lookup_insert_eq.
Qed.

Lemma alloc_fixed c h h' l : alloc c h = (h', l) -> fixed_by_new h h' (fun g => g !! l = Some c).
Proof. intros [= <- <-]. apply insert_fixed, is_fresh. Qed.

Lemma append_nil_spec {A} sel (mk : list A -> cell S) s h xs :
  (forall a, sel (mk a) = Some a) -> read_slice sel h s = Some xs ->
  exists h' s', append_nil sel mk s h = Some (h', s') /\ fixed_by_new h h' (fun g => read_slice sel g s' = Some xs).
Proof.
  intros Hsel Hr. unfold append_nil. rewrite Hr. destruct xs as [|x xs]; [by do 2 eexists|].
  destruct (alloc _ h) as [h1 l] eqn:Ha. do 2 eexists. split; [done|].
  generalize (alloc_fixed _ _ _ _ Ha). apply fixed_impl. intros g Hg.
  unfold read_slice. cbn. rewrite Hg. cbn. rewrite Hsel. cbn. rewrite Nat.leb_refl. by rewrite firstn_all.
Qed.

Lemma read_slice_mono {A} (sel : cell S -> option (list A)) h h' s xs :
  h ⊆ h' -> read_slice sel h s = Some xs -> read_slice sel h' s = Some xs.
Proof.
  intros Hs. unfold read_slice. destruct (len s); [done|]. destruct (arr s) as [l|]; [|done]. cbn.
  destruct (h !! l) as [c|] eqn:Hc; [|done]. by rewrite (lookup_weaken _ _ _ _ Hc Hs).
Qed.

Lemma fill_order m kvs : kvs ≡ₚ map_to_list m -> fill kvs = m.
Proof.
  intros Hp. assert (NoDup kvs.*1) as Hnd by (rewrite Hp; apply NoDup_fst_map_to_list).
  transitivity (list_to_map kvs : gmap string string);
    [|rewrite (list_to_map_proper _ _ Hnd Hp); apply list_to_map_to_list].
  clear Hp. unfold fill. assert (forall acc : gmap string string, (forall k, k ∈ kvs.*1 -> acc !! k = None) ->
    foldl (fun m kv => <[kv.1 := kv.2]> m) acc kvs = list_to_map kvs ∪ acc) as Hg.
  { induction kvs as [|[k v] kvs IH]; intros acc Hacc; cbn; [by rewrite (left_id_L ∅ _)|].
    cbn in Hnd. apply NoDup_cons in Hnd as [Hk Hnd]. rewrite IH; [|done|].
    - apply map_eq. intros j. rewrite !lookup_union.
      destruct (decide (j = k)) as [->|Hne].
      + rewrite !lookup_insert_eq, (not_elem_of_list_to_map_1 _ _ Hk), (Hacc k) by (cbn; set_solver). done.
      + rewrite !lookup_insert_ne by done. done.
    - intros j Hj. rewrite lookup_insert_ne by (intros ->; done). apply Hacc. cbn. set_solver. }
  rewrite Hg by done. by rewrite (right_id_L ∅ _).
Qed.

Lemma copy_map_spec order m h x :
  (forall y, order y ≡ₚ map_to_list y) -> read_map h m = Some x -> (x = ∅ -> m = None) ->
  exists h' m', copy_map order m h = Some (h', m') /\ fixed_by_new h h' (fun g => read_map g m' = Some x).
Proof.
  intros Ho Hr Hne. unfold copy_map. rewrite Hr. case_decide as Hd.
  - exists h, m. rewrite (Hne Hd), Hd. done.
  - destruct (alloc _ h) as [h1 l] eqn:Ha. do 2 eexists. split; [done|].
    generalize (alloc_fixed _ _ _ _ Ha). apply fixed_impl. intros g Hg. cbn. rewrite Hg. by rewrite (fill_order x).
Qed.

(** What the new cells fix, no producer that held references into the old heap
    can change. *)
Lemma fixed_against_producer h h' P K acts w :
  closed_heap h -> K ⊆ dom h -> fixed_by_new h h' P ->
  produce_all acts (MkWorld h' K) = Some w -> P h' /\ P (mem w).
Proof.
  intros Hc HK [Hs HP] Hr. split; [by apply HP|].
  assert (apart (dom h' ∖ dom h) h' (MkWorld h' K)) as HA.
  { constructor; cbn; [set_solver| |set_solver|done]. intros l c Hl Hlc.
    assert (l ∈ dom h) as [c0 Hc0]%elem_of_dom by (apply elem_of_dom_2 in Hlc; set_solver).
    rewrite (lookup_weaken _ _ _ _ Hc0 Hs) in Hlc. injection Hlc as ->.
    pose proof (Hc _ _ Hc0) as Hr'. cbn in Hr'. set_solver. }
  destruct (apart_produce_all _ _ _ _ _ HA Hr) as [_ _ _ Hsame]. apply HP. done.
Qed.

End Mem.

#[global] Arguments alloc : simpl never.

(** ** Notifications (src/notify/types.go) *)
Module Note.

Record Obj := MkObj {
  ID : string; Topic : string; Title : string; Body : string; Link : string; Metadata : option loc;
  priority : Priority; Recipients : slice; Channels : slice; Sender : string }.

#[export] Instance obj_refs : Refs Obj :=
  fun n => option_to_set (Metadata n) ∪ slice_refs (Recipients n) ∪ slice_refs (Channels n).

Abbreviation heap := (gmap loc (cell Obj)).

(** The value of the notification at [l]. *)
Definition view (h : heap) (l : loc) : option Notification :=
  match h !! l with
  | Some (CStruct n) =>
      m ← read_map h (Metadata n); r ← read_slice strings_of h (Recipients n);
      c ← read_slice strings_of h (Channels n);
      Some (MkNotification (ID n) (Topic n) (Title n) (Body n) (Link n) m (priority n) r c (Sender n))
  | _ => None
  end.

(** [if len(s) > 0 { s' = append([]T(nil), s...) }]. *)
Definition copy_slice (s : slice) (h : heap) : option (heap * slice) :=
  if Nat.ltb 0 (len s) then append_nil strings_of CStrings s h else Some (h, s).

Definition cloneNotification (order : gmap string string -> list (string * string)) (n : option loc) (h : heap)
  : option (heap * option loc) :=
  match n with
  | None => Some (h, None)
  | Some l =>
      match h !! l with
      | Some (CStruct n) =>
          '(h1, m) ← copy_map order (Metadata n) h;
          '(h2, r) ← copy_slice (Recipients n) h1;
          '(h3, c) ← copy_slice (Channels n) h2;
          let '(h4, cp) := alloc (CStruct (MkObj (ID n) (Topic n) (Title n) (Body n) (Link n) m (priority n) r c (Sender n))) h3 in
          Some (h4, Some cp)
      | _ => None
      end
  end.

(** The metadata of the notification at [l] is nil or has an entry. *)
Definition metadata_ok (h : heap) (l : loc) : bool :=
  match h !! l with
  | Some (CStruct n) => match Metadata n, read_map h (Metadata n) with
                        | Some _, Some m => negb (bool_decide (m = ∅))
                        | _, _ => true
                        end
  | _ => true
  end.

Lemma copy_slice_spec s (h : heap) xs :
  read_slice strings_of h s = Some xs ->
  exists h' s', copy_slice s h = Some (h', s') /\ fixed_by_new h h' (fun g => read_slice strings_of g s' = Some xs).
Proof.
  intros Hr. unfold copy_slice. destruct (len s) as [|k] eqn:Hl; cbn.
  - do 2 eexists. split; [done|]. split; [done|]. intros g _. revert Hr. unfold read_slice. by rewrite Hl.
  - by apply append_nil_spec.
Qed.

Lemma clone_fixed order (h : heap) l v :
  (forall y, order y ≡ₚ map_to_list y) -> view h l = Some v -> metadata_ok h l = true ->
  exists h' cp, cloneNotification order (Some l) h = Some (h', Some cp) /\ fixed_by_new h h' (fun g => view g cp = Some v).
Proof.
  intros Ho. unfold view, metadata_ok, cloneNotification. destruct (h !! l) as [[| | |n]|] eqn:Hl; try done.
  destruct (read_map h (Metadata n)) as [m|] eqn:Hm; [|done]. cbn.
  destruct (read_slice strings_of h (Recipients n)) as [r|] eqn:Hr; [|done]. cbn.
  destruct (read_slice strings_of h (Channels n)) as [c|] eqn:Hch; [|done]. cbn. intros [= <-] Hmd.
  destruct (copy_map_spec order (Metadata n) h m Ho Hm) as (h1 & m' & -> & F1).
  { intros ->. destruct (Metadata n); [|done]. by rewrite bool_decide_eq_true_2 in Hmd. }
  destruct (copy_slice_spec _ h1 _ (read_slice_mono _ _ _ _ _ (proj1 F1) Hr)) as (h2 & r' & E2 & F2).
  cbn. rewrite E2. pose proof (fixed_and _ _ _ _ _ F1 F2) as F12.
  destruct (copy_slice_spec _ h2 _ (read_slice_mono _ _ _ _ _ (proj1 F12) Hch)) as (h3 & c' & E3 & F3).
  cbn. rewrite E3. cbn. destruct (alloc _ h3) as [h4 cp] eqn:E4. do 2 eexists. split; [done|].
  generalize (fixed_and _ _ _ _ _ (fixed_and _ _ _ _ _ F12 F3) (alloc_fixed _ _ _ _ E4)). apply fixed_impl.
  intros g [[[G1 G2] G3] G4]. rewrite G4. cbn. rewrite G1. cbn. rewrite G2. cbn. by rewrite G3.
Qed.

(** C29. Recording a notification takes a copy that is the producer's value at that
    moment and stays it: whatever the producer does afterwards through the
    references it holds, the struct's, its map's and its slices' included, the
    copy in the queue reads the same, and what the producer sees is untouched
    by the copying.  The metadata must be nil or have an entry. *)
Theorem recorded_notification_is_owned order (h : heap) K l v acts :
  (forall y, order y ≡ₚ map_to_list y) -> closed_heap h -> K ⊆ dom h ->
  view h l = Some v -> metadata_ok h l = true ->
  exists h' cp, cloneNotification order (Some l) h = Some (h', Some cp) /\ h ⊆ h' /\ view h' cp = Some v /\
    forall w, produce_all acts (MkWorld h' K) = Some w -> view (mem w) cp = Some v.
Proof.
  intros Ho Hc HK Hv Hm. destruct (clone_fixed _ _ _ _ Ho Hv Hm) as (h' & cp & E & F).
  exists h', cp. split; [done|]. split; [exact (proj1 F)|]. split; [by apply (proj2 F)|].
  intros w Hw. by destruct (fixed_against_producer _ _ _ _ _ _ Hc HK F Hw).
Qed.

(** *** A producer that goes on editing *)

Definition n1 : Obj := MkObj "" "platform.devlog" "a" "" "" (Some 2%positive) PriorityNormal
  (MkSlice (Some 3%positive) 0 1) (MkSlice (Some 4%positive) 0 1) "".
Definition h1 : heap := <[1%positive := CStruct n1]> (<[2%positive := CMap {["k" := "v"]}]>
  (<[3%positive := CStrings ["u1"]]> (<[4%positive := CStrings [ChannelSite; "spare"]]> ∅))).
Definition v1 : Notification := MkNotification "" "platform.devlog" "a" "" "" {["k" := "v"]} PriorityNormal ["u1"] [ChannelSite] "".
Definition edits : list (@act Obj) :=
  [Load 1%positive; SetString 3 0 "mutated"; SetKey 2 "k" (Some "changed"); SetKey 2 "new" (Some "x");
   SetString 4 0 ChannelTelegram; New (CStrings ["u2"; "u3"]); SetStruct 1 n1].

Lemma recorded_notification_witness :
  exists h' cp w, cloneNotification map_to_list (Some 1%positive) h1 = Some (h', Some cp) /\
    produce_all edits (MkWorld h' {[1%positive]}) = Some w /\
    (Notify.Recipients <$> view (mem w) 1) = Some ["mutated"] /\ view (mem w) cp = Some v1.
Proof.
  destruct (recorded_notification_is_owned map_to_list h1 {[1%positive]} 1 v1 edits) as (h' & cp & E & _ & _ & Hw).
  { done. } { apply (bool_decide_unpack _). by vm_compute. } { apply (bool_decide_unpack _). by vm_compute. } { by vm_compute. } { by vm_compute. }
  destruct (produce_all edits (MkWorld h' {[1%positive]})) as [w|] eqn:Hr.
  - exists h', cp, w. split; [done|]. split; [done|]. split; [|auto].
    revert Hr. injection E as <- _. intros [= <-]. by vm_compute.
  - exfalso. revert Hr. injection E as <- _. by vm_compute.
Defined.

(** An empty map that is not nil is not copied: what the producer adds to it
    after the call is in the queued notification. *)
Definition n2 : Obj := MkObj "" "t" "a" "" "" (Some 2%positive) PriorityNormal nil_slice nil_slice "".
Definition h2 : heap := <[1%positive := CStruct n2]> (<[2%positive := CMap ∅]> ∅).

Lemma empty_metadata_is_shared :
  exists h' cp w, cloneNotification map_to_list (Some 1%positive) h2 = Some (h', Some cp) /\
    (Notify.Metadata <$> view h' cp) = Some ∅ /\
    produce_all [Load 1; SetKey 2 "user" (Some "secret")] (MkWorld h' {[1%positive]}) = Some w /\
    (Notify.Metadata <$> view (mem w) cp) = Some {["user" := "secret"]}.
Proof. do 3 eexists. repeat split; vm_compute; reflexivity. Qed.

End Note.

(** ** Audit events (src/audit) *)
Module Ev.

Record Obj := MkObj {
  ID : string; Service : string; Actor : string; Action : string;
  TargetType : string; TargetID : string; ScopeType : string; ScopeID : string;
  BeforeState : slice; AfterState : slice; Metadata : slice;
  RequestID : string; ClientIP : string; CreatedAt : Z }.

#[export] Instance obj_refs : Refs Obj :=
  fun e => slice_refs (BeforeState e) ∪ slice_refs (AfterState e) ∪ slice_refs (Metadata e).

Abbreviation heap := (gmap loc (cell Obj)).

Definition raw (h : heap) (s : slice) : option string := String.string_of_list_ascii <$> read_slice bytes_of h s.

Definition value (h : heap) (e : Obj) : option Event :=
  b ← raw h (BeforeState e); a ← raw h (AfterState e); m ← raw h (Metadata e);
  Some (MkEvent (ID e) (Service e) (Actor e) (Action e) (TargetType e) (TargetID e) (ScopeType e) (ScopeID e)
          b a m (RequestID e) (ClientIP e) (CreatedAt e)).

(** The value of the event at [l]. *)
Definition view (h : heap) (l : loc) : option Event :=
  match h !! l with Some (CStruct e) => value h e | _ => None end.

Definition cloneEvent (e : option loc) (h : heap) : option (heap * option loc) :=
  match e with
  | None => Some (h, None)
  | Some l =>
      match h !! l with
      | Some (CStruct e) =>
          '(h1, b) ← append_nil bytes_of CBytes (BeforeState e) h;
          '(h2, a) ← append_nil bytes_of CBytes (AfterState e) h1;
          '(h3, m) ← append_nil bytes_of CBytes (Metadata e) h2;
          let '(h4, cp) := alloc (CStruct (MkObj (ID e) (Service e) (Actor e) (Action e) (TargetType e) (TargetID e)
            (ScopeType e) (ScopeID e) b a m (RequestID e) (ClientIP e) (CreatedAt e))) h3 in
          Some (h4, Some cp)
      | _ => None
      end
  end.

(** Assignments to fields. *)
Definition set_identity (id : string) (t : Z) (e : Obj) : Obj :=
  MkObj id (Service e) (Actor e) (Action e) (TargetType e) (TargetID e) (ScopeType e) (ScopeID e)
    (BeforeState e) (AfterState e) (Metadata e) (RequestID e) (ClientIP e) t.
Definition set_service (s : string) (e : Obj) : Obj :=
  MkObj (ID e) s (Actor e) (Action e) (TargetType e) (TargetID e) (ScopeType e) (ScopeID e)
    (BeforeState e) (AfterState e) (Metadata e) (RequestID e) (ClientIP e) (CreatedAt e).

Section Prepare.
Context `{UUIDLib}.

(** [PrepareEvent]: the copy is made first and edited in place. *)
Definition PrepareEvent (rnd : option UUID) (now : Z) (event : option loc) (h : heap)
  : option (heap * result EventErr loc) :=
  match event with
  | None => Some (h, Err EventRequired)
  | Some _ =>
      '(h1, cp) ← cloneEvent event h; p ← cp;
      match h1 !! p with
      | Some (CStruct e) =>
          let id := if ID e ==s "" then match rnd with Some u => Ok u | None => Err RandomFailed end
                    else parseEventID (ID e) in
          match id with
          | Err x => Some (h1, Err x)
          | Ok u =>
              let t := if IsZero (CreatedAt e) then now else CreatedAt e in
              Some (<[p := CStruct (set_identity (uuid_String u) (TruncateMicro t) e)]> h1, Ok p)
          end
      | _ => None
      end
  end.

(** The copy as it is, and after an assignment [f] to its fields that is [F] on
    values. *)
Lemma clone_edit_fixed (h : heap) l v :
  view h l = Some v ->
  exists h' cp o, cloneEvent (Some l) h = Some (h', Some cp) /\ h' !! cp = Some (CStruct o) /\
    (ID o, Service o, CreatedAt o) = (AuditEvent.ID v, AuditEvent.Service v, AuditEvent.CreatedAt v) /\
    fixed_by_new h h' (fun g => view g cp = Some v) /\
    forall f F, (forall g, value g (f o) = F <$> value g o) ->
      fixed_by_new h (<[cp := CStruct (f o)]> h') (fun g => view g cp = Some (F v)).
Proof.
  unfold view, cloneEvent. destruct (h !! l) as [[| | |e]|] eqn:Hl; try done. unfold value, raw.
  destruct (read_slice bytes_of h (BeforeState e)) as [b|] eqn:Hb; [|done]. cbn.
  destruct (read_slice bytes_of h (AfterState e)) as [a|] eqn:Ha; [|done]. cbn.
  destruct (read_slice bytes_of h (Metadata e)) as [m|] eqn:Hm; [|done]. cbn. intros [= <-].
  destruct (append_nil_spec bytes_of CBytes _ h _ (fun _ => eq_refl) Hb) as (h1 & b' & -> & F1). cbn.
  destruct (append_nil_spec bytes_of CBytes _ h1 _ (fun _ => eq_refl) (read_slice_mono _ _ _ _ _ (proj1 F1) Ha))
    as (h2 & a' & E2 & F2). rewrite E2. cbn. pose proof (fixed_and _ _ _ _ _ F1 F2) as F12.
  destruct (append_nil_spec bytes_of CBytes _ h2 _ (fun _ => eq_refl) (read_slice_mono _ _ _ _ _ (proj1 F12) Hm))
    as (h3 & m' & E3 & F3). rewrite E3. cbn. pose proof (fixed_and _ _ _ _ _ F12 F3) as F.
  unfold alloc. cbn. pose proof (is_fresh (dom h3)) as Hf. set (cp := fresh (dom h3)) in *.
  pose proof (fun x => fixed_and _ _ _ _ _ F (insert_fixed x _ _ Hf)) as FX.
  do 3 eexists. split; [done|]. split; [apply lookup_insert_eq|]. split; [done|]. split.
  - eapply fixed_impl; [|apply FX].
    intros g [[[G1 G2] G3] G4]. rewrite G4. cbn. rewrite G1. cbn. rewrite G2. cbn. by rewrite G3.
  - intros f f' Hff. rewrite insert_insert_eq. eapply fixed_impl; [|apply FX].
    intros g [[[G1 G2] G3] G4]. rewrite G4. rewrite Hff. cbn. rewrite G1. cbn. rewrite G2. cbn. by rewrite G3.
Qed.

Lemma value_identity id t (g : heap) o : value g (set_identity id t o) = with_identity id t <$> value g o.
Proof. unfold value. cbn. by destruct (raw g (BeforeState o)), (raw g (AfterState o)), (raw g (Metadata o)). Qed.

Lemma value_service s (g : heap) o : value g (set_service s o) = with_service s <$> value g o.
Proof. unfold value. cbn. by destruct (raw g (BeforeState o)), (raw g (AfterState o)), (raw g (Metadata o)). Qed.

(** The outcome [r] of preparing is that of [AuditEvent.PrepareEvent] on values,
    and what is new in [h'] fixes the prepared event. *)
Definition prepares (h h' : heap) (r : result EventErr loc) (spec : result EventErr Event) : Prop :=
  h ⊆ h' /\
  match r, spec with
  | Ok p, Ok v => fixed_by_new h h' (fun g => view g p = Some v)
  | Err x, Err y => x = y
  | _, _ => False
  end.

Lemma PrepareEvent_prepares rnd now (h : heap) l v :
  view h l = Some v ->
  exists h' r, PrepareEvent rnd now (Some l) h = Some (h', r) /\ prepares h h' r (AuditEvent.PrepareEvent rnd now (Some v)).
Proof.
  intros Hv. destruct (clone_edit_fixed _ _ _ Hv) as (h1 & cp & o & E & Ho & [= Hid _ Ht] & F & Fe).
  unfold PrepareEvent, AuditEvent.PrepareEvent. rewrite E, cloneEvent_id. cbn. rewrite Ho, Hid, Ht.
  set (id := if _ ==s _ then _ else _). destruct id as [u|x]; do 2 eexists; (split; [done|]).
  - specialize (Fe _ _ (fun g => value_identity (uuid_String u)
      (TruncateMicro (if IsZero (AuditEvent.CreatedAt v) then now else AuditEvent.CreatedAt v)) g o)).
    split; [exact (proj1 Fe)|exact Fe].
  - split; [exact (proj1 F)|done].
Qed.

End Prepare.

End Ev.
