(* ===== verification/OwnedClient.v ===== *)
(** * The audit client on a shared heap (src/audit/recorder.go, src/audit/client.go)

    [ClientRecorder.Record] and the client's goroutines pass references to
    events, while the producers keep the references they had and store through
    them at any time.  [AuditClient] runs the same client on values; here every
    run on the heap is shown to be one of those. *)
From S2P Require Import Prelude GoStrings AuditEvent AsyncClient AuditClient Ownership.
Import Ownership.Ev.
Local Open Scope Z_scope.

(** ** The client's elements *)

Section Elements.
Context {A B : Type}.

Definition worker_map (f : A -> B) (w : worker A) : worker B :=
  match w with Waiting => Waiting | Sending b => Sending (map f b) | Done => Done end.

(** The client with [f] applied to every event it holds or has accounted for. *)
Definition client_map (f : A -> B) (c : AsyncClient.Client A) : AsyncClient.Client B :=
  MkClient (fallbackLog c) (evCap c) (outCap c) (map f (events c)) (closed c) (map f (batch c)) (timer c)
    (dispatcherDone c) (map (map f) (batches c)) (batchesClosed c) (map (worker_map f) (workers c))
    (map f (recorded c)) (map f (sent c)) (map (fun x => (x.1, f x.2)) (logged c)) (map f (dropped c)).

Definition worker_holds (P : A -> Prop) (w : worker A) : Prop :=
  match w with Sending b => Forall P b | _ => True end.

(** [P] holds of every event of the client. *)
Record holds (P : A -> Prop) (c : AsyncClient.Client A) : Prop := {
  h_events : Forall P (events c); h_batch : Forall P (batch c);
  h_batches : Forall (Forall P) (batches c); h_workers : Forall (worker_holds P) (workers c);
  h_recorded : Forall P (recorded c); h_sent : Forall P (sent c);
  h_logged : Forall (fun x => P x.2) (logged c); h_dropped : Forall P (dropped c) }.

End Elements.

Section Natural.
Context {A B : Type} (f : A -> B) {mB : Marshals B}.

#[local] Instance mA : Marshals A := fun p => marshals (f p).

Lemma map_fallback r l c : fallback r (map f l) (client_map f c) = client_map f (fallback r l c).
Proof.
  assert (map (fun x => (x.1, f x.2)) (map (log_line r) l) = map (log_line r) (map f l)) as Hl.
  { rewrite !map_map. apply map_ext. intros p. unfold log_line, marshals, mA, marshals. by destruct (mB (f p)). }
  unfold fallback. cbn [fallbackLog client_map]. destruct (fallbackLog c); unfold client_map; cbn.
  - by rewrite map_app, Hl.
  - by rewrite map_app.
Qed.

Lemma map_enqueue p c : enqueue (f p) (client_map f c) = client_map f (enqueue p c).
Proof.
  unfold enqueue. cbn [events client_map evCap]. rewrite length_map. destruct (Nat.ltb _ _).
  - unfold set_events, client_map. cbn. by rewrite map_app.
  - apply (map_fallback buffer_full [p]).
Qed.

Lemma map_flush c : flush (client_map f c) = client_map f (flush c).
Proof.
  unfold flush. cbn [batch client_map]. destruct (batch c) as [|e b]; [done|]. cbn [map batches client_map set_batch outCap].
  rewrite length_map. destruct (Nat.ltb _ _).
  - unfold set_batches, set_batch, client_map. cbn. by rewrite map_app.
  - apply (map_fallback batch_channel_full (e :: b) (set_batch [] (timer c) c)).
Qed.

Lemma map_set_worker w p c : set_worker w (worker_map f p) (client_map f c) = client_map f (set_worker w p c).
Proof.
  assert (<[w := worker_map f p]> (map (worker_map f) (workers c)) = map (worker_map f) (<[w := p]> (workers c))) as Hw
    by (symmetry; apply list_fmap_insert).
  unfold set_worker, client_map. cbn. by rewrite <-Hw.
Qed.

(** The goroutines do not look at the events, but to encode them. *)
Lemma map_step a c : exec_step a (client_map f c) = client_map f <$> exec_step a c.
Proof.
  destruct a as [| |w|w ok]; cbn -[client_map].
  - unfold dispatch_recv. cbn [dispatcherDone client_map events closed]. destruct (dispatcherDone c); [done|].
    destruct (events c) as [|e rest]; cbn [map].
    { destruct (closed c); [|done]. cbn. f_equal. rewrite (map_flush c). done. }
    cbn [batch set_events client_map]. destruct (batch c) as [|y b]; [done|]. cbn [map].
    rewrite <-map_cons, <-(map_app f (y :: b) [e] : _ = (map f (y :: b) ++ [f e])%list), length_map.
    destruct (Nat.leb _ _); [|done]. cbn -[client_map flush]. f_equal.
    apply (map_flush (set_batch ((y :: b) ++ [e])%list false (set_events rest c))).
  - unfold dispatch_timer. cbn [dispatcherDone client_map batch timer]. destruct (dispatcherDone c); [done|].
    destruct (batch c) as [|y b]; [done|]. cbn [map]. destruct (timer c); [|done]. cbn -[client_map flush]. f_equal.
    apply (map_flush (set_batch (y :: b) false c)).
  - unfold worker_take. cbn [workers client_map batches batchesClosed]. rewrite list_lookup_fmap.
    destruct (workers c !! w) as [[]|]; try done. cbn. destruct (batches c) as [|b rest]; cbn.
    + destruct (batchesClosed c); [|done]. cbn -[client_map set_worker]. f_equal. apply (map_set_worker w Done).
    + f_equal. apply (map_set_worker w (Sending b) (set_batches rest c)).
  - unfold worker_sent. cbn [workers client_map]. rewrite list_lookup_fmap.
    destruct (workers c !! w) as [[|b|]|]; try done. cbn -[client_map fallback add_sent]. f_equal.
    rewrite (map_set_worker w Waiting).
    destruct ok; [|apply map_fallback]. unfold add_sent, client_map. cbn. by rewrite map_app.
Qed.

End Natural.

Section Holds.
Context {A : Type} {mA : Marshals A} (P : A -> Prop).

Lemma holds_impl (Q : A -> Prop) c : (forall p, P p -> Q p) -> holds P c -> holds Q c.
Proof.
  intros HPQ [h1 h2 h3 h4 h5 h6 h7 h8].
  split; try (eapply Forall_impl; [eassumption|eauto]).
  - intros l Hl. eapply Forall_impl; eauto.
  - intros [|b|]; [done| |done]. intros Hb. eapply Forall_impl; eauto.
Qed.

Lemma holds_fallback r l c : Forall P l -> holds P c -> holds P (fallback r l c).
Proof.
  intros Hl [h1 h2 h3 h4 h5 h6 h7 h8]. unfold fallback. destruct (fallbackLog c); split; cbn; try done.
  - apply Forall_app. split; [|done]. apply Forall_map. eapply Forall_impl; [exact Hl|]. intros p Hp.
    cbn. by rewrite log_line_event.
  - by apply Forall_app.
Qed.

Lemma holds_enqueue p c : P p -> holds P c -> holds P (enqueue p c).
Proof.
  intros Hp Hc. unfold enqueue. destruct (Nat.ltb _ _); [|apply holds_fallback; [by constructor|done]].
  destruct Hc. split; try done. cbn. apply Forall_app. split; [done|]. by constructor.
Qed.

Lemma holds_recorded p c : P p -> holds P c -> holds P (add_recorded p c).
Proof. intros Hp []. split; try done. by constructor. Qed.

Lemma holds_set_batch b t c : Forall P b -> holds P c -> holds P (set_batch b t c).
Proof. by intros Hb []; split. Qed.

Lemma holds_set_worker w p c : worker_holds P p -> holds P c -> holds P (set_worker w p c).
Proof. intros Hp []. split; try done. cbn. by apply Forall_insert. Qed.

Lemma holds_flush c : holds P c -> holds P (flush c).
Proof.
  intros Hc. unfold flush. pose proof (h_batch _ _ Hc) as Hb. destruct (batch c) as [|e b]; [done|].
  pose proof (holds_set_batch [] (timer c) c ltac:(constructor) Hc) as Hs.
  destruct (Nat.ltb _ _); [|by apply holds_fallback].
  destruct Hs. split; try done. cbn. apply Forall_app. split; [done|]. by constructor.
Qed.

Lemma holds_step a c c' : holds P c -> exec_step a c = Some c' -> holds P c'.
Proof.
  intros Hc. pose proof Hc as [h1 h2 h3 h4 h5 h6 h7 h8]. destruct a as [| |w|w ok]; cbn.
  - unfold dispatch_recv. destruct (dispatcherDone c); [done|]. destruct (events c) as [|e rest].
    { destruct (closed c); [|done]. intros [= <-]. by destruct (holds_flush _ Hc). }
    apply Forall_cons in h1 as [He h1]. assert (holds P (set_events rest c)) as Hr by done.
    cbn [batch set_events]. destruct (batch c) as [|y b]; [intros [= <-]; apply holds_set_batch; [by constructor|done]|].
    assert (Forall P ((y :: b) ++ [e])%list) as Hb by (apply Forall_app; split; [done|by constructor]).
    destruct (Nat.leb _ _); intros Hx; injection Hx as <-; [apply holds_flush|]; by apply holds_set_batch.
  - unfold dispatch_timer. destruct (dispatcherDone c); [done|]. destruct (batch c) as [|y b]; [done|].
    destruct (timer c); [|done]. intros [= <-]. apply holds_flush. by apply holds_set_batch.
  - unfold worker_take. destruct (workers c !! w) as [[]|] eqn:Hw; try done. destruct (batches c) as [|b rest].
    + destruct (batchesClosed c); [|done]. intros [= <-]. by apply holds_set_worker.
    + apply Forall_cons in h3 as [Hb h3]. intros [= <-]. by apply holds_set_worker.
  - unfold worker_sent. destruct (workers c !! w) as [[|b|]|] eqn:Hw; try done. intros [= <-].
    pose proof (Forall_lookup_1 _ _ _ _ h4 Hw) as Hb. cbn in Hb.
    pose proof (holds_set_worker w Waiting c I Hc) as Hs. destruct ok; [|by apply holds_fallback].
    destruct Hs. split; try done. cbn. by apply Forall_app.
Qed.

End Holds.

Lemma map_ext_holds {A B} (f g : A -> B) c : holds (fun p => f p = g p) c -> client_map f c = client_map g c.
Proof.
  intros [h1 h2 h3 h4 h5 h6 h7 h8]. unfold client_map. f_equal; apply List.map_ext_Forall; try done.
  - eapply Forall_impl; [exact h3|]. intros b. apply List.map_ext_Forall.
  - eapply Forall_impl; [exact h4|]. intros [|b|]; [done| |done]. intros Hb. cbn. f_equal. by apply List.map_ext_Forall.
  - eapply Forall_impl; [exact h7|]. intros [? p] Hp. cbn in *. by rewrite Hp.
Qed.

(** ** The recorder and the client on the heap *)

Definition zero_event : Event := MkEvent "" "" "" "" "" "" "" "" "" "" "" "" "" 0.

(** The value of an event the client holds. *)
Definition val (h : heap) (p : loc) : Event := default zero_event (view h p).

Record ClientRecorder := MkRecorder { client : option (AsyncClient.Client loc); service : string }.

Definition NewClientRecorder (client : option (AsyncClient.Client loc)) (service : string) : option ClientRecorder :=
  match client with None => None | Some c => Some (MkRecorder (Some c) service) end.

Section Heap.
Context `{UUIDLib} {mE : Marshals Event}.

(** [json.Marshal] of an event reads it from the heap. *)
Definition marshals_at (h : heap) : Marshals loc := fun p => marshals (val h p).

(** [Client.Record]: an event that cannot be prepared is reported in the log and
    forgotten. *)
Definition client_Record (rnd : option UUID) (now : Z) (event : option loc) (h : heap) (c : AsyncClient.Client loc)
  : option (heap * AsyncClient.Client loc) :=
  match event with
  | None => Some (h, c)
  | Some _ =>
      '(h', r) ← Ev.PrepareEvent rnd now event h;
      match r with
      | Err _ => Some (h', c)
      | Ok prepared =>
          let c := add_recorded prepared c in
          Some (h', if closed c then fallback (marshal := marshals_at h') client_closed [prepared] c
                    else enqueue (marshal := marshals_at h') prepared c)
      end
  end.

(** [ClientRecorder.Record]: the heap, the recorder with its client, and the
    error that is returned. *)
Definition recorder_Record (r : option ClientRecorder) (rnd : option UUID) (now : Z) (event : option loc) (h : heap)
  : option (heap * option ClientRecorder * result EventErr unit) :=
  match r, event with
  | Some (MkRecorder (Some c) service), Some _ =>
      '(h1, cp) ← Ev.cloneEvent event h; ev ← cp;
      match h1 !! ev with
      | Some (CStruct e) =>
          let h2 : heap := if Service e ==s "" then <[ev := CStruct (set_service service e)]> h1 else h1 in
          '(h3, c') ← client_Record rnd now (Some ev) h2 c;
          Some (h3, Some (MkRecorder (Some c') service), Ok tt)
      | _ => None
      end
  | _, _ => Some (h, r, Ok tt)
  end.

(** *** Producers, callers and goroutines *)

Inductive action :=
| Produce (a : @act Obj)
| Record_ (rnd : option UUID) (now : Z) (event : option loc)
| Close
| Goroutine (a : step).

(** The memory with what the producers know, the recorder, and what the calls of
    [Record] have returned. *)
Record sys := MkSys { memory : @world Obj; recorder : option ClientRecorder; replies : list (result EventErr unit) }.

Definition with_client (f : AsyncClient.Client loc -> option (AsyncClient.Client loc)) (r : option ClientRecorder)
  : option (option ClientRecorder) :=
  match r with
  | Some (MkRecorder (Some c) service) => c' ← f c; Some (Some (MkRecorder (Some c') service))
  | _ => None
  end.

(** Go's types: a reference to an event leads to a struct and its raw messages. *)
Definition well_typed (h : heap) (event : option loc) : bool :=
  match event with None => true | Some l => match view h l with Some _ => true | None => false end end.

(** A caller records an event to which the producers have a reference. *)
Definition exec (a : action) (s : sys) : option sys :=
  let h := mem (memory s) in
  match a with
  | Produce a => w ← produce a (memory s); Some (MkSys w (recorder s) (replies s))
  | Record_ rnd now event =>
      if bool_decide (option_to_set event ⊆ known (memory s)) && well_typed h event then
        '(h', r, e) ← recorder_Record (recorder s) rnd now event h;
        Some (MkSys (MkWorld h' (known (memory s))) r (e :: replies s))
      else None
  | Close =>
      r ← with_client (fun c => Some (if closed c then c else close_events c)) (recorder s);
      Some (MkSys (memory s) r (replies s))
  | Goroutine a =>
      r ← with_client (exec_step (marshal := marshals_at h) a) (recorder s);
      Some (MkSys (memory s) r (replies s))
  end.

(** The action of the client on values: a call records the value the event has
    at that moment, with its service filled in. *)
Definition value_action (service : string) (a : action) (s : sys) : list AuditClient.action :=
  match a with
  | Produce _ => []
  | Record_ rnd now event => [ARecord rnd now (recorder_event service (event ≫= view (mem (memory s))))]
  | Close => [AClose]
  | Goroutine a => [AStep a]
  end.

(** A run on the heap with the actions on values that it performs. *)
Fixpoint run (service : string) (acts : list action) (s : sys) : option (sys * list AuditClient.action) :=
  match acts with
  | [] => Some (s, [])
  | a :: acts' =>
      s' ← exec a s; '(s'', vs) ← run service acts' s';
      Some (s'', value_action service a s ++ vs)%list
  end.

(** *** The simulation *)

(** [F] is the memory of the client: no producer reaches it, it fixes the value
    of every event the client has, and the rest of the heap has no dangling
    references. *)
Record owns (F : gset loc) (w : @world Obj) (c : AsyncClient.Client loc) : Prop := {
  o_apart : apart F (mem w) w;
  o_known : known w ⊆ dom (mem w);
  o_closed : forall l x, l ∉ F -> mem w !! l = Some x -> cell_refs x ⊆ dom (mem w);
  o_fixed : holds (fun p => exists v, forall g : heap, (forall l, l ∈ F -> g !! l = mem w !! l) -> view g p = Some v) c }.

Lemma produce_closed F (w w' : @world Obj) a :
  produce a w = Some w' -> known w ⊆ dom (mem w) -> (forall l x, l ∉ F -> mem w !! l = Some x -> cell_refs x ⊆ dom (mem w)) ->
  known w ## F ->
  known w' ⊆ dom (mem w') /\ (forall l x, l ∉ F -> mem w' !! l = Some x -> cell_refs x ⊆ dom (mem w')).
Proof.
  intros Hp HK Hc HF.
  assert (forall l c, l ∈ known w -> cell_refs c ⊆ dom (mem w) ->
    known w ⊆ dom (mem (store l c w)) /\
    forall l' x, l' ∉ F -> mem (store l c w) !! l' = Some x -> cell_refs x ⊆ dom (mem (store l c w))) as Hst.
  { intros l c Hl Hr. cbn. rewrite dom_insert_L. split; [set_solver|]. intros l' x Hl' Hx.
    destruct (decide (l' = l)) as [->|Hne]; [rewrite lookup_insert_eq in Hx; injection Hx as <-; set_solver|].
    rewrite lookup_insert_ne in Hx by done. specialize (Hc _ _ Hl' Hx). set_solver. }
  destruct a as [l|l k v|l i v|l i b|l s|c]; cbn in Hp.
  - destruct (mem w !! l) as [c|] eqn:E; [|done]. cbn in Hp. case_decide as Hl; [|done]. injection Hp as <-. cbn.
    split; [|done]. assert (cell_refs c ⊆ dom (mem w)) by (apply (Hc l); [set_solver|done]). set_solver.
  - destruct (mem w !! l) as [[]|]; try done. case_decide as Hl; [|done]. injection Hp as <-. by apply Hst; [|apply empty_subseteq].
  - destruct (mem w !! l) as [[]|]; try done. case_decide as Hl; [|done]. injection Hp as <-. by apply Hst; [apply Hl|apply empty_subseteq].
  - destruct (mem w !! l) as [[]|]; try done. case_decide as Hl; [|done]. injection Hp as <-. by apply Hst; [apply Hl|apply empty_subseteq].
  - destruct (mem w !! l) as [[]|]; try done. case_decide as Hl; [|done]. injection Hp as <-. destruct Hl as [Hl Hr].
    apply Hst; [done|cbn]. by etrans.
  - case_decide as Hl; [|done]. injection Hp as <-. cbn. rewrite dom_insert_L. split; [set_solver|].
    intros l x HlF Hx. destruct (decide (l = fresh (dom (mem w)))) as [->|Hne].
    + rewrite lookup_insert_eq in Hx. injection Hx as <-. set_solver.
    + rewrite lookup_insert_ne in Hx by done. specialize (Hc _ _ HlF Hx). set_solver.
Qed.

(** The client's events keep their values while its memory does. *)
Lemma owned_values F w c (g : heap) :
  owns F w c -> (forall l, l ∈ F -> g !! l = mem w !! l) -> client_map (val g) c = client_map (val (mem w)) c.
Proof.
  intros Ho Hg. apply map_ext_holds. eapply holds_impl; [|exact (o_fixed _ _ _ Ho)]. intros p [v Hv].
  unfold val. by rewrite (Hv g Hg), (Hv (mem w)).
Qed.

Lemma owns_produce F w w' c a :
  owns F w c -> produce a w = Some w' -> owns F w' c /\ client_map (val (mem w')) c = client_map (val (mem w)) c.
Proof.
  intros Ho Hp. pose proof Ho as [h1 h2 h3 h4]. destruct (apart_produce _ _ _ _ _ h1 Hp) as [g1 g2 g3 g4].
  destruct (produce_closed F _ _ _ Hp h2 h3 (a_known _ _ _ h1)) as [Hk Hc]. split; [|by eapply owned_values].
  split; [by split|done|done|]. eapply holds_impl; [|exact h4]. intros p [v Hv]. exists v. intros g Hg. apply Hv.
  intros l Hl. by rewrite Hg, g4.
Qed.

(** What is allocated for the client is the client's. *)
Lemma owns_extend F w c (h' : heap) :
  owns F w c -> mem w ⊆ h' -> owns (F ∪ (dom h' ∖ dom (mem w))) (MkWorld h' (known w)) c.
Proof.
  intros Ho Hs. pose proof Ho as [[h1 h1' h1'' _] h2 h3 h4]. pose proof (subseteq_dom _ _ Hs).
  assert (forall l x, l ∉ F ∪ (dom h' ∖ dom (mem w)) -> h' !! l = Some x -> mem w !! l = Some x /\ cell_refs x ⊆ dom (mem w)) as Hold.
  { intros l x Hl Hx. assert (l ∈ dom (mem w)) as [y Hy]%elem_of_dom by (apply elem_of_dom_2 in Hx; set_solver).
    pose proof (lookup_weaken _ _ _ _ Hy Hs) as Hy'. rewrite Hx in Hy'. injection Hy' as <-. split; [done|].
    apply (h3 l); [set_solver|done]. }
  split; cbn.
  - split; cbn; [set_solver| |set_solver|done]. intros l x Hl Hx. destruct (Hold _ _ Hl Hx) as [Hx' Hr].
    assert (cell_refs x ## F) by (apply (h1' l); [set_solver|done]). set_solver.
  - set_solver.
  - intros l x Hl Hx. destruct (Hold _ _ Hl Hx). set_solver.
  - eapply holds_impl; [|exact h4]. intros p [v Hv]. exists v. intros g Hg. apply Hv. intros l Hl.
    rewrite (Hg l) by set_solver. assert (l ∈ dom (mem w)) as [y Hy]%elem_of_dom by set_solver.
    rewrite Hy. by eapply lookup_weaken.
Qed.

Lemma values_extend F w c (h' : heap) : owns F w c -> mem w ⊆ h' -> client_map (val h') c = client_map (val (mem w)) c.
Proof.
  intros Ho Hs. eapply owned_values; [exact Ho|]. intros l Hl.
  pose proof (a_dom _ _ _ (o_apart _ _ _ Ho)) as Hd. apply Hd, elem_of_dom in Hl as [z Hz].
  rewrite Hz. by eapply lookup_weaken.
Qed.

(** The client of [c] that gets the prepared event [p]. *)
Lemma owns_record F w c (h' : heap) p v :
  owns F w c -> fixed_by_new (mem w) h' (fun g => view g p = Some v) ->
  owns (F ∪ (dom h' ∖ dom (mem w))) (MkWorld h' (known w))
    (if closed c then fallback (marshal := marshals_at h') client_closed [p] (add_recorded p c)
     else enqueue (marshal := marshals_at h') p (add_recorded p c)).
Proof.
  intros Ho [Hs Hp]. pose proof (owns_extend _ _ _ _ Ho Hs) as [h1 h2 h3 h4]. split; [done..|].
  set (P := fun q : loc => exists v, _). assert (P p) as HPp.
  { exists v. intros g Hg. apply Hp. intros l Hl. apply Hg. set_solver. }
  pose proof (holds_recorded P p c HPp h4) as Hr.
  destruct (closed c); [apply holds_fallback; [by constructor|done]|by apply holds_enqueue].
Qed.

Lemma client_Record_refines F w c (h2 : heap) rnd now ev v :
  owns F w c -> fixed_by_new (mem w) h2 (fun g => view g ev = Some v) ->
  exists F' h' c', client_Record rnd now (Some ev) h2 c = Some (h', c') /\ mem w ⊆ h' /\
    owns F' (MkWorld h' (known w)) c' /\
    client_map (val h') c' = AuditClient.Record_ rnd now (Some v) (client_map (val (mem w)) c).
Proof.
  intros Ho F2. unfold client_Record, AuditClient.Record_.
  destruct (PrepareEvent_prepares rnd now h2 ev v) as (h' & r & -> & Hsub & Hr); [by apply (proj2 F2)|].
  cbn [mbind option_bind].
  assert (mem w ⊆ h') as Hs by (etrans; [exact (proj1 F2)|exact Hsub]).
  destruct r as [p|x], (AuditEvent.PrepareEvent rnd now (Some v)) as [v'|y]; try done.
  - assert (fixed_by_new (mem w) h' (fun g => view g p = Some v')) as Fp
      by (eapply fixed_impl; [|exact (fixed_and _ _ _ _ _ F2 Hr)]; by intros g [_ Hg]).
    do 3 eexists. split; [done|]. split; [done|]. split; [exact (owns_record _ _ _ _ _ _ Ho Fp)|].
    assert (val h' p = v') as Hv by (unfold val; by rewrite (proj2 Fp h')).
    rewrite <-(values_extend _ _ _ _ Ho Hs).
    cbn [closed add_recorded client_map]. rewrite <-Hv. destruct (closed c).
    + symmetry. apply (map_fallback (val h') client_closed [p] (add_recorded p c)).
    + symmetry. apply (map_enqueue (val h') p (add_recorded p c)).
  - do 3 eexists. split; [done|]. split; [done|]. split; [exact (owns_extend _ _ _ _ Ho Hs)|].
    exact (values_extend _ _ _ _ Ho Hs).
Qed.

Lemma recorder_Record_refines F w c service rnd now l v :
  owns F w c -> view (mem w) l = Some v ->
  exists F' h' c', recorder_Record (Some (MkRecorder (Some c) service)) rnd now (Some l) (mem w) =
      Some (h', Some (MkRecorder (Some c') service), Ok tt) /\ mem w ⊆ h' /\
    owns F' (MkWorld h' (known w)) c' /\
    client_map (val h') c' = AuditClient.Record_ rnd now (recorder_event service (Some v)) (client_map (val (mem w)) c).
Proof.
  intros Ho Hv. destruct (clone_edit_fixed _ _ _ Hv) as (h1 & ev & o & E & Hob & [= _ Hs _] & F1 & Fe).
  unfold recorder_Record, recorder_event. rewrite E, cloneEvent_id. cbn [mbind option_bind]. rewrite Hob, Hs.
  set (h2 := if _ ==s _ then _ else _). set (v2 := if _ ==s _ then with_service service v else v).
  assert (fixed_by_new (mem w) h2 (fun g => view g ev = Some v2)) as F2.
  { unfold h2, v2. destruct (_ ==s _); [|done]. apply (Fe _ (with_service service)). intros g. apply value_service. }
  destruct (client_Record_refines F w c h2 rnd now ev v2 Ho F2) as (F' & h' & c' & -> & Hsub & Ho' & Hm).
  by exists F', h', c'.
Qed.

(** A step on the heap is the step on values. *)
Lemma exec_refines F service c a s s' :
  recorder s = Some (MkRecorder (Some c) service) -> owns F (memory s) c -> Forall (eq (Ok tt)) (replies s) ->
  exec a s = Some s' ->
  exists F' c', recorder s' = Some (MkRecorder (Some c') service) /\ owns F' (memory s') c' /\
    Forall (eq (Ok tt)) (replies s') /\
    AuditClient.run (value_action service a s) (client_map (val (mem (memory s))) c) =
      Some (client_map (val (mem (memory s'))) c').
Proof.
  intros Hr Ho Hok. destruct a as [a|rnd now event| |a]; cbn [exec value_action].
  - destruct (produce a (memory s)) as [w|] eqn:Hp; [|done]. intros [= <-].
    destruct (owns_produce _ _ _ _ _ Ho Hp) as [Ho' Hm]. exists F, c. cbn. by rewrite Hm.
  - destruct (bool_decide _); [|done]. cbn [andb]. destruct event as [l|]; cbn [well_typed].
    + destruct (view (mem (memory s)) l) as [v|] eqn:Hv; [|done]. rewrite Hr.
      destruct (recorder_Record_refines _ _ _ service rnd now _ _ Ho Hv) as (F' & h' & c' & -> & _ & Ho' & Hm).
      intros [= <-]. exists F', c'. cbn -[AuditClient.Record_ recorder_event]. rewrite Hv, Hm. cbn -[AuditClient.Record_].
      split_and!; [done|done|by constructor|done].
    + rewrite Hr. intros [= <-]. exists F, c. cbn. destruct (memory s) as [h K]. cbn in *. split_and!; [done|done|by constructor|done].
  - rewrite Hr. intros [= <-]. exists F, (if closed c then c else close_events c). cbn. split_and!; [done| |done|].
    + destruct Ho as [h1 h2 h3 h4]. split; [done..|]. destruct (closed c); [done|by destruct h4].
    + by destruct (closed c).
  - rewrite Hr. cbn [with_client]. destruct (exec_step a c) as [c'|] eqn:Hx; [|done]. intros [= <-]. exists F, c'. cbn [recorder replies memory].
    split_and!; [done| |done|].
    + destruct Ho. split; try done. by eapply (holds_step (mA := marshals_at (mem (memory s)))).
    + cbn -[client_map]. rewrite (map_step (val (mem (memory s))) a c : exec_step a _ = _).
      unfold mA. fold (marshals_at (mem (memory s))). by rewrite Hx.
Qed.

Lemma value_run_app vs1 vs2 c c1 :
  AuditClient.run vs1 c = Some c1 -> AuditClient.run (vs1 ++ vs2) c = AuditClient.run vs2 c1.
Proof.
  revert c; induction vs1 as [|a vs1 IH]; cbn; intros c; [by intros [= <-]|].
  destruct (AuditClient.exec a c); [apply IH|done].
Qed.

Lemma run_refines F service acts s s' vs c :
  recorder s = Some (MkRecorder (Some c) service) -> owns F (memory s) c -> Forall (eq (Ok tt)) (replies s) ->
  run service acts s = Some (s', vs) ->
  exists F' c', recorder s' = Some (MkRecorder (Some c') service) /\ owns F' (memory s') c' /\
    Forall (eq (Ok tt)) (replies s') /\
    AuditClient.run vs (client_map (val (mem (memory s))) c) = Some (client_map (val (mem (memory s'))) c').
Proof.
  revert F s vs c; induction acts as [|a acts IH]; intros F s vs c Hr Ho Hok; cbn [run].
  - intros [= <- <-]. by exists F, c.
  - destruct (exec a s) as [s1|] eqn:Hx; [|done]. cbn.
    destruct (run service acts s1) as [[s2 vs2]|] eqn:Hr2; [|done]. cbn. intros [= <- <-].
    destruct (exec_refines _ _ _ _ _ _ Hr Ho Hok Hx) as (F1 & c1 & Hr1 & Ho1 & Hok1 & E1).
    destruct (IH _ _ _ _ Hr1 Ho1 Hok1 Hr2) as (F2 & c2 & ? & ? & ? & E2). exists F2, c2.
    by rewrite (value_run_app _ _ _ _ E1).
Qed.

Lemma owns_new (h : heap) K cfg (c0 : AsyncClient.Client loc) :
  closed_heap h -> K ⊆ dom h -> NewClient cfg = Some c0 ->
  owns ∅ (MkWorld h K) c0 /\ NewClient cfg = Some (client_map (val h) c0).
Proof.
  intros Hc HK. unfold NewClient. destruct (HasTransport cfg); [|done]. intros Hn; injection Hn as <-. split.
  - split; cbn; [by split|done| |].
    + intros l x _ Hx. exact (Hc _ _ Hx).
    + split; cbn; try done. apply Forall_replicate. done.
  - unfold client_map. cbn. do 3 f_equal. by rewrite fmap_replicate.
Qed.

(** C28. Producers share the heap with the client and keep their references to the
    events they have recorded.  Any run on that heap - loads, stores and
    allocations of producers, calls of [ClientRecorder.Record], goroutine steps
    and [Close], in any order - performs exactly a run of the client on values,
    in which each call records the value that its event had at that moment, with
    the service filled in; what the heap client has queued, batched, sent,
    logged or dropped are objects with the values of that run.  [Record] never
    returns an error and never blocks a run: it can be called on every event a
    producer refers to, also when the event cannot be prepared or the client is
    closed or full, and changes no object that was there before. *)
Theorem recorded_event_refines_value (h : heap) K cfg c0 service acts s vs :
  closed_heap h -> K ⊆ dom h -> NewClient cfg = Some c0 ->
  run service acts (MkSys (MkWorld h K) (NewClientRecorder (Some c0) service) []) = Some (s, vs) ->
  (exists v0 c, NewClient cfg = Some v0 /\ recorder s = Some (MkRecorder (Some c) service) /\
    AuditClient.run vs v0 = Some (client_map (val (mem (memory s))) c) /\
    holds (fun p => is_Some (view (mem (memory s)) p)) c) /\
  Forall (eq (Ok tt)) (replies s) /\
  forall rnd now l, l ∈ known (memory s) -> is_Some (view (mem (memory s)) l) ->
    exists s', exec (Record_ rnd now (Some l)) s = Some s' /\ mem (memory s) ⊆ mem (memory s') /\
      replies s' = Ok tt :: replies s.
Proof.
  intros Hc HK Hn Hr. destruct (owns_new _ _ _ _ Hc HK Hn) as [Ho Hv].
  destruct (run_refines ∅ service acts (MkSys (MkWorld h K) (NewClientRecorder (Some c0) service) []) s vs c0) as (F & c & E & Ho' & Hok & Hm);
    [done|done|constructor|done|].
  split; [|split; [done|]].
  - exists (client_map (val h) c0), c. split_and!; [done..|]. eapply holds_impl; [|exact (o_fixed _ _ _ Ho')].
    intros p [v Hp]. exists v. by apply Hp.
  - intros rnd now l Hl [v Hl']. cbn [exec well_typed]. rewrite Hl', E, bool_decide_true by set_solver. cbn [andb].
    destruct (recorder_Record_refines _ _ _ service rnd now _ _ Ho' Hl') as (F' & h' & c' & -> & Hs & _). by eexists.
Qed.

End Heap.

(** ** A recorded event that its producer goes on to change *)
Module Demo.

Definition e1 : Obj := MkObj "8f" "" "ann" "update" "user" "7" "tenant" "t1"
  nil_slice (MkSlice (Some 2%positive) 1 2) nil_slice "r1" "10.0.0.1" 5321.
Definition h1 : heap := <[1%positive := CStruct e1]> (<[2%positive := CBytes ["_"; "{"; "}"; "_"]%char]> ∅).
Definition edits : list (@act Obj) := [Load 1%positive; SetByte 2 1 "X"; SetStruct 1 (set_service "other" e1)].


#[local] Existing Instance text_uuid.

(** Only what the producer breaks cannot be encoded. *)
#[local] Instance demo_marshals : Marshals Event := fun e => negb (AuditEvent.AfterState e ==s "X}").

Definition cfg : ClientConfig := MkClientConfig true 1 0 1 None.
Definition c0 : AsyncClient.Client loc := default (MkClient false 0 0 [] false [] false false [] false [] [] [] [] []) (NewClient cfg).

(** The event is recorded, changed, recorded again into the full buffer, and
    dispatched. *)
Definition acts : list action :=
  [Record_ None 0 (Some 1%positive)] ++ map Produce edits ++ [Record_ None 0 (Some 1%positive); Goroutine ARecv]%list.

Definition start : sys := MkSys (MkWorld h1 {[1%positive]}) (NewClientRecorder (Some c0) "authn") [].

Definition final : sys * list AuditClient.action :=
  default (start, []) (run "authn" acts start).

Definition changed : Event :=
  MkEvent "8f" "other" "ann" "update" "user" "7" "tenant" "t1" "" "X}" "" "r1" "10.0.0.1" 5000.

Lemma recorded_event_witness :
  replies (fst final) = [Ok tt; Ok tt] /\
  exists c, AuditClient.run (snd final) (client_map (val h1) c0) = Some c /\
    batch c = [with_service "authn" (demo_event "8f" 5000)] /\
    logged c = [(buffer_full, false, changed)].
Proof.
  split; [by vm_compute|].
  destruct (recorded_event_refines_value h1 {[1%positive]} cfg c0 "authn" acts (fst final) (snd final))
    as ((v0 & c & Hn & _ & Hr & _) & _).
  { apply (bool_decide_unpack _). by vm_compute. } { apply (bool_decide_unpack _). by vm_compute. } { by vm_compute. } { by vm_compute. }
  assert (NewClient cfg = Some (client_map (val h1) c0)) as Hv by by vm_compute.
  rewrite Hv in Hn. assert (v0 = client_map (val h1) c0) as -> by congruence. clear Hn Hv.
  eexists. split; [exact Hr|].
  assert ((fun c => (batch c, logged c)) <$> AuditClient.run (snd final) (client_map (val h1) c0) =
    Some ([with_service "authn" (demo_event "8f" 5000)], [(buffer_full, false, changed)])) as E by by vm_compute.
  rewrite Hr in E. injection E as Hb Hl. by split.
Defined.

End Demo.
