(* ===== verification/JwksRace.v ===== *)
(** * The remote key set under concurrent callers (src/jwtx/jwk_remote.go)

    [Jwt.Remote] runs [KeyFunc] one call after another.  Here any number of
    goroutines are inside it at once: each critical section of [findKey] and
    [getJWKS] is one step, and so is the answer to a request, which is made
    without the lock. *)
From S2P Require Import Prelude GoStrings AuditList Jwt.
Import Remote.
Local Open Scope string_scope.
Local Open Scope Z_scope.

(** ** State *)

(** Where a caller is: about to read the cache, waiting for the endpoint, about
    to store what it got, about to drop the cache after a miss, or back;
    [second] is the lookup after the miss. *)
Inductive pc :=
| PRead (second : bool) | PFetch (second : bool) | PStore (second : bool) (keys : list JWK) | PDrop
| PDone (r : result RemoteErr PublicKey).

(** Where the keys a caller looked at came from: its own request, or the cache,
    stored at one instant and read at another. *)
Inductive origin := OwnAnswer | FromCache (stored read : Z).

(** Ghosts: the requests made and the keys that were looked at last. *)
Record Caller := MkCaller { kid : string; alg : string; at_pc : pc; asked : nat; used : option (list JWK * origin) }.

(** Ghosts: the key sets that the endpoint delivered and to which caller, and what
    was stored when. *)
Record Group := MkGroup {
  cache : Cache; clock : Z; callers : list Caller; delivered_sets : list (nat * list JWK); stored : list (list JWK * Z) }.

Definition start_group (now : Z) : Group := MkGroup None now [] [] [].

(** ** Steps *)

Section Steps.
Variable ttl : Z.

(** [findKey] once [getJWKS] has returned keys. *)
Definition resolve (second : bool) (keys : list JWK) (o : origin) (c : Caller) : Caller :=
  let next := match matchKey keys (kid c) (alg c) with
              | Some jwk => PDone (match JWKToPublicKey jwk with Ok p => Ok p | Err e => Err (BadKey e) end)
              | None => if second then PDone (Err NoMatchingKey) else PDrop
              end in
  MkCaller (kid c) (alg c) next (asked c) (Some (keys, o)).

Definition move (p : pc) (c : Caller) : Caller := MkCaller (kid c) (alg c) p (asked c) (used c).

(** The section under the read lock. *)
Definition read_cache (now : Z) (ca : Cache) (second : bool) (c : Caller) : Caller :=
  match ca with
  | Some (keys, fetchedAt) =>
      if Sub now fetchedAt <? ttl then resolve second keys (FromCache fetchedAt now) c else move (PFetch second) c
  | None => move (PFetch second) c
  end.

(** The request and its answer, outside of the lock. *)
Definition answer (a : Answer) (second : bool) (c : Caller) : Caller * list (list JWK) :=
  let c := MkCaller (kid c) (alg c) (at_pc c) (S (asked c)) (used c) in
  match a with
  | NetworkError => (move (PDone (Err FetchFailed)) c, [])
  | Reply status keys =>
      if negb (status =? 200) then (move (PDone (Err (BadStatus status))) c, [])
      else match keys with
           | None => (move (PDone (Err BadBody)) c, [])
           | Some ks => (move (PStore second ks) c, [ks])
           end
  end.

Inductive action := Enter (kid alg : string) | Advance (t : Z) | Step (i : nat) (a : Answer).

Definition put (i : nat) (c : Caller) (g : Group) : list Caller := <[i := c]> (callers g).

(** One step of the caller [i]; [a] is used by a caller that waits for the
    endpoint. *)
Definition exec (act : action) (g : Group) : option Group :=
  match act with
  | Enter k al => Some (MkGroup (cache g) (clock g) (callers g ++ [MkCaller k al (PRead false) 0 None])%list (delivered_sets g) (stored g))
  | Advance t => if clock g <=? t then Some (MkGroup (cache g) t (callers g) (delivered_sets g) (stored g)) else None
  | Step i a =>
      match callers g !! i with
      | None => None
      | Some c =>
          match at_pc c with
          | PRead second => Some (MkGroup (cache g) (clock g) (put i (read_cache (clock g) (cache g) second c) g) (delivered_sets g) (stored g))
          | PFetch second =>
              let '(c', d) := answer a second c in
              Some (MkGroup (cache g) (clock g) (put i c' g) (map (pair i) d ++ delivered_sets g)%list (stored g))
          | PStore second keys =>
              Some (MkGroup (Some (keys, clock g)) (clock g) (put i (resolve second keys OwnAnswer c) g) (delivered_sets g)
                     ((keys, clock g) :: stored g))
          | PDrop => Some (MkGroup None (clock g) (put i (move (PRead true) c) g) (delivered_sets g) (stored g))
          | PDone _ => None
          end
      end
  end.

Fixpoint run_group (acts : list action) (g : Group) : option Group :=
  match acts with
  | [] => Some g
  | a :: acts' => g' ← exec a g; run_group acts' g'
  end.

(** ** Where keys come from *)

Definition origin_ok (g : Group) (i : nat) (keys : list JWK) (o : origin) : Prop :=
  match o with
  | OwnAnswer => (i, keys) ∈ delivered_sets g
  | FromCache at_ t => (keys, at_) ∈ stored g /\ t <= clock g /\ Sub t at_ < ttl
  end.

(** The requests a caller has made: those answered, and the one it waits for. *)
Definition requests (c : Caller) : nat := asked c + match at_pc c with PFetch _ => 1 | _ => 0 end.

(** The answers a caller may have had. *)
Definition budget (p : pc) : nat :=
  match p with PRead false | PFetch false => 0 | PStore false _ | PDrop | PRead true | PFetch true => 1 | PStore true _ | PDone _ => 2 end.

(** Whether the last lookup of a caller succeeded. *)
Record caller_ok (g : Group) (i : nat) (c : Caller) : Prop := {
  ok_asked : (asked c <= budget (at_pc c))%nat;
  ok_used : forall keys o, used c = Some (keys, o) -> origin_ok g i keys o;
  ok_store : forall second keys, at_pc c = PStore second keys -> (i, keys) ∈ delivered_sets g;
  ok_done : forall pub, at_pc c = PDone (Ok pub) ->
    exists keys o jwk, used c = Some (keys, o) /\ matchKey keys (kid c) (alg c) = Some jwk /\ JWKToPublicKey jwk = Ok pub }.

Record group_ok (g : Group) : Prop := {
  g_cache : forall keys at_, cache g = Some (keys, at_) -> (keys, at_) ∈ stored g;
  g_stored : forall keys at_, (keys, at_) ∈ stored g -> (exists j, (j, keys) ∈ delivered_sets g) /\ at_ <= clock g;
  g_callers : forall i c, callers g !! i = Some c -> caller_ok g i c }.

(** [g'] has at least the history of [g]. *)
Definition later (g g' : Group) : Prop :=
  clock g <= clock g' /\ (forall k, k ∈ delivered_sets g -> k ∈ delivered_sets g') /\ (forall k, k ∈ stored g -> k ∈ stored g').

Lemma origin_later g g' i keys o : later g g' -> origin_ok g i keys o -> origin_ok g' i keys o.
Proof. intros (Hc & Hd & Hs) H2. destruct o; cbn in *; [auto|]. destruct H2 as (? & ? & ?). split; [auto|]. split; [lia|done]. Qed.

Lemma caller_later g g' i c : later g g' -> caller_ok g i c -> caller_ok g' i c.
Proof.
  intros Hl [h1 h2 h3 h4]. constructor; [done|eauto using origin_later| |done].
  intros second keys Hp. apply Hl. eauto.
Qed.

Lemma resolve_ok g i (second : bool) keys o c :
  origin_ok g i keys o -> (asked c <= if second then 2 else 1)%nat -> caller_ok g i (resolve second keys o c).
Proof.
  intros Ho Ha. unfold resolve. constructor; cbn.
  - destruct (matchKey _ _ _); [destruct second; cbn; lia|]. destruct second; cbn; lia.
  - intros keys' o' [= <- <-]. done.
  - intros s' keys'. destruct (matchKey _ _ _); [done|]. by destruct second.
  - intros pub. destruct (matchKey keys (kid c) (alg c)) as [jwk|] eqn:Hm; [|by destruct second].
    destruct (JWKToPublicKey jwk) as [p|] eqn:Hp; [|done]. intros [= <-]. exists keys, o, jwk. done.
Qed.

(** Moving on with the same ghosts. *)
Lemma move_ok g i p c :
  caller_ok g i c -> (asked c <= budget p)%nat -> (forall second keys, p <> PStore second keys) -> (forall pub, p <> PDone (Ok pub)) ->
  caller_ok g i (move p c).
Proof. intros [h1 h2 h3 h4] Hb Hs Hd. constructor; cbn; [done|done| |]; intros; [by destruct (Hs second keys)|by destruct (Hd pub)]. Qed.

Lemma put_ok g g' i c :
  group_ok g -> later g g' -> callers g' = put i c g -> caller_ok g' i c ->
  forall j c', callers g' !! j = Some c' -> caller_ok g' j c'.
Proof.
  intros HG Hl Hc Hok j c'. rewrite Hc. unfold put. destruct (decide (j = i)) as [->|Hne].
  - intros Hj. destruct (decide (i < length (callers g))%nat) as [Hlt|Hge].
    + rewrite list_lookup_insert_eq in Hj by done. by injection Hj as <-.
    + rewrite list_insert_ge in Hj by lia. eapply caller_later; [exact Hl|]. by apply (g_callers _ HG i).
  - rewrite list_lookup_insert_ne by done. intros Hj. eapply caller_later; [exact Hl|]. by apply (g_callers _ HG j).
Qed.

Lemma later_refl g g' : clock g' = clock g -> delivered_sets g' = delivered_sets g -> stored g' = stored g -> later g g'.
Proof. intros H1 H2 H3. unfold later. rewrite H1, H2, H3. split; [lia|done]. Qed.

Lemma read_step_ok g i second c :
  group_ok g -> callers g !! i = Some c -> at_pc c = PRead second ->
  group_ok (MkGroup (cache g) (clock g) (put i (read_cache (clock g) (cache g) second c) g) (delivered_sets g) (stored g)).
Proof.
  intros HG Hi Hp. pose proof (g_callers _ HG i c Hi) as Hok. set (g' := MkGroup _ _ _ _ _).
  assert (later g g') as Hl by (by apply later_refl).
  constructor; [exact (g_cache _ HG)|exact (g_stored _ HG)|].
  eapply put_ok; [exact HG|exact Hl|done|]. pose proof (ok_asked _ _ _ Hok) as Ha. rewrite Hp in Ha.
  assert (caller_ok g' i (move (PFetch second) c)) as Hf.
  { apply move_ok; [by eapply caller_later|by destruct second|done|done]. }
  unfold read_cache. destruct (cache g) as [[keys at_]|] eqn:Hc; [|exact Hf].
  destruct (Z.ltb_spec (Sub (clock g) at_) ttl) as [Hlt|]; [|exact Hf].
  pose proof (g_cache _ HG _ _ Hc) as Hst. apply resolve_ok; [|destruct second; cbn in Ha; lia].
  split; [done|]. split; [cbn; lia|done].
Qed.

Lemma fetch_step_ok g i second c a :
  group_ok g -> callers g !! i = Some c -> at_pc c = PFetch second ->
  group_ok (MkGroup (cache g) (clock g) (put i (fst (answer a second c)) g) (map (pair i) (snd (answer a second c)) ++ delivered_sets g)%list (stored g)).
Proof.
  intros HG Hi Hp. pose proof (g_callers _ HG i c Hi) as Hok. set (g' := MkGroup _ _ _ _ _).
  assert (later g g') as Hl by (split; [cbn; lia|]; split; [cbn; set_solver|done]).
  constructor; [exact (g_cache _ HG)| |].
  { intros keys at_ Hs. destruct (g_stored _ HG _ _ Hs) as [[j Hj] ?]. split; [exists j; cbn; set_solver|done]. }
  eapply put_ok; [exact HG|exact Hl|done|]. pose proof (caller_later _ _ _ _ Hl Hok) as [h1 h2 h3 h4]. rewrite Hp in h1.
  assert (forall p, (S (asked c) <= budget p)%nat -> (forall pub, p <> PDone (Ok pub)) ->
    (forall s keys, p = PStore s keys -> (i, keys) ∈ delivered_sets g') ->
    caller_ok g' i (move p (MkCaller (kid c) (alg c) (at_pc c) (S (asked c)) (used c)))) as Hmv.
  { intros p Hb Hd Hst. constructor; cbn; [done|done|done|]. intros pub ->. by destruct (Hd pub). }
  unfold answer in *. destruct a as [|status keys]; cbn in *; [apply Hmv; [destruct second; cbn in *; lia|done..]|].
  destruct (negb (status =? 200)); [apply Hmv; [destruct second; cbn in *; lia|done..]|].
  destruct keys as [ks|]; apply Hmv; try done; [destruct second; cbn in *; lia| |destruct second; cbn in *; lia].
  intros s keys [= _ <-]. cbn. set_solver.
Qed.

Lemma store_step_ok g i second keys c :
  group_ok g -> callers g !! i = Some c -> at_pc c = PStore second keys ->
  group_ok (MkGroup (Some (keys, clock g)) (clock g) (put i (resolve second keys OwnAnswer c) g) (delivered_sets g)
             ((keys, clock g) :: stored g)).
Proof.
  intros HG Hi Hp. pose proof (g_callers _ HG i c Hi) as Hok. set (g' := MkGroup _ _ _ _ _).
  assert (later g g') as Hl by (split; [cbn; lia|]; split; [done|cbn; set_solver]).
  pose proof (ok_store _ _ _ Hok _ _ Hp) as Hd.
  constructor.
  - intros keys' at_ [= <- <-]. cbn. set_solver.
  - intros keys' at_. cbn. intros [[= -> ->]|Hs]%elem_of_cons; [split; [by exists i|lia]|by apply (g_stored _ HG)].
  - eapply put_ok; [exact HG|exact Hl|done|]. apply resolve_ok; [done|].
    pose proof (ok_asked _ _ _ Hok) as Ha. rewrite Hp in Ha. by destruct second.
Qed.

Lemma exec_ok a g g' : group_ok g -> exec a g = Some g' -> group_ok g'.
Proof.
  intros HG. destruct a as [k al|t|i a]; cbn.
  - intros [= <-]. constructor; [exact (g_cache _ HG)|exact (g_stored _ HG)|]. cbn. intros i c Hi.
    assert (later g (MkGroup (cache g) (clock g) (callers g ++ [MkCaller k al (PRead false) 0 None]) (delivered_sets g) (stored g)))
      as Hl by (by apply later_refl).
    apply lookup_app_Some in Hi as [Hi|[_ Hi]]; [eapply caller_later; [exact Hl|]; by eapply (g_callers _ HG)|].
    apply list_lookup_singleton_Some in Hi as [_ <-]. by constructor.
  - destruct (Z.leb_spec (clock g) t) as [Hle|]; [|done]. intros [= <-].
    assert (later g (MkGroup (cache g) t (callers g) (delivered_sets g) (stored g))) as Hl by (split; [cbn; lia|done]).
    constructor; [exact (g_cache _ HG)| |].
    + intros keys at_ Hs. destruct (g_stored _ HG _ _ Hs). split; [done|]. cbn. lia.
    + intros i c Hi. eapply caller_later; [exact Hl|]. by eapply (g_callers _ HG).
  - destruct (callers g !! i) as [c|] eqn:Hi; [|done]. destruct (at_pc c) as [second|second|second keys| |r] eqn:Hp.
    + intros [= <-]. by apply read_step_ok.
    + pose proof (fetch_step_ok g i second c a HG Hi Hp) as Hf. destruct (answer a second c) as [c' d]. by intros [= <-].
    + intros [= <-]. by apply store_step_ok.
    + intros [= <-]. pose proof (g_callers _ HG i c Hi) as Hok. constructor; [done|exact (g_stored _ HG)|].
      eapply put_ok; [exact HG|by apply later_refl|done|].
      apply move_ok; [apply (caller_later g); [by apply later_refl|exact Hok]| |done|done].
      pose proof (ok_asked _ _ _ Hok) as Ha. by rewrite Hp in Ha.
    + done.
Qed.

Lemma run_group_ok acts g g' : group_ok g -> run_group acts g = Some g' -> group_ok g'.
Proof.
  revert g; induction acts as [|a acts IH]; intros g HG; cbn; [by intros [= <-]|].
  destruct (exec a g) as [g1|] eqn:E; [|done]. cbn. eauto using exec_ok.
Qed.

Lemma start_ok now : group_ok (start_group now).
Proof. constructor; [done|intros ? ? Hs; cbn in Hs; set_solver|done]. Qed.

(** C36. With any number of goroutines resolving keys at once, in every
    interleaving of their critical sections and of the answers of the endpoint:
    a key that a call returns is of a set that the endpoint delivered, either
    to this call or to a call that stored it less than the cache lifetime
    before it was read; it fits the kid and the algorithm asked for and is for
    signatures; and no call, wherever it is and however it ends, has made more
    than two requests, the one it waits for included. *)
Theorem concurrent_key_provenance now acts g i c :
  run_group acts (start_group now) = Some g -> callers g !! i = Some c ->
  (requests c <= 2)%nat /\
  forall pub, at_pc c = PDone (Ok pub) ->
  exists keys jwk, JWKToPublicKey jwk = Ok pub /\ jwk ∈ keys /\
    (kid c = "" \/ Kid jwk = kid c) /\ (Alg jwk = "" \/ Alg jwk = alg c) /\ (Use jwk = "" \/ Use jwk = "sig") /\
    ((used c = Some (keys, OwnAnswer) /\ (i, keys) ∈ delivered_sets g) \/
     exists at_ t j, used c = Some (keys, FromCache at_ t) /\ (keys, at_) ∈ stored g /\ (j, keys) ∈ delivered_sets g /\
       t <= clock g /\ Sub t at_ < ttl).
Proof.
  intros Hr Hi. pose proof (run_group_ok _ _ _ (start_ok now) Hr) as HG.
  pose proof (g_callers _ HG i c Hi) as [h1 h2 _ h4]. split.
  { unfold requests. destruct (at_pc c) as [[]|[]|[] ?| |?]; cbn in *; lia. }
  intros pub Hp. destruct (h4 pub Hp) as (keys & o & jwk & Hu & Hm & Hk).
  pose proof (h2 _ _ Hu) as Ho. apply matchKey_spec in Hm as (? & ? & ? & ?). exists keys, jwk.
  repeat (split; [done|]). destruct o as [|at_ t]; [by left|]. right. destruct Ho as (Hs & ? & ?).
  destruct (g_stored _ HG _ _ Hs) as [[j Hj] _]. by exists at_, t, j.
Qed.

(** ** Every call comes back *)

(** The steps a caller has left. *)
Definition steps_left (p : pc) : nat :=
  match p with
  | PRead false => 7 | PFetch false => 6 | PStore false _ => 5 | PDrop => 4 | PRead true => 3 | PFetch true => 2
  | PStore true _ => 1 | PDone _ => 0
  end.

(** Whatever the others do, a caller is at the end after at most seven steps of
    its own, and none of them is ever refused. *)
Lemma own_step_decreases g i c a :
  callers g !! i = Some c -> (0 < steps_left (at_pc c))%nat ->
  exists g' c', exec (Step i a) g = Some g' /\ callers g' !! i = Some c' /\ (steps_left (at_pc c') < steps_left (at_pc c))%nat.
Proof.
  intros Hi Hs. cbn. rewrite Hi. pose proof (lookup_lt_Some _ _ _ Hi) as Hlen.
  assert (forall second keys o, (steps_left (at_pc (resolve second keys o c)) <= if second then 0 else 4)%nat) as Hres.
  { intros second keys o. unfold resolve. cbn. destruct (matchKey _ _ _); [cbn; lia|]. destruct second; cbn; lia. }
  destruct (at_pc c) as [second|second|second keys| |r] eqn:Hp; [| | | |cbn in Hs; lia].
  - do 2 eexists. split; [done|]. split; [by apply list_lookup_insert_eq|]. unfold read_cache.
    destruct (cache g) as [[keys at_]|]; [destruct (_ <? _)|]; try (destruct second; cbn; lia).
    specialize (Hres second keys (FromCache at_ (clock g))). destruct second; cbn [steps_left]; lia.
  - destruct (answer a second c) as [c' d] eqn:Ha. do 2 eexists. split; [done|]. split; [by apply list_lookup_insert_eq|].
    unfold answer in Ha. destruct a as [|status [ks|]]; cbn in Ha; [injection Ha as <- _; destruct second; cbn; lia| |];
      destruct (negb _); injection Ha as <- _; destruct second; cbn; lia.
  - do 2 eexists. split; [done|]. split; [by apply list_lookup_insert_eq|]. specialize (Hres second keys OwnAnswer). destruct second; cbn [steps_left]; lia.
  - do 2 eexists. split; [done|]. split; [by apply list_lookup_insert_eq|]. cbn. lia.
Qed.

End Steps.

(** ** Runs *)

Definition k2 : JWK := MkJWK "OKP" "b" "sig" "EdDSA" "" "" "Ed25519" (Base64.EncodeToString "0123456789abcdefFEDCBA9876543210") "".
Definition ok_with (ks : list JWK) : Answer := Reply 200 (Some ks).

(** The first call fetches and stores; the second, which entered meanwhile, reads
    what the first stored. *)
Definition shared : list action :=
  [Enter "a" "EdDSA"; Step 0 NetworkError; Enter "a" "EdDSA"; Step 0 (ok_with [k1]); Advance 5; Step 0 NetworkError;
   Advance 9; Step 1 NetworkError].

Lemma concurrent_key_provenance_witness :
  exists g c, run_group defaultTTL shared (start_group 0) = Some g /\ callers g !! 1%nat = Some c /\
    at_pc c = PDone (Ok (EdKey "0123456789abcdef0123456789abcdef")) /\ used c = Some ([k1], FromCache 5 9) /\ (requests c <= 2)%nat.
Proof.
  do 2 eexists. split; [vm_compute; reflexivity|]. split; [reflexivity|]. split; [reflexivity|]. split; [reflexivity|].
  refine (proj1 (concurrent_key_provenance defaultTTL 0 shared _ 1 _ _ _)); [vm_compute; reflexivity|reflexivity].
Defined.

(** The refetch after a miss can be lost to another caller: 0 got the old keys
    before the rotation and stores them after 1 has dropped the cache; the
    second lookup of 1 then finds the old set and gives up without a request,
    although the endpoint has the new key. *)
Definition rotation_race : list action :=
  [Enter "a" "EdDSA"; Step 0 NetworkError; Step 0 (ok_with [k1]);
   Enter "b" "EdDSA"; Step 1 NetworkError; Step 1 (ok_with [k1]); Step 1 NetworkError; Step 1 NetworkError;
   Step 0 NetworkError; Step 1 (ok_with [k2])].

Lemma rotation_race_misses_key :
  (g ← run_group defaultTTL rotation_race (start_group 0); c ← callers g !! 1%nat; Some (at_pc c, asked c)) =
    Some (PDone (Err NoMatchingKey), 1%nat).
Proof. vm_compute. reflexivity. Qed.

(** Alone, the same call gets the new key. *)
Lemma rotation_alone_finds_key :
  (g ← run_group defaultTTL [Enter "b" "EdDSA"; Step 0 NetworkError; Step 0 (ok_with [k1]); Step 0 NetworkError;
       Step 0 NetworkError; Step 0 NetworkError; Step 0 (ok_with [k2]); Step 0 NetworkError] (start_group 0);
   c ← callers g !! 0%nat; Some (at_pc c, asked c)) =
    Some (PDone (Ok (EdKey "0123456789abcdefFEDCBA9876543210")), 2%nat).
Proof. vm_compute. reflexivity. Qed.
